(* ===== verification/_CoqProject ===== *)
-Q . S2P
Prelude.v
Machine.v
Leb128.v
EncodedPtr.v
Regs.v
Arch.v
Rules.v
Cfi.v
CfiBounds.v
CfiSpec.v
Expr.v
ExprSpec.v
FdeCie.v
FdeCieSpec.v
FdeCieBounds.v
KModule.v
EhFrameHdr.v
EhFrameHdrSpec.v
HashTable.v
Cache.v
Step.v
Debug.v
StepSpec.v
SlowPathSpec.v
StepWf.v
WalkEnds.v
BacktraceSpec.v
UnwindSpec.v
Modules.v
DemoProcess.v
ModulesSpec.v
LoaderSpec.v
ProcFile.v
ProcFileSpec.v
ReportSpec.v
StackSpec.v
IoctlSpec.v
HistorySpec.v
UserLib.v
UserLibSpec.v
SessionSpec.v
