(* ===== verification/Prelude.v ===== *)
(** * KUnwind: a verification development (root file)

    KUnwind is a Linux kernel module that unwinds the user-space stack of a
    process with the DWARF tables of its executable and shared objects, and a user
    library that drives it through /proc/kunwind_debug. This library models its C
    code and proves what makes it correct.

    ** The program

    - The library (src/libkunwind/src) walks the objects of its process, describes
      them in a [struct proc_info] and gives it to the proc file with an ioctl;
      another ioctl asks for a backtrace.
    - The proc file (src/src/kunwind-debug.c) keeps a hash table from processes to
      their [struct kunwind_proc_modules].
    - The loader (src/src/modules.c, src/src/iterate_phdr.c) pins the pages of each
      object, maps them into the kernel and finds .eh_frame_hdr and .eh_frame.
    - The unwinder (src/src/unwind.c, src/src/unwind/unwind.h and x86_64.h) goes
      from a program counter to the FDE that covers it through the table of
      .eh_frame_hdr, parses the FDE and its CIE, runs their call frame
      instructions, and builds the frame of the caller, by a fast path whose result
      is cached or by a general one.

    ** The files, and the code they model

    The configuration is x86_64 with CONFIG_64BIT, without DEBUG_UNWIND except in
    [Debug].

    - [Prelude]: machine integers ([u8] ... [s64]: the width is restored where the
      code relies on it), the fallible computations [C] (a result, or a [crash]: a
      page fault, an undefined operation, an access out of bounds, no fuel left),
      tactics and the hint database [kunwind].
    - [Machine]: kernel memory and [_stp_read_address]; the class [Kernel].
    - [Leb128]: [get_uleb128], [get_sleb128] (unwind.c).
    - [EncodedPtr]: [read_ptr_sect], [read_pointer].
    - [Regs]: [struct unwind_frame_info], [reg_info], [FRAME_REG],
      [arch_unw_init_frame_info] (x86_64.h).
    - [Arch]: the register tables of i386, arm, arm64, ppc64 and s390x beside the
      one of x86_64, by the names of the registers, and the relation to [Regs].
    - [Rules]: [struct unwind_state] and the rule setters.
    - [Cfi], [CfiBounds], [CfiSpec]: [run_cfi_program], one definition per opcode;
      the bytes it reads and when it ends; its refinement of a DWARF machine.
    - [Expr], [ExprSpec]: [compute_expr] on its stack of eight slots, and its
      refinement of a machine on lists.
    - [FdeCie], [FdeCieSpec], [FdeCieBounds]: [check_fde], [cie_for_fde],
      [parse_fde_cie]; the round trip from the bytes of a CIE and an FDE; what is
      read on arbitrary bytes.
    - [KModule]: [struct kunwind_module] and [struct kunwind_proc_modules].
    - [EhFrameHdr], [EhFrameHdrSpec]: [_stp_search_fde], [eh_frame_from_hdr].
    - [HashTable]: the tables of hashtable.h, generic in the key and the hash.
    - [Cache]: the frame cache (modules.c), as a table with a queue of RCU
      callbacks; the class [FrameCache], which it implements and which the unwinder
      is proved against.
    - [Step]: [__unwind_frame], [unwind_frame], [unwind_full] and their helpers.
    - [Debug]: what DEBUG_UNWIND adds: names, dumps, the test of the cache.
    - [StepSpec], [SlowPathSpec], [StepWf], [WalkEnds], [BacktraceSpec],
      [UnwindSpec]: the two paths against the caller DWARF defines; well-formed
      frames; that a walk ends; what it stores; one step from the bytes of a module
      to the caller's frame.
    - [Modules]: the loader, over the class [Mm] (allocation, pinning, mapping,
      areas) and a monad [L] that records every resource that is held and stops
      when one is given back that is not.
    - [DemoProcess]: the layout of ELF headers, and a process for the examples.
    - [ModulesSpec], [LoaderSpec]: the resources of the loader over the life of a
      process; the module it makes of a well-formed object; what [iterate_phdr]
      and [add_module] find.
    - [ProcFile]: kunwind-debug.c over the state [world] (resources, table,
      allocated structures, open files, writes to user memory); a structure that
      was freed is absent from it, and using one is the outcome [UsesFreed].
    - [ProcFileSpec], [ReportSpec]: histories of events, each on the memory of its
      time, and the invariant over them; what the backtrace ioctl writes.
    - [StackSpec], [IoctlSpec], [HistorySpec]: the backtrace of a whole stack, from
      the bytes of the modules to the array, with any sound cache; to the memory of
      the process that asked; and in every state a history leads to.
    - [UserLib], [UserLibSpec]: find_proc_info.c and libkunwind.c over a heap of
      objects and the class [Libc]; what a description says of an object.
    - [SessionSpec]: the parts together: the objects the library finds, announced to
      the driver, loaded, and unwound.

    ** What the theorems show

    - The whole program: [session_backtrace], from the open of the file over the load
      of well-formed objects to the program counters in the memory of the process;
      [library_announces] gives its hypothesis on the objects from what the library
      does, when malloc leaves nothing in the two members the library does not set.
    - A whole backtrace: [backtrace_of_stack], and [ioctl_reports_stack] for what
      the process receives, in every history of the driver. [caches_always_sound] is
      the invariant of the caches behind it: they hold what the debug information
      says, whatever the processes do with the rest of their memory.
      [cached_frame_shifts_caller] is the case in which a cached frame changes the
      result.
    - From bytes to the caller: [unwind_frame_caller] composes the search
      ([stp_search_fde_finds]), the parser ([parse_fde_cie_encode]), the
      interpreter ([run_cfi_program_refines]) and the fast path
      ([fast_path_caller]); [init_module_ready] gives its hypothesis on the module
      from the loader.
    - The other paths: [slow_path_restores], [paths_agree], [cached_step_agrees].
    - The walk and its report: [unwind_full_walk], [backtrace_ioctl_reports].
    - Every backtrace ends: [unwind_full_terminates], over
      [stp_search_fde_terminates], [run_cfi_program_ends] and
      [compute_expr_terminates].
    - The driver shows nothing of the kernel: [driver_shows_user_words], over
      [backtrace_reports_user_words].
    - Invariants: [unwind_frame_wf], [unwind_full_keeps], [run_cfi_program_wf],
      [driver_safe], with [release_reopens]; safety on arbitrary bytes:
      [run_cfi_program_safe], [parse_fde_cie_safe], [leb128_bounds]; resources:
      [task_lifecycle], [proc_info_lifecycle], [unw_cache_test_restores].
    - Refinements and round trips: [cache_refines_map], [compute_expr_refines],
      [leb128_roundtrip], [read_ptr_sect_roundtrip],
      [handle_roundtrip]; agreement of the library and the kernel: [scans_agree].
    - What goes wrong, as theorems on the code as it is, among them
      [mismatch_freed_twice], [foreign_release_frees_other],
      [find_proc_info_gives_up], [slow_path_result], [stp_search_fde_below_table],
      [far_start_unbounded], [expression_length_wraps], [advance_loc4_overreads],
      [get_sleb128_five_bytes_wrong], [zero_return_address_fails].

    Bounds of these statements. The backtraces of a stack are for 64-bit tasks and
    frames with standard rows, the rows of the fast path: with any other row the
    general path gives 2 when the return address is undefined, 0 only for a caller
    that is the frame the walk started from, and -EIO otherwise
    ([slow_path_result]). What the interpreters are proved to compute leaves out
    what the code gets wrong, which has theorems of its own: advances by 0, signed
    LEB128 numbers of five bytes and more, expressions for registers outside the
    table, and the expression operations deref, over, pick, plus_uconst, not and
    neg; also deref_size, rot and backward jumps. The histories are those in which
    a file is released by the process that opened it and whose modules were live;
    [foreign_release_frees_other] and [mismatch_freed_twice] say
    what happens outside. Statements on resources are on runs that do not fault.

    ** Bounds and fuel

    - [LEB_FUEL] = 11 rounds: the tenth byte is the last that fits 64 bits; the
      next one shifts by more than the width, which is reported as undefined.
    - [CFI_FUEL] = 513 rounds: the code takes programs of [MAX_CFI] = 512 bytes;
      [far_start_unbounded] and [expression_length_wraps] are the ways around it.
    - [SEARCH_FUEL] = 33 rounds: the search halves a 32-bit count.
    - Expressions: one more round than the length of the expression, since every
      operation moves the cursor forward ([compute_expr_terminates]).
    - [eh_frame_loop] and the loader above it take the number of rounds as a
      parameter: the walk over the records of .eh_frame moves forward until a
      terminator or the end of the area. [eh_frame_from_hdr_extent] and
      [init_module_ready] need one more round than there are records.
    - [unwind_loop]: one more than [max_entries], which bounds the loop.
    - [find_proc_info]: two more than the number of objects.

    ** What is not modelled

    - The messages inside the functions of the other components than [Debug], which
      are empty in the configuration modelled.
    - The unwinder on other architectures: unwind.c and modules.h use
      [struct tdep_frame], [RBP] and [UNW_BP], which only x86_64.h defines, so
      that only the tables of the other headers are modelled ([arch_registers]).
    - Concurrency: an operation runs to its end before the next one starts; RCU
      readers on other processors are not there, and a grace period is immediate
      except for the queue of the cache.
    - Memory changes between the operations of the driver and not during one: the
      class [Kernel] is the memory of one operation, and a history gives each of its
      operations a memory of its own. What the theorems on caches ask of the changes
      is [tables_kept]: the unwind tables of the cached rules stay as they were.
      The blocks of cache entries are counted in [Cache], not among the resources
      of the loader.
    - The kernel and the C library are the classes [Kernel], [Mm], [Hash],
      [Driver] and [Libc]: their fields are the calls the code makes and their laws
      documented behaviour. The name of an object (vma_file_path) is only printed.
    - The layout of the structures of proc_info.h, which no code reads or writes by
      bytes: [decode_proc_info] is the one gcc gives them, for the copy of user
      memory that the code takes for a [struct proc_info].
    - src/src/kunwind.c, which prints two lines, the registration of the file
      operations, tests and build files. *)
From stdpp Require Export base tactics list gmap.
From Stdlib Require Export ZArith Lia.

#[global] Open Scope Z_scope.

(** ** Machine integers

    Every C integer is a [Z]; the width is restored explicitly where the code
    relies on it. [uN] is the conversion to an unsigned N-bit type and [sN] the
    conversion to a signed one, as gcc defines them for the kernel build. *)

Definition u8 (z : Z) : Z := z mod 2 ^ 8.
Definition u16 (z : Z) : Z := z mod 2 ^ 16.
Definition u32 (z : Z) : Z := z mod 2 ^ 32.
Definition u64 (z : Z) : Z := z mod 2 ^ 64.

Definition sign (w z : Z) : Z :=
  if z mod 2 ^ w <? 2 ^ (w - 1) then z mod 2 ^ w else z mod 2 ^ w - 2 ^ w.
Definition s8 (z : Z) : Z := sign 8 z.
Definition s16 (z : Z) : Z := sign 16 z.
Definition s32 (z : Z) : Z := sign 32 z.
Definition s64 (z : Z) : Z := sign 64 z.

(** ** Outcomes of a C computation

    [Ok] is normal completion. [Crash] is a computation the C code does not
    survive or for which C gives no meaning: a load from an unmapped kernel
    address, a divide error, a shift by at least the width of the operand, the
    use of an indeterminate value, an array index out of range, or two unsequenced
    changes of one object in an expression. [OutOfFuel]
    is an artefact of the model: it marks a loop that ran longer than the fuel
    it was given. *)

Inductive crash : Type :=
  | PageFault (addr : Z)
  | DivideError
  | UndefinedShift
  | Uninitialised
  | OutOfBounds
  | Unsequenced
  | OutOfFuel.

Inductive C (A : Type) : Type :=
  | Ok (a : A)
  | Crash (c : crash).
Arguments Ok {A} a.
Arguments Crash {A} c.

#[export] Instance C_ret : MRet C := fun A a => Ok a.
#[export] Instance C_bind : MBind C := fun A B f m =>
  match m with Ok a => f a | Crash c => Crash c end.

#[export] Instance crash_eq_dec : EqDecision crash.
Proof. solve_decision. Defined.

(** An outcome that is not a crash. *)
Definition runs {A} (m : C A) : Prop := exists a, m = Ok a.

(** Shifts. gcc gives a meaning to every operand, but not to a count that is
    negative or at least the width of the promoted left operand. *)
Definition shift_ok (w n : Z) : bool := (0 <=? n) && (n <? w).
Definition shl_u32 (a n : Z) : C Z :=
  if shift_ok 32 n then Ok (u32 (Z.shiftl a n)) else Crash UndefinedShift.
Definition shl_s32 (a n : Z) : C Z :=
  if shift_ok 32 n then Ok (s32 (Z.shiftl a n)) else Crash UndefinedShift.
Definition shl_u64 (a n : Z) : C Z :=
  if shift_ok 64 n then Ok (u64 (Z.shiftl a n)) else Crash UndefinedShift.
Definition shr_u64 (a n : Z) : C Z :=
  if shift_ok 64 n then Ok (u64 (Z.shiftr a n)) else Crash UndefinedShift.

Create HintDb kunwind.
Create Rewrite HintDb words.

Lemma bind_Ok {A B} (m : C A) (f : A -> C B) (b : B) :
  m ≫= f = Ok b -> exists a, m = Ok a /\ f a = Ok b.
Proof. destruct m; simpl; [eauto | discriminate]. Qed.

Lemma runs_Ok {A} (a : A) : runs (Ok a).
Proof. exists a. reflexivity. Qed.
#[export] Hint Resolve runs_Ok : kunwind.

Lemma runs_bind {A B} (m : C A) (f : A -> C B) :
  runs m -> (forall a, m = Ok a -> runs (f a)) -> runs (m ≫= f).
Proof. intros [a ->] H. apply H. reflexivity. Qed.

(** A computation whose loops were given enough fuel. *)
Definition terminates {A} (m : C A) : Prop := m <> Crash OutOfFuel.

Lemma terminates_Ok {A} (a : A) : terminates (Ok a).
Proof. discriminate. Qed.
#[export] Hint Resolve terminates_Ok : kunwind.

Lemma terminates_bind {A B} (m : C A) (f : A -> C B) :
  terminates m -> (forall a, m = Ok a -> terminates (f a)) -> terminates (m ≫= f).
Proof.
  intros Hm Hf. destruct m as [a|c]; simpl; [apply Hf; reflexivity|].
  intros [= ->]. apply Hm. reflexivity.
Qed.

(** Partial safety: a result satisfies [P], and the only crash is the undefined
    shift of an overlong LEB128 number. *)
Definition safe {A} (P : A -> Prop) (m : C A) : Prop :=
  match m with Ok a => P a | Crash c => c = UndefinedShift end.

Lemma safe_bind {A B} (P : A -> Prop) (Q : B -> Prop) (m : C A) (f : A -> C B) :
  safe P m -> (forall a, P a -> safe Q (f a)) -> safe Q (m ≫= f).
Proof. intros Hm Hf. destruct m; simpl in *; auto. Qed.

Lemma safe_mono {A} (P Q : A -> Prop) (m : C A) :
  safe P m -> (forall a, P a -> Q a) -> safe Q m.
Proof. destruct m; simpl; auto. Qed.

(** Destructs the binds of a computation that is known to complete. *)
Ltac c_inv :=
  repeat match goal with
  | H : _ ≫= _ = Ok _ |- _ =>
      let a := fresh "r" in let E := fresh "E" in
      apply bind_Ok in H as (a & E & H); cbv beta in H
  | H : mret _ = Ok _ |- _ => unfold mret, C_ret in H
  | H : Ok _ = Ok _ |- _ => injection H as H; subst
  | H : Crash _ = Ok _ |- _ => discriminate H
  | H : Ok _ = Crash _ |- _ => discriminate H
  | H : (_, _) = (_, _) |- _ => injection H as H; subst
  | p : (_ * _)%type |- _ => destruct p
  end.

(** ** Arithmetic automation *)

(** Linear arithmetic over the width conversions. *)
Ltac word_lia :=
  unfold s8, s16, s32, s64, sign, u8, u16, u32, u64 in *;
  repeat match goal with
  | |- context [Z.ltb ?a ?b] => destruct (Z.ltb_spec a b)
  | H : context [Z.ltb ?a ?b] |- _ => destruct (Z.ltb_spec a b)
  end;
  Z.div_mod_to_equations; lia.

(** Case split on the boolean comparisons of the goal. *)
Ltac zcase :=
  match goal with
  | |- context [Z.ltb ?a ?b] => destruct (Z.ltb_spec a b)
  | |- context [Z.leb ?a ?b] => destruct (Z.leb_spec a b)
  | |- context [Z.eqb ?a ?b] => destruct (Z.eqb_spec a b)
  | |- context [Z.gtb ?a ?b] => rewrite (Z.gtb_ltb a b)
  | |- context [Z.geb ?a ?b] => rewrite (Z.geb_leb a b)
  end.

Lemma u64_small z : 0 <= z < 2 ^ 64 -> u64 z = z.
Proof. apply Z.mod_small. Qed.

Lemma u64_range z : 0 <= u64 z < 2 ^ 64.
Proof. apply Z.mod_pos_bound. lia. Qed.

Lemma u32_range z : 0 <= u32 z < 2 ^ 32.
Proof. apply Z.mod_pos_bound. lia. Qed.

Lemma u8_range z : 0 <= u8 z < 256.
Proof. apply (Z.mod_pos_bound z (2 ^ 8)). lia. Qed.

Lemma s64_range z : - 2 ^ 63 <= s64 z < 2 ^ 63.
Proof. word_lia. Qed.

Lemma s64_small z : - 2 ^ 63 <= z < 2 ^ 63 -> s64 z = z.
Proof. word_lia. Qed.

Lemma u64_u64 z : u64 (u64 z) = u64 z.
Proof. apply Z.mod_mod. lia. Qed.

Lemma u64_s64 z : u64 (s64 z) = u64 z.
Proof. word_lia. Qed.

Lemma s64_u64 z : s64 (u64 z) = s64 z.
Proof. unfold s64, sign, u64. rewrite Z.mod_mod by lia. reflexivity. Qed.

Lemma s64_s64 z : s64 (s64 z) = s64 z.
Proof. rewrite <- (s64_u64 (s64 z)), u64_s64, s64_u64. reflexivity. Qed.

Lemma u64_add_l a b : u64 (u64 a + b) = u64 (a + b).
Proof. apply Zplus_mod_idemp_l. Qed.

Lemma u64_add_r a b : u64 (a + u64 b) = u64 (a + b).
Proof. apply Zplus_mod_idemp_r. Qed.

Lemma u64_mul_r a b : u64 (a * u64 b) = u64 (a * b).
Proof. apply Zmult_mod_idemp_r. Qed.

(** A 64-bit machine word. *)
Definition is_u64 (z : Z) : Prop := 0 <= z < 2 ^ 64.

Lemma is_u64_u64 z : is_u64 (u64 z).
Proof. apply u64_range. Qed.
#[export] Hint Resolve is_u64_u64 : kunwind.

#[export] Hint Rewrite u64_u64 u64_s64 s64_u64 s64_s64 u64_add_l u64_add_r u64_mul_r : words.
#[export] Hint Resolve u64_range u32_range u8_range s64_range : kunwind.

(** ** Bit-level lemmas *)

(** Setting high bits of a number that has only low bits is addition. *)
Lemma lor_shiftl_add a b k :
  0 <= k -> 0 <= a < 2 ^ k -> Z.lor a (Z.shiftl b k) = a + b * 2 ^ k.
Proof.
  intros Hk Ha. rewrite Z.shiftl_mul_pow2 by lia.
  rewrite <- Z.lxor_lor, <- Z.add_nocarry_lxor; try lia;
    apply Z.bits_inj'; intros n Hn; rewrite Z.land_spec, Z.bits_0;
    (destruct (Z.lt_ge_cases n k);
     [ rewrite (Z.mul_pow2_bits_low b) by lia; apply andb_false_r
     | rewrite <- (Z.mod_small a (2 ^ k)) by lia;
       rewrite Z.mod_pow2_bits_high by lia; reflexivity ]).
Qed.

(** Setting every bit from [k] upwards. *)
Lemma lor_opp_pow2 a k : 0 <= k -> Z.lor a (- 2 ^ k) = a mod 2 ^ k - 2 ^ k.
Proof.
  intros Hk.
  replace (- 2 ^ k) with (Z.lnot (Z.ones k)) by (rewrite Z.ones_equiv; unfold Z.lnot; lia).
  replace a with (Z.lnot (Z.lnot a)) at 1 by apply Z.lnot_involutive.
  rewrite <- Z.lnot_land, Z.land_ones by lia.
  unfold Z.lnot. assert (0 < 2 ^ k) by (apply Z.pow_pos_nonneg; lia).
  replace (Z.pred (- a)) with (- (a + 1)) by lia.
  pose proof (Z.mod_pos_bound a (2 ^ k)). pose proof (Z.mod_pos_bound (-(a+1)) (2 ^ k)).
  replace (- (a + 1)) with (2 ^ k - 1 - a mod 2 ^ k + (- 1 - a / 2 ^ k) * 2 ^ k)
    by (pose proof (Z.div_mod a (2 ^ k)); lia).
  rewrite Z.mod_add by lia. rewrite Z.mod_small by lia. lia.
Qed.

Lemma land_7f b : Z.land b 0x7f = b mod 128.
Proof. apply (Z.land_ones b 7). lia. Qed.

(** Facts about small numbers by evaluation. *)
Lemma below_forall (P : Z -> bool) (n : nat) :
  forallb (fun i => P (Z.of_nat i)) (seq 0 n) = true ->
  forall b, 0 <= b < Z.of_nat n -> P b = true.
Proof.
  rewrite forallb_forall. intros H b Hb.
  specialize (H (Z.to_nat b)). rewrite in_seq, Z2Nat.id in H by lia. apply H. lia.
Qed.

(** The top bit of a byte, as the code tests it. *)
Lemma land_80 b : 0 <= b < 256 -> (Z.land b 0x80 =? 0) = (b <? 128).
Proof.
  intros Hb. apply eqb_prop.
  apply (below_forall (fun b => eqb (Z.land b 0x80 =? 0) (b <? 128)) 256);
    [vm_compute; reflexivity | lia].
Qed.

(** The sign bit of a 7-bit group. *)
Lemma land_40 b : 0 <= b < 128 -> Z.land b 0x40 = if b <? 64 then 0 else 64.
Proof.
  intros Hb. apply Z.eqb_eq.
  apply (below_forall (fun b => Z.land b 0x40 =? if b <? 64 then 0 else 64) 128);
    [vm_compute; reflexivity | lia].
Qed.

Lemma lor_range w a b :
  0 <= w -> 0 <= a < 2 ^ w -> 0 <= b < 2 ^ w -> 0 <= Z.lor a b < 2 ^ w.
Proof.
  intros Hw Ha Hb.
  replace (Z.lor a b) with ((Z.lor a b) mod 2 ^ w);
    [apply Z.mod_pos_bound; lia|].
  rewrite <- Z.land_ones, Z.land_lor_distr_l, !Z.land_ones by lia.
  rewrite !Z.mod_small by lia. reflexivity.
Qed.

Lemma u64_lor a b : u64 (Z.lor a b) = Z.lor (u64 a) (u64 b).
Proof.
  unfold u64. rewrite <- !Z.land_ones by lia. apply Z.land_lor_distr_l.
Qed.
