(* ===== verification/Machine.v ===== *)
(** * The machine under the unwinder

    Kernel memory, the checked access to user memory ([_stp_read_address] of
    src/src/unwind/unwind.h) and the sections mapped by the module loader. The
    kernel itself is not part of the repository: what the code uses of it is
    the class [Kernel], an argument of every definition that needs it. *)
From S2P Require Import Prelude.

(** [mm_segment_t]: the two address-space limits the code switches between. *)
Inductive segment : Type := USER_DS | KERNEL_DS.

(** The kernel services the unwinder calls. Any functions are allowed: values
    are brought to the width of the C type where they are used, so that the
    class needs no laws. Memory does not change while the unwinder runs. *)
Class Kernel : Type := {
  kread : Z -> option Z;                    (* byte at a mapped kernel address *)
  access_ok : segment -> Z -> Z -> bool;    (* access_ok(VERIFY_READ, addr, size) *)
  get_user : Z -> Z -> option Z;            (* __get_user of [size] bytes at addr *)
  kabs : Z -> Z                             (* the abs() macro of the kernel *)
}.

Section memory.
Context `{K : Kernel}.

(** ** Loads through kernel pointers, little endian *)

Definition load8 (a : Z) : C Z :=
  match kread a with
  | Some b => Ok (u8 b)
  | None => Crash (PageFault a)
  end.

Fixpoint load (n : nat) (a : Z) : C Z :=
  match n with
  | O => Ok 0
  | S n => b ← load8 a; r ← load n (u64 (a + 1)); Ok (b + 256 * r)
  end.

(** [_stp_read_address(x, ptr, segment)]: [size_x] is [sizeof(x)], checked by
    [access_ok]; [size_p] is the size of the object [ptr] points to, which is
    what [__get_user] reads. [None] is [-EFAULT]. *)
Definition _stp_read_address (size_x size_p ptr : Z) (seg : segment) : option Z :=
  if access_ok seg ptr size_x
  then match get_user size_p ptr with
       | Some v => Some (v mod 2 ^ (8 * size_p))
       | None => None
       end
  else None.

(** ** Mapped ranges and bytes laid out in memory *)

Definition mapped (lo hi : Z) : Prop :=
  0 <= lo /\ hi <= 2 ^ 64 /\ forall a, lo <= a < hi -> exists b, kread a = Some b.

Definition bytes_at (p : Z) (l : list Z) : Prop :=
  0 <= p /\ p + Z.of_nat (length l) <= 2 ^ 64 /\
  forall i b, l !! i = Some b -> load8 (p + Z.of_nat i) = Ok b.

Lemma load8_runs lo hi a : mapped lo hi -> lo <= a < hi -> runs (load8 a).
Proof.
  intros (_ & _ & H) Ha. destruct (H a Ha) as [b E].
  unfold load8. rewrite E. auto with kunwind.
Qed.

Lemma load8_range a b : load8 a = Ok b -> 0 <= b < 256.
Proof.
  unfold load8. destruct (kread a); intros E; [|discriminate].
  injection E as <-. apply u8_range.
Qed.

Lemma load_runs n lo hi a :
  mapped lo hi -> lo <= a -> a + Z.of_nat n <= hi -> runs (load n a).
Proof.
  intros M. revert a. induction n as [|n IH]; intros a Hlo Hhi; simpl.
  - auto with kunwind.
  - apply runs_bind; [eapply load8_runs; [exact M|lia]|]. intros b _.
    apply runs_bind; [|intros; auto with kunwind].
    destruct n; [simpl; auto with kunwind|].
    destruct M as (M0 & M1 & M2).
    rewrite u64_small by lia. apply IH; lia.
Qed.

Lemma load_range n a v : load n a = Ok v -> 0 <= v < 2 ^ (8 * Z.of_nat n).
Proof.
  revert a v. induction n as [|n IH]; simpl; intros a v H.
  - c_inv. simpl. lia.
  - c_inv. apply load8_range in E. apply IH in E0.
    replace (8 * Z.of_nat (S n)) with (8 + 8 * Z.of_nat n) by lia.
    rewrite Z.pow_add_r by lia. lia.
Qed.

(** A load that does not complete is a page fault. *)
Lemma load_crash n a c : load n a = Crash c -> exists b, c = PageFault b.
Proof.
  revert a. induction n as [|n IH]; simpl; intros a; [discriminate|].
  unfold load8. destruct (kread a); simpl; [|intros [= <-]; eauto].
  destruct (load n _) eqn:E; simpl; [discriminate|].
  intros [= <-]. eapply IH, E.
Qed.

(** The address of the fault: a byte of the load that is not mapped. *)
Lemma load_crash_at n a c : 0 <= a -> a + Z.of_nat n <= 2 ^ 64 -> load n a = Crash c ->
  exists b, c = PageFault b /\ a <= b < a + Z.of_nat n /\ kread b = None.
Proof.
  revert a. induction n as [|n IH]; simpl load; intros a Ha Hn E; [discriminate|].
  unfold load8 in E. destruct (kread a) eqn:Ea; simpl in E.
  - destruct (load n _) eqn:El; simpl in E; [discriminate|]. injection E as ->.
    destruct n; [discriminate|]. rewrite u64_small in El by lia.
    apply IH in El as (b & -> & Hb & Hk); [|lia|lia]. exists b. split; [reflexivity|]. split; [lia|exact Hk].
  - injection E as <-. exists a. split; [reflexivity|]. split; [lia|exact Ea].
Qed.

Lemma load8_terminates a : terminates (load8 a).
Proof. unfold load8. destruct (kread a); discriminate. Qed.

Lemma load_terminates n a : terminates (load n a).
Proof. intros E. apply load_crash in E as [b E]. discriminate. Qed.

Lemma bytes_at_app p l1 l2 :
  bytes_at p (l1 ++ l2) <-> bytes_at p l1 /\ bytes_at (p + Z.of_nat (length l1)) l2.
Proof.
  unfold bytes_at. rewrite length_app. split.
  - intros (Hp & Hl & H). repeat split; try lia; intros i b Hi.
    + apply H. by apply lookup_app_l_Some.
    + replace (p + Z.of_nat (length l1) + Z.of_nat i)
        with (p + Z.of_nat (length l1 + i)) by lia.
      apply H. rewrite lookup_app_r by lia.
      replace (length l1 + i - length l1)%nat with i by lia. exact Hi.
  - intros [(Hp & Hl1 & H1) (_ & Hl2 & H2)]. repeat split; try lia.
    intros i b Hi. apply lookup_app_Some in Hi as [Hi|[Hge Hi]]; [auto|].
    replace (p + Z.of_nat i)
      with (p + Z.of_nat (length l1) + Z.of_nat (i - length l1)) by lia.
    auto.
Qed.

Lemma bytes_at_cons p b l :
  bytes_at p (b :: l) <-> load8 p = Ok b /\ 0 <= p < 2 ^ 64 /\ bytes_at (p + 1) l.
Proof.
  change (b :: l) with ([b] ++ l). rewrite bytes_at_app. simpl.
  change (Z.of_nat 1) with 1. unfold bytes_at. simpl. split.
  - intros [(Hp & Hl & H1) H2]. split_and!; try lia; try apply H2.
    specialize (H1 0%nat b eq_refl). rewrite Z.add_0_r in H1. exact H1.
  - intros (H1 & Hp & H2). split_and!; try lia; try apply H2.
    intros [|i] c; simpl; [intros [= ->]; rewrite Z.add_0_r; exact H1|discriminate].
Qed.

Lemma bytes_at_nil p : 0 <= p <= 2 ^ 64 -> bytes_at p [].
Proof. intros Hp. repeat split; simpl; try lia; discriminate. Qed.

End memory.

#[export] Hint Resolve load8_terminates load_terminates : kunwind.

(** The same kernel with another memory, and the memory of which only the range
    from [lo] up to [hi] is mapped. *)
Definition with_memory (K : Kernel) (r : Z -> option Z) : Kernel := {|
  kread := r;
  access_ok := access_ok;
  get_user := get_user;
  kabs := kabs
|}.

Definition inside `{K : Kernel} (lo hi a : Z) : option Z :=
  if (lo <=? a) && (a <? hi) then kread a else None.

Lemma inside_at `{K : Kernel} lo hi a : lo <= a < hi -> inside lo hi a = kread a.
Proof. intros Ha. unfold inside. destruct (Z.leb_spec lo a), (Z.ltb_spec a hi); reflexivity || lia. Qed.

Lemma inside_Some `{K : Kernel} lo hi a b : inside lo hi a = Some b -> lo <= a < hi /\ kread a = Some b.
Proof. unfold inside. destruct (Z.leb_spec lo a), (Z.ltb_spec a hi); simpl; try discriminate. auto with lia. Qed.

Lemma mapped_inside `{K : Kernel} lo hi : mapped lo hi -> mapped (K := with_memory K (inside lo hi)) lo hi.
Proof.
  intros (H0 & H1 & H). split_and!; [exact H0|exact H1|]. intros a Ha. cbn [kread with_memory].
  rewrite inside_at by exact Ha. apply H, Ha.
Qed.

(** The little-endian layout of an integer, the reference the loads are
    compared with. *)
Fixpoint le_bytes (n : nat) (z : Z) : list Z :=
  match n with
  | O => []
  | S n => z mod 256 :: le_bytes n (z / 256)
  end.

Lemma length_le_bytes n z : length (le_bytes n z) = n.
Proof. revert z. induction n; simpl; auto. Qed.

Lemma load_le_bytes `{K : Kernel} n p z :
  bytes_at p (le_bytes n z) -> load n p = Ok (z mod 2 ^ (8 * Z.of_nat n)).
Proof.
  revert p z. induction n as [|n IH]; intros p z H.
  - simpl. rewrite Z.mod_1_r. reflexivity.
  - simpl in H. apply bytes_at_cons in H as (Hb & Hp & H). simpl load.
    rewrite Hb. simpl.
    replace (load n (u64 (p + 1))) with (@Ok Z ((z / 256) mod 2 ^ (8 * Z.of_nat n))).
    + simpl. f_equal.
      replace (8 * Z.of_nat (S n)) with (8 + 8 * Z.of_nat n) by lia.
      rewrite Z.pow_add_r by lia. change (2 ^ 8) with 256.
      rewrite Z.rem_mul_r by lia. lia.
    + destruct n; [simpl; rewrite Z.mod_1_r; reflexivity|].
      assert (p + 1 < 2 ^ 64) by (destruct H as (_ & H & _); simpl in H; lia).
      rewrite u64_small by lia. symmetry. apply IH, H.
Qed.

#[export] Hint Rewrite length_le_bytes : words.

(** The integer a list of bytes stands for, little endian. *)
Fixpoint le_value (l : list Z) : Z :=
  match l with [] => 0 | b :: l => b + 256 * le_value l end.

Lemma le_value_le_bytes n z : le_value (le_bytes n z) = z mod 2 ^ (8 * Z.of_nat n).
Proof.
  revert z. induction n as [|n IH]; intros z; simpl; [rewrite Z.mod_1_r; reflexivity|].
  rewrite IH. replace (8 * Z.of_nat (S n)) with (8 + 8 * Z.of_nat n) by lia.
  rewrite Z.pow_add_r by lia. change (2 ^ 8) with 256. rewrite Z.rem_mul_r by lia. lia.
Qed.

(** The [n] bytes of [l] at offset [k] as an integer. *)
Definition field (n k : nat) (l : list Z) : Z := le_value (take n (drop k l)).

Lemma load_field `{K : Kernel} n k p l :
  bytes_at p l -> (k + n <= length l)%nat -> load n (u64 (p + Z.of_nat k)) = Ok (field n k l).
Proof.
  unfold field. revert k. induction n as [|n IH]; intros k H Hn; [reflexivity|].
  destruct (lookup_lt_is_Some_2 l k) as [b E]; [lia|]. rewrite (drop_S l b k E). cbn [take le_value load].
  pose proof H as (Hp & Hl & Hb). rewrite (u64_small (p + _)) by lia. rewrite (Hb k b E). cbn [mbind C_bind].
  replace (p + Z.of_nat k + 1) with (p + Z.of_nat (S k)) by lia. rewrite IH by (assumption || lia). reflexivity.
Qed.

(** A field of a layout given piece by piece. *)
Lemma field_here n z l : field n 0 (le_bytes n z ++ l) = z mod 2 ^ (8 * Z.of_nat n).
Proof.
  unfold field. rewrite drop_0, take_app_length' by (rewrite length_le_bytes; reflexivity). apply le_value_le_bytes.
Qed.

Lemma field_skip n k l l' : (length l <= k)%nat -> field n k (l ++ l') = field n (k - length l) l'.
Proof. intros H. unfold field. rewrite drop_app_ge by exact H. reflexivity. Qed.

(** ** [struct section] (src/src/unwind/unwind.h) *)

Record section : Type := mk_section {
  sec_offset : Z;   (* offset from vma start *)
  sec_ubuf : Z;     (* original virtual address of the section *)
  sec_kbuf : Z;     (* accessible buffer mapped in kernel *)
  sec_size : Z      (* uint32_t buffer size in bytes *)
}.

(** ** Error numbers *)

Definition EIO : Z := 5.
Definition ENOMEM : Z := 12.
Definition EFAULT : Z := 14.
Definition EBUSY : Z := 16.
Definition EINVAL : Z := 22.

(** ** Concrete memories

    A kernel whose memory is a list of images, each a base address and the
    bytes mapped there; [umap] are the images of user memory. They instantiate
    the class in the examples and witnesses of the development. *)

Fixpoint image_read (maps : list (Z * list Z)) (a : Z) : option Z :=
  match maps with
  | [] => None
  | (base, bytes) :: maps =>
    if (base <=? a) && (a <? base + Z.of_nat (length bytes))
    then bytes !! Z.to_nat (a - base)
    else image_read maps a
  end.

Fixpoint image_get (maps : list (Z * list Z)) (n : nat) (a : Z) : option Z :=
  match n with
  | O => Some 0
  | S n => b ← image_read maps a; r ← image_get maps n (a + 1); Some (b + 256 * r)
  end.

Definition image_kernel (kmap umap : list (Z * list Z)) : Kernel := {|
  kread := image_read kmap;
  access_ok := fun _ a n => (0 <=? a) && (a + n <=? 2 ^ 47);
  get_user := fun n a => image_get umap (Z.to_nat n) a;
  kabs := fun v => Z.abs (s64 v)
|}.

Definition is_byte (b : Z) : bool := (0 <=? b) && (b <? 256).

Fixpoint bytes_atb {K : Kernel} (p : Z) (l : list Z) : bool :=
  match l with
  | [] => (0 <=? p) && (p <=? 2 ^ 64)
  | b :: l => (0 <=? p) && (p <? 2 ^ 64) && bytes_atb (p + 1) l &&
      match load8 p with Ok c => c =? b | Crash _ => false end
  end.

Lemma bytes_atb_true {K : Kernel} p l : bytes_atb p l = true -> bytes_at p l.
Proof.
  revert p. induction l as [|b l IH]; simpl; intros p H.
  - apply bytes_at_nil. lia.
  - apply andb_true_iff in H as [H Hb]. apply andb_true_iff in H as [H Hl].
    destruct (load8 p) eqn:E; [|discriminate].
    apply bytes_at_cons. apply Z.eqb_eq in Hb as <-. split_and!; auto; lia.
Qed.

Definition mappedb {K : Kernel} (lo : Z) (n : nat) : bool :=
  (0 <=? lo) && (lo + Z.of_nat n <=? 2 ^ 64) &&
  forallb (fun i => bool_decide (is_Some (kread (lo + Z.of_nat i)))) (seq 0 n).

Lemma mappedb_true {K : Kernel} lo n hi :
  mappedb lo n = true -> hi = lo + Z.of_nat n -> mapped lo hi.
Proof.
  intros H ->. apply andb_true_iff in H as [H Hf]. rewrite forallb_forall in Hf.
  repeat split; try lia. intros a Ha.
  specialize (Hf (Z.to_nat (a - lo))). rewrite in_seq in Hf.
  specialize (Hf ltac:(lia)). apply bool_decide_eq_true in Hf.
  replace (lo + Z.of_nat (Z.to_nat (a - lo))) with a in Hf by lia.
  destruct Hf as [b Hb]. eauto.
Qed.

(** The last page of the address space is the range of error pointers: no
    object ends there, so adding a small offset to an address below it does
    not wrap around. *)
Definition ptr_limit : Z := 2 ^ 64 - 4096.
