(* ===== verification/Leb128.v ===== *)
(** * LEB128 decoding

    [get_uleb128] and [get_sleb128] of src/src/unwind.c, the reference encoders
    they are compared with, and the range in which the comparison succeeds. *)
From S2P Require Import Prelude Machine.

Section decode.
Context `{K : Kernel}.

(** The test [shift + 7 > 8 * sizeof(value) && (b & 0x7f) >= (1U << (64 - shift))]
    shared by the two decoders. [8 * sizeof(value) - shift] is a [size_t]. *)
Definition leb128_overflows (b shift : Z) : C bool :=
  if 64 <? shift + 7
  then lim ← shl_u32 1 (u64 (64 - shift)); Ok (lim <=? Z.land b 0x7f)
  else Ok false.

(** Each round consumes a byte and adds 7 to [shift]; the eleventh would shift
    by 70, so eleven rounds of fuel are never used up. *)
Definition LEB_FUEL : nat := 11.

Fixpoint get_uleb128_loop (fuel : nat) (cur end_ value shift : Z) : C (Z * Z) :=
  match fuel with
  | O => Crash OutOfFuel
  | S fuel =>
    if cur <? end_ then
      b ← load8 cur;
      over ← leb128_overflows b shift;
      if (over : bool) then Ok (value, u64 (end_ + 1))
      else
        v ← shl_u64 (Z.land b 0x7f) shift;
        let value := Z.lor value v in
        let cur := u64 (cur + 1) in
        if Z.land b 0x80 =? 0 then Ok (value, cur)
        else get_uleb128_loop fuel cur end_ value (shift + 7)
    else Ok (value, cur)
  end.

(** Returns the value and the new [*pcur]. *)
Definition get_uleb128 (pcur end_ : Z) : C (Z * Z) :=
  get_uleb128_loop LEB_FUEL pcur end_ 0 0.

(** [value] is kept as the 64-bit pattern of the signed [sleb128_t]. The sign
    is or-ed in as [-(cur_val & 0x40) << shift], an expression of type [int]. *)
Fixpoint get_sleb128_loop (fuel : nat) (cur end_ value shift : Z) : C (Z * Z) :=
  match fuel with
  | O => Crash OutOfFuel
  | S fuel =>
    if cur <? end_ then
      cur_val ← load8 cur;
      let cur := u64 (cur + 1) in
      over ← leb128_overflows cur_val shift;
      if (over : bool) then Ok (value, u64 (end_ + 1))
      else
        v ← shl_u64 (Z.land cur_val 0x7f) shift;
        let value := Z.lor value v in
        if Z.land cur_val 0x80 =? 0 then
          ext ← shl_s32 (- Z.land cur_val 0x40) shift;
          Ok (Z.lor value (u64 ext), cur)
        else get_sleb128_loop fuel cur end_ value (shift + 7)
    else Ok (value, cur)
  end.

Definition get_sleb128 (pcur end_ : Z) : C (Z * Z) :=
  '(value, cur) ← get_sleb128_loop LEB_FUEL pcur end_ 0 0; Ok (s64 value, cur).

End decode.

Arguments get_uleb128 {K} : simpl never.
Arguments get_sleb128 {K} : simpl never.

(** ** Reference encoders (DWARF 4, section 7.6) *)

Fixpoint uleb_enc (fuel : nat) (v : Z) : list Z :=
  match fuel with
  | O => []
  | S fuel => if v <? 128 then [v] else 128 + v mod 128 :: uleb_enc fuel (v / 128)
  end.
Definition uleb_encode (v : Z) : list Z := uleb_enc 10 v.

Fixpoint sleb_enc (fuel : nat) (v : Z) : list Z :=
  match fuel with
  | O => []
  | S fuel =>
    if (-64 <=? v) && (v <? 64) then [v mod 128]
    else 128 + v mod 128 :: sleb_enc fuel (v / 128)
  end.
Definition sleb_encode (v : Z) : list Z := sleb_enc 10 v.

Arguments uleb_encode : simpl never.
Arguments sleb_encode : simpl never.

Lemma leb_shift_cases (s : Z) (P : Prop) :
  (s = 63 -> P) -> (0 <= s < 58 -> P) -> (exists k, s = 7 * k) -> 0 <= s < 64 -> P.
Proof. intros A B [k ->] Hs. destruct (Z.lt_ge_cases (7 * k) 58); [apply B | apply A]; lia. Qed.

Section properties.
Context `{K : Kernel}.

Lemma leb128_overflows_fits b shift :
  (exists k, shift = 7 * k) -> 0 <= shift < 64 -> (b mod 128) * 2 ^ shift < 2 ^ 64 ->
  leb128_overflows b shift = Ok false.
Proof.
  intros Hk Hs Hfit. unfold leb128_overflows.
  apply (leb_shift_cases shift); try assumption; intros Hc.
  - subst shift. change (64 <? 63 + 7) with true. cbv iota.
    change (shl_u32 1 (u64 (64 - 63))) with (@Ok Z 2). simpl. rewrite land_7f.
    destruct (Z.leb_spec 2 (b mod 128)); [lia|reflexivity].
  - destruct (Z.ltb_spec 64 (shift + 7)); [lia|reflexivity].
Qed.

(** One round of the unsigned decoder on a group that fits. *)
Lemma get_uleb128_loop_step fuel cur end_ value shift b :
  load8 cur = Ok b -> 0 <= cur < end_ -> end_ < 2 ^ 64 ->
  (exists k, shift = 7 * k) -> 0 <= shift < 64 -> 0 <= value < 2 ^ shift ->
  (b mod 128) * 2 ^ shift < 2 ^ 64 ->
  get_uleb128_loop (S fuel) cur end_ value shift =
  if b <? 128 then Ok (value + (b mod 128) * 2 ^ shift, cur + 1)
  else get_uleb128_loop fuel (cur + 1) end_ (value + (b mod 128) * 2 ^ shift) (shift + 7).
Proof.
  intros Hb Hcur Hend Hk Hs Hv Hfit. simpl.
  destruct (Z.ltb_spec cur end_); [|lia].
  rewrite Hb. simpl. rewrite leb128_overflows_fits by assumption. simpl.
  unfold shl_u64, shift_ok.
  destruct (Z.leb_spec 0 shift); [|lia]. destruct (Z.ltb_spec shift 64); [|lia]. simpl.
  apply load8_range in Hb as Hbr. rewrite land_80, land_7f by assumption.
  assert (0 <= b mod 128) by (apply Z.mod_pos_bound; lia).
  assert (0 < 2 ^ shift) by lia.
  rewrite (u64_small (Z.shiftl _ _)) by (rewrite Z.shiftl_mul_pow2 by lia; nia).
  rewrite lor_shiftl_add, (u64_small (cur + 1)) by lia. reflexivity.
Qed.

Lemma continuation_group v : (128 + v mod 128) mod 128 = v mod 128.
Proof. Z.div_mod_to_equations. lia. Qed.

Lemma uleb_loop_enc n : forall fuel cur end_ value shift v,
  (n <= fuel)%nat -> bytes_at cur (uleb_enc n v) ->
  cur + Z.of_nat (length (uleb_enc n v)) <= end_ -> end_ < 2 ^ 64 ->
  (exists k, shift = 7 * k) -> 0 <= shift -> 0 <= value < 2 ^ shift ->
  0 <= v < 2 ^ (7 * Z.of_nat n) -> v * 2 ^ shift < 2 ^ 64 ->
  shift + 7 * Z.of_nat n <= 70 -> (1 <= n)%nat ->
  get_uleb128_loop fuel cur end_ value shift =
    Ok (value + v * 2 ^ shift, cur + Z.of_nat (length (uleb_enc n v))).
Proof.
  induction n as [|n IH]; [lia|].
  intros [|fuel] cur end_ value shift v Hf Hb Hlen Hend Hk Hs Hv Hvn Hfit Hsn _; [lia|].
  assert (0 < 2 ^ shift) by lia.
  simpl uleb_enc in *. destruct (Z.ltb_spec v 128).
  - simpl in Hlen. apply bytes_at_cons in Hb as (Hb & Hp & _).
    rewrite (get_uleb128_loop_step _ _ _ _ _ v)
      by (rewrite ?Z.mod_small by lia; assumption || lia).
    rewrite Z.mod_small by lia. destruct (Z.ltb_spec v 128); [reflexivity|lia].
  - simpl in Hlen. apply bytes_at_cons in Hb as (Hb & Hp & Hb').
    assert (0 <= v mod 128 < 128) by (apply Z.mod_pos_bound; lia).
    pose proof (Z.div_mod v 128 ltac:(lia)) as Hdm.
    assert (n <> 0)%nat by (intros ->; simpl in Hvn; lia).
    replace (7 * Z.of_nat (S n)) with (7 + 7 * Z.of_nat n) in Hvn by lia.
    rewrite Z.pow_add_r in Hvn by lia. change (2 ^ 7) with 128 in Hvn.
    assert (Hs7 : 2 ^ (shift + 7) = 128 * 2 ^ shift)
      by (rewrite Z.pow_add_r by lia; change (2 ^ 7) with 128; lia).
    pose proof (continuation_group v) as E.
    rewrite (get_uleb128_loop_step _ _ _ _ _ (128 + v mod 128));
      rewrite ?E; try assumption; try lia; try nia.
    destruct (Z.ltb_spec (128 + v mod 128) 128); [lia|].
    rewrite IH with (v := v / 128); rewrite ?Hs7; try assumption; try lia; try nia.
    + f_equal. f_equal; [nia|]. simpl length. lia.
    + destruct Hk as [k ->]. exists (k + 1). lia.
Qed.

(** decoding the reference encoding of any 64-bit value returns the value
    and leaves the cursor after its last byte, whatever follows. *)
Theorem get_uleb128_encode pcur end_ v :
  0 <= v < 2 ^ 64 -> bytes_at pcur (uleb_encode v) ->
  pcur + Z.of_nat (length (uleb_encode v)) <= end_ -> end_ < 2 ^ 64 ->
  get_uleb128 pcur end_ = Ok (v, pcur + Z.of_nat (length (uleb_encode v))).
Proof.
  intros Hv Hb Hlen Hend. unfold get_uleb128.
  rewrite (uleb_loop_enc 10) with (v := v); try assumption; try lia; try (unfold LEB_FUEL; lia).
  - f_equal. f_equal. lia.
  - exists 0. lia.
Qed.

(** ** Bounds: what a decoder can do to the cursor *)

(** The cursor after decoding from [cur] with limit [end_]: inside the data and
    past at least one byte, or [end_ + 1], the mark of an overlong number. *)
Definition leb_cursor (cur end_ cur' : Z) : Prop :=
  cur <= cur' <= end_ /\ (cur < end_ -> cur < cur') \/ cur < end_ /\ cur' = u64 (end_ + 1).

Definition leb_outcome (cur end_ lo hi : Z) (m : C (Z * Z)) : Prop :=
  match m with
  | Ok (v, cur') => lo <= v < hi /\ leb_cursor cur end_ cur'
  | Crash c => c = UndefinedShift
  end.

Lemma leb_outcome_step cur end_ lo hi m :
  cur < end_ -> leb_outcome (cur + 1) end_ lo hi m -> leb_outcome cur end_ lo hi m.
Proof. unfold leb_outcome, leb_cursor. destruct m as [[v c]|]; [|auto]. lia. Qed.

Lemma leb128_overflows_cases b shift :
  (exists o, leb128_overflows b shift = Ok o) \/ leb128_overflows b shift = Crash UndefinedShift.
Proof.
  unfold leb128_overflows, shl_u32. destruct (_ <? _); [|eauto].
  destruct (shift_ok _ _); simpl; eauto.
Qed.

Lemma shl_u64_cases a n :
  (exists v, shl_u64 a n = Ok v /\ 0 <= v < 2 ^ 64) \/ shl_u64 a n = Crash UndefinedShift.
Proof. unfold shl_u64. destruct (shift_ok _ _); eauto using u64_range. Qed.

(** After ten groups the next round stops the decoder, so fuel is not used up. *)
Lemma leb128_overflows_late b shift :
  70 <= shift < 128 -> leb128_overflows b shift = Crash UndefinedShift.
Proof.
  intros Hs. unfold leb128_overflows, shl_u32, shift_ok.
  destruct (Z.ltb_spec 64 (shift + 7)); [|lia].
  replace (u64 (64 - shift)) with (2 ^ 64 + 64 - shift) by word_lia.
  destruct (Z.leb_spec 0 (2 ^ 64 + 64 - shift)), (Z.ltb_spec (2 ^ 64 + 64 - shift) 32);
    simpl; try lia; reflexivity.
Qed.

Lemma get_uleb128_loop_outcome fuel : forall cur end_ value shift,
  mapped cur end_ -> end_ < 2 ^ 64 -> cur <= end_ -> 0 <= value < 2 ^ 64 ->
  shift = 7 * (11 - Z.of_nat fuel) -> (1 <= fuel <= 11)%nat ->
  leb_outcome cur end_ 0 (2 ^ 64) (get_uleb128_loop fuel cur end_ value shift).
Proof.
  induction fuel as [|fuel IH]; intros cur end_ value shift M Hend Hcur Hv Hs Hf; [lia|].
  simpl. destruct (Z.ltb_spec cur end_) as [Hlt|]; [|simpl; unfold leb_cursor; lia].
  destruct (load8_runs cur end_ cur M ltac:(lia)) as [b Hb]. rewrite Hb. simpl.
  destruct (decide (fuel = 0%nat)) as [->|Hfuel].
  { rewrite leb128_overflows_late by lia. reflexivity. }
  destruct (leb128_overflows_cases b shift) as [[o ->]| ->]; [|reflexivity]. simpl.
  destruct o; [simpl; unfold leb_cursor; auto|].
  destruct (shl_u64_cases (Z.land b 0x7f) shift) as [[v [-> Hvr]]| ->]; [|reflexivity]. simpl.
  pose proof (lor_range 64 value v ltac:(lia) Hv Hvr).
  destruct M as (M0 & M1 & M2). rewrite (u64_small (cur + 1)) by lia.
  destruct (_ =? 0); [simpl; unfold leb_cursor; lia|].
  apply leb_outcome_step; [lia|].
  apply IH; try lia. repeat split; try lia. intros a Ha. apply M2. lia.
Qed.

Lemma get_sleb128_loop_outcome fuel : forall cur end_ value shift,
  mapped cur end_ -> end_ < 2 ^ 64 -> cur <= end_ -> 0 <= value < 2 ^ 64 ->
  shift = 7 * (11 - Z.of_nat fuel) -> (1 <= fuel <= 11)%nat ->
  leb_outcome cur end_ 0 (2 ^ 64) (get_sleb128_loop fuel cur end_ value shift).
Proof.
  induction fuel as [|fuel IH]; intros cur end_ value shift M Hend Hcur Hv Hs Hf; [lia|].
  simpl. destruct (Z.ltb_spec cur end_) as [Hlt|]; [|simpl; unfold leb_cursor; lia].
  destruct (load8_runs cur end_ cur M ltac:(lia)) as [b Hb]. rewrite Hb. simpl.
  destruct (decide (fuel = 0%nat)) as [->|Hfuel].
  { rewrite leb128_overflows_late by lia. reflexivity. }
  destruct (leb128_overflows_cases b shift) as [[o ->]| ->]; [|reflexivity]. simpl.
  destruct o; [simpl; unfold leb_cursor; auto|].
  destruct (shl_u64_cases (Z.land b 0x7f) shift) as [[v [-> Hvr]]| ->]; [|reflexivity]. simpl.
  pose proof (lor_range 64 value v ltac:(lia) Hv Hvr).
  destruct M as (M0 & M1 & M2). rewrite (u64_small (cur + 1)) by lia.
  destruct (_ =? 0).
  - unfold shl_s32. destruct (shift_ok _ _); simpl; [|reflexivity].
    unfold leb_cursor. split; [|lia]. apply lor_range; try lia. apply u64_range.
  - apply leb_outcome_step; [lia|].
    apply IH; try lia. repeat split; try lia. intros a Ha. apply M2. lia.
Qed.

(** *)
Theorem get_uleb128_bounds pcur end_ :
  mapped pcur end_ -> end_ < 2 ^ 64 -> pcur <= end_ ->
  leb_outcome pcur end_ 0 (2 ^ 64) (get_uleb128 pcur end_).
Proof. intros. apply get_uleb128_loop_outcome; unfold LEB_FUEL; lia || assumption. Qed.

Theorem get_sleb128_bounds pcur end_ :
  mapped pcur end_ -> end_ < 2 ^ 64 -> pcur <= end_ ->
  leb_outcome pcur end_ (- 2 ^ 63) (2 ^ 63) (get_sleb128 pcur end_).
Proof.
  intros M He Hp. unfold get_sleb128.
  pose proof (get_sleb128_loop_outcome LEB_FUEL pcur end_ 0 0 M He Hp) as H.
  destruct (get_sleb128_loop _ _ _ _ _) as [[v c]|]; simpl in *.
  - split; [apply s64_range|]. apply H; unfold LEB_FUEL; lia.
  - apply H; unfold LEB_FUEL; lia.
Qed.

(** ** The signed decoder *)

Lemma sign_extension v shift :
  (exists k, shift = 7 * k) -> 0 <= shift <= 21 -> -64 <= v < 64 ->
  shl_s32 (- Z.land (v mod 128) 0x40) shift = Ok (if v <? 0 then - 2 ^ (shift + 6) else 0).
Proof.
  intros [k ->] Hs Hv. unfold shl_s32, shift_ok.
  destruct (Z.leb_spec 0 (7 * k)); [|lia]. destruct (Z.ltb_spec (7 * k) 32); [|lia]. simpl.
  rewrite land_40 by (apply Z.mod_pos_bound; lia).
  rewrite Z.shiftl_mul_pow2 by lia.
  destruct (Z.ltb_spec v 0); destruct (Z.ltb_spec (v mod 128) 64);
    try (Z.div_mod_to_equations; lia).
  - assert (k = 0 \/ k = 1 \/ k = 2 \/ k = 3) as [-> |[-> |[-> | ->]]] by lia; reflexivity.
  - rewrite Z.mul_0_l. reflexivity.
Qed.

Lemma get_sleb128_loop_last fuel cur end_ value shift v :
  load8 cur = Ok (v mod 128) -> 0 <= cur < end_ -> end_ < 2 ^ 64 ->
  (exists k, shift = 7 * k) -> 0 <= shift <= 21 -> 0 <= value < 2 ^ shift ->
  -64 <= v < 64 ->
  get_sleb128_loop (S fuel) cur end_ value shift = Ok (u64 (value + v * 2 ^ shift), cur + 1).
Proof.
  intros Hb Hcur Hend Hk Hs Hv Hvr. simpl.
  destruct (Z.ltb_spec cur end_); [|lia]. rewrite Hb. simpl.
  assert (Hm : 0 <= v mod 128 < 128) by (apply Z.mod_pos_bound; lia).
  assert (0 < 2 ^ shift <= 2 ^ 21)
    by (split; [lia | apply Z.pow_le_mono_r; lia]).
  rewrite leb128_overflows_fits; try assumption; try lia;
    [|rewrite Z.mod_mod by lia; nia].
  simpl. unfold shl_u64, shift_ok.
  destruct (Z.leb_spec 0 shift); [|lia]. destruct (Z.ltb_spec shift 64); [|lia]. simpl.
  rewrite land_80, land_7f, Z.mod_mod by lia.
  destruct (Z.ltb_spec (v mod 128) 128); [|lia].
  rewrite sign_extension by assumption. simpl.
  rewrite (u64_small (Z.shiftl _ _)) by (rewrite Z.shiftl_mul_pow2 by lia; nia).
  rewrite lor_shiftl_add, (u64_small (cur + 1)) by lia.
  assert (0 <= value + (v mod 128) * 2 ^ shift < 2 ^ 64) by nia.
  f_equal. f_equal. destruct (Z.ltb_spec v 0).
  - replace (v mod 128) with (v + 128) in * by (Z.div_mod_to_equations; lia).
    rewrite <- (u64_small (value + _)) at 1 by assumption. rewrite <- u64_lor.
    rewrite lor_opp_pow2 by lia. f_equal.
    replace (2 ^ (shift + 6)) with (64 * 2 ^ shift) by (rewrite Z.pow_add_r by lia; lia).
    replace ((value + (v + 128) * 2 ^ shift) mod (64 * 2 ^ shift))
      with (value + (v + 64) * 2 ^ shift); [lia|].
    apply Z.mod_unique with (q := 1); nia.
  - replace (v mod 128) with v in * by (Z.div_mod_to_equations; lia).
    change (u64 0) with 0. rewrite Z.lor_0_r. symmetry. apply u64_small. lia.
Qed.

Lemma get_sleb128_loop_more fuel cur end_ value shift v :
  load8 cur = Ok (128 + v mod 128) -> 0 <= cur < end_ -> end_ < 2 ^ 64 ->
  (exists k, shift = 7 * k) -> 0 <= shift <= 21 -> 0 <= value < 2 ^ shift ->
  get_sleb128_loop (S fuel) cur end_ value shift =
  get_sleb128_loop fuel (cur + 1) end_ (value + (v mod 128) * 2 ^ shift) (shift + 7).
Proof.
  intros Hb Hcur Hend Hk Hs Hv. simpl.
  destruct (Z.ltb_spec cur end_); [|lia]. rewrite Hb. simpl.
  assert (Hm : 0 <= v mod 128 < 128) by (apply Z.mod_pos_bound; lia).
  assert (0 < 2 ^ shift <= 2 ^ 21) by (split; [lia | apply Z.pow_le_mono_r; lia]).
  pose proof (continuation_group v) as E.
  rewrite leb128_overflows_fits by (rewrite ?E; try assumption; try lia; nia).
  simpl. unfold shl_u64, shift_ok.
  destruct (Z.leb_spec 0 shift); [|lia]. destruct (Z.ltb_spec shift 64); [|lia]. simpl.
  rewrite land_80, land_7f, E by lia.
  destruct (Z.ltb_spec (128 + v mod 128) 128); [lia|].
  rewrite (u64_small (Z.shiftl _ _)) by (rewrite Z.shiftl_mul_pow2 by lia; nia).
  rewrite lor_shiftl_add, (u64_small (cur + 1)) by lia. reflexivity.
Qed.

Lemma sleb_loop_enc n : forall fuel cur end_ value shift v,
  (n <= fuel)%nat -> bytes_at cur (sleb_enc n v) ->
  cur + Z.of_nat (length (sleb_enc n v)) <= end_ -> end_ < 2 ^ 64 ->
  (exists k, shift = 7 * k) -> 0 <= shift -> 0 <= value < 2 ^ shift ->
  - 2 ^ (7 * Z.of_nat n - 1) <= v < 2 ^ (7 * Z.of_nat n - 1) ->
  shift + 7 * Z.of_nat n <= 28 -> (1 <= n)%nat ->
  get_sleb128_loop fuel cur end_ value shift =
    Ok (u64 (value + v * 2 ^ shift), cur + Z.of_nat (length (sleb_enc n v))).
Proof.
  induction n as [|n IH]; [lia|].
  intros [|fuel] cur end_ value shift v Hf Hb Hlen Hend Hk Hs Hv Hvn Hsn _; [lia|].
  simpl sleb_enc in *. destruct (Z.leb_spec (-64) v), (Z.ltb_spec v 64).
  { simpl in *. apply bytes_at_cons in Hb as (Hb & Hp & _).
    apply get_sleb128_loop_last; assumption || lia. }
  all: simpl in Hlen; apply bytes_at_cons in Hb as (Hb & Hp & Hb');
    assert (n <> 0)%nat by (intros ->; simpl in Hvn; lia);
    replace (7 * Z.of_nat (S n) - 1) with (7 + (7 * Z.of_nat n - 1)) in Hvn by lia;
    rewrite Z.pow_add_r in Hvn by lia; change (2 ^ 7) with 128 in Hvn;
    assert (Hs7 : 2 ^ (shift + 7) = 128 * 2 ^ shift)
      by (rewrite Z.pow_add_r by lia; change (2 ^ 7) with 128; lia);
    pose proof (Z.div_mod v 128 ltac:(lia)) as Hdm;
    pose proof (Z.mod_pos_bound v 128 ltac:(lia)) as Hmb;
    rewrite get_sleb128_loop_more with (v := v) by (assumption || lia);
    rewrite IH with (v := v / 128); rewrite ?Hs7; try assumption; try lia; try nia.
  all: try (destruct Hk as [k ->]; exists (k + 1); lia).
  all: f_equal; f_equal; [f_equal; nia|]; simpl length; lia.
Qed.

(** *)
Theorem get_sleb128_encode pcur end_ v :
  - 2 ^ 27 <= v < 2 ^ 27 -> bytes_at pcur (sleb_enc 4 v) ->
  pcur + Z.of_nat (length (sleb_enc 4 v)) <= end_ -> end_ < 2 ^ 64 ->
  get_sleb128 pcur end_ = Ok (v, pcur + Z.of_nat (length (sleb_enc 4 v))).
Proof.
  intros Hv Hb Hlen Hend. unfold get_sleb128.
  rewrite (sleb_loop_enc 4) with (v := v); try assumption; try lia; try (unfold LEB_FUEL; lia).
  - unfold mbind, C_bind. rewrite s64_u64, s64_small by lia. f_equal. f_equal. lia.
  - exists 0. lia.
Qed.

(** The first four groups of a number that needs more. *)
Lemma get_sleb128_loop_four fuel pcur end_ v :
  let q := v / 128 in let r := q / 128 in let t := r / 128 in
  bytes_at pcur [128 + v mod 128; 128 + q mod 128; 128 + r mod 128; 128 + t mod 128] ->
  pcur + 4 <= end_ -> end_ < 2 ^ 64 ->
  get_sleb128_loop (4 + fuel) pcur end_ 0 0 =
  get_sleb128_loop fuel (pcur + 4) end_ (v mod 2 ^ 28) 28.
Proof.
  intros q r t H Hlen Hend.
  repeat (apply bytes_at_cons in H as (? & ? & H)).
  change (4 + fuel)%nat with (S (S (S (S fuel)))).
  pose proof (Z.mod_pos_bound v 128 ltac:(lia)). pose proof (Z.mod_pos_bound q 128 ltac:(lia)).
  pose proof (Z.mod_pos_bound r 128 ltac:(lia)). pose proof (Z.mod_pos_bound t 128 ltac:(lia)).
  rewrite (get_sleb128_loop_more _ _ _ _ _ v); try assumption; try lia; [|exists 0; lia].
  rewrite (get_sleb128_loop_more _ _ _ _ _ q); try assumption; try lia; [|exists 1; lia].
  rewrite (get_sleb128_loop_more _ _ _ _ _ r); try assumption; try lia; [|exists 2; lia].
  rewrite (get_sleb128_loop_more _ _ _ _ _ t); try assumption; try lia; [|exists 3; lia].
  f_equal; [lia|]. subst q r t. Z.div_mod_to_equations. lia.
Qed.

(** a negative number that needs five bytes is decoded as a positive one:
    the sign bits are computed in a 32-bit [int] and fall off its left end. *)
Theorem get_sleb128_five_bytes_wrong pcur end_ v :
  - 2 ^ 34 <= v < - 2 ^ 27 -> bytes_at pcur (sleb_encode v) ->
  pcur + 5 <= end_ -> end_ < 2 ^ 64 ->
  get_sleb128 pcur end_ = Ok (v + 2 ^ 35, pcur + 5).
Proof.
  intros Hv H Hlen Hend.
  assert (D : v < -64 /\ v / 128 < -64 /\ v / 128 / 128 < -64 /\ v / 128 / 128 / 128 < -64 /\
              -64 <= v / 128 / 128 / 128 / 128 < 0)
    by (rewrite !Z.div_div by lia; split_and!; try lia;
        (apply Z.div_lt_upper_bound || apply Z.div_le_lower_bound); lia).
  destruct D as (D0 & D1 & D2 & D3 & Hg).
  assert (A : forall x, x < -64 -> (-64 <=? x) && (x <? 64) = false)
    by (intros x Hx; destruct (Z.leb_spec (-64) x); [lia|reflexivity]).
  unfold sleb_encode in H. simpl sleb_enc in H.
  rewrite (A v), (A (v / 128)), (A (v / 128 / 128)), (A (v / 128 / 128 / 128)) in H by assumption.
  replace ((-64 <=? v / 128 / 128 / 128 / 128) && (v / 128 / 128 / 128 / 128 <? 64))
    with true in H
    by (symmetry; apply andb_true_intro; split; [apply Z.leb_le | apply Z.ltb_lt]; lia).
  apply (bytes_at_app pcur [_; _; _; _] [_]) in H as [H1 H2].
  change (pcur + Z.of_nat _) with (pcur + 4) in H2.
  apply bytes_at_cons in H2 as (Hb & Hp & _).
  unfold get_sleb128, LEB_FUEL. rewrite (get_sleb128_loop_four 7 _ _ v H1) by lia.
  set (g := v / 128 / 128 / 128 / 128) in *.
  assert (Hm : g mod 128 = g + 128) by (clear -Hg; Z.div_mod_to_equations; lia).
  assert (Hd : v = v mod 2 ^ 28 + g * 2 ^ 28)
    by (subst g; clear; Z.div_mod_to_equations; lia).
  pose proof (Z.mod_pos_bound v (2 ^ 28) ltac:(lia)).
  rewrite Hm in Hb. simpl. destruct (Z.ltb_spec (pcur + 4) end_); [|lia].
  rewrite Hb. simpl. unfold leb128_overflows. simpl. unfold shl_u64. simpl.
  rewrite land_80, land_7f, (Z.mod_small (g + 128)), land_40 by lia.
  destruct (Z.ltb_spec (g + 128) 128); [|lia]. destruct (Z.ltb_spec (g + 128) 64); [lia|].
  change (u64 (s32 (Z.shiftl (- (64)) 28))) with 0. rewrite Z.lor_0_r.
  unfold mbind, C_bind.
  rewrite (u64_small (Z.shiftl _ _)) by (rewrite Z.shiftl_mul_pow2 by lia; lia).
  rewrite lor_shiftl_add, s64_small, (u64_small (pcur + 4 + 1)) by lia.
  f_equal. f_equal; lia.
Qed.

Lemma get_sleb128_loop_crash n : forall fuel cur end_ value shift v,
  (n <= fuel)%nat -> bytes_at cur (sleb_enc n v) ->
  cur + Z.of_nat (length (sleb_enc n v)) <= end_ -> end_ < 2 ^ 64 ->
  (exists k, shift = 7 * k) -> 0 <= shift -> shift + 7 * Z.of_nat n <= 63 ->
  - 2 ^ (7 * Z.of_nat n - 1) <= v < 2 ^ (7 * Z.of_nat n - 1) -> (1 <= n)%nat ->
  35 <= shift \/ v < - 2 ^ (34 - shift) \/ 2 ^ (34 - shift) <= v ->
  get_sleb128_loop fuel cur end_ value shift = Crash UndefinedShift.
Proof.
  induction n as [|n IH]; [lia|].
  intros [|fuel] cur end_ value shift v Hf Hb Hlen Hend Hk Hs Hsn Hvn _ Hbig; [lia|].
  simpl sleb_enc in *. simpl.
  assert (O : forall b, leb128_overflows b shift = Ok false).
  { intros b. unfold leb128_overflows. destruct (Z.ltb_spec 64 (shift + 7)); [lia|reflexivity]. }
  unfold shl_u64, shift_ok. destruct (Z.leb_spec 0 shift), (Z.ltb_spec shift 64); try lia.
  pose proof (Z.mod_pos_bound v 128 ltac:(lia)) as Hm.
  destruct ((-64 <=? v) && (v <? 64)) eqn:E.
  - simpl in Hlen. apply bytes_at_cons in Hb as (Hb & Hp & _).
    destruct (Z.ltb_spec cur end_); [|lia]. rewrite Hb. simpl. rewrite O. simpl.
    rewrite land_80 by lia. destruct (Z.ltb_spec (v mod 128) 128); [|lia].
    unfold shl_s32, shift_ok. destruct (Z.leb_spec 0 shift), (Z.ltb_spec shift 32);
      try lia; [|reflexivity].
    apply andb_true_iff in E as [E1%Z.leb_le E2%Z.ltb_lt].
    destruct Hk as [k ->]. assert (2 ^ 6 <= 2 ^ (34 - 7 * k)) by (apply Z.pow_le_mono_r; lia). lia.
  - simpl in Hlen. apply bytes_at_cons in Hb as (Hb & Hp & Hb').
    destruct (Z.ltb_spec cur end_); [|lia]. rewrite Hb. simpl. rewrite O. simpl.
    rewrite land_80, (u64_small (cur + 1)) by lia.
    destruct (Z.ltb_spec (128 + v mod 128) 128); [lia|].
    assert (n <> 0)%nat
      by (intros ->; simpl in Hvn; destruct (Z.leb_spec (-64) v), (Z.ltb_spec v 64);
          simpl in E; try discriminate E; lia).
    apply IH with (v := v / 128); try assumption; try lia.
    + destruct Hk as [k ->]. exists (k + 1). lia.
    + replace (7 * Z.of_nat (S n) - 1) with (7 + (7 * Z.of_nat n - 1)) in Hvn by lia.
      rewrite Z.pow_add_r in Hvn by lia. change (2 ^ 7) with 128 in Hvn.
      Z.div_mod_to_equations. lia.
    + destruct Hk as [k ->]. destruct (Z.lt_ge_cases (7 * k) 28); [right|left; lia].
      destruct Hbig as [Hbig|Hbig]; [lia|].
      assert (Hp2 : 2 ^ (34 - 7 * k) = 128 * 2 ^ (34 - (7 * k + 7))).
      { replace (34 - 7 * k) with (7 + (34 - (7 * k + 7))) by lia.
        rewrite Z.pow_add_r by lia. reflexivity. }
      rewrite Hp2 in Hbig. Z.div_mod_to_equations. lia.
Qed.

(** a number that needs six to nine bytes shifts an [int] by at least 32,
    which C leaves undefined, whatever the sign of the number. *)
Theorem get_sleb128_six_bytes_undefined pcur end_ v :
  - 2 ^ 62 <= v < 2 ^ 62 -> v < - 2 ^ 34 \/ 2 ^ 34 <= v ->
  bytes_at pcur (sleb_enc 9 v) ->
  pcur + Z.of_nat (length (sleb_enc 9 v)) <= end_ -> end_ < 2 ^ 64 ->
  get_sleb128 pcur end_ = Crash UndefinedShift.
Proof.
  intros Hv Hbig Hb Hlen Hend. unfold get_sleb128.
  rewrite (get_sleb128_loop_crash 9) with (v := v);
    try assumption; try lia; try (unfold LEB_FUEL; lia); [reflexivity | exists 0; lia].
Qed.
End properties.

(** ** Machine words stay machine words *)

Section words.
Context `{K : Kernel}.

Lemma get_uleb128_loop_words fuel : forall cur end_ value shift v c,
  is_u64 cur -> is_u64 value ->
  get_uleb128_loop fuel cur end_ value shift = Ok (v, c) -> is_u64 v /\ is_u64 c.
Proof.
  induction fuel as [|fuel IH]; simpl; intros cur end_ value shift v c Hc Hv E; [discriminate|].
  destruct (cur <? end_); [|c_inv; auto].
  apply bind_Ok in E as (b & _ & E). apply bind_Ok in E as (o & _ & E).
  destruct o; [c_inv; auto with kunwind|].
  apply bind_Ok in E as (w & Hw & E).
  assert (is_u64 (Z.lor value w)).
  { apply lor_range; [lia|exact Hv|]. unfold shl_u64 in Hw.
    destruct (shift_ok _ _); c_inv. apply u64_range. }
  destruct (_ =? 0); [c_inv; auto with kunwind|]. eapply IH; [| |exact E]; auto with kunwind.
Qed.

Lemma get_uleb128_words cur end_ v c :
  is_u64 cur -> get_uleb128 cur end_ = Ok (v, c) -> is_u64 v /\ is_u64 c.
Proof. intros Hc. apply get_uleb128_loop_words; [exact Hc|unfold is_u64; lia]. Qed.

Lemma get_sleb128_loop_cursor fuel : forall cur end_ value shift v c,
  is_u64 cur -> get_sleb128_loop fuel cur end_ value shift = Ok (v, c) -> is_u64 c.
Proof.
  induction fuel as [|fuel IH]; simpl; intros cur end_ value shift v c Hc E; [discriminate|].
  destruct (cur <? end_); [|c_inv; auto].
  apply bind_Ok in E as (b & _ & E). apply bind_Ok in E as (o & _ & E).
  destruct o; [c_inv; auto with kunwind|].
  apply bind_Ok in E as (w & Hw & E). destruct (_ =? 0).
  - apply bind_Ok in E as (x & _ & E). c_inv. auto with kunwind.
  - eapply IH; [|exact E]. auto with kunwind.
Qed.

Lemma get_sleb128_cursor cur end_ v c :
  is_u64 cur -> get_sleb128 cur end_ = Ok (v, c) -> is_u64 c.
Proof.
  unfold get_sleb128. intros Hc E. apply bind_Ok in E as ([w c'] & H & E). c_inv.
  eapply get_sleb128_loop_cursor; eassumption.
Qed.


(** The cursor a decoder leaves, whatever is mapped. *)
Lemma get_uleb128_loop_cursor_range fuel : forall cur end_ value shift v c,
  0 <= cur <= end_ -> end_ < 2 ^ 64 ->
  get_uleb128_loop fuel cur end_ value shift = Ok (v, c) -> leb_cursor cur end_ c.
Proof.
  induction fuel as [|fuel IH]; simpl; intros cur end_ value shift v c Hc He E; [discriminate|].
  destruct (Z.ltb_spec cur end_); [|c_inv; unfold leb_cursor; lia].
  apply bind_Ok in E as (b & _ & E). apply bind_Ok in E as (o & _ & E).
  destruct o; [c_inv; unfold leb_cursor; auto|].
  apply bind_Ok in E as (w & _ & E). rewrite u64_small in E by lia.
  destruct (_ =? 0); [c_inv; unfold leb_cursor; lia|].
  apply IH in E; [|lia|lia]. unfold leb_cursor in *. lia.
Qed.

Lemma get_sleb128_loop_cursor_range fuel : forall cur end_ value shift v c,
  0 <= cur <= end_ -> end_ < 2 ^ 64 ->
  get_sleb128_loop fuel cur end_ value shift = Ok (v, c) -> leb_cursor cur end_ c.
Proof.
  induction fuel as [|fuel IH]; simpl; intros cur end_ value shift v c Hc He E; [discriminate|].
  destruct (Z.ltb_spec cur end_); [|c_inv; unfold leb_cursor; lia].
  apply bind_Ok in E as (b & _ & E). apply bind_Ok in E as (o & _ & E).
  destruct o; [c_inv; unfold leb_cursor; auto|].
  apply bind_Ok in E as (w & _ & E). rewrite u64_small in E by lia. destruct (_ =? 0).
  - apply bind_Ok in E as (x & _ & E). c_inv. unfold leb_cursor. lia.
  - apply IH in E; [|lia|lia]. unfold leb_cursor in *. lia.
Qed.

Lemma get_uleb128_cursor_range cur end_ v c :
  0 <= cur <= end_ -> end_ < 2 ^ 64 -> get_uleb128 cur end_ = Ok (v, c) ->
  leb_cursor cur end_ c.
Proof. apply get_uleb128_loop_cursor_range. Qed.

Lemma get_sleb128_cursor_range cur end_ v c :
  0 <= cur <= end_ -> end_ < 2 ^ 64 -> get_sleb128 cur end_ = Ok (v, c) ->
  leb_cursor cur end_ c.
Proof.
  unfold get_sleb128. intros Hc He E. apply bind_Ok in E as ([w c'] & H & E). c_inv.
  eapply get_sleb128_loop_cursor_range; eassumption.
Qed.

(** At or past its limit a decoder reads nothing. *)
Lemma get_uleb128_past cur end_ : end_ <= cur -> get_uleb128 cur end_ = Ok (0, cur).
Proof.
  intros H. unfold get_uleb128, LEB_FUEL. generalize 10%nat. intros n.
  cbn [get_uleb128_loop]. destruct (Z.ltb_spec cur end_); [lia|reflexivity].
Qed.

Lemma get_sleb128_past cur end_ : end_ <= cur -> get_sleb128 cur end_ = Ok (0, cur).
Proof.
  intros H. unfold get_sleb128, LEB_FUEL. generalize 10%nat. intros n.
  cbn [get_sleb128_loop]. destruct (Z.ltb_spec cur end_); [lia|reflexivity].
Qed.

(** The decoders never use up their fuel, whatever is mapped. *)
Lemma get_uleb128_loop_fuel fuel : forall cur end_ value shift,
  shift = 7 * (11 - Z.of_nat fuel) -> (1 <= fuel <= 11)%nat ->
  terminates (get_uleb128_loop fuel cur end_ value shift).
Proof.
  induction fuel as [|fuel IH]; intros cur end_ value shift Hs Hf; [lia|]. simpl.
  destruct (_ <? _); [|apply terminates_Ok].
  apply terminates_bind; [apply load8_terminates|]. intros b _.
  destruct (decide (fuel = 0%nat)) as [->|Hfuel].
  { rewrite leb128_overflows_late by lia. discriminate. }
  destruct (leb128_overflows_cases b shift) as [[o ->]| ->]; [|discriminate]. simpl.
  destruct o; [discriminate|].
  destruct (shl_u64_cases (Z.land b 0x7f) shift) as [[v [-> _]]| ->]; [|discriminate]. simpl.
  destruct (_ =? 0); [discriminate|]. apply IH; lia.
Qed.

Lemma get_sleb128_loop_fuel fuel : forall cur end_ value shift,
  shift = 7 * (11 - Z.of_nat fuel) -> (1 <= fuel <= 11)%nat ->
  terminates (get_sleb128_loop fuel cur end_ value shift).
Proof.
  induction fuel as [|fuel IH]; intros cur end_ value shift Hs Hf; [lia|]. simpl.
  destruct (_ <? _); [|apply terminates_Ok].
  apply terminates_bind; [apply load8_terminates|]. intros b _.
  destruct (decide (fuel = 0%nat)) as [->|Hfuel].
  { rewrite leb128_overflows_late by lia. discriminate. }
  destruct (leb128_overflows_cases b shift) as [[o ->]| ->]; [|discriminate]. simpl.
  destruct o; [discriminate|].
  destruct (shl_u64_cases (Z.land b 0x7f) shift) as [[v [-> _]]| ->]; [|discriminate]. simpl.
  destruct (_ =? 0); [|apply IH; lia].
  unfold shl_s32. destruct (shift_ok _ _); discriminate.
Qed.

Lemma get_uleb128_terminates cur end_ : terminates (get_uleb128 cur end_).
Proof. apply get_uleb128_loop_fuel; unfold LEB_FUEL; lia. Qed.

Lemma get_sleb128_terminates cur end_ : terminates (get_sleb128 cur end_).
Proof.
  apply terminates_bind; [apply get_sleb128_loop_fuel; unfold LEB_FUEL; lia|].
  intros [] _. discriminate.
Qed.
End words.

#[export] Hint Resolve get_uleb128_terminates get_sleb128_terminates : kunwind.

(** ** Claims *)

(** C34: Decoding inverts encoding: a ULEB128 number of 64 bits followed by an
    SLEB128 number of at most four bytes are read back one after the other, and
    the cursor stops exactly behind each. *)
Theorem leb128_roundtrip `{K : Kernel} pcur end_ v w :
  0 <= v < 2 ^ 64 -> - 2 ^ 27 <= w < 2 ^ 27 ->
  bytes_at pcur (uleb_encode v ++ sleb_enc 4 w) ->
  pcur + Z.of_nat (length (uleb_encode v ++ sleb_enc 4 w)) <= end_ -> end_ < 2 ^ 64 ->
  let mid := pcur + Z.of_nat (length (uleb_encode v)) in
  get_uleb128 pcur end_ = Ok (v, mid) /\
  get_sleb128 mid end_ = Ok (w, mid + Z.of_nat (length (sleb_enc 4 w))).
Proof.
  intros Hv Hw [H1 H2]%bytes_at_app He Hl. rewrite length_app in He. split.
  - apply get_uleb128_encode; assumption || lia.
  - apply get_sleb128_encode; assumption || lia.
Qed.

(** C35: Whatever the bytes, a decoder started inside mapped memory reads nothing
    outside [pcur, end), returns a value of its type and a cursor in range (or
    [end + 1], the mark of an overlong number); the only other outcome is the
    shift by 32 or more in the overflow check. *)
Theorem leb128_bounds `{K : Kernel} pcur end_ :
  mapped pcur end_ -> end_ < 2 ^ 64 -> pcur <= end_ ->
  leb_outcome pcur end_ 0 (2 ^ 64) (get_uleb128 pcur end_) /\
  leb_outcome pcur end_ (- 2 ^ 63) (2 ^ 63) (get_sleb128 pcur end_).
Proof.
  intros M He Hp. split; [apply get_uleb128_bounds|apply get_sleb128_bounds]; assumption.
Qed.

Definition leb_demo (l : list Z) : Kernel := image_kernel [(4096, l)] [].

Lemma leb128_roundtrip_witness :
  let K := leb_demo (uleb_encode (2 ^ 64 - 1) ++ sleb_enc 4 (-100000)) in
  get_uleb128 4096 4109 = Ok (2 ^ 64 - 1, 4106) /\ get_sleb128 4106 4109 = Ok (-100000, 4109).
Proof.
  apply (leb128_roundtrip (K := leb_demo _) 4096 4109 (2 ^ 64 - 1) (-100000));
    [lia|lia| |vm_compute; discriminate|lia].
  apply bytes_atb_true. vm_compute. reflexivity.
Defined.

Lemma leb128_bounds_witness :
  let K := leb_demo (repeat 0xff 12) in
  leb_outcome 4096 4108 0 (2 ^ 64) (get_uleb128 4096 4108) /\
  leb_outcome 4096 4108 (- 2 ^ 63) (2 ^ 63) (get_sleb128 4096 4108).
Proof.
  apply (leb128_bounds (K := leb_demo (repeat 0xff 12)) 4096 4108); [|lia|lia].
  apply (mappedb_true (K := leb_demo (repeat 0xff 12)) 4096 12); vm_compute; reflexivity.
Defined.

Lemma get_sleb128_five_bytes_wrong_witness :
  get_sleb128 (K := leb_demo (sleb_encode (-200000000))) 4096 4101 = Ok (-200000000 + 2 ^ 35, 4101).
Proof.
  apply (get_sleb128_five_bytes_wrong (K := leb_demo _) 4096 4101 (-200000000));
    [lia| |lia|lia].
  apply bytes_atb_true. vm_compute. reflexivity.
Defined.

Lemma get_sleb128_six_bytes_undefined_witness :
  get_sleb128 (K := leb_demo (sleb_enc 9 (2 ^ 40))) 4096 4105 = Crash UndefinedShift.
Proof.
  apply (get_sleb128_six_bytes_undefined (K := leb_demo _) 4096 4105 (2 ^ 40));
    [lia|lia| |vm_compute; discriminate|lia].
  apply bytes_atb_true. vm_compute. reflexivity.
Defined.
