(* ===== verification/EncodedPtr.v ===== *)
(** * Encoded pointers

    [read_ptr_sect] and [read_pointer] of src/src/unwind.c with the [DW_EH_PE]
    constants of src/src/unwind/unwind.h. The configuration modelled is
    CONFIG_64BIT: an [unsigned long] has 8 bytes. *)
From S2P Require Import Prelude Machine Leb128.

Definition DW_EH_PE_absptr : Z := 0x00.
Definition DW_EH_PE_leb128 : Z := 0x01.
Definition DW_EH_PE_data2 : Z := 0x02.
Definition DW_EH_PE_data4 : Z := 0x03.
Definition DW_EH_PE_data8 : Z := 0x04.
Definition DW_EH_PE_FORM : Z := 0x07.
Definition DW_EH_PE_signed : Z := 0x08.
Definition DW_EH_PE_pcrel : Z := 0x10.
Definition DW_EH_PE_textrel : Z := 0x20.
Definition DW_EH_PE_datarel : Z := 0x30.
Definition DW_EH_PE_ADJUST : Z := 0x70.
Definition DW_EH_PE_indirect : Z := 0x80.
Definition DW_EH_PE_omit : Z := 0xff.

(** A flag test [x & mask] in a condition. *)
Definition flag (x mask : Z) : bool := negb (Z.land x mask =? 0).

Section read.
Context `{K : Kernel}.

(** The fixed-size cases of the first switch: [if (end < ptr + 1) return 0;]
    then load and advance. [None] is the early [return 0]. *)
Definition read_fixed (n : nat) (signed : bool) (loc end_ : Z) : C (option (Z * Z)) :=
  let next := u64 (loc + Z.of_nat n) in
  if end_ <? next then Ok None
  else
    v ← load n loc;
    Ok (Some (if signed then u64 (sign (8 * Z.of_nat n) v) else v, next)).

Definition read_absptr (loc end_ : Z) (compat_task : bool) : C (option (Z * Z)) :=
  if compat_task then read_fixed 4 false loc end_ else read_fixed 8 false loc end_.

(** [switch (ptrType & DW_EH_PE_FORM)]: the raw value and the cursor after it. *)
Definition read_form (loc end_ ptrType : Z) (compat_task : bool) (tableSize : Z)
    : C (option (Z * Z)) :=
  let form := Z.land ptrType DW_EH_PE_FORM in
  let signed := flag ptrType DW_EH_PE_signed in
  if form =? DW_EH_PE_data2 then read_fixed 2 signed loc end_
  else if form =? DW_EH_PE_data4 then
    if negb compat_task || (tableSize =? 4) || (tableSize =? 0)
    then read_fixed 4 signed loc end_
    else read_absptr loc end_ compat_task
  else if (form =? DW_EH_PE_data8) || (form =? DW_EH_PE_absptr) then
    read_absptr loc end_ compat_task
  else if form =? DW_EH_PE_leb128 then
    '(v, cur) ← (if signed
                 then '(v, cur) ← get_sleb128 loc end_; Ok (u64 v, cur)
                 else get_uleb128 loc end_);
    if end_ <? cur then Ok None else Ok (Some (v, cur))
  else Ok None.

(** [switch (ptrType & DW_EH_PE_ADJUST)] *)
Definition adjust_value (value loc ptrType textAddr dataAddr : Z) : option Z :=
  let adj := Z.land ptrType DW_EH_PE_ADJUST in
  if adj =? DW_EH_PE_absptr then Some value
  else if adj =? DW_EH_PE_pcrel then Some (u64 (value + loc))
  else if adj =? DW_EH_PE_textrel then Some (u64 (value + textAddr))
  else if adj =? DW_EH_PE_datarel then Some (u64 (value + dataAddr))
  else None.

(** Returns the pointer and the new [*pLoc]; an error is 0 with the cursor left
    where it was. *)
Definition read_ptr_sect (pLoc end_ ptrType textAddr dataAddr : Z)
    (user compat_task : bool) (tableSize : Z) : C (Z * Z) :=
  if (ptrType <? 0) || (ptrType =? DW_EH_PE_omit) then Ok (0, pLoc)
  else
    raw ← read_form pLoc end_ ptrType compat_task tableSize;
    match raw with
    | None => Ok (0, pLoc)
    | Some (value, p8) =>
      match adjust_value value pLoc ptrType textAddr dataAddr with
      | None => Ok (0, pLoc)
      | Some value =>
        if flag ptrType DW_EH_PE_indirect then
          match _stp_read_address 8 8 value (if user then USER_DS else KERNEL_DS) with
          | None => Ok (0, pLoc)
          | Some value => Ok (value, p8)
          end
        else Ok (value, p8)
      end
    end.

Definition read_pointer (pLoc end_ ptrType : Z) (user compat_task : bool) : C (Z * Z) :=
  read_ptr_sect pLoc end_ ptrType 0 0 user compat_task 0.

End read.

Arguments read_fixed {K} : simpl never.
Arguments read_form {K} : simpl never.
Arguments read_ptr_sect {K} : simpl never.
Arguments read_pointer {K} : simpl never.

(** ** Reference encoding of the pointer forms *)

Definition form_bytes (form : Z) (v : Z) : list Z :=
  if form =? DW_EH_PE_data2 then le_bytes 2 v
  else if form =? DW_EH_PE_data4 then le_bytes 4 v
  else if form =? DW_EH_PE_leb128 then uleb_encode v
  else le_bytes 8 v.

(** The values a form can carry. *)
Definition form_range (form : Z) (signed : bool) (v : Z) : bool :=
  let w := if form =? DW_EH_PE_data2 then 16
           else if form =? DW_EH_PE_data4 then 32 else 64 in
  if signed && negb (form =? DW_EH_PE_leb128) && (w <? 64)
  then (- 2 ^ (w - 1) <=? v) && (v <? 2 ^ (w - 1))
  else (0 <=? v) && (v <? 2 ^ w).

(** The base an application adds, per DW_EH_PE_ADJUST value. *)
Definition adjust_base (adj loc textAddr dataAddr : Z) : Z :=
  if adj =? DW_EH_PE_pcrel then loc
  else if adj =? DW_EH_PE_textrel then textAddr
  else if adj =? DW_EH_PE_datarel then dataAddr else 0.

(** An encoding byte put together from its three fields. *)
Definition encoding (form : Z) (signed : bool) (adj : Z) : Z :=
  Z.lor form (Z.lor (if signed then DW_EH_PE_signed else 0) adj).

Definition plain_form (form : Z) : Prop :=
  form = DW_EH_PE_absptr \/ form = DW_EH_PE_leb128 \/ form = DW_EH_PE_data2 \/
  form = DW_EH_PE_data4 \/ form = DW_EH_PE_data8.

Definition plain_adjust (adj : Z) : Prop :=
  adj = DW_EH_PE_absptr \/ adj = DW_EH_PE_pcrel \/ adj = DW_EH_PE_textrel \/
  adj = DW_EH_PE_datarel.

Lemma encoding_fields form signed adj :
  plain_form form -> plain_adjust adj ->
  let e := encoding form signed adj in
  Z.land e DW_EH_PE_FORM = form /\ flag e DW_EH_PE_signed = signed /\
  Z.land e DW_EH_PE_ADJUST = adj /\ flag e DW_EH_PE_indirect = false /\
  (e <? 0) = false /\ (e =? DW_EH_PE_omit) = false.
Proof.
  intros [->|[->|[->|[->| ->]]]] [->|[->|[->| ->]]]; destruct signed; vm_compute; auto 10.
Qed.

Section properties.
Context `{K : Kernel}.

Lemma read_fixed_le n signed loc end_ z :
  bytes_at loc (le_bytes n z) -> loc + Z.of_nat n <= end_ -> end_ <= ptr_limit ->
  read_fixed n signed loc end_ =
    Ok (Some (let v := z mod 2 ^ (8 * Z.of_nat n) in
              if signed then u64 (sign (8 * Z.of_nat n) v) else v, loc + Z.of_nat n)).
Proof.
  intros Hb Hlen Hend. unfold read_fixed, ptr_limit in *.
  destruct Hb as (Hp & Hl & Hb).
  rewrite u64_small by lia.
  destruct (Z.ltb_spec end_ (loc + Z.of_nat n)); [lia|].
  rewrite load_le_bytes with (z := z) by (repeat split; assumption). reflexivity.
Qed.

(** A form that carries [v] reads back as the 64-bit pattern of [v]. *)
Lemma read_form_encode loc end_ form signed adj tableSize v :
  plain_form form -> plain_adjust adj -> (form = DW_EH_PE_leb128 -> signed = false) ->
  form_range form signed v = true -> bytes_at loc (form_bytes form v) ->
  loc + Z.of_nat (length (form_bytes form v)) <= end_ -> end_ <= ptr_limit ->
  read_form loc end_ (encoding form signed adj) false tableSize =
    Ok (Some (u64 v, loc + Z.of_nat (length (form_bytes form v)))).
Proof.
  intros Hf Ha Hleb Hr Hb Hlen Hend.
  destruct (encoding_fields form signed adj Hf Ha) as (E1 & E2 & _).
  unfold read_form. rewrite E1, E2. clear E1 E2 Ha.
  unfold form_range in Hr.
  destruct Hf as [->|[->|[->|[->| ->]]]]; cbn -[Z.pow Z.of_nat le_bytes u64] in *;
    try rewrite andb_false_r in Hr; simpl in Hr.
  2: { rewrite Hleb by reflexivity. simpl.
       assert (0 <= v < 2 ^ 64) by (destruct signed; simpl in Hr; lia).
       rewrite get_uleb128_encode with (v := v) by (try assumption; unfold ptr_limit in *; lia).
       simpl. destruct (Z.ltb_spec end_ (loc + Z.of_nat (length (uleb_encode v)))); [lia|].
       rewrite u64_small by lia. reflexivity. }
  all: rewrite read_fixed_le with (z := v) by
         (try assumption; rewrite length_le_bytes in *; lia);
    rewrite length_le_bytes; simpl; f_equal; f_equal; f_equal.
  all: clear -Hr; destruct signed; simpl in Hr; word_lia.
Qed.

(** *)
Theorem read_ptr_sect_encode loc end_ form signed adj textAddr dataAddr user tableSize v :
  plain_form form -> plain_adjust adj -> (form = DW_EH_PE_leb128 -> signed = false) ->
  form_range form signed v = true -> bytes_at loc (form_bytes form v) ->
  loc + Z.of_nat (length (form_bytes form v)) <= end_ -> end_ <= ptr_limit ->
  read_ptr_sect loc end_ (encoding form signed adj) textAddr dataAddr user false tableSize =
    Ok (u64 (v + adjust_base adj loc textAddr dataAddr),
        loc + Z.of_nat (length (form_bytes form v))).
Proof.
  intros Hf Ha Hleb Hr Hb Hlen Hend.
  destruct (encoding_fields form signed adj Hf Ha) as (_ & _ & E3 & E4 & E5 & E6).
  unfold read_ptr_sect. rewrite E5, E6. simpl orb. cbv iota.
  rewrite read_form_encode with (v := v) by assumption. simpl.
  unfold adjust_value. rewrite E3, E4.
  destruct Ha as [->|[->|[->| ->]]]; simpl; autorewrite with words;
    [rewrite Z.add_0_r|..]; reflexivity.
Qed.

(** ** Bounds of the reader *)

Definition ptr_outcome (loc end_ : Z) (m : C (Z * Z)) : Prop :=
  match m with
  | Ok (v, loc') => 0 <= v < 2 ^ 64 /\ loc <= loc' <= end_
  | Crash c => c = UndefinedShift
  end.

Definition raw_outcome (loc end_ : Z) (m : C (option (Z * Z))) : Prop :=
  match m with
  | Ok (Some (v, loc')) => 0 <= v < 2 ^ 64 /\ loc <= loc' <= end_
  | Ok None => True
  | Crash c => c = UndefinedShift
  end.

Lemma read_fixed_outcome n signed loc end_ :
  mapped loc end_ -> loc <= end_ -> end_ <= ptr_limit -> (n <= 8)%nat ->
  raw_outcome loc end_ (read_fixed n signed loc end_).
Proof.
  intros M Hle Hend Hn. unfold read_fixed, ptr_limit in *.
  destruct M as (M0 & M1 & M2). rewrite u64_small by lia.
  destruct (Z.ltb_spec end_ (loc + Z.of_nat n)); [exact I|].
  destruct (load_runs n loc end_ loc) as [v E]; [repeat split; auto|lia|lia|].
  rewrite E. simpl. apply load_range in E as R.
  split; [|lia]. destruct signed; [apply u64_range|].
  assert (2 ^ (8 * Z.of_nat n) <= 2 ^ 64) by (apply Z.pow_le_mono_r; lia). lia.
Qed.

Lemma read_form_outcome loc end_ ptrType compat tableSize :
  mapped loc end_ -> loc <= end_ -> end_ <= ptr_limit ->
  raw_outcome loc end_ (read_form loc end_ ptrType compat tableSize).
Proof.
  intros M Hle Hend. unfold read_form, read_absptr.
  assert (F : forall n b, (n <= 8)%nat -> raw_outcome loc end_ (read_fixed n b loc end_))
    by (intros; apply read_fixed_outcome; assumption).
  assert (Hlt : end_ < 2 ^ 64) by (unfold ptr_limit in Hend; lia).
  repeat case_match; try (apply F; lia); try exact I.
  all: match goal with
       | |- context [get_sleb128] => pose proof (get_sleb128_bounds loc end_ M Hlt Hle) as B;
           destruct (get_sleb128 loc end_) as [[v c]|]
       | |- context [get_uleb128] => pose proof (get_uleb128_bounds loc end_ M Hlt Hle) as B;
           destruct (get_uleb128 loc end_) as [[v c]|]
       end; simpl in *; try exact B.
  all: destruct B as [Hv Hc]; destruct (Z.ltb_spec end_ c); [exact I|]; simpl.
  all: split; [first [exact Hv | apply u64_range]|].
  all: destruct Hc as [Hc|[_ Hc]]; [lia|].
  all: rewrite u64_small in Hc by (destruct M; unfold ptr_limit in *; lia); lia.
Qed.

(** On any bytes the reader returns a word and a cursor inside the buffer, or
    meets an undefined shift. *)
Theorem read_ptr_sect_bounds loc end_ ptrType textAddr dataAddr user compat tableSize :
  mapped loc end_ -> loc <= end_ -> end_ <= ptr_limit ->
  ptr_outcome loc end_
    (read_ptr_sect loc end_ ptrType textAddr dataAddr user compat tableSize).
Proof.
  intros M Hle Hend. unfold read_ptr_sect.
  destruct (_ || _); [simpl; lia|].
  pose proof (read_form_outcome loc end_ ptrType compat tableSize M Hle Hend) as R.
  destruct (read_form _ _ _ _ _) as [[[v c]|]|]; simpl in *; [|lia|exact R].
  destruct (adjust_value v loc ptrType textAddr dataAddr) as [w|] eqn:A; [|simpl; lia].
  assert (0 <= w < 2 ^ 64).
  { unfold adjust_value in A. repeat case_match; try discriminate A; injection A as <-;
      try apply u64_range. apply R. }
  destruct (flag _ _); [|simpl; lia].
  unfold _stp_read_address.
  destruct (access_ok _ _ _); simpl; [|lia].
  destruct (get_user _ _); simpl; [|lia].
  split; [apply (Z.mod_pos_bound _ (2 ^ 64)); lia | lia].
Qed.
End properties.

(** ** Machine words stay machine words *)

Section words.
Context `{K : Kernel}.

Lemma read_fixed_words n signed p end_ v c :
  (n <= 8)%nat -> read_fixed n signed p end_ = Ok (Some (v, c)) -> is_u64 v /\ is_u64 c.
Proof.
  unfold read_fixed. intros Hn E. destruct (_ <? _); [discriminate|].
  apply bind_Ok in E as (w & Hw & E). apply load_range in Hw.
  assert (2 ^ (8 * Z.of_nat n) <= 2 ^ 64) by (apply Z.pow_le_mono_r; lia).
  injection E as <- <-. split; [|apply u64_range]. destruct signed; [apply u64_range|].
  unfold is_u64. lia.
Qed.

Lemma read_form_words p end_ t compat ts v c :
  is_u64 p -> read_form p end_ t compat ts = Ok (Some (v, c)) -> is_u64 v /\ is_u64 c.
Proof.
  unfold read_form, read_absptr. intros Hp E.
  repeat case_match; try discriminate E;
    try (eapply read_fixed_words; [|eassumption]; lia).
  all: apply bind_Ok in E as ([w c'] & H' & E); destruct (_ <? _); [discriminate|];
    injection E as <- <-.
  - apply bind_Ok in H' as ([w' c''] & H'' & H'). injection H' as <- <-.
    split; [apply u64_range|]. eapply get_sleb128_cursor; eassumption.
  - eapply get_uleb128_words; eassumption.
Qed.

Lemma read_ptr_sect_words p end_ t ta da user compat ts v c :
  is_u64 p -> read_ptr_sect p end_ t ta da user compat ts = Ok (v, c) -> is_u64 v /\ is_u64 c.
Proof.
  unfold read_ptr_sect. intros Hp E.
  assert (Z0 : is_u64 0) by (unfold is_u64; lia).
  destruct (_ || _); [c_inv; auto|].
  apply bind_Ok in E as (raw & Hr & E).
  destruct raw as [[w c']|]; [|c_inv; auto].
  apply read_form_words in Hr as [Hw Hc']; [|exact Hp].
  destruct (adjust_value w p t ta da) as [x|] eqn:A; [|c_inv; auto].
  assert (is_u64 x).
  { unfold adjust_value in A. repeat case_match; simplify_eq; auto with kunwind. }
  destruct (flag _ _); [|c_inv; auto].
  unfold _stp_read_address in E.
  destruct (access_ok _ _ _); [|c_inv; auto].
  destruct (get_user _ _); [|c_inv; auto].
  c_inv. split; [|auto]. apply (Z.mod_pos_bound _ (2 ^ 64)). lia.
Qed.
End words.

(** ** Claims *)

(** C33: A table entry round trip: two pointers of any fixed or ULEB128 form, signed or
    not, relative to nothing, to their own address, or to a text or data base,
    are read back one after the other with their bases added, for a 64-bit task.
    Signed LEB128 and indirect pointers are not covered. *)
Theorem read_ptr_sect_roundtrip `{K : Kernel} loc end_ form signed adj textAddr dataAddr user
    tableSize v w :
  plain_form form -> plain_adjust adj -> (form = DW_EH_PE_leb128 -> signed = false) ->
  form_range form signed v = true -> form_range form signed w = true ->
  bytes_at loc (form_bytes form v ++ form_bytes form w) ->
  loc + Z.of_nat (length (form_bytes form v ++ form_bytes form w)) <= end_ -> end_ <= ptr_limit ->
  let e := encoding form signed adj in
  let mid := loc + Z.of_nat (length (form_bytes form v)) in
  read_ptr_sect loc end_ e textAddr dataAddr user false tableSize =
    Ok (u64 (v + adjust_base adj loc textAddr dataAddr), mid) /\
  read_ptr_sect mid end_ e textAddr dataAddr user false tableSize =
    Ok (u64 (w + adjust_base adj mid textAddr dataAddr),
        mid + Z.of_nat (length (form_bytes form w))).
Proof.
  intros Hf Ha Hs Hv Hw [H1 H2]%bytes_at_app He Hl. rewrite length_app in He.
  split; apply read_ptr_sect_encode; assumption || lia.
Qed.

Lemma read_ptr_sect_roundtrip_witness :
  let K := image_kernel [(4096, le_bytes 4 (-16) ++ le_bytes 4 32)] [] in
  read_ptr_sect 4096 4104 0x3b 0 0x5000 true false 4 = Ok (0x4ff0, 4100) /\
  read_ptr_sect 4100 4104 0x3b 0 0x5000 true false 4 = Ok (0x5020, 4104).
Proof.
  apply (read_ptr_sect_roundtrip (K := image_kernel _ []) 4096 4104 DW_EH_PE_data4 true DW_EH_PE_datarel
    0 0x5000 true 4 (-16) 32);
    [unfold plain_form; tauto|unfold plain_adjust; tauto|discriminate|reflexivity|reflexivity|
    |vm_compute; discriminate|vm_compute; discriminate].
  apply bytes_atb_true. vm_compute. reflexivity.
Defined.
