(* ===== verification/Regs.v ===== *)
(** * Registers and frames on x86_64

    src/src/unwind/x86_64.h and the [reg_info] table of src/src/unwind/unwind.h:
    the saved registers of a frame, the numbering of DWARF registers and the
    access [FRAME_REG] by number. *)
From S2P Require Import Prelude.

(** [struct pt_regs], as an array of words: the offsets are those of the
    register stores in [arch_unw_init_frame_info]. *)
Definition PT_R15 : nat := 0.
Definition PT_R14 : nat := 1.
Definition PT_R13 : nat := 2.
Definition PT_R12 : nat := 3.
Definition PT_BP : nat := 4.
Definition PT_BX : nat := 5.
Definition PT_R11 : nat := 6.
Definition PT_R10 : nat := 7.
Definition PT_R9 : nat := 8.
Definition PT_R8 : nat := 9.
Definition PT_AX : nat := 10.
Definition PT_CX : nat := 11.
Definition PT_DX : nat := 12.
Definition PT_SI : nat := 13.
Definition PT_DI : nat := 14.
Definition PT_ORIG_AX : nat := 15.
Definition PT_IP : nat := 16.
Definition PT_CS : nat := 17.
Definition PT_FLAGS : nat := 18.
Definition PT_SP : nat := 19.
Definition PT_SS : nat := 20.
Definition PT_WORDS : nat := 21.

Record unwind_frame_info : Type := mk_frame {
  fr_regs : list Z;      (* the words of struct pt_regs *)
  call_frame : Z         (* unsigned call_frame:1 *)
}.

Definition word (f : unwind_frame_info) (i : nat) : Z := nth i (fr_regs f) 0.
Definition set_word (f : unwind_frame_info) (i : nat) (v : Z) : unwind_frame_info :=
  mk_frame (<[i := v]> (fr_regs f)) (call_frame f).

Definition UNW_PC (f : unwind_frame_info) : Z := word f PT_IP.
Definition UNW_SP (f : unwind_frame_info) : Z := word f PT_SP.
Definition UNW_BP (f : unwind_frame_info) : Z := word f PT_BP.

(** ** Register numbers *)

Definition RBP : Z := 6.
Definition RSP : Z := 7.
Definition UNW_PC_IDX : Z := 16.
Definition UNW_SP_IDX : Z := 7.
Definition UNW_NR_REAL_REGS : Z := 16.
Definition UNW_PC_FROM_RA : bool := false.
Definition UNW_SP_FROM_CFA : bool := true.

(** [reg_info[]]: word offset and width in bytes of each DWARF register, in the
    order of [UNW_REGISTER_INFO]. *)
Definition reg_info : list (nat * Z) :=
  map (fun o => (o, 8))
    [PT_AX; PT_DX; PT_CX; PT_BX; PT_SI; PT_DI; PT_BP; PT_SP; PT_R8; PT_R9; PT_R10;
     PT_R11; PT_R12; PT_R13; PT_R14; PT_R15; PT_IP].

(** [ARRAY_SIZE(reg_info)] *)
Definition NR_REGS : Z := 17.

Definition reg_info_at (r : Z) : option (nat * Z) :=
  if 0 <=? r then reg_info !! Z.to_nat r else None.

(** [REG_INVALID(r)]: [reg_info[r].width == 0]; reading past the table is out of
    bounds. *)
Definition REG_INVALID (r : Z) : C bool :=
  match reg_info_at r with Some (_, w) => Ok (w =? 0) | None => Crash OutOfBounds end.

Definition reg_width (r : Z) : C Z :=
  match reg_info_at r with Some (_, w) => Ok w | None => Crash OutOfBounds end.

(** [FRAME_REG(r, unsigned long)] as a value and as an assigned object. *)
Definition FRAME_REG (f : unwind_frame_info) (r : Z) : C Z :=
  match reg_info_at r with Some (o, _) => Ok (word f o) | None => Crash OutOfBounds end.

Definition set_FRAME_REG (f : unwind_frame_info) (r v : Z) : C unwind_frame_info :=
  match reg_info_at r with
  | Some (o, _) => Ok (set_word f o v)
  | None => Crash OutOfBounds
  end.

(** The i386 numbering mapped to the x86_64 one. *)
Definition COMPAT_REG_MAP (r : Z) : Z :=
  if (9 <=? r) && (r <=? 16) then r
  else if r =? 0 then r
  else if r =? 1 then 2
  else if r =? 2 then 1
  else if r =? 3 then r
  else if r =? 4 then 7
  else if r =? 5 then 6
  else if r =? 6 then 4
  else if r =? 7 then 5
  else if r =? 8 then 16
  else 9999.

(** x86_64 keeps the default of unwind.h. *)
Definition DWARF_REG_MAP (r : Z) : Z := r.

(** [arch_unw_init_frame_info(info, regs, sanitize)] for [regs != NULL];
    [same] is [&info->regs == regs]. *)
Definition sanitized_words : list nat :=
  [PT_R11; PT_R10; PT_R9; PT_R8; PT_AX; PT_CX; PT_DX; PT_SI; PT_DI; PT_ORIG_AX; PT_IP;
   PT_FLAGS; PT_SP; PT_CS; PT_SS].

Definition arch_unw_init_frame_info (info : unwind_frame_info) (regs : list Z)
    (same sanitize : bool) : unwind_frame_info :=
  if same then mk_frame (fr_regs info) 1
  else
    let zero := mk_frame (repeat 0 PT_WORDS) 0 in
    if sanitize
    then fold_left (fun f i => set_word f i (nth i regs 0)) sanitized_words zero
    else mk_frame regs (call_frame zero).

(** ** Well-formed frames *)

Definition wf_frame (f : unwind_frame_info) : Prop :=
  length (fr_regs f) = PT_WORDS /\ Forall (fun v => 0 <= v < 2 ^ 64) (fr_regs f) /\
  0 <= call_frame f <= 1.

Lemma reg_info_range r o w : reg_info_at r = Some (o, w) -> 0 <= r < 17 /\ w = 8 /\ (o < 21)%nat.
Proof.
  unfold reg_info_at. destruct (Z.leb_spec 0 r); [|discriminate]. intros E.
  pose proof (lookup_lt_Some _ _ _ E) as L. simpl in L.
  split; [lia|]. replace r with (Z.of_nat (Z.to_nat r)) in E by lia.
  rewrite Nat2Z.id in E. clear -E L. revert E L. generalize (Z.to_nat r). intros n E L.
  do 17 (destruct n as [|n]; [vm_compute in E; injection E as <- <-; split; [reflexivity|lia]|]).
  lia.
Qed.

Lemma reg_info_at_valid r : 0 <= r < NR_REGS -> exists o, reg_info_at r = Some (o, 8).
Proof.
  unfold NR_REGS. intros H. unfold reg_info_at. destruct (Z.leb_spec 0 r); [|lia].
  destruct (lookup_lt_is_Some_2 reg_info (Z.to_nat r)) as [[o w] E]; [simpl; lia|].
  rewrite E. exists o. f_equal. f_equal.
  apply (reg_info_range r o). unfold reg_info_at. destruct (Z.leb_spec 0 r); [exact E|lia].
Qed.

Lemma reg_info_at_invalid r : ~ (0 <= r < NR_REGS) -> reg_info_at r = None.
Proof.
  unfold NR_REGS. intros H. unfold reg_info_at. destruct (Z.leb_spec 0 r); [|reflexivity].
  apply lookup_ge_None_2. simpl. lia.
Qed.

(** No two DWARF registers share a word of the frame. *)
Lemma reg_info_inj r1 r2 o w1 w2 :
  reg_info_at r1 = Some (o, w1) -> reg_info_at r2 = Some (o, w2) -> r1 = r2.
Proof.
  intros E1 E2. pose proof (reg_info_range _ _ _ E1) as (R1 & -> & _).
  pose proof (reg_info_range _ _ _ E2) as (R2 & -> & _).
  unfold reg_info_at in *. destruct (Z.leb_spec 0 r1), (Z.leb_spec 0 r2); try lia.
  assert (ND : NoDup reg_info) by (unfold reg_info; vm_compute; apply (bool_decide_unpack _); reflexivity).
  pose proof (NoDup_lookup _ _ _ _ ND E1 E2). lia.
Qed.

Lemma word_set_eq f o v : (o < length (fr_regs f))%nat -> word (set_word f o v) o = v.
Proof.
  intros H. unfold word, set_word. simpl.
  rewrite nth_lookup, list_lookup_insert_eq by assumption. reflexivity.
Qed.

Lemma word_set_ne f o o' v : o <> o' -> word (set_word f o v) o' = word f o'.
Proof.
  intros H. unfold word, set_word. simpl. rewrite !nth_lookup, list_lookup_insert_ne by congruence.
  reflexivity.
Qed.

Lemma wf_set_word f o v : wf_frame f -> 0 <= v < 2 ^ 64 -> wf_frame (set_word f o v).
Proof.
  intros (H1 & H2 & H3) Hv. repeat split; simpl; try lia.
  - rewrite length_insert. exact H1.
  - apply Forall_insert; assumption.
Qed.

Lemma word_range f o : wf_frame f -> 0 <= word f o < 2 ^ 64.
Proof.
  intros (_ & H & _). unfold word. rewrite nth_lookup.
  destruct (fr_regs f !! o) eqn:E; simpl; [|lia].
  eapply (Forall_lookup_1 _ _ _ _ H E).
Qed.
#[export] Hint Resolve wf_set_word word_range : kunwind.

Lemma FRAME_REG_valid f r : 0 <= r < NR_REGS -> exists v, FRAME_REG f r = Ok v.
Proof. intros H. unfold FRAME_REG. destruct (reg_info_at_valid r H) as [o ->]. eauto. Qed.

Lemma FRAME_REG_range f r v : wf_frame f -> FRAME_REG f r = Ok v -> 0 <= v < 2 ^ 64.
Proof.
  intros W E. unfold FRAME_REG in E. destruct (reg_info_at r) as [[o w]|]; [|discriminate].
  injection E as <-. auto with kunwind.
Qed.

Lemma set_FRAME_REG_wf f r v f' :
  wf_frame f -> 0 <= v < 2 ^ 64 -> set_FRAME_REG f r v = Ok f' -> wf_frame f'.
Proof.
  intros W Hv E. unfold set_FRAME_REG in E. destruct (reg_info_at r) as [[o w]|]; [|discriminate].
  injection E as <-. auto with kunwind.
Qed.

(** assigning to a register changes that register and no other. *)
Theorem FRAME_REG_set f r r' v f' :
  wf_frame f -> set_FRAME_REG f r v = Ok f' ->
  FRAME_REG f' r' = if r' =? r then Ok v else FRAME_REG f r'.
Proof.
  intros (Hl & _) E. unfold set_FRAME_REG in E. unfold FRAME_REG.
  destruct (reg_info_at r) as [[o w]|] eqn:Er; [|discriminate]. injection E as <-.
  destruct (Z.eqb_spec r' r) as [->|Hne].
  - rewrite Er. rewrite word_set_eq; [reflexivity|].
    rewrite Hl. apply (reg_info_range _ _ _ Er).
  - destruct (reg_info_at r') as [[o' w']|] eqn:Er'; [|reflexivity].
    rewrite word_set_ne; [reflexivity|]. intros ->. apply Hne. symmetry.
    eapply reg_info_inj; eassumption.
Qed.

(** Under the compat mapping the eight i386 registers and the return address
    column reach distinct x86_64 registers. *)
Theorem COMPAT_REG_MAP_inj r1 r2 :
  0 <= r1 <= 8 -> 0 <= r2 <= 8 -> COMPAT_REG_MAP r1 = COMPAT_REG_MAP r2 -> r1 = r2.
Proof. intros H1 H2. unfold COMPAT_REG_MAP. repeat zcase; simpl; lia. Qed.

(** The number 9999 stands for every register the mapping does not know. *)
Lemma COMPAT_REG_MAP_valid r :
  0 <= r -> 0 <= COMPAT_REG_MAP r < NR_REGS <-> r <= 16.
Proof.
  intros Hr. unfold COMPAT_REG_MAP, NR_REGS. repeat zcase; simpl; lia.
Qed.
