(* ===== verification/Arch.v ===== *)
(** * The other architectures

    The register tables of src/src/unwind/i386.h, arm.h, arm64.h, ppc64.h and
    s390x.h beside that of x86_64.h, one of which src/src/unwind/unwind.h includes:
    the members of [struct pt_regs] by DWARF number, the numbering, the constants
    the unwinder is configured with, and the start of a walk. Here a frame is a map
    from the members of [struct pt_regs] to their values; [Regs] has the layout of
    x86_64 in words, and the last part relates the two. *)
From stdpp Require Import strings pretty.
From S2P Require Import Prelude Regs.

(** ** Register tables *)

(** What a header defines: [UNW_REGISTER_INFO], the members [UNW_PC] and [UNW_SP]
    name, [DWARF_REG_MAP], and the constants, with the defaults of unwind.h where
    the header leaves them out. *)
Record arch : Type := mk_arch {
  reg_members : list string;
  pc_member : string;
  sp_member : string;
  dwarf_map : Z -> Z;
  pc_idx : Z;
  sp_idx : Z;
  real_regs : Z;
  pc_from_ra : bool;
  sp_from_cfa : bool
}.

(** [base[0]] ... [base[n-1]]. *)
Definition array_members (base : string) (n : nat) : list string :=
  map (fun i => base +:+ "[" +:+ pretty (N.of_nat i) +:+ "]") (seq 0 n).

Definition i386 : arch :=
  mk_arch ["ax"; "cx"; "dx"; "bx"; "sp"; "bp"; "si"; "di"; "ip"] "ip" "sp" (fun r => r) 8 4 8 false true.
(** The names of kernels without STAPCONF_X86_UNIREGS. *)
Definition i386_old : arch :=
  mk_arch ["eax"; "ecx"; "edx"; "ebx"; "esp"; "ebp"; "esi"; "edi"; "eip"] "eip" "esp" (fun r => r) 8 4 8 false true.

Definition arm_map (r : Z) : Z := if (0 <=? r) && (r <=? 15) then r else 9999.
Definition arm : arch :=
  mk_arch (array_members "uregs" 16) "uregs[15]" "uregs[13]" arm_map 15 13 16 true true.

Definition arm64_map (r : Z) : Z := if (0 <=? r) && (r <=? 31) then r else 9999.
Definition arm64 : arch :=
  mk_arch (array_members "regs" 31 ++ ["sp"; "pc"]) "pc" "sp" arm64_map 32 31 33 true true.

Definition ppc64_map (r : Z) : Z :=
  if (0 <=? r) && (r <=? 31) then r
  else if (r =? 64) || (r =? 100) then 32
  else if (r =? 65) || (r =? 108) then 34
  else if (r =? 66) || (r =? 109) then 33
  else 9999.
Definition ppc64 : arch :=
  mk_arch (array_members "gpr" 32 ++ ["softe"; "ctr"; "link"; "nip"]) "nip" "gpr[1]" ppc64_map 35 1 35 true true.

Definition s390x_map (r : Z) : Z :=
  if (0 <=? r) && (r <=? 15) then r
  else if r =? 64 then 16
  else if r =? 65 then 17
  else 9999.
Definition s390x : arch :=
  mk_arch (array_members "gprs" 16 ++ ["psw.addr"; "psw.mask"]) "psw.addr" "gprs[15]" s390x_map 16 15 18 true false.

Definition x86_64 : arch :=
  mk_arch ["ax"; "dx"; "cx"; "bx"; "si"; "di"; "bp"; "sp"; "r8"; "r9"; "r10"; "r11"; "r12"; "r13"; "r14"; "r15"; "ip"]
    "ip" "sp" DWARF_REG_MAP UNW_PC_IDX UNW_SP_IDX UNW_NR_REAL_REGS UNW_PC_FROM_RA UNW_SP_FROM_CFA.

Definition architectures : list arch := [x86_64; i386; i386_old; ppc64; s390x; arm; arm64].

(** ** Frames *)

(** [struct unwind_frame_info] *)
Record arch_frame : Type := mk_af { af_regs : gmap string Z; af_call : Z }.

Section frame.
Variable a : arch.

Definition member (f : arch_frame) (s : string) : Z := default 0 (af_regs f !! s).
Definition arch_pc (f : arch_frame) : Z := member f (pc_member a).
Definition arch_sp (f : arch_frame) : Z := member f (sp_member a).

(** The member of [struct pt_regs] that the DWARF register [r] is, if the table has
    one: [reg_info[DWARF_REG_MAP(r)]] with the test against [ARRAY_SIZE(reg_info)]. *)
Definition reg_member (r : Z) : option string :=
  if (0 <=? dwarf_map a r) && (dwarf_map a r <? Z.of_nat (length (reg_members a)))
  then reg_members a !! Z.to_nat (dwarf_map a r) else None.

Definition frame_reg (f : arch_frame) (r : Z) : option Z := member f <$> reg_member r.
Definition set_frame_reg (f : arch_frame) (r v : Z) : option arch_frame :=
  (fun s => mk_af (<[s := v]> (af_regs f)) (af_call f)) <$> reg_member r.
End frame.

(** [arch_unw_init_frame_info(info, regs, sanitize)] of arm.h, arm64.h, ppc64.h and
    s390x.h with saved registers; [same] is [&info->regs == regs]. *)
Definition init_frame (info : arch_frame) (regs : gmap string Z) (same : bool) : arch_frame :=
  if same then mk_af (af_regs info) 1 else mk_af regs 0.

(** The one of i386.h: a frame of the kernel has no stack pointer of its own among
    the saved registers, it is where they were saved: [regs_sp] is [&regs->sp] and
    [kernel_ds] is [__KERNEL_DS]. *)
Definition i386_init_frame (info : arch_frame) (regs : gmap string Z) (same user_mode : bool)
    (regs_sp kernel_ds : Z) : arch_frame :=
  if same then mk_af (af_regs info) 1
  else if user_mode then mk_af regs 0
  else mk_af (<["ss" := kernel_ds]> (<["sp" := regs_sp]> regs)) 0.

(** ** Snapshots of the processor

    Without saved registers the functions of x86_64.h, i386.h and arm64.h store the
    registers of the processor, which [cpu] gives by name, in [info->regs]. A store
    is a register and an offset in [struct pt_regs], whose layout is a list of
    members of [size] bytes. A segment register, of which the processor writes only
    the low half of its member, is taken whole: it is no DWARF register. *)
Definition store_at (layout : list string) (size : Z) (cpu : string -> Z) (f : arch_frame) (s : string * Z) : arch_frame :=
  match layout !! Z.to_nat (snd s / size) with
  | Some m => mk_af (<[m := cpu (fst s)]> (af_regs f)) (af_call f)
  | None => f
  end.
Definition snapshot (layout : list string) (size : Z) (stores : list (string * Z)) (cpu : string -> Z)
    (f : arch_frame) : arch_frame := fold_left (store_at layout size cpu) stores f.

(** The members in the order of the offsets. *)
Definition x86_64_layout : list string :=
  ["r15"; "r14"; "r13"; "r12"; "bp"; "bx"; "r11"; "r10"; "r9"; "r8"; "ax"; "cx"; "dx"; "si"; "di"; "orig_ax";
   "ip"; "cs"; "flags"; "sp"; "ss"].
Definition x86_64_stores : list (string * Z) :=
  [("rip", 128); ("r15", 0); ("r14", 8); ("r13", 16); ("r12", 24); ("rbp", 32); ("rbx", 40); ("r11", 48); ("r10", 56);
   ("r9", 64); ("r8", 72); ("rax", 80); ("rcx", 88); ("rdx", 96); ("rsi", 104); ("rdi", 112); ("cs", 136); ("rsp", 152);
   ("ss", 160)].
Definition x86_64_snapshot := snapshot x86_64_layout 8 x86_64_stores.

(** The configuration with fs and gs; the offsets after [orig_eax] are those from
    %3, which points to that member. *)
Definition i386_layout : list string :=
  ["bx"; "cx"; "dx"; "si"; "di"; "bp"; "ax"; "ds"; "es"; "fs"; "gs"; "orig_ax"; "ip"; "cs"; "flags"; "sp"; "ss"].
Definition ORIG_EAX : Z := 44.
Definition i386_stores : list (string * Z) :=
  [("eip", ORIG_EAX + 4); ("ebx", 0); ("ecx", 4); ("edx", 8); ("esi", 12); ("edi", 16); ("ebp", 20); ("eax", 24);
   ("ds", 28); ("es", 32); ("fs", 36); ("gs", 40); ("cs", ORIG_EAX + 8); ("esp", ORIG_EAX + 16); ("ss", ORIG_EAX + 20)].
Definition i386_snapshot := snapshot i386_layout 4 i386_stores.

(** The stores through %2 of arm64.h, two per [stp]; the one through %1 goes to an
    address nothing has set. *)
Definition arm64_layout : list string := array_members "regs" 31 ++ ["sp"; "pc"; "pstate"].
Definition arm64_stores : list (string * Z) :=
  map (fun i => ("x" +:+ pretty (N.of_nat i), 8 * Z.of_nat i)) (seq 0 28) ++ [("x29", 224); ("x30", 232); ("x16", 240)].
Definition arm64_snapshot := snapshot arm64_layout 8 arm64_stores.

(** ** Well-formed tables *)

(** The table of an architecture: no member twice, the program counter and the
    stack pointer where the two constants say, and a numbering that leads into the
    table or past its end, but never below it. *)
Record arch_ok (a : arch) : Prop := {
  ok_members : NoDup (reg_members a);
  ok_pc : 0 <= pc_idx a /\ reg_members a !! Z.to_nat (pc_idx a) = Some (pc_member a);
  ok_sp : 0 <= sp_idx a /\ reg_members a !! Z.to_nat (sp_idx a) = Some (sp_member a);
  ok_real : 0 < real_regs a <= Z.of_nat (length (reg_members a));
  ok_map : forall r, 0 <= r -> 0 <= dwarf_map a r
}.

Lemma architecture_ok a : a ∈ architectures -> arch_ok a.
Proof.
  unfold architectures. rewrite !elem_of_cons, elem_of_nil.
  intros [-> | [-> | [-> | [-> | [-> | [-> | [-> | []]]]]]]]; constructor;
    try (vm_compute; apply (bool_decide_unpack _); vm_compute; reflexivity);
    try (vm_compute; split; [discriminate|reflexivity]); try (vm_compute; split; congruence);
    intros r Hr; simpl; unfold DWARF_REG_MAP, arm_map, arm64_map, ppc64_map, s390x_map; repeat zcase; simpl; lia.
Qed.

Section ok.
Variable a : arch.
Hypothesis O : arch_ok a.

Lemma reg_member_lookup r s :
  0 <= r -> reg_member a r = Some s <-> reg_members a !! Z.to_nat (dwarf_map a r) = Some s.
Proof.
  intros Hr. pose proof (ok_map _ O r Hr). unfold reg_member.
  destruct (Z.leb_spec 0 (dwarf_map a r)); [|lia]. cbn [andb].
  destruct (Z.ltb_spec (dwarf_map a r) (Z.of_nat (length (reg_members a)))); [tauto|].
  rewrite lookup_ge_None_2 by lia. split; discriminate.
Qed.

(** Two numbers are the same member exactly when the numbering takes them to the
    same entry. *)
Lemma reg_member_same r r' s s' :
  0 <= r -> 0 <= r' -> reg_member a r = Some s -> reg_member a r' = Some s' ->
  s = s' <-> dwarf_map a r = dwarf_map a r'.
Proof.
  intros Hr Hr' E E'. apply reg_member_lookup in E; [|exact Hr]. apply reg_member_lookup in E'; [|exact Hr'].
  pose proof (ok_map _ O r Hr). pose proof (ok_map _ O r' Hr'). split.
  - intros <-. pose proof (NoDup_lookup _ _ _ _ (ok_members _ O) E E'). lia.
  - intros M. rewrite M in E. congruence.
Qed.

Lemma reg_member_at r s i m :
  0 <= r -> reg_member a r = Some s -> 0 <= i -> reg_members a !! Z.to_nat i = Some m ->
  m = s <-> dwarf_map a r = i.
Proof.
  intros Hr E Hi Em. apply reg_member_lookup in E; [|exact Hr]. pose proof (ok_map _ O r Hr). split.
  - intros <-. pose proof (NoDup_lookup _ _ _ _ (ok_members _ O) E Em). lia.
  - intros M. rewrite M in E. congruence.
Qed.
End ok.

Lemma member_insert f s v s' :
  member (mk_af (<[s := v]> (af_regs f)) (af_call f)) s' = if decide (s' = s) then v else member f s'.
Proof.
  unfold member. simpl. destruct (decide (s' = s)) as [->|N]; [rewrite lookup_insert_eq|rewrite lookup_insert_ne by congruence];
    reflexivity.
Qed.

(** C36: On every architecture a DWARF register is a variable of its own: assigning it
    is reading it back, changes no register with another entry of the table, and
    changes the program counter and the stack pointer of the frame exactly when
    its entry is theirs. *)
Theorem arch_registers a f r v f' :
  a ∈ architectures -> 0 <= r -> set_frame_reg a f r v = Some f' ->
  (forall r', 0 <= r' -> frame_reg a f' r' =
     if dwarf_map a r' =? dwarf_map a r then Some v else frame_reg a f r') /\
  arch_pc a f' = (if dwarf_map a r =? pc_idx a then v else arch_pc a f) /\
  arch_sp a f' = (if dwarf_map a r =? sp_idx a then v else arch_sp a f) /\
  af_call f' = af_call f.
Proof.
  intros Ha Hr E. pose proof (architecture_ok a Ha) as O. unfold set_frame_reg in E.
  destruct (reg_member a r) as [s|] eqn:Es; [|discriminate]. injection E as <-.
  destruct (ok_pc _ O) as [Hp Ep], (ok_sp _ O) as [Hs Esp]. split_and!; [|unfold arch_pc|unfold arch_sp|reflexivity].
  - intros r' Hr'. unfold frame_reg. destruct (reg_member a r') as [s'|] eqn:Es'; simpl.
    + rewrite member_insert. pose proof (reg_member_same a O r' r s' s Hr' Hr Es' Es).
      destruct (Z.eqb_spec (dwarf_map a r') (dwarf_map a r)), (decide (s' = s)); try reflexivity; tauto.
    + destruct (Z.eqb_spec (dwarf_map a r') (dwarf_map a r)) as [M|]; [|reflexivity]. exfalso.
      unfold reg_member in *. rewrite M in Es'. congruence.
  - rewrite member_insert. pose proof (reg_member_at a O r s _ _ Hr Es Hp Ep).
    destruct (Z.eqb_spec (dwarf_map a r) (pc_idx a)), (decide (pc_member a = s)); try reflexivity; tauto.
  - rewrite member_insert. pose proof (reg_member_at a O r s _ _ Hr Es Hs Esp).
    destruct (Z.eqb_spec (dwarf_map a r) (sp_idx a)), (decide (sp_member a = s)); try reflexivity; tauto.
Qed.

Lemma arch_registers_witness :
  let f := mk_af ∅ 0 in let f' := mk_af (<["link" := 7]> ∅) 0 in
  set_frame_reg ppc64 f 108 7 = Some f' /\
  (forall r', 0 <= r' -> frame_reg ppc64 f' r' =
     if dwarf_map ppc64 r' =? dwarf_map ppc64 108 then Some 7 else frame_reg ppc64 f r') /\
  arch_pc ppc64 f' = (if dwarf_map ppc64 108 =? pc_idx ppc64 then 7 else arch_pc ppc64 f) /\
  arch_sp ppc64 f' = (if dwarf_map ppc64 108 =? sp_idx ppc64 then 7 else arch_sp ppc64 f) /\
  af_call f' = af_call f.
Proof.
  split; [vm_compute; reflexivity|].
  apply (arch_registers ppc64 (mk_af ∅ 0) 108 7); [|lia|vm_compute; reflexivity].
  unfold architectures. rewrite !elem_of_cons. auto 10.
Defined.

(** ** The walk starts from the saved registers *)

Lemma init_frame_registers a info regs r s :
  reg_member a r = Some s -> frame_reg a (init_frame info regs false) r = Some (default 0 (regs !! s)).
Proof. intros E. unfold frame_reg. rewrite E. reflexivity. Qed.

(** A frame of the kernel on i386: the stack pointer is where the registers were
    saved, every other DWARF register was saved. *)
Lemma i386_kernel_frame info regs regs_sp kernel_ds r s :
  reg_member i386 r = Some s ->
  frame_reg i386 (i386_init_frame info regs false false regs_sp kernel_ds) r =
    Some (if decide (s = "sp") then regs_sp else default 0 (regs !! s)).
Proof.
  intros E. unfold frame_reg. rewrite E. unfold i386_init_frame, member. simpl.
  assert (s <> "ss").
  { intros ->. unfold reg_member in E. destruct (_ && _); [|discriminate].
    assert (H : "ss" ∈ reg_members i386) by (eapply list_elem_of_lookup_2; exact E).
    simpl in H. rewrite !elem_of_cons, elem_of_nil in H. intuition discriminate. }
  rewrite lookup_insert_ne by congruence. destruct (decide (s = "sp")) as [->|]; [rewrite lookup_insert_eq; reflexivity|].
  rewrite lookup_insert_ne by congruence. reflexivity.
Qed.

(** ** x86_64 in words and by name *)

(** The frame of [Regs] as a map: the layout of [struct pt_regs] the stores of the
    snapshot show. *)
Definition by_name (regs : list Z) : gmap string Z := list_to_map (zip x86_64_layout regs).
Definition frame_by_name (f : unwind_frame_info) : arch_frame := mk_af (by_name (fr_regs f)) (call_frame f).

Lemma layout_NoDup : NoDup x86_64_layout.
Proof. apply (bool_decide_unpack _). vm_compute. reflexivity. Qed.

Lemma by_name_lookup regs i s :
  length regs = PT_WORDS -> x86_64_layout !! i = Some s -> by_name regs !! s = regs !! i.
Proof.
  intros Hl Es. pose proof (lookup_lt_Some _ _ _ Es) as Hi. change (length x86_64_layout) with PT_WORDS in Hi.
  destruct (lookup_lt_is_Some_2 regs i) as [v Ev]; [lia|]. rewrite Ev. unfold by_name.
  apply elem_of_list_to_map_1.
  - rewrite fst_zip by (rewrite Hl; reflexivity). exact layout_NoDup.
  - eapply list_elem_of_lookup_2. apply lookup_zip_with_Some. eauto.
Qed.

(** The table of [Regs] and the one by name have the same members. *)
Lemma reg_info_members r : 0 <= r ->
  match reg_info_at r with
  | Some (o, _) => exists s, x86_64_layout !! o = Some s /\ reg_member x86_64 r = Some s
  | None => reg_member x86_64 r = None
  end.
Proof.
  intros Hr. destruct (Z.lt_ge_cases r NR_REGS) as [H|H]; unfold NR_REGS in H.
  - replace r with (Z.of_nat (Z.to_nat r)) by lia.
    assert (Hn : (Z.to_nat r < 17)%nat) by lia. revert Hn. generalize (Z.to_nat r). intros n Hn.
    do 17 (destruct n as [|n]; [vm_compute; eexists; split; reflexivity|]). lia.
  - rewrite reg_info_at_invalid by (unfold NR_REGS; lia). unfold reg_member. change (dwarf_map x86_64 r) with r.
    change (Z.of_nat (length (reg_members x86_64))) with 17. destruct (Z.ltb_spec r 17); [lia|]. rewrite andb_false_r. reflexivity.
Qed.

(** The frames of [Regs], on which the unwinder is modelled, are those of the
    x86_64 table by name: the same registers, program counter and stack pointer,
    and the same start of a walk. *)
Theorem x86_64_by_name f r info regs same :
  length (fr_regs f) = PT_WORDS -> 0 <= r ->
  frame_reg x86_64 (frame_by_name f) r = (match FRAME_REG f r with Ok v => Some v | Crash _ => None end) /\
  arch_pc x86_64 (frame_by_name f) = UNW_PC f /\ arch_sp x86_64 (frame_by_name f) = UNW_SP f /\
  frame_by_name (arch_unw_init_frame_info info regs same false) =
    init_frame (frame_by_name info) (by_name regs) same.
Proof.
  intros Hl Hr.
  assert (M : forall i s, x86_64_layout !! i = Some s -> member (frame_by_name f) s = word f i).
  { intros i s Es. unfold member, word. simpl. rewrite (by_name_lookup _ i s Hl Es), nth_lookup. reflexivity. }
  split_and!.
  - unfold frame_reg, FRAME_REG. pose proof (reg_info_members r Hr) as H.
    destruct (reg_info_at r) as [[o w]|]; [|rewrite H; reflexivity]. destruct H as (s & Es & ->). simpl.
    rewrite (M o s Es). reflexivity.
  - apply M. reflexivity.
  - apply M. reflexivity.
  - destruct same; reflexivity.
Qed.

Lemma x86_64_by_name_witness :
  let f := mk_frame (repeat 5 PT_WORDS) 0 in
  frame_reg x86_64 (frame_by_name f) 7 = Some 5 /\
  arch_pc x86_64 (frame_by_name f) = 5 /\ arch_sp x86_64 (frame_by_name f) = 5 /\
  frame_by_name (arch_unw_init_frame_info f (fr_regs f) true false) =
    init_frame (frame_by_name f) (by_name (fr_regs f)) true.
Proof. apply (x86_64_by_name (mk_frame (repeat 5 PT_WORDS) 0) 7); [reflexivity|lia]. Defined.

(** ** What the snapshots hold *)

(** The register a member of the frame holds after the stores: that of the last
    store to it. *)
Definition writer (layout : list string) (size : Z) (stores : list (string * Z)) (s : string) : option string :=
  fold_left (fun w st => if decide (layout !! Z.to_nat (snd st / size) = Some s) then Some (fst st) else w) stores None.

Lemma snapshot_member layout size stores cpu f s :
  member (snapshot layout size stores cpu f) s =
  match writer layout size stores s with Some n => cpu n | None => member f s end.
Proof.
  unfold snapshot, writer. induction stores as [|st l IH] using rev_ind; [reflexivity|].
  rewrite !fold_left_app. cbn [fold_left]. unfold store_at at 1.
  destruct (layout !! Z.to_nat (snd st / size)) as [m|] eqn:E.
  - rewrite member_insert, IH. destruct (decide (s = m)) as [->|N]; [rewrite decide_True by reflexivity; reflexivity|].
    rewrite decide_False by congruence. reflexivity.
  - rewrite decide_False by discriminate. exact IH.
Qed.

(** On x86_64 and i386 every DWARF register gets the register of that number of
    the processor, whatever the frame held. *)
Theorem snapshot_registers cpu f r n :
  (["rax"; "rdx"; "rcx"; "rbx"; "rsi"; "rdi"; "rbp"; "rsp"; "r8"; "r9"; "r10"; "r11"; "r12"; "r13"; "r14"; "r15"; "rip"]
     !! r = Some n -> frame_reg x86_64 (x86_64_snapshot cpu f) (Z.of_nat r) = Some (cpu n)) /\
  (["eax"; "ecx"; "edx"; "ebx"; "esp"; "ebp"; "esi"; "edi"; "eip"] !! r = Some n ->
     frame_reg i386 (i386_snapshot cpu f) (Z.of_nat r) = Some (cpu n)).
Proof.
  assert (R : forall a l w st q s m, reg_member a q = Some s -> writer l w st s = Some m ->
    frame_reg a (snapshot l w st cpu f) q = Some (cpu m)).
  { intros a l w st q s m Es Ew. unfold frame_reg. rewrite Es. simpl. rewrite snapshot_member, Ew. reflexivity. }
  split; intros E; (pose proof (lookup_lt_Some _ _ _ E) as Hr; simpl in Hr);
    repeat (destruct r as [|r]; [injection E as <-; eapply R; vm_compute; reflexivity|]); lia.
Qed.

(** On arm64 the last pair is stored one member too low, and x16 where the stack
    pointer is meant: x29 is found as x28, x30 as x29 and x16 as x30; the stack
    pointer and the program counter of the frame are not written by these stores. *)
Theorem arm64_snapshot_misplaced cpu f :
  frame_reg arm64 (arm64_snapshot cpu f) 28 = Some (cpu "x29") /\
  frame_reg arm64 (arm64_snapshot cpu f) 29 = Some (cpu "x30") /\
  frame_reg arm64 (arm64_snapshot cpu f) 30 = Some (cpu "x16") /\
  arch_sp arm64 (arm64_snapshot cpu f) = arch_sp arm64 f /\ arch_pc arm64 (arm64_snapshot cpu f) = arch_pc arm64 f.
Proof.
  unfold frame_reg, arch_sp, arch_pc.
  replace (reg_member arm64 28) with (Some "regs[28]") by (vm_compute; reflexivity).
  replace (reg_member arm64 29) with (Some "regs[29]") by (vm_compute; reflexivity).
  replace (reg_member arm64 30) with (Some "regs[30]") by (vm_compute; reflexivity).
  simpl. unfold arm64_snapshot. rewrite !snapshot_member. split_and!; vm_compute; reflexivity.
Qed.
