(* ===== verification/Rules.v ===== *)
(** * Unwind state and register rules

    [struct unwind_item], [struct unwind_reg_state] and [struct unwind_state] of
    src/src/unwind/unwind.h and the rule setters of src/src/unwind.c. *)
From S2P Require Import Prelude Machine Leb128 Regs.

(** [enum item_location] *)
Inductive item_location : Type :=
  | Same | Nowhere | Memory | Register | Value | Expr | ValExpr.

#[export] Instance item_location_eq_dec : EqDecision item_location.
Proof. solve_decision. Defined.

(** [struct unwind_item]. The union [state] (reg, off, val, expr) is one 64-bit
    pattern; [off] reads it as signed. *)
Record unwind_item : Type := mk_item { where_ : item_location; state_ : Z }.
Definition item_off (i : unwind_item) : Z := s64 (state_ i).

(** [struct unwind_reg_state]. [cfa_reg] is the first word of the union, which
    [cfa.reg] and [cfa_expr] share; [cfa_off] is the pattern of [cfa.off]. *)
Record unwind_reg_state : Type := mk_reg_state {
  cfa_reg : Z;
  cfa_off : Z;
  rs_regs : list unwind_item;
  cfa_is_expr : bool
}.
Definition cfa_expr (rs : unwind_reg_state) : Z := cfa_reg rs.

Definition STP_MAX_STACK_DEPTH : Z := 4.

Record unwind_state : Type := mk_state {
  loc : Z;
  codeAlign : Z;
  dataAlign : Z;
  stackDepth : nat;
  reg : list unwind_reg_state;
  cie_regs : list unwind_item
}.

(** [memset(state, 0, sizeof( *state))] *)
Definition zero_item : unwind_item := mk_item Same 0.
Definition zero_reg_state : unwind_reg_state := mk_reg_state 0 0 (replicate 17 zero_item) false.
Definition zero_state : unwind_state :=
  mk_state 0 0 0 0 (replicate 4 zero_reg_state) (replicate 17 zero_item).

(** [static const struct cfa badCFA = { ARRAY_SIZE(reg_info), 1 };] *)
Definition badCFA : Z * Z := (NR_REGS, 1).

(** [#define REG_STATE state->reg[state->stackDepth]] as a value and as an
    assigned object. *)
Definition REG_STATE (st : unwind_state) : unwind_reg_state :=
  nth (stackDepth st) (reg st) zero_reg_state.
Definition set_REG_STATE (st : unwind_state) (rs : unwind_reg_state) : unwind_state :=
  mk_state (loc st) (codeAlign st) (dataAlign st) (stackDepth st)
    (<[stackDepth st := rs]> (reg st)) (cie_regs st).

Definition set_loc (st : unwind_state) (l : Z) : unwind_state :=
  mk_state l (codeAlign st) (dataAlign st) (stackDepth st) (reg st) (cie_regs st).
Definition set_depth (st : unwind_state) (d : nat) : unwind_state :=
  mk_state (loc st) (codeAlign st) (dataAlign st) d (reg st) (cie_regs st).

(** [REG_STATE.regs[r]] *)
Definition reg_item (st : unwind_state) (r : Z) : unwind_item :=
  nth (Z.to_nat r) (rs_regs (REG_STATE st)) zero_item.

Definition update_item (st : unwind_state) (r : Z) (i : unwind_item) : unwind_state :=
  let rs := REG_STATE st in
  set_REG_STATE st
    (mk_reg_state (cfa_reg rs) (cfa_off rs) (<[Z.to_nat r := i]> (rs_regs rs))
       (cfa_is_expr rs)).

(** Returns the new state and the C result [delta > 0]. *)
Definition advance_loc (delta : Z) (st : unwind_state) : unwind_state * bool :=
  (set_loc st (u64 (loc st + u64 (delta * codeAlign st))), 0 <? delta).

(** [if (reg < ARRAY_SIZE(REG_STATE.regs))]: [reg] is unsigned. *)
Definition set_no_state_rule (r : Z) (w : item_location) (st : unwind_state) : unwind_state :=
  if r <? NR_REGS then update_item st r (mk_item w (state_ (reg_item st r))) else st.

Definition set_offset_rule (r : Z) (w : item_location) (svalue : Z) (st : unwind_state)
    : unwind_state :=
  if r <? NR_REGS then update_item st r (mk_item w (u64 svalue)) else st.

Definition set_register_rule (r value : Z) (st : unwind_state) : unwind_state :=
  if r <? NR_REGS then update_item st r (mk_item Register value) else st.

(** Returns the new [*expr] and the state. [end - *expr >= len] compares a
    [ptrdiff_t] with an [unsigned long]: both sides are unsigned. *)
Definition set_expr_rule `{K : Kernel} (r : Z) (w : item_location) (expr end_ : Z)
    (st : unwind_state) : C (Z * unwind_state) :=
  let start := expr in
  '(len, expr) ← get_uleb128 expr end_;
  if (len <=? u64 (end_ - expr)) && (r <? NR_REGS)
  then Ok (u64 (expr + len), update_item st r (mk_item w start))
  else Ok (expr, st).

(** [if (value < ARRAY_SIZE(REG_STATE.regs)) memcpy(&REG_STATE.regs[value],
    &state->cie_regs[value], sizeof(struct unwind_item));] *)
Definition restore_rule (r : Z) (st : unwind_state) : unwind_state :=
  if r <? NR_REGS then update_item st r (nth (Z.to_nat r) (cie_regs st) zero_item) else st.

(** The writes to the CFA part of [REG_STATE]. *)
Definition set_cfa_reg (st : unwind_state) (r : Z) : unwind_state :=
  let rs := REG_STATE st in
  set_REG_STATE st (mk_reg_state r (cfa_off rs) (rs_regs rs) (cfa_is_expr rs)).
Definition set_cfa_off (st : unwind_state) (o : Z) : unwind_state :=
  let rs := REG_STATE st in
  set_REG_STATE st (mk_reg_state (cfa_reg rs) (u64 o) (rs_regs rs) (cfa_is_expr rs)).
Definition set_cfa_is_expr (st : unwind_state) (b : bool) : unwind_state :=
  let rs := REG_STATE st in
  set_REG_STATE st (mk_reg_state (cfa_reg rs) (cfa_off rs) (rs_regs rs) b).

(** ** Well-formed states *)

Definition wf_item (i : unwind_item) : Prop := is_u64 (state_ i).
Definition wf_items (l : list unwind_item) : Prop := length l = 17%nat /\ Forall wf_item l.
Definition wf_reg_state (rs : unwind_reg_state) : Prop :=
  is_u64 (cfa_reg rs) /\ is_u64 (cfa_off rs) /\ wf_items (rs_regs rs).

Record wf_state (st : unwind_state) : Prop := {
  wf_loc : is_u64 (loc st);
  wf_code : is_u64 (codeAlign st);
  wf_data : - 2 ^ 63 <= dataAlign st < 2 ^ 63;
  wf_depth : (stackDepth st < 4)%nat;
  wf_reg_len : length (reg st) = 4%nat;
  wf_reg : Forall wf_reg_state (reg st);
  wf_cie : wf_items (cie_regs st)
}.

Lemma wf_zero_item : wf_item zero_item.
Proof. unfold wf_item, is_u64. simpl. lia. Qed.

Lemma wf_nth_item l n : wf_items l -> wf_item (nth n l zero_item).
Proof.
  intros [_ H]. rewrite nth_lookup. destruct (l !! n) eqn:E; simpl; [|apply wf_zero_item].
  apply (Forall_lookup_1 _ _ _ _ H E).
Qed.

Lemma wf_zero_reg_state : wf_reg_state zero_reg_state.
Proof.
  split_and!; try (simpl; unfold is_u64; lia). split; [reflexivity|].
  apply Forall_replicate, wf_zero_item.
Qed.

Lemma wf_REG_STATE st : wf_state st -> wf_reg_state (REG_STATE st).
Proof.
  intros W. unfold REG_STATE. rewrite nth_lookup.
  destruct (reg st !! stackDepth st) eqn:E; simpl; [|apply wf_zero_reg_state].
  apply (Forall_lookup_1 _ _ _ _ (wf_reg st W) E).
Qed.

Lemma REG_STATE_set st rs : wf_state st -> REG_STATE (set_REG_STATE st rs) = rs.
Proof.
  intros W. unfold REG_STATE, set_REG_STATE. simpl. rewrite nth_lookup.
  rewrite list_lookup_insert_eq; [reflexivity|]. rewrite (wf_reg_len st W). apply W.
Qed.

Lemma wf_set_REG_STATE st rs : wf_state st -> wf_reg_state rs -> wf_state (set_REG_STATE st rs).
Proof.
  intros [] Hrs. constructor; simpl; try assumption.
  - rewrite length_insert. assumption.
  - apply Forall_insert; assumption.
Qed.

Lemma wf_mk_reg_state r o l b :
  is_u64 r -> is_u64 o -> wf_items l -> wf_reg_state (mk_reg_state r o l b).
Proof. intros Hr Ho Hl. exact (conj Hr (conj Ho Hl)). Qed.

(** Rewriting one part of the current row. *)
Ltac solve_row W :=
  apply wf_set_REG_STATE; [exact W|];
  destruct (wf_REG_STATE _ W) as (H1 & H2 & H3);
  apply wf_mk_reg_state; first [assumption | apply u64_range].

Lemma wf_update_item st r i : wf_state st -> wf_item i -> wf_state (update_item st r i).
Proof.
  intros W Hi. apply wf_set_REG_STATE; [assumption|].
  destruct (wf_REG_STATE st W) as (H1 & H2 & H3 & H4). repeat split; simpl; try apply H1; try apply H2.
  - rewrite length_insert. exact H3.
  - apply Forall_insert; assumption.
Qed.
#[export] Hint Resolve wf_update_item wf_set_REG_STATE wf_REG_STATE wf_nth_item : kunwind.

Lemma wf_reg_item st r : wf_state st -> wf_item (reg_item st r).
Proof. intros W. apply wf_nth_item. apply wf_REG_STATE, W. Qed.
#[export] Hint Resolve wf_reg_item : kunwind.

Lemma reg_item_update st r r' i :
  wf_state st -> 0 <= r < NR_REGS -> 0 <= r' ->
  reg_item (update_item st r i) r' = if r' =? r then i else reg_item st r'.
Proof.
  unfold NR_REGS. intros W Hr Hr'. unfold reg_item, update_item. rewrite REG_STATE_set by assumption.
  simpl. rewrite !nth_lookup. destruct (wf_REG_STATE st W) as (_ & _ & Hl & _).
  destruct (Z.eqb_spec r' r) as [->|Hne].
  - rewrite list_lookup_insert_eq; [reflexivity|]. lia.
  - rewrite list_lookup_insert_ne by lia. reflexivity.
Qed.

Ltac solve_wf_rule := intros; repeat case_match; simpl; auto with kunwind.

Lemma wf_set_no_state_rule r w st : wf_state st -> wf_state (set_no_state_rule r w st).
Proof.
  intros W. unfold set_no_state_rule. destruct (_ <? _); [|exact W].
  apply wf_update_item; [exact W|]. apply (wf_reg_item st r W).
Qed.

Lemma wf_set_offset_rule r w v st : wf_state st -> wf_state (set_offset_rule r w v st).
Proof. unfold set_offset_rule. solve_wf_rule. apply wf_update_item; [assumption|apply u64_range]. Qed.

Lemma wf_set_register_rule r v st : wf_state st -> is_u64 v -> wf_state (set_register_rule r v st).
Proof. unfold set_register_rule. solve_wf_rule. Qed.

Lemma wf_restore_rule r st : wf_state st -> wf_state (restore_rule r st).
Proof.
  intros W. unfold restore_rule. destruct (_ <? _); [|exact W].
  apply wf_update_item; [exact W|]. apply wf_nth_item, W.
Qed.

Lemma wf_set_cfa_reg st r : wf_state st -> is_u64 r -> wf_state (set_cfa_reg st r).
Proof. intros W Hr. solve_row W. Qed.

Lemma wf_set_cfa_off st o : wf_state st -> wf_state (set_cfa_off st o).
Proof. intros W. solve_row W. Qed.

Lemma wf_set_cfa_is_expr st b : wf_state st -> wf_state (set_cfa_is_expr st b).
Proof. intros W. solve_row W. Qed.

Lemma wf_set_loc st l : wf_state st -> is_u64 l -> wf_state (set_loc st l).
Proof. intros [] Hl. constructor; simpl; assumption. Qed.

Lemma wf_advance_loc delta st : wf_state st -> wf_state (fst (advance_loc delta st)).
Proof. intros W. apply wf_set_loc; [exact W|apply is_u64_u64]. Qed.

Lemma wf_set_expr_rule `{K : Kernel} r w e end_ st e' st' :
  wf_state st -> is_u64 e -> set_expr_rule r w e end_ st = Ok (e', st') -> wf_state st'.
Proof.
  intros W He E. unfold set_expr_rule in E. c_inv.
  destruct (_ && _); injection E as <- <-; auto with kunwind.
Qed.

#[export] Hint Resolve wf_set_no_state_rule wf_set_offset_rule wf_set_register_rule
  wf_restore_rule wf_set_cfa_reg wf_set_cfa_off wf_set_cfa_is_expr wf_set_loc
  wf_advance_loc : kunwind.

Lemma wf_zero_state : wf_state zero_state.
Proof.
  constructor; try (simpl; unfold is_u64; lia); try reflexivity.
  - apply Forall_replicate, wf_zero_reg_state.
  - split; [reflexivity|]. apply Forall_replicate, wf_zero_item.
Qed.
