(* ===== verification/Cfi.v ===== *)
(** * Call frame instructions

    [run_cfi_program] of src/src/unwind.c: the interpreter of the DWARF call
    frame instructions, one definition per group of opcodes, composed by the
    same two-level switch. *)
From S2P Require Import Prelude Machine Leb128 EncodedPtr Regs Rules.

Definition DW_CFA_nop : Z := 0x00.
Definition DW_CFA_set_loc : Z := 0x01.
Definition DW_CFA_advance_loc1 : Z := 0x02.
Definition DW_CFA_advance_loc2 : Z := 0x03.
Definition DW_CFA_advance_loc4 : Z := 0x04.
Definition DW_CFA_offset_extended : Z := 0x05.
Definition DW_CFA_restore_extended : Z := 0x06.
Definition DW_CFA_undefined : Z := 0x07.
Definition DW_CFA_same_value : Z := 0x08.
Definition DW_CFA_register : Z := 0x09.
Definition DW_CFA_remember_state : Z := 0x0a.
Definition DW_CFA_restore_state : Z := 0x0b.
Definition DW_CFA_def_cfa : Z := 0x0c.
Definition DW_CFA_def_cfa_register : Z := 0x0d.
Definition DW_CFA_def_cfa_offset : Z := 0x0e.
Definition DW_CFA_def_cfa_expression : Z := 0x0f.
Definition DW_CFA_expression : Z := 0x10.
Definition DW_CFA_offset_extended_sf : Z := 0x11.
Definition DW_CFA_def_cfa_sf : Z := 0x12.
Definition DW_CFA_def_cfa_offset_sf : Z := 0x13.
Definition DW_CFA_val_offset : Z := 0x14.
Definition DW_CFA_val_offset_sf : Z := 0x15.
Definition DW_CFA_val_expression : Z := 0x16.
Definition DW_CFA_GNU_args_size : Z := 0x2e.
Definition DW_CFA_GNU_negative_offset_extended : Z := 0x2f.

(** [#define MAX_CFI 512] *)
Definition MAX_CFI : Z := 512.

(** What the body of the loop did: executed a [return], or reached its end with
    the values of [result], [ptr.p8] and the state. *)
Inductive cfi_result : Type :=
  | CfiReturn (r : Z) (st : unwind_state)
  | CfiBreak (result : bool) (ptr : Z) (st : unwind_state).

Section interpreter.
Context `{K : Kernel}.
Variables (end_ targetLoc ptrType : Z) (user compat_task : bool).

(** The register mapping written out in every case of the switch. *)
Definition map_reg (value : Z) : Z :=
  if compat_task then COMPAT_REG_MAP (DWARF_REG_MAP value) else DWARF_REG_MAP value.

(** [COMPAT_REG_MAP(value)] or [value]: the mapping of the CFA register. *)
Definition map_cfa_reg (value : Z) : Z :=
  if compat_task then COMPAT_REG_MAP value else value.

(** [DW_CFA_set_loc] and the three sized [advance_loc] instructions. *)
Definition cfi_set_loc (ptr : Z) (st : unwind_state) : C cfi_result :=
  '(l, ptr) ← read_pointer ptr end_ ptrType user compat_task;
  Ok (CfiBreak (negb (l =? 0)) ptr (set_loc st l)).

Definition cfi_advance (delta ptr : Z) (st : unwind_state) : cfi_result :=
  let '(st, result) := advance_loc delta st in CfiBreak result ptr st.

Definition cfi_advance_loc1 (ptr : Z) (st : unwind_state) : C cfi_result :=
  if ptr <? end_
  then d ← load8 ptr; Ok (cfi_advance d (u64 (ptr + 1)) st)
  else Ok (CfiBreak false ptr st).

Definition cfi_advance_loc2 (ptr : Z) (st : unwind_state) : C cfi_result :=
  if ptr <=? u64 (end_ + 2)
  then d ← load 2 ptr; Ok (cfi_advance d (u64 (ptr + 2)) st)
  else Ok (CfiBreak false ptr st).

Definition cfi_advance_loc4 (ptr : Z) (st : unwind_state) : C cfi_result :=
  if ptr <=? u64 (end_ + 4)
  then d ← load 4 ptr; Ok (cfi_advance d (u64 (ptr + 4)) st)
  else Ok (CfiBreak false ptr st).

(** [DW_CFA_offset_extended] ([w = Memory]) and [DW_CFA_val_offset]. *)
Definition cfi_offset (w : item_location) (ptr : Z) (st : unwind_state) : C cfi_result :=
  '(value, ptr) ← get_uleb128 ptr end_;
  '(value2, ptr) ← get_uleb128 ptr end_;
  Ok (CfiBreak true ptr
        (set_offset_rule (map_reg value) w (u64 (value2 * dataAlign st)) st)).

(** [DW_CFA_offset_extended_sf] and [DW_CFA_val_offset_sf]. *)
Definition cfi_offset_sf (w : item_location) (ptr : Z) (st : unwind_state) : C cfi_result :=
  '(value, ptr) ← get_uleb128 ptr end_;
  '(svalue, ptr) ← get_sleb128 ptr end_;
  Ok (CfiBreak true ptr
        (set_offset_rule (map_reg value) w (s64 (svalue * dataAlign st)) st)).

(** [DW_CFA_same_value] and [DW_CFA_undefined]. *)
Definition cfi_no_state (w : item_location) (ptr : Z) (st : unwind_state) : C cfi_result :=
  '(value, ptr) ← get_uleb128 ptr end_;
  Ok (CfiBreak true ptr (set_no_state_rule (map_reg value) w st)).

Definition cfi_restore_extended (ptr : Z) (st : unwind_state) : C cfi_result :=
  '(value, ptr) ← get_uleb128 ptr end_;
  Ok (CfiBreak true ptr (restore_rule (map_reg value) st)).

(** [reg_value] is mapped by [DWARF_REG_MAP] only, also for a compat task. *)
Definition cfi_register (ptr : Z) (st : unwind_state) : C cfi_result :=
  '(value, ptr) ← get_uleb128 ptr end_;
  '(reg_value, ptr) ← get_uleb128 ptr end_;
  Ok (CfiBreak true ptr (set_register_rule (map_reg value) (DWARF_REG_MAP reg_value) st)).

(** [DW_CFA_expression] and [DW_CFA_val_expression]. *)
Definition cfi_expression (w : item_location) (ptr : Z) (st : unwind_state) : C cfi_result :=
  '(value, ptr) ← get_uleb128 ptr end_;
  '(ptr, st) ← set_expr_rule (map_reg value) w ptr end_ st;
  Ok (CfiBreak true ptr st).

Definition cfi_remember_state (ptr : Z) (st : unwind_state) : cfi_result :=
  let row := REG_STATE st in
  let st := set_depth st (S (stackDepth st)) in
  if STP_MAX_STACK_DEPTH <=? Z.of_nat (stackDepth st) then CfiReturn 0 st
  else CfiBreak true ptr (set_REG_STATE st row).

Definition cfi_restore_state (ptr : Z) (st : unwind_state) : cfi_result :=
  match stackDepth st with
  | O => CfiReturn 0 st
  | S d => CfiBreak true ptr (set_depth st d)
  end.

Definition cfi_def_cfa_offset (ptr : Z) (st : unwind_state) : C cfi_result :=
  if cfa_is_expr (REG_STATE st) then Ok (CfiBreak true ptr st)
  else
    '(off, ptr) ← get_uleb128 ptr end_;
    Ok (CfiBreak true ptr (set_cfa_off st off)).

(** Falls through to [DW_CFA_def_cfa_offset]. *)
Definition cfi_def_cfa (ptr : Z) (st : unwind_state) : C cfi_result :=
  '(value, ptr) ← get_uleb128 ptr end_;
  cfi_def_cfa_offset ptr (set_cfa_reg (set_cfa_is_expr st false) (map_cfa_reg value)).

Definition cfi_def_cfa_offset_sf (ptr : Z) (st : unwind_state) : C cfi_result :=
  if cfa_is_expr (REG_STATE st) then Ok (CfiBreak true ptr st)
  else
    '(off, ptr) ← get_sleb128 ptr end_;
    Ok (CfiBreak true ptr (set_cfa_off st (off * dataAlign st))).

(** Falls through to [DW_CFA_def_cfa_offset_sf]. *)
Definition cfi_def_cfa_sf (ptr : Z) (st : unwind_state) : C cfi_result :=
  '(value, ptr) ← get_uleb128 ptr end_;
  cfi_def_cfa_offset_sf ptr (set_cfa_reg (set_cfa_is_expr st false) (map_cfa_reg value)).

Definition cfi_def_cfa_register (ptr : Z) (st : unwind_state) : C cfi_result :=
  if cfa_is_expr (REG_STATE st) then Ok (CfiBreak true ptr st)
  else
    '(value, ptr) ← get_uleb128 ptr end_;
    Ok (CfiBreak true ptr (set_cfa_reg st (map_cfa_reg value))).

Definition cfi_def_cfa_expression (ptr : Z) (st : unwind_state) : C cfi_result :=
  let cfa_expr := ptr in
  '(value, ptr) ← get_uleb128 ptr end_;
  if (ptr <? end_) && (value <=? u64 (end_ - ptr))
  then Ok (CfiBreak true (u64 (ptr + value))
             (set_cfa_reg (set_cfa_is_expr st true) cfa_expr))
  else Ok (CfiBreak true ptr st).

Definition cfi_GNU_args_size (ptr : Z) (st : unwind_state) : C cfi_result :=
  '(_, ptr) ← get_uleb128 ptr end_; Ok (CfiBreak true ptr st).

Definition cfi_GNU_negative_offset_extended (ptr : Z) (st : unwind_state) : C cfi_result :=
  '(value, ptr) ← get_uleb128 ptr end_;
  '(off, ptr) ← get_uleb128 ptr end_;
  Ok (CfiBreak true ptr (set_offset_rule (map_reg value) Memory (u64 (0 - off)) st)).

(** [case 0: switch ( *ptr.p8++ )]; [ptr] is past the opcode [op]. *)
Definition cfi_extended (op ptr : Z) (st : unwind_state) : C cfi_result :=
  if op =? DW_CFA_nop then Ok (CfiBreak true ptr st)
  else if op =? DW_CFA_set_loc then cfi_set_loc ptr st
  else if op =? DW_CFA_advance_loc1 then cfi_advance_loc1 ptr st
  else if op =? DW_CFA_advance_loc2 then cfi_advance_loc2 ptr st
  else if op =? DW_CFA_advance_loc4 then cfi_advance_loc4 ptr st
  else if op =? DW_CFA_offset_extended then cfi_offset Memory ptr st
  else if op =? DW_CFA_val_offset then cfi_offset Value ptr st
  else if op =? DW_CFA_offset_extended_sf then cfi_offset_sf Memory ptr st
  else if op =? DW_CFA_val_offset_sf then cfi_offset_sf Value ptr st
  else if op =? DW_CFA_same_value then cfi_no_state Same ptr st
  else if op =? DW_CFA_restore_extended then cfi_restore_extended ptr st
  else if op =? DW_CFA_undefined then cfi_no_state Nowhere ptr st
  else if op =? DW_CFA_register then cfi_register ptr st
  else if op =? DW_CFA_expression then cfi_expression Expr ptr st
  else if op =? DW_CFA_val_expression then cfi_expression ValExpr ptr st
  else if op =? DW_CFA_remember_state then Ok (cfi_remember_state ptr st)
  else if op =? DW_CFA_restore_state then Ok (cfi_restore_state ptr st)
  else if op =? DW_CFA_def_cfa then cfi_def_cfa ptr st
  else if op =? DW_CFA_def_cfa_offset then cfi_def_cfa_offset ptr st
  else if op =? DW_CFA_def_cfa_sf then cfi_def_cfa_sf ptr st
  else if op =? DW_CFA_def_cfa_offset_sf then cfi_def_cfa_offset_sf ptr st
  else if op =? DW_CFA_def_cfa_register then cfi_def_cfa_register ptr st
  else if op =? DW_CFA_def_cfa_expression then cfi_def_cfa_expression ptr st
  else if op =? DW_CFA_GNU_args_size then cfi_GNU_args_size ptr st
  else if op =? DW_CFA_GNU_negative_offset_extended then cfi_GNU_negative_offset_extended ptr st
  else Ok (CfiBreak false ptr st).

(** [case 2] of the outer switch, [DW_CFA_offset]. *)
Definition cfi_offset_short (operand ptr : Z) (st : unwind_state) : C cfi_result :=
  '(value2, ptr) ← get_uleb128 ptr end_;
  Ok (CfiBreak true ptr
        (set_offset_rule (map_reg operand) Memory (u64 (value2 * dataAlign st)) st)).

(** [switch ( *ptr.p8 >> 6)] *)
Definition cfi_instruction (ptr : Z) (st : unwind_state) : C cfi_result :=
  op ← load8 ptr;
  let ptr := u64 (ptr + 1) in
  let operand := Z.land op 0x3f in
  match Z.shiftr op 6 with
  | 0 => cfi_extended op ptr st
  | 1 => Ok (cfi_advance operand ptr st)
  | 2 => cfi_offset_short operand ptr st
  | _ => Ok (CfiBreak true ptr (restore_rule (map_reg operand) st))
  end.

(** The [for] loop. [result] is true at the head of every round. *)
Fixpoint run_cfi_loop (fuel : nat) (ptr : Z) (st : unwind_state) : C (Z * unwind_state) :=
  match fuel with
  | O => Crash OutOfFuel
  | S fuel =>
    if ptr <? end_ then
      r ← cfi_instruction ptr st;
      match r with
      | CfiReturn v st => Ok (v, st)
      | CfiBreak result ptr st =>
        let result := if end_ <? ptr then false else result in
        if result && negb (targetLoc =? 0) && (targetLoc <? loc st) then Ok (1, st)
        else if result then run_cfi_loop fuel ptr st
        else Ok (0, st)
      end
    else Ok (if ptr =? end_ then 1 else 0, st)
  end.

(** [start] is the first byte of the program. *)
Definition run_cfi_program (fuel : nat) (start : Z) (st : unwind_state) : C (Z * unwind_state) :=
  if MAX_CFI <? s64 (end_ - start) then Ok (0, st)
  else run_cfi_loop fuel start st.

End interpreter.

(** Every round of a program that stays between its bounds consumes a byte. *)
Definition CFI_FUEL : nat := 513.

(** To show something of every case of the inner switch, show it of every
    handler. *)
Lemma cfi_extended_elim `{K : Kernel} end_ ptrType user compat (P : C cfi_result -> Prop)
    op ptr st :
  P (Ok (CfiBreak true ptr st)) ->
  P (Ok (CfiBreak false ptr st)) ->
  P (cfi_set_loc end_ ptrType user compat ptr st) ->
  P (cfi_advance_loc1 end_ ptr st) ->
  (op = DW_CFA_advance_loc2 -> P (cfi_advance_loc2 end_ ptr st)) ->
  (op = DW_CFA_advance_loc4 -> P (cfi_advance_loc4 end_ ptr st)) ->
  (forall w, w = Memory \/ w = Value -> P (cfi_offset end_ compat w ptr st)) ->
  (forall w, w = Memory \/ w = Value -> P (cfi_offset_sf end_ compat w ptr st)) ->
  (forall w, w = Same \/ w = Nowhere -> P (cfi_no_state end_ compat w ptr st)) ->
  P (cfi_restore_extended end_ compat ptr st) ->
  P (cfi_register end_ compat ptr st) ->
  (forall w, P (cfi_expression end_ compat w ptr st)) ->
  P (Ok (cfi_remember_state ptr st)) ->
  P (Ok (cfi_restore_state ptr st)) ->
  P (cfi_def_cfa end_ compat ptr st) ->
  P (cfi_def_cfa_offset end_ ptr st) ->
  P (cfi_def_cfa_sf end_ compat ptr st) ->
  P (cfi_def_cfa_offset_sf end_ ptr st) ->
  P (cfi_def_cfa_register end_ compat ptr st) ->
  P (cfi_def_cfa_expression end_ ptr st) ->
  P (cfi_GNU_args_size end_ ptr st) ->
  P (cfi_GNU_negative_offset_extended end_ compat ptr st) ->
  P (cfi_extended end_ ptrType user compat op ptr st).
Proof.
  intros. unfold cfi_extended.
  repeat match goal with |- P (if op =? ?x then _ else _) => destruct (Z.eqb_spec op x); [auto|] end. assumption.
Qed.

Arguments cfi_instruction {K} : simpl never.
Arguments cfi_extended {K} : simpl never.


(** ** The state invariant *)

Section invariant.
Context `{K : Kernel}.
Variables (end_ targetLoc ptrType : Z) (user compat_task : bool).

(** What every handler keeps: when it goes on, a well-formed state and a
    64-bit cursor. *)
Definition cfi_wf (r : cfi_result) : Prop :=
  match r with
  | CfiReturn v _ => v = 0
  | CfiBreak _ ptr st => wf_state st /\ is_u64 ptr
  end.

Lemma is_u64_map_reg v : is_u64 v -> is_u64 (map_reg compat_task v).
Proof.
  unfold map_reg, DWARF_REG_MAP, COMPAT_REG_MAP, is_u64. intros Hv.
  repeat case_match; lia.
Qed.

Lemma is_u64_map_cfa_reg v : is_u64 v -> is_u64 (map_cfa_reg compat_task v).
Proof. apply is_u64_map_reg. Qed.

Lemma cfi_advance_wf d ptr st : wf_state st -> is_u64 ptr -> cfi_wf (cfi_advance d ptr st).
Proof. intros W Hp. split; [|exact Hp]. apply (wf_advance_loc d st W). Qed.

(** The words read by the decoders of a handler. *)
Ltac take_words :=
  repeat match goal with
  | H : get_uleb128 _ _ = Ok _ |- _ =>
      apply get_uleb128_words in H as [? ?]; [|assumption]
  | H : get_sleb128 _ _ = Ok _ |- _ =>
      apply get_sleb128_cursor in H; [|assumption]
  end.

Ltac solve_cfi_wf :=
  intros; c_inv; take_words; simpl;
  auto 8 using is_u64_map_reg, is_u64_map_cfa_reg with kunwind.

Lemma cfi_def_cfa_offset_wf ptr st r :
  wf_state st -> is_u64 ptr -> cfi_def_cfa_offset end_ ptr st = Ok r -> cfi_wf r.
Proof.
  unfold cfi_def_cfa_offset. intros W Hp E. destruct (cfa_is_expr _); [|revert E]; solve_cfi_wf.
Qed.

Lemma cfi_def_cfa_offset_sf_wf ptr st r :
  wf_state st -> is_u64 ptr -> cfi_def_cfa_offset_sf end_ ptr st = Ok r -> cfi_wf r.
Proof.
  unfold cfi_def_cfa_offset_sf. intros W Hp E. destruct (cfa_is_expr _); [|revert E]; solve_cfi_wf.
Qed.

Lemma cfi_remember_state_wf ptr st : wf_state st -> is_u64 ptr -> cfi_wf (cfi_remember_state ptr st).
Proof.
  intros W Hp. unfold cfi_remember_state, STP_MAX_STACK_DEPTH. simpl.
  destruct (Z.leb_spec 4 (Z.of_nat (S (stackDepth st)))); [reflexivity|].
  split; [|exact Hp]. pose proof (wf_REG_STATE st W) as R. destruct W.
  constructor; simpl; try assumption; try lia.
  - rewrite length_insert. assumption.
  - apply Forall_insert; assumption.
Qed.

Lemma cfi_restore_state_wf ptr st : wf_state st -> is_u64 ptr -> cfi_wf (cfi_restore_state ptr st).
Proof.
  intros W Hp. unfold cfi_restore_state. destruct (stackDepth st) eqn:D; [reflexivity|].
  split; [|exact Hp]. destruct W. constructor; simpl; try assumption. lia.
Qed.

Lemma cfi_extended_wf op ptr st r :
  wf_state st -> is_u64 ptr ->
  cfi_extended end_ ptrType user compat_task op ptr st = Ok r -> cfi_wf r.
Proof.
  intros W Hp. pattern (cfi_extended end_ ptrType user compat_task op ptr st).
  apply cfi_extended_elim;
    unfold cfi_offset, cfi_offset_sf, cfi_no_state, cfi_restore_extended, cfi_register,
      cfi_GNU_args_size, cfi_GNU_negative_offset_extended; try solve [solve_cfi_wf].
  - unfold cfi_set_loc, read_pointer. intros E. c_inv.
    apply read_ptr_sect_words in E0 as [? ?]; [|assumption]. simpl. auto with kunwind.
  - unfold cfi_advance_loc1. destruct (_ <? _); intros; c_inv; simpl; auto with kunwind.
  - intros _. unfold cfi_advance_loc2. destruct (_ <=? _); intros; c_inv; simpl; auto with kunwind.
  - intros _. unfold cfi_advance_loc4. destruct (_ <=? _); intros; c_inv; simpl; auto with kunwind.
  - intros w. unfold cfi_expression, set_expr_rule. intros; c_inv.
    destruct (_ && _) in *; solve_cfi_wf.
  - intros; c_inv. apply cfi_remember_state_wf; assumption.
  - intros; c_inv. apply cfi_restore_state_wf; assumption.
  - unfold cfi_def_cfa. intros; c_inv. take_words.
    eapply cfi_def_cfa_offset_wf; [| |eassumption]; auto using is_u64_map_cfa_reg with kunwind.
  - apply cfi_def_cfa_offset_wf; assumption.
  - unfold cfi_def_cfa_sf. intros; c_inv. take_words.
    eapply cfi_def_cfa_offset_sf_wf; [| |eassumption]; auto using is_u64_map_cfa_reg with kunwind.
  - apply cfi_def_cfa_offset_sf_wf; assumption.
  - unfold cfi_def_cfa_register. intros E. destruct (cfa_is_expr _); revert E; solve_cfi_wf.
  - unfold cfi_def_cfa_expression. intros; c_inv. destruct (_ && _) in *; solve_cfi_wf.
Qed.

Lemma cfi_instruction_wf ptr st r :
  wf_state st -> is_u64 ptr ->
  cfi_instruction end_ ptrType user compat_task ptr st = Ok r -> cfi_wf r.
Proof.
  intros W Hp E. unfold cfi_instruction in E. apply bind_Ok in E as (op & _ & E).
  assert (is_u64 (u64 (ptr + 1))) by apply u64_range.
  repeat case_match; try (c_inv; simpl; auto with kunwind; fail).
  - eapply cfi_extended_wf; [| |exact E]; assumption.
  - unfold cfi_offset_short in E. revert E. solve_cfi_wf.
Qed.

Lemma run_cfi_loop_wf fuel : forall ptr st st',
  wf_state st -> is_u64 ptr ->
  run_cfi_loop end_ targetLoc ptrType user compat_task fuel ptr st = Ok (1, st') -> wf_state st'.
Proof.
  induction fuel as [|fuel IH]; simpl; intros ptr st st' W Hp E; [discriminate|].
  destruct (ptr <? end_); [|c_inv; assumption].
  apply bind_Ok in E as (r & Hr & E).
  apply cfi_instruction_wf in Hr; [|assumption|assumption].
  destruct r as [v s|res p s]; simpl in Hr.
  - c_inv. discriminate.
  - destruct Hr as [W' Hp']. destruct (_ && _); [c_inv; assumption|].
    destruct (if end_ <? p then false else res); [eapply IH; eassumption | discriminate].
Qed.

(** A program that is accepted leaves a well-formed state: the saved rows
    stay within the four slots, every rule table has its 17 entries and every
    field fits its C type. *)
Theorem run_cfi_program_wf fuel start st st' :
  wf_state st -> is_u64 start ->
  run_cfi_program end_ targetLoc ptrType user compat_task fuel start st = Ok (1, st') ->
  wf_state st'.
Proof.
  intros W Hs E. unfold run_cfi_program in E. destruct (_ <? _); [discriminate|].
  eapply run_cfi_loop_wf; eassumption.
Qed.
End invariant.

(** [def_cfa rsp+8; offset rip -8; advance 4; def_cfa_offset 16], with a data
    alignment of -8. *)
Definition prologue : list Z := [0x0c; 7; 8; 0x90; 1; 0x44; 0x0e; 16].
Definition prologue_kernel : Kernel := image_kernel [(4096, prologue ++ [0; 0; 0; 0])] [].
Definition prologue_state : unwind_state :=
  mk_state 0x1000 1 (-8) 0 (replicate 4 zero_reg_state) (replicate 17 zero_item).

Lemma wf_prologue_state : wf_state prologue_state.
Proof. destruct wf_zero_state. constructor; simpl; try assumption; unfold is_u64; lia. Qed.

Lemma run_cfi_program_wf_witness :
  exists st', run_cfi_program (K := prologue_kernel) 4104 0 0 true false CFI_FUEL 4096
    prologue_state = Ok (1, st') /\ wf_state st'.
Proof.
  eexists. split; [vm_compute; reflexivity|].
  apply (run_cfi_program_wf (K := prologue_kernel) 4104 0 0 true false CFI_FUEL 4096
    prologue_state); [apply wf_prologue_state|unfold is_u64; lia|].
  vm_compute. reflexivity.
Defined.
