(* ===== verification/CfiBounds.v ===== *)
(** * Memory safety and termination of the call frame interpreter

    [run_cfi_program] depends on the bytes of its program alone, but for the operand
    of an advance that is cut by the end; and two programs on which it does not
    behave: one that reads past the end of the section and one that never ends. *)
From S2P Require Import Prelude Machine Leb128 EncodedPtr Regs Rules Cfi.

(** ** More memory

    A computation that completes gives the same result when more is mapped. *)

Definition completes_as {A} (m m' : C A) : Prop := forall a, m = Ok a -> m' = Ok a.

Lemma completes_refl {A} (m : C A) : completes_as m m.
Proof. intros a E. exact E. Qed.

Lemma completes_bind {A B} (m m' : C A) (f g : A -> C B) :
  completes_as m m' -> (forall a, completes_as (f a) (g a)) -> completes_as (m ≫= f) (m' ≫= g).
Proof.
  intros Hm Hf b E. apply bind_Ok in E as (a & Ea & Eb). rewrite (Hm a Ea). apply Hf, Eb.
Qed.

Ltac extend tac :=
  repeat lazymatch goal with
  | |- completes_as ?m ?m => apply completes_refl
  | |- completes_as (_ ≫= _) (_ ≫= _) => apply completes_bind; [|intros ?]
  | |- completes_as (match ?x with _ => _ end) _ => destruct x
  | |- _ => tac
  end.

Section more_memory.
Variables (K : Kernel) (r r' : Z -> option Z).
Hypothesis Hsub : forall a b, r a = Some b -> r' a = Some b.
Let A : Kernel := with_memory K r.
Let B : Kernel := with_memory K r'.

Lemma load8_completes a : completes_as (load8 (K := A) a) (load8 (K := B) a).
Proof.
  intros b. unfold load8, A, B. cbn [kread with_memory]. destruct (r a) eqn:E; [|discriminate].
  rewrite (Hsub _ _ E). auto.
Qed.

Lemma load_completes n : forall a, completes_as (load (K := A) n a) (load (K := B) n a).
Proof. induction n as [|n IH]; intros a; simpl load; extend ltac:(apply load8_completes || apply IH). Qed.

Lemma get_uleb128_loop_completes fuel : forall cur end_ v shift,
  completes_as (get_uleb128_loop (K := A) fuel cur end_ v shift) (get_uleb128_loop (K := B) fuel cur end_ v shift).
Proof.
  induction fuel as [|fuel IH]; intros; cbn [get_uleb128_loop]; extend ltac:(apply load8_completes || apply IH).
Qed.

Lemma get_uleb128_completes cur end_ : completes_as (get_uleb128 (K := A) cur end_) (get_uleb128 (K := B) cur end_).
Proof. apply get_uleb128_loop_completes. Qed.

Lemma get_sleb128_loop_completes fuel : forall cur end_ v shift,
  completes_as (get_sleb128_loop (K := A) fuel cur end_ v shift) (get_sleb128_loop (K := B) fuel cur end_ v shift).
Proof.
  induction fuel as [|fuel IH]; intros; cbn [get_sleb128_loop]; extend ltac:(apply load8_completes || apply IH).
Qed.

Lemma get_sleb128_completes cur end_ : completes_as (get_sleb128 (K := A) cur end_) (get_sleb128 (K := B) cur end_).
Proof. unfold get_sleb128. extend ltac:(apply get_sleb128_loop_completes). Qed.

Lemma read_form_completes loc end_ t ct ts :
  completes_as (read_form (K := A) loc end_ t ct ts) (read_form (K := B) loc end_ t ct ts).
Proof.
  unfold read_form, read_absptr, read_fixed.
  extend ltac:(apply load_completes || apply get_sleb128_completes || apply get_uleb128_completes).
Qed.

Lemma read_ptr_sect_completes p end_ t ta da u ct ts :
  completes_as (read_ptr_sect (K := A) p end_ t ta da u ct ts) (read_ptr_sect (K := B) p end_ t ta da u ct ts).
Proof.
  unfold read_ptr_sect. change (@_stp_read_address A) with (@_stp_read_address K).
  change (@_stp_read_address B) with (@_stp_read_address K). extend ltac:(apply read_form_completes).
Qed.

Variables (end_ targetLoc ptrType : Z) (user compat_task : bool).

Ltac unfold_handlers :=
  unfold cfi_set_loc, cfi_advance_loc1, cfi_advance_loc2, cfi_advance_loc4, cfi_offset, cfi_offset_sf,
    cfi_no_state, cfi_restore_extended, cfi_register, cfi_expression, set_expr_rule, cfi_def_cfa, cfi_def_cfa_offset,
    cfi_def_cfa_sf, cfi_def_cfa_offset_sf, cfi_def_cfa_register, cfi_def_cfa_expression, cfi_GNU_args_size,
    cfi_GNU_negative_offset_extended, read_pointer.

Lemma cfi_extended_completes op ptr st :
  completes_as (cfi_extended (K := A) end_ ptrType user compat_task op ptr st)
          (cfi_extended (K := B) end_ ptrType user compat_task op ptr st).
Proof.
  unfold cfi_extended. repeat match goal with |- context [op =? ?x] => destruct (op =? x) end; unfold_handlers;
    extend ltac:(apply load8_completes || apply load_completes || apply get_uleb128_completes || apply get_sleb128_completes ||
                 apply read_ptr_sect_completes).
Qed.

Lemma run_cfi_loop_completes fuel : forall ptr st,
  completes_as (run_cfi_loop (K := A) end_ targetLoc ptrType user compat_task fuel ptr st)
          (run_cfi_loop (K := B) end_ targetLoc ptrType user compat_task fuel ptr st).
Proof.
  induction fuel as [|fuel IH]; intros; cbn [run_cfi_loop]; unfold cfi_instruction, cfi_offset_short;
    extend ltac:(apply load8_completes || apply cfi_extended_completes || apply get_uleb128_completes || apply IH).
Qed.
End more_memory.

Section safety.
Context `{K : Kernel}.

(** Every LEB128 number that starts between [lo] and [end_] decodes before
    [end_]: no overlong number, no undefined shift. *)
Definition leb_ok (lo end_ : Z) : Prop :=
  forall p, lo <= p <= end_ ->
    (exists v c, get_uleb128 p end_ = Ok (v, c) /\ c <= end_) /\
    (exists v c, get_sleb128 p end_ = Ok (v, c) /\ c <= end_).

Definition leb_okb (lo : Z) (n : nat) : bool :=
  let end_ := lo + Z.of_nat n in
  forallb (fun i =>
    let p := lo + Z.of_nat i in
    match get_uleb128 p end_, get_sleb128 p end_ with
    | Ok (_, c), Ok (_, d) => (c <=? end_) && (d <=? end_)
    | _, _ => false
    end) (seq 0 (S n)).

Lemma leb_okb_true lo n end_ : leb_okb lo n = true -> end_ = lo + Z.of_nat n -> leb_ok lo end_.
Proof.
  intros H -> p Hp. unfold leb_okb in H. rewrite forallb_forall in H.
  specialize (H (Z.to_nat (p - lo))). rewrite in_seq in H. specialize (H ltac:(lia)).
  replace (lo + Z.of_nat (Z.to_nat (p - lo))) with p in H by lia.
  destruct (get_uleb128 _ _) as [[v c]|]; [|discriminate].
  destruct (get_sleb128 _ _) as [[w d]|]; [|discriminate].
  apply andb_true_iff in H as [Hc Hd]. split; do 2 eexists; (split; [reflexivity|lia]).
Qed.

(** The only accesses behind the program: byte [a], from [end_] on, is in the
    operand of an [advance_loc2] or [advance_loc4] at [p] that is cut by the end. *)
Definition overruns (lo end_ : Z) (c : crash) : Prop :=
  exists p op n a, c = PageFault a /\ lo <= p < end_ /\ end_ <= a < p + 1 + n /\ load8 p = Ok op /\
    (op = DW_CFA_advance_loc2 /\ n = 2 \/ op = DW_CFA_advance_loc4 /\ n = 4).

Variables (lo end_ targetLoc ptrType : Z) (user compat_task : bool).
Hypothesis Hmap : mapped lo end_.
Hypothesis Hlim : end_ + 4 <= ptr_limit.
Hypothesis Hleb : leb_ok lo end_.

Lemma mapped_tail p : lo <= p -> mapped p end_.
Proof.
  intros Hp. destruct Hmap as (M0 & M1 & M2). repeat split; try lia.
  intros a Ha. apply M2. lia.
Qed.

(** The operand of an [advance_loc] of [n] bytes, its opcode just before it. *)
Lemma operand_load op n ptr : lo < ptr <= end_ -> load8 (ptr - 1) = Ok op ->
  (op = DW_CFA_advance_loc2 /\ n = 2%nat \/ op = DW_CFA_advance_loc4 /\ n = 4%nat) ->
  match load n ptr with Ok _ => True | Crash c => overruns lo end_ c end.
Proof.
  intros Hp Hop Hn. destruct (load n ptr) as [|c] eqn:E; [exact I|].
  destruct Hmap as (M0 & M1 & M2). unfold ptr_limit in Hlim.
  apply load_crash_at in E as (a & -> & Ha & Hk); [|lia|destruct Hn as [[_ ->]|[_ ->]]; lia].
  exists (ptr - 1), op, (Z.of_nat n), a. split_and!; try reflexivity; try lia.
  - destruct (Z.lt_ge_cases a end_); [|lia]. destruct (M2 a ltac:(lia)). congruence.
  - exact Hop.
Qed.

(** A decoder started in range delivers a value and stays in range. *)
Lemma take_uleb p : lo <= p <= end_ ->
  exists v c, get_uleb128 p end_ = Ok (v, c) /\ p <= c <= end_ /\ 0 <= v < 2 ^ 64.
Proof.
  intros Hp. destruct (Hleb p Hp) as [(v & c & E & Hc) _]. exists v, c. split; [exact E|].
  unfold ptr_limit in Hlim.
  pose proof (get_uleb128_bounds p end_ (mapped_tail p ltac:(lia)) ltac:(lia) ltac:(lia)) as B.
  rewrite E in B. destruct B as [Hv [Hc'|[Hlt Hc']]]; [lia|].
  destruct Hmap. rewrite u64_small in Hc' by lia. lia.
Qed.

Lemma take_sleb p : lo <= p <= end_ ->
  exists v c, get_sleb128 p end_ = Ok (v, c) /\ p <= c <= end_.
Proof.
  intros Hp. destruct (Hleb p Hp) as [_ (v & c & E & Hc)]. exists v, c. split; [exact E|].
  unfold ptr_limit in Hlim.
  pose proof (get_sleb128_bounds p end_ (mapped_tail p ltac:(lia)) ltac:(lia) ltac:(lia)) as B.
  rewrite E in B. destruct B as [Hv [Hc'|[Hlt Hc']]]; [lia|].
  destruct Hmap. rewrite u64_small in Hc' by lia. lia.
Qed.

Lemma read_fixed_runs n signed p : lo <= p <= end_ -> (n <= 8)%nat ->
  runs (read_fixed n signed p end_).
Proof.
  intros Hp Hn. unfold read_fixed, ptr_limit in *.
  destruct Hmap as (M0 & M1 & M2). rewrite u64_small by lia.
  destruct (Z.ltb_spec end_ (p + Z.of_nat n)); [apply runs_Ok|].
  apply runs_bind; [|intros; apply runs_Ok].
  eapply load_runs; [exact Hmap|lia|lia].
Qed.

Lemma read_ptr_sect_runs p t ta da u ct ts : lo <= p <= end_ ->
  exists v c, read_ptr_sect p end_ t ta da u ct ts = Ok (v, c) /\ p <= c <= end_.
Proof.
  intros Hp.
  assert (R : runs (read_ptr_sect p end_ t ta da u ct ts)).
  { unfold read_ptr_sect. destruct (_ || _); [apply runs_Ok|].
    apply runs_bind.
    - unfold read_form, read_absptr. repeat case_match; try apply runs_Ok;
        try (apply read_fixed_runs; lia).
      + destruct (take_sleb p Hp) as (v & c & -> & _). simpl. destruct (_ <? _); apply runs_Ok.
      + destruct (take_uleb p Hp) as (v & c & -> & _). simpl. destruct (_ <? _); apply runs_Ok.
    - intros [[v c]|] _; [|apply runs_Ok]. repeat case_match; apply runs_Ok. }
  destruct R as [[v c] E]. exists v, c. split; [exact E|].
  unfold ptr_limit in Hlim.
  pose proof (read_ptr_sect_bounds p end_ t ta da u ct ts (mapped_tail p ltac:(lia))
    ltac:(lia) ltac:(unfold ptr_limit; lia)) as B.
  rewrite E in B. apply B.
Qed.

(** A handler completes, unless its operand is cut, and does not move backwards
    if the loop goes on. *)
Definition cfi_forward (ptr : Z) (m : C cfi_result) : Prop :=
  match m with
  | Ok (CfiReturn _ _) => True
  | Ok (CfiBreak _ p _) => ptr <= p
  | Crash c => overruns lo end_ c
  end.

(** Runs the decoders of a handler one after the other. *)
Ltac run_decoders :=
  repeat match goal with
  | |- context [get_uleb128 ?p end_] =>
      let v := fresh "v" in let c := fresh "c" in let E := fresh "E" in
      destruct (take_uleb p ltac:(lia)) as (v & c & E & ? & ?); rewrite E; simpl
  | |- context [get_sleb128 ?p end_] =>
      let v := fresh "v" in let c := fresh "c" in let E := fresh "E" in
      destruct (take_sleb p ltac:(lia)) as (v & c & E & ?); rewrite E; simpl
  end.

Ltac solve_forward := intros; run_decoders; simpl; lia.

Lemma cfi_advance_forward d ptr p st : ptr <= p -> cfi_forward ptr (Ok (cfi_advance d p st)).
Proof. intros H. exact H. Qed.

Lemma expr_skip_forward ptr len :
  lo <= ptr <= end_ -> 0 <= len <= u64 (end_ - ptr) -> ptr <= u64 (ptr + len) <= end_.
Proof.
  destruct Hmap. unfold ptr_limit in Hlim. intros Hp Hlen.
  rewrite u64_small in Hlen by lia. rewrite u64_small by lia. lia.
Qed.

Lemma cfi_extended_forward op ptr st :
  lo < ptr <= end_ -> load8 (ptr - 1) = Ok op -> cfi_forward ptr (cfi_extended end_ ptrType user compat_task op ptr st).
Proof.
  intros Hp Hop. assert (P : 0 <= lo) by apply Hmap. unfold ptr_limit in Hlim.
  apply cfi_extended_elim;
    unfold cfi_offset, cfi_offset_sf, cfi_no_state, cfi_restore_extended, cfi_register,
      cfi_GNU_args_size, cfi_GNU_negative_offset_extended; try solve [solve_forward].
  - unfold cfi_set_loc, read_pointer.
    destruct (read_ptr_sect_runs ptr ptrType 0 0 user compat_task 0 ltac:(lia)) as (v & c & -> & ?).
    simpl. lia.
  - unfold cfi_advance_loc1. destruct (Z.ltb_spec ptr end_); [|simpl; lia].
    destruct (load8_runs lo end_ ptr Hmap ltac:(lia)) as [d ->].
    apply cfi_advance_forward. rewrite u64_small; lia.
  - intros Eop. unfold cfi_advance_loc2. rewrite !u64_small by lia.
    destruct (Z.leb_spec ptr (end_ + 2)); [|lia].
    pose proof (operand_load op 2 ptr Hp Hop ltac:(auto)) as L. destruct (load 2 ptr) as [d|c]; [|exact L].
    apply cfi_advance_forward. lia.
  - intros Eop. unfold cfi_advance_loc4. rewrite !u64_small by lia.
    destruct (Z.leb_spec ptr (end_ + 4)); [|lia].
    pose proof (operand_load op 4 ptr Hp Hop ltac:(auto)) as L. destruct (load 4 ptr) as [d|c]; [|exact L].
    apply cfi_advance_forward. lia.
  - intros w. unfold cfi_expression, set_expr_rule. run_decoders.
    destruct (Z.leb_spec v0 (u64 (end_ - c0))); simpl; [|lia].
    destruct (_ <? _); simpl; [|lia].
    pose proof (expr_skip_forward c0 v0). lia.
  - unfold cfi_remember_state. destruct (_ <=? _); simpl; [exact I|lia].
  - unfold cfi_restore_state. destruct (stackDepth st); simpl; [exact I|lia].
  - unfold cfi_def_cfa, cfi_def_cfa_offset. run_decoders. destruct (cfa_is_expr _); solve_forward.
  - unfold cfi_def_cfa_offset. destruct (cfa_is_expr _); solve_forward.
  - unfold cfi_def_cfa_sf, cfi_def_cfa_offset_sf. run_decoders.
    destruct (cfa_is_expr _); solve_forward.
  - unfold cfi_def_cfa_offset_sf. destruct (cfa_is_expr _); solve_forward.
  - unfold cfi_def_cfa_register. destruct (cfa_is_expr _); solve_forward.
  - unfold cfi_def_cfa_expression. run_decoders.
    destruct (Z.ltb_spec c end_); simpl; [|lia].
    destruct (Z.leb_spec v (u64 (end_ - c))); simpl; [|lia].
    pose proof (expr_skip_forward c v). lia.
Qed.

Lemma cfi_instruction_forward ptr st :
  lo <= ptr < end_ ->
  cfi_forward (ptr + 1) (cfi_instruction end_ ptrType user compat_task ptr st).
Proof.
  intros Hp. unfold cfi_instruction.
  destruct (load8_runs lo end_ ptr Hmap ltac:(lia)) as [op E]. rewrite E. simpl.
  assert (P : 0 <= lo) by apply Hmap. unfold ptr_limit in Hlim.
  rewrite u64_small by lia.
  repeat case_match; try (simpl; lia).
  - apply cfi_extended_forward; [lia|]. replace (ptr + 1 - 1) with ptr by lia. exact E.
  - unfold cfi_offset_short. solve_forward.
Qed.

Lemma run_cfi_loop_inside fuel : forall ptr st,
  lo <= ptr <= end_ -> end_ - ptr < Z.of_nat fuel ->
  match run_cfi_loop end_ targetLoc ptrType user compat_task fuel ptr st with
  | Ok _ => True
  | Crash c => overruns lo end_ c
  end.
Proof.
  induction fuel as [|fuel IH]; intros ptr st Hp Hf; [lia|]. simpl.
  destruct (Z.ltb_spec ptr end_); [|exact I].
  pose proof (cfi_instruction_forward ptr st ltac:(lia)) as F.
  destruct (cfi_instruction _ _ _ _ _ _) as [[v s|res p s]|]; simpl in *; [exact I| |exact F].
  destruct (Z.ltb_spec end_ p); simpl; [exact I|].
  destruct (_ && _); [exact I|]. destruct res; [|exact I].
  apply IH; lia.
Qed.
End safety.

(** The decoders read nothing behind the end they are given. *)
Section same_program.
Context `{K : Kernel}.
Variables (lo end_ : Z) (r : Z -> option Z).
Hypothesis H0 : 0 <= lo.
Hypothesis Hlim : end_ < 2 ^ 64.
Hypothesis Hr : forall a, lo <= a < end_ -> r a = kread a.

Lemma load8_same a : lo <= a < end_ -> load8 (K := with_memory K r) a = load8 a.
Proof. intros Ha. unfold load8. cbn [kread with_memory]. rewrite Hr by exact Ha. reflexivity. Qed.

Lemma get_uleb128_loop_same fuel : forall cur v shift, lo <= cur ->
  get_uleb128_loop (K := with_memory K r) fuel cur end_ v shift = get_uleb128_loop fuel cur end_ v shift.
Proof.
  induction fuel as [|fuel IH]; intros cur v shift Hc; [reflexivity|]. cbn [get_uleb128_loop].
  destruct (Z.ltb_spec cur end_); [|reflexivity]. rewrite load8_same, (u64_small (cur + 1)) by lia.
  destruct (load8 cur); [|reflexivity]. cbn [mbind C_bind]. destruct (leb128_overflows _ _) as [[]|]; try reflexivity.
  cbn [mbind C_bind]. destruct (shl_u64 _ _); [|reflexivity]. cbn [mbind C_bind].
  destruct (_ =? 0); [reflexivity|apply IH; lia].
Qed.

Lemma get_sleb128_loop_same fuel : forall cur v shift, lo <= cur ->
  get_sleb128_loop (K := with_memory K r) fuel cur end_ v shift = get_sleb128_loop fuel cur end_ v shift.
Proof.
  induction fuel as [|fuel IH]; intros cur v shift Hc; [reflexivity|]. cbn [get_sleb128_loop].
  destruct (Z.ltb_spec cur end_); [|reflexivity]. rewrite load8_same, (u64_small (cur + 1)) by lia.
  destruct (load8 cur); [|reflexivity]. cbn [mbind C_bind]. destruct (leb128_overflows _ _) as [[]|]; try reflexivity.
  cbn [mbind C_bind]. destruct (shl_u64 _ _); [|reflexivity]. cbn [mbind C_bind].
  destruct (_ =? 0); [reflexivity|apply IH; lia].
Qed.

Lemma leb_ok_same : leb_ok lo end_ -> leb_ok (K := with_memory K r) lo end_.
Proof.
  intros H p Hp. unfold get_sleb128, get_uleb128. rewrite get_uleb128_loop_same, get_sleb128_loop_same by lia.
  apply H, Hp.
Qed.
End same_program.

(** C22: the interpreter stays inside its program: run with nothing mapped but the
    bytes of the program, it completes, and gives the same result and state
    whatever the rest of memory holds; or it reaches an [advance_loc2] or
    [advance_loc4] whose operand is cut by the end, and faults on a byte of that
    operand. [CFI_FUEL] rounds are enough. The LEB128 numbers that start in the
    program are short enough to decode without running over its end. *)
Theorem run_cfi_program_safe `{K : Kernel} start end_ targetLoc ptrType user compat_task st :
  mapped start end_ -> start <= end_ < start + 2 ^ 63 -> end_ + 4 <= ptr_limit -> leb_ok start end_ ->
  match run_cfi_program (K := with_memory K (inside start end_)) end_ targetLoc ptrType user compat_task CFI_FUEL
          start st with
  | Ok out => forall r, (forall a, start <= a < end_ -> r a = kread a) ->
      run_cfi_program (K := with_memory K r) end_ targetLoc ptrType user compat_task CFI_FUEL start st = Ok out
  | Crash c => overruns (K := with_memory K (inside start end_)) start end_ c
  end.
Proof.
  intros Hm Hle Hlim Hleb. assert (0 <= start) by apply Hm. unfold ptr_limit in Hlim.
  assert (Hs : forall a b r, (forall a, start <= a < end_ -> r a = kread a) -> inside start end_ a = Some b -> r a = Some b).
  { intros a b r Hr E. apply inside_Some in E as [Ha E]. rewrite Hr by exact Ha. exact E. }
  assert (Hf : Z.of_nat CFI_FUEL = 513) by reflexivity. revert Hf. generalize CFI_FUEL. intros fuel Hf.
  unfold run_cfi_program, MAX_CFI. destruct (Z.ltb_spec 512 (s64 (end_ - start))) as [|Hl]; [reflexivity|].
  rewrite s64_small in Hl by lia.
  pose proof (run_cfi_loop_inside (K := with_memory K (inside start end_)) start end_ targetLoc ptrType user compat_task
    (mapped_inside start end_ Hm) Hlim
    (leb_ok_same start end_ (inside start end_) ltac:(lia) ltac:(lia) (inside_at start end_) Hleb) fuel start st
    ltac:(lia) ltac:(lia)) as R.
  destruct (run_cfi_loop (K := with_memory K (inside start end_)) _ _ _ _ _ _ _ _) as [out|c] eqn:E; [|exact R].
  intros r Hr. exact (run_cfi_loop_completes K (inside start end_) r (fun a b => Hs a b r Hr) end_ targetLoc ptrType user
    compat_task fuel start st out E).
Qed.

(** ** Reading past the end *)

(** the guard of [DW_CFA_advance_loc4] is [ptr <= end + 4] instead of
    [ptr + 4 <= end]: when the opcode is the last byte of the program the
    operand is loaded from behind it, and the kernel faults if nothing is
    mapped there. *)
Theorem advance_loc4_overreads `{K : Kernel} start targetLoc ptrType user compat_task fuel st :
  load8 start = Ok DW_CFA_advance_loc4 -> kread (start + 1) = None ->
  0 <= start -> start + 5 < 2 ^ 64 ->
  run_cfi_program (start + 1) targetLoc ptrType user compat_task (S fuel) start st =
    Crash (PageFault (start + 1)).
Proof.
  intros Hb Hn Hs Hl. unfold run_cfi_program, MAX_CFI.
  replace (start + 1 - start) with 1 by lia. change (512 <? s64 1) with false. cbv iota.
  simpl. destruct (Z.ltb_spec start (start + 1)); [|lia].
  unfold cfi_instruction. rewrite Hb. simpl. unfold cfi_extended. simpl.
  unfold cfi_advance_loc4. rewrite !u64_small by lia.
  destruct (Z.leb_spec (start + 1) (start + 1 + 4)); [|lia].
  assert (F : load8 (start + 1) = Crash (PageFault (start + 1)))
    by (unfold load8; rewrite Hn; reflexivity).
  cbn [load]. rewrite F. reflexivity.
Qed.

(** ** A program that never ends *)

(** Two images: the section, at a kernel address, and a page at a low address.
    Both hold one [DW_CFA_expression] whose length is an overlong LEB128. *)
Definition wild_section : Z := 0xffffc90000001000.
Definition wild_page : Z := 0x400000.
Definition wild_program : list Z :=
  [DW_CFA_expression; 0; 0xf3; 0xdf; 0xff; 0x81; 0x80; 0xe0; 0x8d; 0x80; 0x80; 0x02].
Definition wild_kernel : Kernel :=
  image_kernel [(wild_section, wild_program); (wild_page, wild_program)] [].
Definition wild_end : Z := wild_section + 12.

(** The state once the program runs from the low page: register 0 has the
    expression found there, and the next round stores it again. *)
Definition wild_state : unwind_state :=
  update_item zero_state 0 (mk_item Expr (wild_page + 2)).

Lemma wild_enter ptrType user :
  @cfi_instruction wild_kernel wild_end ptrType user false wild_section zero_state =
    Ok (CfiBreak true wild_page (update_item zero_state 0 (mk_item Expr (wild_section + 2)))).
Proof. vm_compute. reflexivity. Qed.

Lemma wild_step ptrType user st :
  st = update_item zero_state 0 (mk_item Expr (wild_section + 2)) \/ st = wild_state ->
  @cfi_instruction wild_kernel wild_end ptrType user false wild_page st =
    Ok (CfiBreak true wild_page wild_state).
Proof. intros [-> | ->]; vm_compute; reflexivity. Qed.

Lemma wild_loop targetLoc ptrType user fuel : 0 <= targetLoc -> forall st,
  st = update_item zero_state 0 (mk_item Expr (wild_section + 2)) \/ st = wild_state ->
  @run_cfi_loop wild_kernel wild_end targetLoc ptrType user false fuel wild_page st =
    Crash OutOfFuel.
Proof.
  intros Ht. induction fuel as [|fuel IH]; intros st Hst; [reflexivity|].
  cbn [run_cfi_loop]. replace (wild_page <? wild_end) with true by reflexivity.
  rewrite (wild_step ptrType user st Hst). cbn [mbind C_bind].
  replace (wild_end <? wild_page) with false by reflexivity.
  replace (targetLoc <? loc wild_state) with false
    by (symmetry; apply Z.ltb_ge; exact Ht).
  rewrite andb_false_r. apply IH. right. reflexivity.
Qed.

(** after an overlong length [end - *expr] is [-1], which the comparison in
    [set_expr_rule] takes for the largest [unsigned long]: the check passes, the
    cursor leaves the section, and twelve bytes at a low address keep the
    interpreter running whatever the number of rounds. *)
Theorem expression_length_wraps targetLoc ptrType user fuel :
  0 <= targetLoc ->
  @run_cfi_program wild_kernel wild_end targetLoc ptrType user false (S fuel) wild_section
    zero_state = Crash OutOfFuel.
Proof.
  intros Ht. unfold run_cfi_program.
  replace (MAX_CFI <? s64 (wild_end - wild_section)) with false by reflexivity.
  cbn [run_cfi_loop]. replace (wild_section <? wild_end) with true by reflexivity.
  rewrite wild_enter. cbn [mbind C_bind].
  replace (wild_end <? wild_page) with false by reflexivity.
  match goal with |- context [targetLoc <? ?l] =>
    replace (targetLoc <? l) with false by (symmetry; apply Z.ltb_ge; exact Ht) end.
  rewrite andb_false_r. apply wild_loop; [exact Ht | left; reflexivity].
Qed.

(** ** Witnesses *)

Lemma run_cfi_program_safe_witness :
  match run_cfi_program (K := with_memory prologue_kernel (inside (K := prologue_kernel) 4096 4104)) 4104 0x1002 0
          true false CFI_FUEL 4096 prologue_state with
  | Ok out => forall r, (forall a, 4096 <= a < 4104 -> r a = kread (Kernel := prologue_kernel) a) ->
      run_cfi_program (K := with_memory prologue_kernel r) 4104 0x1002 0 true false CFI_FUEL 4096 prologue_state = Ok out
  | Crash c => overruns (K := with_memory prologue_kernel (inside (K := prologue_kernel) 4096 4104)) 4096 4104 c
  end.
Proof.
  apply (run_cfi_program_safe (K := prologue_kernel) 4096 4104).
  - apply (mappedb_true (K := prologue_kernel) 4096 8); vm_compute; reflexivity.
  - lia.
  - vm_compute. discriminate.
  - apply (leb_okb_true (K := prologue_kernel) 4096 8); vm_compute; reflexivity.
Defined.

Definition last_byte_kernel : Kernel := image_kernel [(4096, [DW_CFA_advance_loc4])] [].

Lemma advance_loc4_overreads_witness :
  run_cfi_program (K := last_byte_kernel) 4097 0 0 true false 1 4096 zero_state =
    Crash (PageFault 4097).
Proof.
  apply (advance_loc4_overreads (K := last_byte_kernel) 4096 0 0 true false 0 zero_state);
    [reflexivity|reflexivity|lia|lia].
Defined.

Lemma expression_length_wraps_witness :
  @run_cfi_program wild_kernel wild_end 0x401000 0 true false CFI_FUEL wild_section zero_state =
    Crash OutOfFuel.
Proof. apply (expression_length_wraps 0x401000 0 true 512). lia. Defined.
