(* ===== verification/CfiSpec.v ===== *)
(** * An abstract machine for call frame instructions

    The meaning DWARF gives to call frame instructions, on rows of a table with
    a stack of saved rows, and the refinement: on an encoded program the
    interpreter of src/src/unwind.c computes the row the abstract machine does. *)
From S2P Require Import Prelude Machine Leb128 EncodedPtr Regs Rules Cfi.

(** ** Rows *)

Inductive rule : Type :=
  | RSame | RUndefined
  | ROffset (o : Z)       (* saved at CFA + o *)
  | RValOffset (o : Z)    (* the value CFA + o *)
  | RRegister (r : Z)     (* saved in another register *)
  | RExpr (a : Z)         (* saved at the address the expression at [a] gives *)
  | RValExpr (a : Z).     (* the value the expression at [a] gives *)

Inductive cfa_rule : Type := CfaReg (r o : Z) | CfaExpr (a : Z).

Record row : Type := mk_row { row_cfa : cfa_rule; row_rules : list rule }.

Record dwarf : Type := mk_dwarf {
  d_loc : Z;              (* location of the current row *)
  d_row : row;
  d_stack : list row;     (* rows saved by remember_state, newest first *)
  d_init : list rule;     (* the rules the CIE set *)
  d_code : Z;             (* code alignment factor *)
  d_data : Z              (* data alignment factor *)
}.

(** ** Instructions *)

Inductive insn : Type :=
  | INop
  | IAdvance (d : Z) | IAdvance1 (d : Z) | IAdvance2 (d : Z) | IAdvance4 (d : Z)
  | IOffset (r o : Z) | IOffsetExt (r o : Z) | IValOffset (r o : Z)
  | IOffsetSf (r o : Z) | IValOffsetSf (r o : Z)
  | ISame (r : Z) | IUndefined (r : Z) | IRestore (r : Z) | IRestoreExt (r : Z)
  | IRegister (r r' : Z)
  | IExpression (r : Z) (block : list Z) | IValExpression (r : Z) (block : list Z)
  | IRemember | IRestoreState
  | IDefCfa (r o : Z) | IDefCfaSf (r o : Z) | IDefCfaRegister (r : Z)
  | IDefCfaOffset (o : Z) | IDefCfaOffsetSf (o : Z) | IDefCfaExpression (block : list Z)
  | IArgsSize (n : Z) | INegOffset (r o : Z).

Definition block_bytes (b : list Z) : list Z := uleb_encode (Z.of_nat (length b)) ++ b.

Definition encode (i : insn) : list Z :=
  match i with
  | INop => [DW_CFA_nop]
  | IAdvance d => [0x40 + d]
  | IAdvance1 d => DW_CFA_advance_loc1 :: le_bytes 1 d
  | IAdvance2 d => DW_CFA_advance_loc2 :: le_bytes 2 d
  | IAdvance4 d => DW_CFA_advance_loc4 :: le_bytes 4 d
  | IOffset r o => (0x80 + r) :: uleb_encode o
  | IOffsetExt r o => DW_CFA_offset_extended :: uleb_encode r ++ uleb_encode o
  | IValOffset r o => DW_CFA_val_offset :: uleb_encode r ++ uleb_encode o
  | IOffsetSf r o => DW_CFA_offset_extended_sf :: uleb_encode r ++ sleb_enc 4 o
  | IValOffsetSf r o => DW_CFA_val_offset_sf :: uleb_encode r ++ sleb_enc 4 o
  | ISame r => DW_CFA_same_value :: uleb_encode r
  | IUndefined r => DW_CFA_undefined :: uleb_encode r
  | IRestore r => [0xc0 + r]
  | IRestoreExt r => DW_CFA_restore_extended :: uleb_encode r
  | IRegister r r' => DW_CFA_register :: uleb_encode r ++ uleb_encode r'
  | IExpression r b => DW_CFA_expression :: uleb_encode r ++ block_bytes b
  | IValExpression r b => DW_CFA_val_expression :: uleb_encode r ++ block_bytes b
  | IRemember => [DW_CFA_remember_state]
  | IRestoreState => [DW_CFA_restore_state]
  | IDefCfa r o => DW_CFA_def_cfa :: uleb_encode r ++ uleb_encode o
  | IDefCfaSf r o => DW_CFA_def_cfa_sf :: uleb_encode r ++ sleb_enc 4 o
  | IDefCfaRegister r => DW_CFA_def_cfa_register :: uleb_encode r
  | IDefCfaOffset o => DW_CFA_def_cfa_offset :: uleb_encode o
  | IDefCfaOffsetSf o => DW_CFA_def_cfa_offset_sf :: sleb_enc 4 o
  | IDefCfaExpression b => DW_CFA_def_cfa_expression :: block_bytes b
  | IArgsSize n => DW_CFA_GNU_args_size :: uleb_encode n
  | INegOffset r o => DW_CFA_GNU_negative_offset_extended :: uleb_encode r ++ uleb_encode o
  end.

(** Operands that fit their field; a location advance of zero is left out (the
    interpreter refuses it, see [advance_zero_refused]), and so are signed
    operands of more than four bytes, an empty CFA expression, and expressions
    for registers the table does not have (see [untracked_expression_executed]). *)
Definition uleb_range (v : Z) : Prop := 0 <= v < 2 ^ 64.
Definition sleb_range (v : Z) : Prop := - 2 ^ 27 <= v < 2 ^ 27.

Definition insn_ok (i : insn) : Prop :=
  match i with
  | INop | IRemember | IRestoreState => True
  | IAdvance d => 0 < d < 2 ^ 6
  | IAdvance1 d => 0 < d < 2 ^ 8
  | IAdvance2 d => 0 < d < 2 ^ 16
  | IAdvance4 d => 0 < d < 2 ^ 32
  | IOffset r o => 0 <= r < 2 ^ 6 /\ uleb_range o
  | IRestore r => 0 <= r < 2 ^ 6
  | IOffsetExt r o | IValOffset r o | IDefCfa r o | INegOffset r o | IRegister r o =>
      uleb_range r /\ uleb_range o
  | IOffsetSf r o | IValOffsetSf r o | IDefCfaSf r o => uleb_range r /\ sleb_range o
  | ISame r | IUndefined r | IRestoreExt r | IDefCfaRegister r | IDefCfaOffset r
  | IArgsSize r => uleb_range r
  | IDefCfaOffsetSf o => sleb_range o
  | IExpression r b | IValExpression r b => 0 <= r <= 16
  | IDefCfaExpression b => b <> []
  end.

Section semantics.
Variable compat_task : bool.

(** Rules of registers the table does not have are ignored. *)
Definition set_rule (d : dwarf) (r : Z) (ru : rule) : dwarf :=
  mk_dwarf (d_loc d)
    (mk_row (row_cfa (d_row d)) (<[Z.to_nat r := ru]> (row_rules (d_row d))))
    (d_stack d) (d_init d) (d_code d) (d_data d).

Definition set_cfa (d : dwarf) (c : cfa_rule) : dwarf :=
  mk_dwarf (d_loc d) (mk_row c (row_rules (d_row d))) (d_stack d) (d_init d) (d_code d) (d_data d).

Definition advance (d : dwarf) (delta : Z) : dwarf :=
  mk_dwarf (u64 (d_loc d + delta * d_code d)) (d_row d) (d_stack d) (d_init d) (d_code d) (d_data d).

Definition restore (d : dwarf) (r : Z) : dwarf :=
  set_rule d r (nth (Z.to_nat r) (d_init d) RSame).

Definition set_cfa_offset (d : dwarf) (o : Z) : option dwarf :=
  match row_cfa (d_row d) with
  | CfaReg r _ => Some (set_cfa d (CfaReg r (s64 o)))
  | CfaExpr _ => None
  end.

(** [exec pos i d]: the effect of [i] placed at address [pos]. [None] is a
    program DWARF does not allow, or one that saves more than three rows. *)
Definition exec (pos : Z) (i : insn) (d : dwarf) : option dwarf :=
  let mr := map_reg compat_task in
  match i with
  | INop | IArgsSize _ => Some d
  | IAdvance n | IAdvance1 n | IAdvance2 n | IAdvance4 n => Some (advance d n)
  | IOffset r o | IOffsetExt r o | IOffsetSf r o =>
      Some (set_rule d (mr r) (ROffset (s64 (o * d_data d))))
  | IValOffset r o | IValOffsetSf r o =>
      Some (set_rule d (mr r) (RValOffset (s64 (o * d_data d))))
  | INegOffset r o => Some (set_rule d (mr r) (ROffset (s64 (- o))))
  | ISame r => Some (set_rule d (mr r) RSame)
  | IUndefined r => Some (set_rule d (mr r) RUndefined)
  | IRestore r | IRestoreExt r => Some (restore d (mr r))
  | IRegister r r' => Some (set_rule d (mr r) (RRegister r'))
  | IExpression r _ =>
      Some (set_rule d (mr r) (RExpr (pos + 1 + Z.of_nat (length (uleb_encode r)))))
  | IValExpression r _ =>
      Some (set_rule d (mr r) (RValExpr (pos + 1 + Z.of_nat (length (uleb_encode r)))))
  | IRemember =>
      if (length (d_stack d) <? 3)%nat
      then Some (mk_dwarf (d_loc d) (d_row d) (d_row d :: d_stack d)
                   (d_init d) (d_code d) (d_data d))
      else None
  | IRestoreState =>
      match d_stack d with
      | [] => None
      | saved :: stack =>
          Some (mk_dwarf (d_loc d) saved stack (d_init d) (d_code d) (d_data d))
      end
  | IDefCfa r o => Some (set_cfa d (CfaReg (map_cfa_reg compat_task r) (s64 o)))
  | IDefCfaSf r o =>
      Some (set_cfa d (CfaReg (map_cfa_reg compat_task r) (s64 (o * d_data d))))
  | IDefCfaRegister r =>
      match row_cfa (d_row d) with
      | CfaReg _ o => Some (set_cfa d (CfaReg (map_cfa_reg compat_task r) o))
      | CfaExpr _ => None
      end
  | IDefCfaOffset o => set_cfa_offset d o
  | IDefCfaOffsetSf o => set_cfa_offset d (o * d_data d)
  | IDefCfaExpression _ => Some (set_cfa d (CfaExpr (pos + 1)))
  end.

(** Runs a program placed at [pos], up to the row that covers [target]. *)
Fixpoint exec_program (target pos : Z) (prog : list insn) (d : dwarf) : option dwarf :=
  match prog with
  | [] => Some d
  | i :: prog =>
      match exec pos i d with
      | None => None
      | Some d =>
          if negb (target =? 0) && (target <? d_loc d) then Some d
          else exec_program target (pos + Z.of_nat (length (encode i))) prog d
      end
  end.

End semantics.

(** ** What an [unwind_state] stands for *)

Definition abs_item (i : unwind_item) : rule :=
  match where_ i with
  | Same => RSame
  | Nowhere => RUndefined
  | Memory => ROffset (item_off i)
  | Value => RValOffset (item_off i)
  | Register => RRegister (state_ i)
  | Expr => RExpr (state_ i)
  | ValExpr => RValExpr (state_ i)
  end.

Definition abs_cfa (rs : unwind_reg_state) : cfa_rule :=
  if cfa_is_expr rs then CfaExpr (cfa_expr rs) else CfaReg (cfa_reg rs) (s64 (cfa_off rs)).

Definition abs_row (rs : unwind_reg_state) : row :=
  mk_row (abs_cfa rs) (abs_item <$> rs_regs rs).

Definition abs (st : unwind_state) : dwarf :=
  mk_dwarf (loc st) (abs_row (REG_STATE st))
    (reverse (abs_row <$> take (stackDepth st) (reg st)))
    (abs_item <$> cie_regs st) (codeAlign st) (dataAlign st).

(** ** Each primitive change of the state is the abstract one *)

Lemma abs_set_REG_STATE st rs :
  wf_state st ->
  abs (set_REG_STATE st rs) =
  mk_dwarf (d_loc (abs st)) (abs_row rs) (d_stack (abs st)) (d_init (abs st))
    (d_code (abs st)) (d_data (abs st)).
Proof.
  intros W. unfold abs at 1. rewrite REG_STATE_set by assumption.
  unfold set_REG_STATE. simpl. rewrite take_insert_ge by lia. reflexivity.
Qed.

Lemma set_REG_STATE_twice st a b : set_REG_STATE (set_REG_STATE st a) b = set_REG_STATE st b.
Proof. unfold set_REG_STATE. simpl. rewrite list_insert_insert_eq. reflexivity. Qed.

Lemma abs_rule st r i :
  wf_state st -> 0 <= r ->
  abs (if r <? NR_REGS then update_item st r i else st) = set_rule (abs st) r (abs_item i).
Proof.
  intros W Hr. unfold set_rule. simpl.
  destruct (Z.ltb_spec r NR_REGS) as [Hlt|Hge]; unfold NR_REGS in *.
  - unfold update_item. rewrite abs_set_REG_STATE by assumption.
    unfold abs_row, abs_cfa, cfa_expr. simpl. rewrite list_fmap_insert. reflexivity.
  - rewrite list_insert_ge.
    + reflexivity.
    + rewrite length_fmap. destruct (wf_REG_STATE st W) as (_ & _ & Hl & _). lia.
Qed.

Lemma abs_no_state_rule st r w :
  wf_state st -> 0 <= r -> w = Same \/ w = Nowhere ->
  abs (set_no_state_rule r w st) = set_rule (abs st) r (abs_item (mk_item w 0)).
Proof.
  intros W Hr Hw. unfold set_no_state_rule. rewrite abs_rule by assumption.
  destruct Hw as [-> | ->]; reflexivity.
Qed.

Lemma abs_offset_rule st r w v :
  wf_state st -> 0 <= r ->
  abs (set_offset_rule r w v st) = set_rule (abs st) r (abs_item (mk_item w (u64 v))).
Proof. intros W Hr. apply abs_rule; assumption. Qed.

Lemma abs_register_rule st r v :
  wf_state st -> 0 <= r ->
  abs (set_register_rule r v st) = set_rule (abs st) r (RRegister v).
Proof. intros W Hr. apply abs_rule; assumption. Qed.

Lemma abs_restore_rule st r :
  wf_state st -> 0 <= r -> abs (restore_rule r st) = restore (abs st) r.
Proof.
  intros W Hr. unfold restore_rule, restore. rewrite abs_rule by assumption. f_equal.
  simpl. rewrite !nth_lookup, list_lookup_fmap.
  destruct (cie_regs st !! Z.to_nat r); reflexivity.
Qed.

Lemma abs_set_loc st l :
  abs (set_loc st l) =
  mk_dwarf l (d_row (abs st)) (d_stack (abs st)) (d_init (abs st)) (d_code (abs st))
    (d_data (abs st)).
Proof. reflexivity. Qed.

Lemma abs_advance st delta st' b :
  advance_loc delta st = (st', b) -> abs st' = advance (abs st) delta /\ b = (0 <? delta).
Proof.
  unfold advance_loc. intros [= <- <-]. rewrite abs_set_loc. unfold advance. simpl.
  autorewrite with words. auto.
Qed.

Lemma abs_def_cfa st r o :
  wf_state st ->
  abs (set_cfa_off (set_cfa_reg (set_cfa_is_expr st false) r) o) =
  set_cfa (abs st) (CfaReg r (s64 o)).
Proof.
  intros W. unfold set_cfa_off, set_cfa_reg, set_cfa_is_expr.
  repeat rewrite ?(REG_STATE_set st), ?set_REG_STATE_twice by assumption.
  rewrite abs_set_REG_STATE by assumption.
  unfold abs_row, abs_cfa. simpl. autorewrite with words. reflexivity.
Qed.

Lemma abs_set_cfa_off st o d :
  wf_state st -> set_cfa_offset (abs st) o = Some d ->
  cfa_is_expr (REG_STATE st) = false /\ abs (set_cfa_off st o) = d.
Proof.
  intros W. unfold set_cfa_offset, set_cfa_off. simpl. unfold abs_cfa.
  destruct (cfa_is_expr (REG_STATE st)) eqn:E; [discriminate|]. intros [= <-].
  split; [reflexivity|]. rewrite abs_set_REG_STATE by assumption.
  unfold abs_row, abs_cfa. simpl. autorewrite with words. reflexivity.
Qed.

Lemma abs_set_cfa_reg st r :
  wf_state st -> cfa_is_expr (REG_STATE st) = false ->
  abs (set_cfa_reg st r) = set_cfa (abs st) (CfaReg r (s64 (cfa_off (REG_STATE st)))).
Proof.
  intros W E. unfold set_cfa_reg. rewrite abs_set_REG_STATE by assumption.
  unfold abs_row, abs_cfa. simpl. rewrite E. reflexivity.
Qed.

Lemma abs_set_cfa_expr st a :
  wf_state st ->
  abs (set_cfa_reg (set_cfa_is_expr st true) a) = set_cfa (abs st) (CfaExpr a).
Proof.
  intros W. unfold set_cfa_reg, set_cfa_is_expr.
  rewrite REG_STATE_set, set_REG_STATE_twice, abs_set_REG_STATE by assumption. reflexivity.
Qed.

Lemma take_row st d :
  wf_state st -> (d <= stackDepth st)%nat ->
  take (S d) (reg st) = take d (reg st) ++ [nth d (reg st) zero_reg_state].
Proof.
  intros W Hd. destruct (lookup_lt_is_Some_2 (reg st) d) as [x Hx].
  { rewrite (wf_reg_len st W). pose proof (wf_depth st W). lia. }
  rewrite (take_S_r _ _ x Hx), nth_lookup, Hx. reflexivity.
Qed.

Lemma length_stack st : wf_state st -> length (d_stack (abs st)) = stackDepth st.
Proof.
  intros W. simpl. rewrite length_reverse, length_fmap, length_take, (wf_reg_len st W).
  pose proof (wf_depth st W). lia.
Qed.

Lemma remember_refines st ptr d :
  wf_state st -> exec false 0 IRemember (abs st) = Some d ->
  exists st', cfi_remember_state ptr st = CfiBreak true ptr st' /\ abs st' = d.
Proof.
  intros W E. unfold exec in E. rewrite length_stack in E by assumption.
  destruct (Nat.ltb_spec (stackDepth st) 3); [|discriminate]. injection E as <-.
  unfold cfi_remember_state, STP_MAX_STACK_DEPTH. simpl.
  destruct (Z.leb_spec 4 (Z.of_nat (S (stackDepth st)))); [lia|].
  eexists. split; [reflexivity|].
  rewrite abs_set_REG_STATE by (destruct W; constructor; simpl; assumption || lia).
  simpl d_stack. rewrite (take_row st) by (assumption || lia).
  rewrite fmap_app, reverse_app. reflexivity.
Qed.

Lemma restore_refines st ptr d :
  wf_state st -> exec false 0 IRestoreState (abs st) = Some d ->
  exists st', cfi_restore_state ptr st = CfiBreak true ptr st' /\ abs st' = d.
Proof.
  intros W E. unfold exec in E. simpl d_stack in E. unfold cfi_restore_state.
  destruct (stackDepth st) as [|n] eqn:D; [discriminate|].
  rewrite (take_row st) in E by (assumption || lia).
  rewrite fmap_app, reverse_app in E. injection E as <-.
  eexists. split; [reflexivity|]. reflexivity.
Qed.

#[local] Arguments sleb_enc : simpl never.

Section refinement.
Context `{K : Kernel}.
Variables (end_ ptrType : Z) (user compat_task : bool).
Hypothesis Hend : end_ <= ptr_limit.

Lemma uleb_here p v l :
  bytes_at p (uleb_encode v ++ l) -> uleb_range v ->
  p + Z.of_nat (length (uleb_encode v ++ l)) <= end_ ->
  get_uleb128 p end_ = Ok (v, p + Z.of_nat (length (uleb_encode v))) /\
  bytes_at (p + Z.of_nat (length (uleb_encode v))) l.
Proof.
  intros [H1 H2]%bytes_at_app Hv Hlen. rewrite length_app in Hlen. unfold ptr_limit in Hend.
  split; [|exact H2]. apply get_uleb128_encode; [exact Hv|exact H1|lia|lia].
Qed.

Lemma uleb_last p v :
  bytes_at p (uleb_encode v) -> uleb_range v ->
  p + Z.of_nat (length (uleb_encode v)) <= end_ ->
  get_uleb128 p end_ = Ok (v, p + Z.of_nat (length (uleb_encode v))).
Proof.
  intros H Hv Hlen. unfold ptr_limit in Hend.
  apply get_uleb128_encode; [exact Hv|exact H|lia|lia].
Qed.

Lemma sleb_last p v :
  bytes_at p (sleb_enc 4 v) -> sleb_range v ->
  p + Z.of_nat (length (sleb_enc 4 v)) <= end_ ->
  get_sleb128 p end_ = Ok (v, p + Z.of_nat (length (sleb_enc 4 v))).
Proof.
  intros H Hv Hlen. unfold ptr_limit in Hend.
  apply get_sleb128_encode; [exact Hv|exact H|lia|lia].
Qed.

Lemma dispatch_extended p op l st :
  bytes_at p (op :: l) -> 0 <= op < 64 -> p + 1 <= end_ ->
  cfi_instruction end_ ptrType user compat_task p st =
    cfi_extended end_ ptrType user compat_task op (p + 1) st.
Proof.
  intros (Hb & Hp & _)%bytes_at_cons Hop Hlen. unfold ptr_limit in Hend.
  unfold cfi_instruction. rewrite Hb. simpl. rewrite u64_small by lia.
  replace (Z.shiftr op 6) with 0; [reflexivity|].
  rewrite Z.shiftr_div_pow2 by lia. symmetry. apply Z.div_small. lia.
Qed.

(** The three instructions with an operand in the opcode byte. *)
Lemma dispatch_short p k n l st :
  bytes_at p (64 * k + n :: l) -> 1 <= k <= 3 -> 0 <= n < 64 -> p + 1 <= end_ ->
  cfi_instruction end_ ptrType user compat_task p st =
    match k with
    | 1 => Ok (cfi_advance n (p + 1) st)
    | 2 => cfi_offset_short end_ compat_task n (p + 1) st
    | _ => Ok (CfiBreak true (p + 1) (restore_rule (map_reg compat_task n) st))
    end.
Proof.
  intros (Hb & Hp & _)%bytes_at_cons Hk Hn Hlen. unfold ptr_limit in Hend.
  unfold cfi_instruction. rewrite Hb. simpl. rewrite u64_small by lia.
  replace (Z.shiftr (64 * k + n) 6) with k.
  2: { rewrite Z.shiftr_div_pow2 by lia. apply Z.div_unique with (r := n); lia. }
  replace (Z.land (64 * k + n) 63) with n.
  2: { change 63 with (Z.ones 6). rewrite Z.land_ones by lia.
       apply Z.mod_unique with (q := k); lia. }
  assert (k = 1 \/ k = 2 \/ k = 3) as [-> |[-> | ->]] by lia; reflexivity.
Qed.

Lemma map_reg_nonneg v : uleb_range v -> 0 <= map_reg compat_task v.
Proof.
  unfold uleb_range, map_reg, DWARF_REG_MAP, COMPAT_REG_MAP. intros Hv. repeat case_match; lia.
Qed.
Hint Resolve map_reg_nonneg : core.

(** The goal of every case below. *)
Definition step_ok (p : Z) (i : insn) (st : unwind_state) (d : dwarf) : Prop :=
  exists st', cfi_instruction end_ ptrType user compat_task p st =
    Ok (CfiBreak true (p + Z.of_nat (length (encode i))) st') /\ abs st' = d.

Lemma step_advance delta n st d :
  0 < delta -> Some (advance (abs st) delta) = Some d ->
  exists st', cfi_advance delta n st = CfiBreak true n st' /\ abs st' = d.
Proof.
  intros Hd [= <-]. unfold cfi_advance.
  destruct (advance_loc delta st) as [st' b] eqn:E.
  apply abs_advance in E as [E ->]. exists st'. split; [|exact E].
  destruct (Z.ltb_spec 0 delta); [reflexivity|lia].
Qed.

(** Enters the handler of an instruction with an opcode byte of its own. *)
Ltac enter H :=
  unfold step_ok; simpl encode in *; simpl length in *;
  lazymatch type of H with
  | bytes_at ?p (?op :: ?l) =>
      rewrite (dispatch_extended p op l) by
        (first [exact H | unfold op; lia | rewrite ?length_app in *; lia]);
      apply bytes_at_cons in H as (_ & ? & H);
      unfold cfi_extended; simpl
  end.

(** Decodes the operand at the head of the bytes in [H]. *)
Ltac operand H :=
  lazymatch type of H with
  | bytes_at ?p (uleb_encode ?v ++ ?l) =>
      let D := fresh "D" in let H' := fresh "H" in
      destruct (uleb_here p v l H) as [D H'];
      [assumption | rewrite ?length_app in *; lia |];
      clear H; rename H' into H; rewrite D; clear D; simpl
  | bytes_at ?p (uleb_encode ?v) =>
      rewrite (uleb_last p v H) by (rewrite ?length_app in *; assumption || lia); simpl
  | bytes_at ?p (sleb_enc 4 ?v) =>
      rewrite (sleb_last p v H) by (rewrite ?length_app in *; assumption || lia); simpl
  end.

Lemma break_at q q' r st' d :
  q = q' -> abs st' = d ->
  exists st'', @Ok cfi_result (CfiBreak r q st') = Ok (CfiBreak r q' st'') /\ abs st'' = d.
Proof. intros -> <-. eauto. Qed.

(** Closes a case whose handler has been evaluated. *)
Ltac leave :=
  apply break_at; [rewrite ?length_app; lia|];
  first [ rewrite abs_offset_rule by auto | rewrite abs_no_state_rule by auto
        | rewrite abs_register_rule by auto | rewrite abs_restore_rule by auto
        | rewrite abs_def_cfa by auto | idtac ];
  unfold abs_item, item_off; simpl; autorewrite with words; reflexivity.

Section cases.
Variables (p : Z) (st : unwind_state) (d : dwarf).
Hypothesis W : wf_state st.

Definition case_ok (i : insn) : Prop :=
  bytes_at p (encode i) -> p + Z.of_nat (length (encode i)) <= end_ ->
  insn_ok i -> exec compat_task p i (abs st) = Some d -> step_ok p i st d.

Lemma step_nop : case_ok INop.
Proof. intros H Hlen _ [= <-]. enter H. leave. Qed.

Lemma step_offset_ext r o : case_ok (IOffsetExt r o).
Proof.
  intros H Hlen [Hr Ho] [= <-]. enter H. unfold cfi_offset. operand H. operand H. leave.
Qed.

Lemma step_advances delta n q :
  n = q -> 0 < delta -> Some (advance (abs st) delta) = Some d ->
  exists st', @Ok cfi_result (cfi_advance delta n st) = Ok (CfiBreak true q st') /\ abs st' = d.
Proof.
  intros <- Hd E. destruct (step_advance delta n st d Hd E) as (st' & -> & A). eauto.
Qed.

Lemma step_advance_short n : case_ok (IAdvance n).
Proof.
  intros H Hlen Hn E. unfold step_ok. simpl encode in *. simpl length in *. simpl in Hn.
  rewrite (dispatch_short p 1 n []) by (exact H || lia).
  apply step_advances; [lia|lia|exact E].
Qed.

Lemma step_advance1 n : case_ok (IAdvance1 n).
Proof.
  intros H Hlen Hn E. enter H. unfold cfi_advance_loc1. unfold ptr_limit in Hend.
  apply bytes_at_cons in H as (Hb & Hp & _). rewrite Hb.
  destruct (Z.ltb_spec (p + 1) end_); [|lia]. simpl. simpl in Hn.
  rewrite Z.mod_small by lia. apply step_advances; [rewrite u64_small by lia; lia|lia|exact E].
Qed.

Lemma step_advance2 n : case_ok (IAdvance2 n).
Proof.
  intros H Hlen Hn E. enter H. unfold cfi_advance_loc2. unfold ptr_limit in Hend.
  rewrite (load_le_bytes 2 (p + 1) n H). rewrite !u64_small by lia.
  destruct (Z.leb_spec (p + 1) (end_ + 2)); [|lia]. simpl in Hn.
  rewrite Z.mod_small by (simpl; lia). apply step_advances; [lia|lia|exact E].
Qed.

Lemma step_advance4 n : case_ok (IAdvance4 n).
Proof.
  intros H Hlen Hn E. enter H. unfold cfi_advance_loc4. unfold ptr_limit in Hend.
  rewrite (load_le_bytes 4 (p + 1) n H). rewrite !u64_small by lia.
  destruct (Z.leb_spec (p + 1) (end_ + 4)); [|lia]. simpl in Hn.
  rewrite Z.mod_small by (simpl; lia). apply step_advances; [lia|lia|exact E].
Qed.

(** A register number that fits the opcode byte. *)
Lemma uleb_range_short r : 0 <= r < 2 ^ 6 -> uleb_range r.
Proof. unfold uleb_range. lia. Qed.
Hint Resolve uleb_range_short : core.

Lemma step_offset_short r o : case_ok (IOffset r o).
Proof.
  intros H Hlen [Hr Ho] [= <-]. unfold step_ok. simpl encode in *. simpl length in *.
  rewrite (dispatch_short p 2 r (uleb_encode o)) by (exact H || lia).
  apply bytes_at_cons in H as (_ & ? & H). unfold cfi_offset_short. operand H. leave.
Qed.

Lemma step_restore_short r : case_ok (IRestore r).
Proof.
  intros H Hlen Hr [= <-]. unfold step_ok. simpl encode in *. simpl length in *. simpl in Hr.
  rewrite (dispatch_short p 3 r []) by (exact H || lia). leave.
Qed.

Lemma step_restore_ext r : case_ok (IRestoreExt r).
Proof.
  intros H Hlen Hr [= <-]. enter H. unfold cfi_restore_extended. operand H. leave.
Qed.

Lemma step_val_offset r o : case_ok (IValOffset r o).
Proof.
  intros H Hlen [Hr Ho] [= <-]. enter H. unfold cfi_offset. operand H. operand H. leave.
Qed.

Lemma step_offset_sf r o : case_ok (IOffsetSf r o).
Proof.
  intros H Hlen [Hr Ho] [= <-]. enter H. unfold cfi_offset_sf. operand H. operand H. leave.
Qed.

Lemma step_val_offset_sf r o : case_ok (IValOffsetSf r o).
Proof.
  intros H Hlen [Hr Ho] [= <-]. enter H. unfold cfi_offset_sf. operand H. operand H. leave.
Qed.

Lemma step_neg_offset r o : case_ok (INegOffset r o).
Proof.
  intros H Hlen [Hr Ho] [= <-]. enter H. unfold cfi_GNU_negative_offset_extended.
  operand H. operand H. leave.
Qed.

Lemma step_same r : case_ok (ISame r).
Proof. intros H Hlen Hr [= <-]. enter H. unfold cfi_no_state. operand H. leave. Qed.

Lemma step_undefined r : case_ok (IUndefined r).
Proof. intros H Hlen Hr [= <-]. enter H. unfold cfi_no_state. operand H. leave. Qed.

Lemma step_register r r' : case_ok (IRegister r r').
Proof.
  intros H Hlen [Hr Ho] [= <-]. enter H. unfold cfi_register. operand H. operand H. leave.
Qed.

Lemma step_args_size n : case_ok (IArgsSize n).
Proof. intros H Hlen Hr [= <-]. enter H. unfold cfi_GNU_args_size. operand H. leave. Qed.

Lemma step_remember : case_ok IRemember.
Proof.
  intros H Hlen _ E. enter H.
  destruct (remember_refines st (p + 1) d W E) as (st' & -> & A). apply break_at; [lia|exact A].
Qed.

Lemma step_restore_state : case_ok IRestoreState.
Proof.
  intros H Hlen _ E. enter H.
  destruct (restore_refines st (p + 1) d W E) as (st' & -> & A). apply break_at; [lia|exact A].
Qed.

Lemma def_cfa_not_expr r :
  cfa_is_expr (REG_STATE (set_cfa_reg (set_cfa_is_expr st false) r)) = false.
Proof.
  unfold set_cfa_reg, set_cfa_is_expr.
  repeat rewrite ?(REG_STATE_set st), ?set_REG_STATE_twice by assumption. reflexivity.
Qed.

Lemma step_def_cfa r o : case_ok (IDefCfa r o).
Proof.
  intros H Hlen [Hr Ho] [= <-]. enter H. unfold cfi_def_cfa. operand H.
  unfold cfi_def_cfa_offset. rewrite def_cfa_not_expr. operand H. leave.
Qed.

Lemma step_def_cfa_sf r o : case_ok (IDefCfaSf r o).
Proof.
  intros H Hlen [Hr Ho] [= <-]. enter H. unfold cfi_def_cfa_sf. operand H.
  unfold cfi_def_cfa_offset_sf. rewrite def_cfa_not_expr. operand H. leave.
Qed.

Lemma step_def_cfa_register r : case_ok (IDefCfaRegister r).
Proof.
  intros H Hlen Hr E. enter H. unfold cfi_def_cfa_register. unfold exec in E.
  simpl in E. unfold abs_cfa in E.
  destruct (cfa_is_expr (REG_STATE st)) eqn:Ex; [discriminate|]. injection E as <-.
  operand H. apply break_at; [lia|]. apply abs_set_cfa_reg; assumption.
Qed.

Lemma step_def_cfa_offset o : case_ok (IDefCfaOffset o).
Proof.
  intros H Hlen Ho E. enter H. unfold cfi_def_cfa_offset.
  destruct (abs_set_cfa_off st o d W E) as [-> A]. operand H. apply break_at; [lia|exact A].
Qed.

Lemma step_def_cfa_offset_sf o : case_ok (IDefCfaOffsetSf o).
Proof.
  intros H Hlen Ho E. enter H. unfold cfi_def_cfa_offset_sf.
  destruct (abs_set_cfa_off st (o * dataAlign st) d W E) as [-> A].
  operand H. apply break_at; [lia|exact A].
Qed.

(** A block starts with its length, which its bytes do not exceed. *)
Lemma block_here q b l :
  bytes_at q (block_bytes b ++ l) -> q + Z.of_nat (length (block_bytes b)) <= end_ ->
  let c := q + Z.of_nat (length (uleb_encode (Z.of_nat (length b)))) in
  let n := Z.of_nat (length b) in
  get_uleb128 q end_ = Ok (n, c) /\ n <= u64 (end_ - c) /\ u64 (c + n) = c + n /\
  c + n <= end_ /\ c + n = q + Z.of_nat (length (block_bytes b)).
Proof.
  intros H Hlen c n. unfold block_bytes in *. rewrite length_app in *.
  unfold ptr_limit in Hend. assert (Hq : 0 <= q) by apply H.
  rewrite <- app_assoc in H. apply bytes_at_app in H as [H _].
  assert (R : uleb_range n) by (unfold uleb_range; lia).
  subst c n. rewrite (get_uleb128_encode q end_ (Z.of_nat (length b))) by (assumption || lia).
  rewrite !u64_small by lia. split; [reflexivity|lia].
Qed.

Lemma map_reg_tracked r : 0 <= r <= 16 -> 0 <= map_reg compat_task r < NR_REGS.
Proof.
  intros Hr. unfold map_reg, DWARF_REG_MAP.
  destruct compat_task; [apply COMPAT_REG_MAP_valid; lia|unfold NR_REGS; lia].
Qed.

Lemma step_expression_with w r b :
  bytes_at (p + 1) (uleb_encode r ++ block_bytes b) ->
  p + 1 + Z.of_nat (length (uleb_encode r ++ block_bytes b)) <= end_ -> 0 <= r <= 16 ->
  exists st', cfi_expression end_ compat_task w (p + 1) st =
      Ok (CfiBreak true (p + 1 + Z.of_nat (length (uleb_encode r ++ block_bytes b))) st') /\
    abs st' = set_rule (abs st) (map_reg compat_task r)
      (abs_item (mk_item w (p + 1 + Z.of_nat (length (uleb_encode r))))).
Proof.
  intros H Hlen Hr. unfold cfi_expression.
  destruct (uleb_here (p + 1) r _ H ltac:(unfold uleb_range; lia) Hlen) as [-> H']. simpl.
  rewrite length_app in *. rewrite <- (app_nil_r (block_bytes b)) in H'.
  destruct (block_here _ b [] H' ltac:(lia)) as (D & Hn & Hu & Hle & Hq).
  pose proof (map_reg_tracked r Hr) as Ht.
  unfold set_expr_rule. rewrite D. simpl.
  apply Z.leb_le in Hn as ->. pose proof (proj2 Ht) as Hlt. apply Z.ltb_lt in Hlt. rewrite Hlt. simpl.
  rewrite Hu, Hq. apply break_at; [lia|].
  rewrite <- (abs_rule st (map_reg compat_task r)), Hlt by (auto; lia). reflexivity.
Qed.

Lemma step_expression r b : case_ok (IExpression r b).
Proof.
  intros H Hlen Hr [= <-]. enter H.
  destruct (step_expression_with Expr r b H) as (st' & -> & A); [lia|exact Hr|].
  apply break_at; [lia|exact A].
Qed.

Lemma step_val_expression r b : case_ok (IValExpression r b).
Proof.
  intros H Hlen Hr [= <-]. enter H.
  destruct (step_expression_with ValExpr r b H) as (st' & -> & A); [lia|exact Hr|].
  apply break_at; [lia|exact A].
Qed.

Lemma step_def_cfa_expression b : case_ok (IDefCfaExpression b).
Proof.
  intros H Hlen Hb [= <-]. enter H. unfold cfi_def_cfa_expression.
  rewrite <- (app_nil_r (block_bytes b)) in H.
  destruct (block_here (p + 1) b [] H ltac:(lia)) as (D & Hn & Hu & Hle & Hq).
  rewrite D. simpl. simpl in Hb.
  assert (0 < length b)%nat by (destruct b; [contradiction|simpl; lia]).
  match goal with |- context [?c <? end_] => destruct (Z.ltb_spec c end_); [|lia] end.
  apply Z.leb_le in Hn as ->. simpl. rewrite Hu, Hq.
  apply break_at; [lia|]. apply abs_set_cfa_expr. exact W.
Qed.

(** One instruction of the abstract machine is one round of the interpreter. *)
Lemma step_refines i : case_ok i.
Proof.
  destruct i; eauto using step_nop, step_advance_short, step_advance1, step_advance2,
    step_advance4, step_offset_short, step_offset_ext, step_val_offset, step_offset_sf,
    step_val_offset_sf, step_same, step_undefined, step_restore_short, step_restore_ext,
    step_register, step_expression, step_val_expression, step_remember, step_restore_state,
    step_def_cfa, step_def_cfa_sf, step_def_cfa_register, step_def_cfa_offset,
    step_def_cfa_offset_sf, step_def_cfa_expression, step_args_size, step_neg_offset.
Qed.
End cases.

Lemma length_encode_pos i : (0 < length (encode i))%nat.
Proof. destruct i; simpl; lia. Qed.

Lemma run_cfi_loop_refines target prog : forall fuel p st d,
  wf_state st -> bytes_at p (concat (map encode prog)) ->
  p + Z.of_nat (length (concat (map encode prog))) = end_ ->
  Forall insn_ok prog -> exec_program compat_task target p prog (abs st) = Some d ->
  (length (concat (map encode prog)) < fuel)%nat ->
  exists st', run_cfi_loop end_ target ptrType user compat_task fuel p st = Ok (1, st') /\
    abs st' = d /\ wf_state st'.
Proof.
  induction prog as [|i prog IH]; intros [|fuel] p st d W H Hlen Hok E Hf; try lia.
  - simpl in *. injection E as <-. destruct (Z.ltb_spec p end_); [lia|].
    destruct (Z.eqb_spec p end_); [|lia]. eauto.
  - simpl map in *. simpl concat in *. rewrite length_app in *.
    pose proof (length_encode_pos i) as Hi.
    apply bytes_at_app in H as [H1 H2]. apply Forall_cons in Hok as [Hoi Hok].
    simpl in E. destruct (exec compat_task p i (abs st)) as [d1|] eqn:E1; [|discriminate].
    destruct (step_refines p st d1 W i H1 ltac:(lia) Hoi E1) as (st1 & S1 & A1).
    assert (Hp : is_u64 p) by (destruct H1; unfold is_u64, ptr_limit in *; lia).
    pose proof (cfi_instruction_wf _ _ _ _ _ _ _ W Hp S1) as [W1 _].
    simpl. destruct (Z.ltb_spec p end_); [|lia]. rewrite S1. simpl.
    destruct (Z.ltb_spec end_ (p + Z.of_nat (length (encode i)))); [lia|]. simpl.
    subst d1. simpl in E. destruct (negb (target =? 0) && (target <? loc st1)).
    + injection E as <-. eauto.
    + apply IH; auto; lia.
Qed.
End refinement.

(** The interpreter on an encoded program. *)
Lemma run_program_refines `{K : Kernel} start end_ target ptrType user compat_task prog st d :
  wf_state st -> Forall insn_ok prog ->
  bytes_at start (concat (map encode prog)) ->
  end_ = start + Z.of_nat (length (concat (map encode prog))) -> end_ <= ptr_limit ->
  Z.of_nat (length (concat (map encode prog))) <= MAX_CFI ->
  exec_program compat_task target start prog (abs st) = Some d ->
  exists st',
    run_cfi_program end_ target ptrType user compat_task CFI_FUEL start st = Ok (1, st') /\
    abs st' = d /\ wf_state st'.
Proof.
  intros W Hok H He Hlim Hmax E. unfold run_cfi_program, CFI_FUEL, MAX_CFI in *.
  replace (end_ - start) with (Z.of_nat (length (concat (map encode prog)))) by lia.
  rewrite s64_small by lia.
  destruct (Z.ltb_spec 512 (Z.of_nat (length (concat (map encode prog))))); [lia|].
  eapply run_cfi_loop_refines; try eassumption; lia.
Qed.


(** ** Where the interpreter leaves the abstract machine *)

(** an expression for a register the table does not have is not skipped:
    the cursor stops on its first byte, and the interpreter goes on to execute
    the operations of the expression as call frame instructions. *)
Theorem untracked_expression_executed `{K : Kernel} p end_ w r b st :
  bytes_at p (uleb_encode r ++ block_bytes b) ->
  p + Z.of_nat (length (uleb_encode r ++ block_bytes b)) <= end_ -> end_ <= ptr_limit ->
  NR_REGS <= r < 2 ^ 64 ->
  cfi_expression end_ false w p st =
    Ok (CfiBreak true
          (p + Z.of_nat (length (uleb_encode r)) +
           Z.of_nat (length (uleb_encode (Z.of_nat (length b))))) st).
Proof.
  unfold NR_REGS. intros H Hlen Hlim Hr. unfold cfi_expression.
  destruct (uleb_here end_ Hlim p r _ H ltac:(unfold uleb_range; lia) Hlen) as [-> H']. simpl.
  rewrite length_app in Hlen. rewrite <- (app_nil_r (block_bytes b)) in H'.
  destruct (block_here end_ Hlim _ b [] H' ltac:(lia)) as (D & _).
  unfold set_expr_rule. rewrite D. simpl. unfold map_reg, DWARF_REG_MAP, NR_REGS.
  destruct (Z.ltb_spec r 17); [lia|]. rewrite andb_false_r. reflexivity.
Qed.

(** An advance by zero, which DWARF allows, ends the program as a failure. *)
Theorem advance_zero_refused `{K : Kernel} start end_ target ptrType user compat_task fuel st :
  load8 start = Ok 0x40 -> 0 <= start -> start < end_ -> end_ <= ptr_limit ->
  end_ - start <= MAX_CFI ->
  exists st', run_cfi_program end_ target ptrType user compat_task (S fuel) start st = Ok (0, st').
Proof.
  intros Hb Hs He Hlim Hmax. unfold run_cfi_program, MAX_CFI in *.
  rewrite s64_small by lia. destruct (Z.ltb_spec 512 (end_ - start)); [lia|].
  simpl. destruct (Z.ltb_spec start end_); [|lia].
  unfold cfi_instruction. rewrite Hb. simpl. destruct (_ <? _); simpl; eauto.
Qed.

(** ** Witnesses *)

Definition demo_insns : list insn :=
  [IDefCfa 7 8; IOffset 16 1; IAdvance 4; IDefCfaOffset 16; IRemember; IOffsetSf 6 2; IRestoreState].
Definition demo_code : list Z := concat (map encode demo_insns).
Definition demo_code_kernel : Kernel := image_kernel [(4096, demo_code)] [].


Definition untracked_kernel : Kernel :=
  image_kernel [(4096, uleb_encode 17 ++ block_bytes [0x77; 0])] [].

Lemma untracked_expression_executed_witness :
  cfi_expression (K := untracked_kernel) 4100 false Expr 4096 zero_state =
    Ok (CfiBreak true 4098 zero_state).
Proof.
  apply (untracked_expression_executed (K := untracked_kernel) 4096 4100 Expr 17 [0x77; 0] zero_state).
  - apply (bytes_atb_true (K := untracked_kernel)). vm_compute. reflexivity.
  - vm_compute. discriminate.
  - vm_compute. discriminate.
  - unfold NR_REGS. lia.
Defined.

Definition advance_zero_kernel : Kernel := image_kernel [(4096, [0x40])] [].

Lemma advance_zero_refused_witness :
  exists st', run_cfi_program (K := advance_zero_kernel) 4097 0 0 true false CFI_FUEL 4096
    zero_state = Ok (0, st').
Proof.
  apply (advance_zero_refused (K := advance_zero_kernel) 4096 4097 0 0 true false 512 zero_state);
    [reflexivity|lia|lia|vm_compute; discriminate|vm_compute; discriminate].
Defined.
