(* ===== verification/Expr.v ===== *)
(** * DWARF expressions

    [compute_expr] of src/src/unwind.c: the stack machine for CFA and register
    expressions, with its eight-slot stack. *)
From S2P Require Import Prelude Machine Leb128 Regs.

Definition DW_OP_addr : Z := 0x03.
Definition DW_OP_deref : Z := 0x06.
Definition DW_OP_const1u : Z := 0x08.
Definition DW_OP_const1s : Z := 0x09.
Definition DW_OP_const2u : Z := 0x0a.
Definition DW_OP_const2s : Z := 0x0b.
Definition DW_OP_const4u : Z := 0x0c.
Definition DW_OP_const4s : Z := 0x0d.
Definition DW_OP_const8u : Z := 0x0e.
Definition DW_OP_const8s : Z := 0x0f.
Definition DW_OP_constu : Z := 0x10.
Definition DW_OP_consts : Z := 0x11.
Definition DW_OP_dup : Z := 0x12.
Definition DW_OP_drop : Z := 0x13.
Definition DW_OP_over : Z := 0x14.
Definition DW_OP_pick : Z := 0x15.
Definition DW_OP_swap : Z := 0x16.
Definition DW_OP_abs : Z := 0x19.
Definition DW_OP_and : Z := 0x1a.
Definition DW_OP_div : Z := 0x1b.
Definition DW_OP_minus : Z := 0x1c.
Definition DW_OP_mod : Z := 0x1d.
Definition DW_OP_mul : Z := 0x1e.
Definition DW_OP_neg : Z := 0x1f.
Definition DW_OP_not : Z := 0x20.
Definition DW_OP_or : Z := 0x21.
Definition DW_OP_plus : Z := 0x22.
Definition DW_OP_plus_uconst : Z := 0x23.
Definition DW_OP_shl : Z := 0x24.
Definition DW_OP_shr : Z := 0x25.
Definition DW_OP_shra : Z := 0x26.
Definition DW_OP_xor : Z := 0x27.
Definition DW_OP_bra : Z := 0x28.
Definition DW_OP_eq : Z := 0x29.
Definition DW_OP_ge : Z := 0x2a.
Definition DW_OP_gt : Z := 0x2b.
Definition DW_OP_le : Z := 0x2c.
Definition DW_OP_lt : Z := 0x2d.
Definition DW_OP_ne : Z := 0x2e.
Definition DW_OP_skip : Z := 0x2f.
Definition DW_OP_lit0 : Z := 0x30.
Definition DW_OP_lit31 : Z := 0x4f.
Definition DW_OP_breg0 : Z := 0x70.
Definition DW_OP_breg31 : Z := 0x8f.
Definition DW_OP_bregx : Z := 0x92.
Definition DW_OP_deref_size : Z := 0x94.
Definition DW_OP_nop : Z := 0x96.

(** [#define MAX_EXPR_STACK 8] *)
Definition MAX_EXPR_STACK : nat := 8.

(** [long stack[MAX_EXPR_STACK]; unsigned int sp]: a slot holds the 64-bit
    pattern of its [long], [None] before it is first written. *)
Record estack : Type := mk_estack { slots : list (option Z); sp : nat }.
Definition empty_stack : estack := mk_estack (replicate MAX_EXPR_STACK None) 0.

(** [PUSH] and [POP]; [None] is the jump to [overflow] or [underflow], both of
    which return 1. *)
Definition PUSH (v : Z) (s : estack) : option estack :=
  if (sp s =? MAX_EXPR_STACK)%nat then None
  else Some (mk_estack (<[sp s := Some (u64 v)]> (slots s)) (S (sp s))).

(** The slot below [sp] has been written by the push that raised [sp]. *)
Definition POP (s : estack) : option (C Z * estack) :=
  match sp s with
  | O => None
  | S n =>
    Some (match nth n (slots s) None with Some v => Ok v | None => Crash Uninitialised end,
          mk_estack (slots s) n)
  end.

(** An operation: [None] is [return 1], else the new cursor and stack. *)
Definition op_result : Type := C (option (Z * estack)).

Section operations.
Context `{K : Kernel}.
Variables (frame : unwind_frame_info) (user compat_task : bool).
Variables (end_ : Z).

Definition push_next (v expr : Z) (s : estack) : op_result :=
  match PUSH v s with None => Ok None | Some s => Ok (Some (expr, s)) end.

Definition with_pop (s : estack) (k : Z -> estack -> op_result) : op_result :=
  match POP s with
  | None => Ok None
  | Some (v, s) => v ← v; k v s
  end.

(** [NEED(sizeof(...))]: an unsigned comparison; [NEED(1)]: a signed one. *)
Definition need_sizeof (n expr : Z) : bool := n <=? u64 (end_ - expr).
Definition need_1 (expr : Z) : bool := 1 <=? s64 (end_ - expr).

(** [CONSTANT(type)] for the type of [n] bytes. *)
Definition op_constant (n : nat) (signed : bool) (expr : Z) (s : estack) : op_result :=
  if need_sizeof (Z.of_nat n) expr then
    v ← load n expr;
    push_next (if signed then sign (8 * Z.of_nat n) v else v) (u64 (expr + Z.of_nat n)) s
  else Ok None.

Definition op_skip (expr : Z) (s : estack) : op_result :=
  if need_sizeof 2 expr then
    v ← load 2 expr;
    let off := s16 v in
    let expr := u64 (expr + 2) in
    if off <? 0 then Ok None
    else if s64 (end_ - expr) <? off then Ok None
    else Ok (Some (u64 (expr + off), s))
  else Ok None.

Definition op_bra (expr : Z) (s : estack) : op_result :=
  with_pop s (fun v s => if v =? 0 then Ok (Some (expr, s)) else op_skip expr s).

Definition op_dup (expr : Z) (s : estack) : op_result :=
  with_pop s (fun v s =>
    match PUSH v s with None => Ok None | Some s => push_next v expr s end).

Definition op_drop (expr : Z) (s : estack) : op_result :=
  with_pop s (fun _ s => Ok (Some (expr, s))).

Definition op_swap (expr : Z) (s : estack) : op_result :=
  with_pop s (fun tos s => with_pop s (fun nos s =>
    match PUSH tos s with None => Ok None | Some s => push_next nos expr s end)).

(** The label [pick]: the slot is [stack[sp - value]]. *)
Definition op_pick_at (value expr : Z) (s : estack) : op_result :=
  if Z.of_nat (sp s) <=? value then Ok None
  else
    match slots s !! Z.to_nat (Z.of_nat (sp s) - value) with
    | None => Crash OutOfBounds
    | Some None => Crash Uninitialised
    | Some (Some v) => push_next v expr s
    end.

Definition op_over (expr : Z) (s : estack) : op_result := op_pick_at 1 expr s.

Definition op_pick (expr : Z) (s : estack) : op_result :=
  if need_1 expr then v ← load8 expr; op_pick_at v (u64 (expr + 1)) s else Ok None.

Definition op_constu (expr : Z) (s : estack) : op_result :=
  '(v, expr) ← get_uleb128 expr end_; push_next v expr s.

Definition op_consts (expr : Z) (s : estack) : op_result :=
  '(v, expr) ← get_sleb128 expr end_; push_next v expr s.

(** [PUSH(e)] where [e] contains [POP] expands to
    [if (sp == 8) goto overflow; stack[sp++] = ( ... stack[--sp] ... )]: the two
    changes of [sp] are unsequenced, and C does not define the result. On an empty
    stack neither: the test of [POP] reads [sp] unsequenced with [sp++]. *)
Definition push_of_pop (s : estack) : op_result :=
  if (sp s =? MAX_EXPR_STACK)%nat then Ok None else Crash Unsequenced.

Definition op_plus_uconst (expr : Z) (s : estack) : op_result :=
  '(_, _) ← get_uleb128 expr end_; push_of_pop s.

(** [BINOP(name, operator)]: [a] and [b] are [long]. *)
Definition op_binop (f : Z -> Z -> C Z) (expr : Z) (s : estack) : op_result :=
  with_pop s (fun b s => with_pop s (fun a s =>
    v ← f (s64 a) (s64 b); push_next v expr s)).

Definition of_bool (b : bool) : Z := if b then 1 else 0.

(** [a << b] and [a >> b] on [long]. *)
Definition long_shl (a b : Z) : C Z :=
  if shift_ok 64 b then Ok (Z.shiftl a b) else Crash UndefinedShift.
Definition long_shr (a b : Z) : C Z :=
  if shift_ok 64 b then Ok (Z.shiftr a b) else Crash UndefinedShift.

Definition op_mod (expr : Z) (s : estack) : op_result :=
  with_pop s (fun b s => with_pop s (fun a s =>
    if b =? 0 then Ok None else push_next (a mod b) expr s)).

(** The machine division traps when the quotient does not fit. *)
Definition op_div (expr : Z) (s : estack) : op_result :=
  with_pop s (fun b s => with_pop s (fun a s =>
    if b =? 0 then Ok None
    else if (s64 a =? - 2 ^ 63) && (s64 b =? -1) then Crash DivideError
    else push_next (Z.quot (s64 a) (s64 b)) expr s)).

Definition op_shr (expr : Z) (s : estack) : op_result :=
  with_pop s (fun b s => with_pop s (fun a s =>
    v ← shr_u64 a b; push_next v expr s)).

Definition op_abs (expr : Z) (s : estack) : op_result :=
  with_pop s (fun v s => push_next (kabs v) expr s).

(** The label [breg]. *)
Definition op_breg (value expr : Z) (s : estack) : op_result :=
  let value := if compat_task then COMPAT_REG_MAP (DWARF_REG_MAP value)
               else DWARF_REG_MAP value in
  if NR_REGS <=? value then Ok None
  else
    '(offset, expr) ← get_sleb128 expr end_;
    v ← FRAME_REG frame value;
    push_next (v + offset) expr s.

Definition op_bregx (expr : Z) (s : estack) : op_result :=
  '(value, expr) ← get_uleb128 expr end_; op_breg value expr s.

(** The label [deref]: the value read is not pushed. [sizeof(value)] is 8. *)
Definition op_deref_at (value expr : Z) (s : estack) : op_result :=
  with_pop s (fun addr s =>
    if (value =? 1) || (value =? 2) || (value =? 4) || (value =? 8) then
      match _stp_read_address 8 value addr (if user then USER_DS else KERNEL_DS) with
      | None => Ok None
      | Some _ => Ok (Some (expr, s))
      end
    else Ok None).

Definition op_deref_size (expr : Z) (s : estack) : op_result :=
  if need_1 expr then
    value ← load8 expr;
    if 8 <? value then Ok None else op_deref_at value (u64 (expr + 1)) s
  else Ok None.

(** [switch (op)]; [expr] is past the opcode. *)
Definition expr_op (op expr : Z) (s : estack) : op_result :=
  let bin f := op_binop f expr s in
  let cmp f := op_binop (fun a b => Ok (of_bool (f a b))) expr s in
  if op =? DW_OP_nop then Ok (Some (expr, s))
  else if op =? DW_OP_bra then op_bra expr s
  else if op =? DW_OP_skip then op_skip expr s
  else if op =? DW_OP_dup then op_dup expr s
  else if op =? DW_OP_drop then op_drop expr s
  else if op =? DW_OP_swap then op_swap expr s
  else if op =? DW_OP_over then op_over expr s
  else if op =? DW_OP_pick then op_pick expr s
  else if op =? DW_OP_addr then op_constant 8 false expr s
  else if op =? DW_OP_const1u then op_constant 1 false expr s
  else if op =? DW_OP_const1s then op_constant 1 true expr s
  else if op =? DW_OP_const2u then op_constant 2 false expr s
  else if op =? DW_OP_const2s then op_constant 2 true expr s
  else if op =? DW_OP_const4u then op_constant 4 false expr s
  else if op =? DW_OP_const4s then op_constant 4 true expr s
  else if op =? DW_OP_const8u then op_constant 8 false expr s
  else if op =? DW_OP_const8s then op_constant 8 true expr s
  else if op =? DW_OP_constu then op_constu expr s
  else if op =? DW_OP_consts then op_consts expr s
  else if (DW_OP_lit0 <=? op) && (op <=? DW_OP_lit31) then push_next (op - DW_OP_lit0) expr s
  else if op =? DW_OP_plus_uconst then op_plus_uconst expr s
  else if op =? DW_OP_eq then cmp Z.eqb
  else if op =? DW_OP_ne then cmp (fun a b => negb (a =? b))
  else if op =? DW_OP_ge then cmp Z.geb
  else if op =? DW_OP_gt then cmp Z.gtb
  else if op =? DW_OP_le then cmp Z.leb
  else if op =? DW_OP_lt then cmp Z.ltb
  else if op =? DW_OP_and then bin (fun a b => Ok (Z.land a b))
  else if op =? DW_OP_or then bin (fun a b => Ok (Z.lor a b))
  else if op =? DW_OP_xor then bin (fun a b => Ok (Z.lxor a b))
  else if op =? DW_OP_plus then bin (fun a b => Ok (a + b))
  else if op =? DW_OP_minus then bin (fun a b => Ok (a - b))
  else if op =? DW_OP_mul then bin (fun a b => Ok (a * b))
  else if op =? DW_OP_shl then bin long_shl
  else if op =? DW_OP_shra then bin long_shr
  else if op =? DW_OP_mod then op_mod expr s
  else if op =? DW_OP_div then op_div expr s
  else if op =? DW_OP_shr then op_shr expr s
  else if (op =? DW_OP_not) || (op =? DW_OP_neg) then push_of_pop s
  else if op =? DW_OP_abs then op_abs expr s
  else if op =? DW_OP_bregx then op_bregx expr s
  else if (DW_OP_breg0 <=? op) && (op <=? DW_OP_breg31) then op_breg (op - DW_OP_breg0) expr s
  else if op =? DW_OP_deref then op_deref_at 8 expr s
  else if op =? DW_OP_deref_size then op_deref_size expr s
  else Ok None.

(** [while (expr < end)] and the final [*result = POP]. *)
Fixpoint expr_loop (fuel : nat) (expr : Z) (s : estack) : C (option Z) :=
  match fuel with
  | O => Crash OutOfFuel
  | S fuel =>
    if expr <? end_ then
      op ← load8 expr;
      r ← expr_op op (u64 (expr + 1)) s;
      match r with
      | None => Ok None
      | Some (expr, s) => expr_loop fuel expr s
      end
    else
      match POP s with
      | None => Ok None
      | Some (v, _) => v ← v; Ok (Some v)
      end
  end.
End operations.

(** [compute_expr(expr, frame, result, user, compat)]: [Some v] is [return 0]
    with [*result = v], [None] is [return 1]. Every round consumes a byte of
    the expression, so [len + 1] rounds are enough. *)
Definition compute_expr `{K : Kernel} (expr : Z) (frame : unwind_frame_info)
    (user compat_task : bool) : C (option Z) :=
  '(len, expr) ← get_uleb128 expr (2 ^ 64 - 1);
  expr_loop frame user compat_task (u64 (expr + len)) (S (Z.to_nat len)) expr empty_stack.

(** ** Termination

    Every operation moves the cursor forward, so the loop ends after at most one
    round per byte of the expression, whatever memory holds. *)

Section termination.
Context `{K : Kernel}.
Variables (frame : unwind_frame_info) (user compat_task : bool).
Variables (end_ : Z).
Hypothesis Hend : end_ < 2 ^ 64 - 1.

(** The operation terminates and leaves the cursor at or after [e]. *)
Definition forward (e : Z) (r : op_result) : Prop :=
  terminates r /\ forall e' s', r = Ok (Some (e', s')) -> e <= e' < 2 ^ 64.

Lemma forward_stop e : forward e (Ok None).
Proof. split; [discriminate|intros e' s' [=]]. Qed.

Lemma forward_crash e c : c <> OutOfFuel -> forward e (Crash c).
Proof. intros Hc. split; [intros [= ->]; auto|intros e' s' [=]]. Qed.

Lemma forward_go e e' s : e <= e' < 2 ^ 64 -> forward e (Ok (Some (e', s))).
Proof. intros H. split; [discriminate|]. intros e1 s1 [= <- <-]. exact H. Qed.

Lemma forward_bind {A} e (m : C A) f :
  terminates m -> (forall a, m = Ok a -> forward e (f a)) -> forward e (m ≫= f).
Proof.
  intros Hm Hf. destruct m as [a|c]; simpl; [apply Hf; reflexivity|].
  apply forward_crash. intros ->. apply Hm. reflexivity.
Qed.

Lemma forward_push e v e' s : e <= e' < 2 ^ 64 -> forward e (push_next v e' s).
Proof.
  intros H. unfold push_next. destruct (PUSH v s); [apply forward_go, H|apply forward_stop].
Qed.

Lemma POP_terminates s v s' : POP s = Some (v, s') -> terminates v.
Proof.
  unfold POP. destruct (sp s); [discriminate|]. intros [= <- _].
  destruct (nth _ _ _); discriminate.
Qed.

Lemma forward_with_pop e s k :
  (forall v s', forward e (k v s')) -> forward e (with_pop s k).
Proof.
  intros H. unfold with_pop. destruct (POP s) as [[v s']|] eqn:E; [|apply forward_stop].
  apply forward_bind; [eapply POP_terminates, E|auto].
Qed.

#[local] Create HintDb fwd.
Hint Resolve forward_stop forward_go forward_push forward_crash : fwd.
Hint Extern 2 (_ <> OutOfFuel) => discriminate : fwd.
Hint Extern 2 (_ <= _ < _) => unfold need_sizeof, need_1 in *; word_lia : fwd.

(** Walks through an operation up to its outcomes. *)
Ltac walk :=
  repeat first
    [ solve [eauto with fwd]
    | apply forward_with_pop; intros
    | apply forward_bind; [solve [eauto with kunwind | discriminate]|intros ? ?]
    | case_match ].

Lemma forward_get_uleb128 e e0 f :
  0 <= e <= e0 -> e0 <= end_ ->
  (forall v c, e0 <= c < 2 ^ 64 -> forward e (f (v, c))) ->
  forward e (get_uleb128 e0 end_ ≫= f).
Proof.
  intros He H0 Hf. apply forward_bind; [auto with kunwind|]. intros [v c] E.
  apply get_uleb128_cursor_range in E; [|lia|lia]. apply Hf.
  unfold leb_cursor in E. rewrite u64_small in E by lia. lia.
Qed.

Lemma forward_get_sleb128 e e0 f :
  0 <= e <= e0 -> e0 < 2 ^ 64 ->
  (forall v c, e0 <= c < 2 ^ 64 -> forward e (f (v, c))) ->
  forward e (get_sleb128 e0 end_ ≫= f).
Proof.
  intros He H0 Hf. apply forward_bind; [auto with kunwind|]. intros [v c] E. apply Hf.
  destruct (Z.le_gt_cases e0 end_).
  - apply get_sleb128_cursor_range in E; [|lia|lia].
    unfold leb_cursor in E. rewrite u64_small in E by lia. lia.
  - rewrite get_sleb128_past in E by lia. injection E as <- <-. lia.
Qed.

Lemma FRAME_REG_terminates r : terminates (FRAME_REG frame r).
Proof. unfold FRAME_REG. destruct (reg_info_at r) as [[]|]; discriminate. Qed.

Variables (e : Z) (s : estack).
Hypothesis He : 0 <= e <= end_.

Lemma forward_constant n b : forward e (op_constant end_ n b e s).
Proof.
  unfold op_constant, need_sizeof. destruct (Z.leb_spec (Z.of_nat n) (u64 (end_ - e))); [|auto with fwd].
  rewrite u64_small in * by lia. rewrite (u64_small (e + _)) by lia.
  apply forward_bind; [auto with kunwind|]. intros. apply forward_push. lia.
Qed.

Lemma forward_skip s' : forward e (op_skip end_ e s').
Proof.
  unfold op_skip, need_sizeof. destruct (Z.leb_spec 2 (u64 (end_ - e))); [|auto with fwd].
  rewrite u64_small in * by lia. rewrite (u64_small (e + 2)) by lia.
  apply forward_bind; [auto with kunwind|]. intros v _. cbv zeta.
  destruct (Z.ltb_spec (s16 v) 0); [auto with fwd|].
  destruct (Z.ltb_spec (s64 (end_ - (e + 2))) (s16 v)) as [|Hs]; [auto with fwd|].
  assert (s64 (end_ - (e + 2)) <= end_ - (e + 2)) by word_lia.
  rewrite u64_small by lia. apply forward_go. lia.
Qed.

Lemma forward_pick_at v e' : e <= e' < 2 ^ 64 -> forward e (op_pick_at v e' s).
Proof. intros H. unfold op_pick_at. walk. Qed.

Lemma forward_deref_at v e' : e <= e' < 2 ^ 64 -> forward e (op_deref_at user v e' s).
Proof. intros H. unfold op_deref_at. walk. Qed.

Lemma need_1_room : need_1 end_ e = true -> u64 (e + 1) = e + 1.
Proof. unfold need_1. intros H%Z.leb_le. apply u64_small. word_lia. Qed.

Lemma forward_binop f :
  (forall a b, terminates (f a b)) -> forward e (op_binop f e s).
Proof. intros H. unfold op_binop. walk. Qed.

Lemma forward_breg v e0 :
  e <= e0 < 2 ^ 64 -> forward e (op_breg frame compat_task end_ v e0 s).
Proof.
  intros H0. unfold op_breg. cbv zeta. set (r := if compat_task then _ else _).
  destruct (NR_REGS <=? r); [auto with fwd|].
  apply forward_get_sleb128; [lia|lia|]. intros o c Hc.
  apply forward_bind; [apply FRAME_REG_terminates|]. intros w _. apply forward_push. lia.
Qed.

Lemma expr_op_forward op : forward e (expr_op frame user compat_task end_ op e s).
Proof.
  unfold expr_op. cbv zeta.
  repeat match goal with |- forward _ (if ?b then _ else _) => destruct b end;
    try solve [apply forward_constant | apply forward_skip | apply forward_binop; discriminate
              | apply forward_pick_at; lia | apply forward_deref_at; lia
              | apply forward_breg; lia | apply forward_go; lia | apply forward_push; lia
              | apply forward_stop].
  - apply forward_with_pop. intros v s'. destruct (v =? 0); [apply forward_go; lia|apply forward_skip].
  - unfold op_dup. walk.
  - unfold op_drop. walk.
  - unfold op_swap. walk.
  - unfold op_pick. destruct (need_1 end_ e) eqn:N; [|auto with fwd].
    assert (e + 1 < 2 ^ 64) by (apply Z.leb_le in N; word_lia).
    rewrite need_1_room by exact N. apply forward_bind; [auto with kunwind|].
    intros v _. apply forward_pick_at. lia.
  - apply forward_get_uleb128; [lia|lia|]. intros. apply forward_push. lia.
  - apply forward_get_sleb128; [lia|lia|]. intros. apply forward_push. lia.
  - apply forward_get_uleb128; [lia|lia|]. intros v c _. unfold push_of_pop. walk.
  - apply forward_binop. intros a b. unfold long_shl. destruct (shift_ok _ _); discriminate.
  - apply forward_binop. intros a b. unfold long_shr. destruct (shift_ok _ _); discriminate.
  - unfold op_mod. walk.
  - unfold op_div. walk.
  - unfold op_shr, shr_u64. walk.
  - unfold push_of_pop. walk.
  - unfold op_abs. walk.
  - apply forward_get_uleb128; [lia|lia|]. intros. apply forward_breg. lia.
  - unfold op_deref_size. destruct (need_1 end_ e) eqn:N; [|auto with fwd].
    assert (e + 1 < 2 ^ 64) by (apply Z.leb_le in N; word_lia).
    rewrite need_1_room by exact N. apply forward_bind; [auto with kunwind|].
    intros v _. destruct (8 <? v); [auto with fwd|]. apply forward_deref_at. lia.
Qed.
End termination.

Lemma expr_loop_terminates `{K : Kernel} frame user compat end_ fuel : forall e s,
  end_ < 2 ^ 64 - 1 -> 0 <= e -> end_ - e < Z.of_nat fuel -> (1 <= fuel)%nat ->
  terminates (expr_loop frame user compat end_ fuel e s).
Proof.
  induction fuel as [|fuel IH]; intros e s Hend He Hf H1; [lia|]. simpl.
  destruct (Z.ltb_spec e end_).
  - apply terminates_bind; [auto with kunwind|]. intros op _.
    rewrite u64_small by lia.
    destruct (expr_op_forward frame user compat end_ Hend (e + 1) s ltac:(lia) op) as [T F].
    apply terminates_bind; [exact T|]. intros [[e' s']|] E; [|discriminate].
    specialize (F e' s' E). apply IH; lia.
  - destruct (POP s) as [[v s']|] eqn:E; [|discriminate].
    apply terminates_bind; [eapply POP_terminates, E|discriminate].
Qed.

(** Evaluating an expression ends within its fuel, whatever its bytes and
    whatever is mapped, unless the expression ends in the last byte of the
    address space. *)
Theorem compute_expr_terminates `{K : Kernel} expr frame user compat :
  is_u64 expr ->
  (forall len start, get_uleb128 expr (2 ^ 64 - 1) = Ok (len, start) ->
     u64 (start + len) <> 2 ^ 64 - 1) ->
  terminates (compute_expr expr frame user compat).
Proof.
  intros He Hlast. unfold compute_expr. apply terminates_bind; [auto with kunwind|].
  intros [len start] E. specialize (Hlast _ _ E).
  apply get_uleb128_words in E as [Hl Hs]; [|exact He].
  pose proof (u64_range (start + len)). unfold is_u64 in *.
  apply expr_loop_terminates; try lia.
  assert (u64 (start + len) <= start + len) by (apply Z.mod_le; lia). lia.
Qed.

Definition expr_demo : Kernel := image_kernel [(4096, [4; 0x31; 0x32; 0x22; 0x96])] [].

Lemma compute_expr_terminates_witness :
  terminates (compute_expr (K := expr_demo) 4096 (mk_frame (repeat 0 PT_WORDS) 0) true false).
Proof.
  apply (compute_expr_terminates (K := expr_demo)); [unfold is_u64; lia|].
  intros len start E. vm_compute in E. injection E as <- <-. vm_compute. discriminate.
Defined.
