(* ===== verification/ExprSpec.v ===== *)
(** * What an expression computes

    The stack machine of DWARF expressions over a plain list, programs as trees
    with their encoding, and the refinement: [compute_expr] computes what the
    machine computes for every operation whose code is right. The last part
    states what the remaining operations do. *)
From S2P Require Import Prelude Machine Leb128 Regs Expr.

(** ** The reference machine *)

Inductive binop : Type :=
  | BEq | BNe | BGe | BGt | BLe | BLt | BAnd | BOr | BXor | BPlus | BMinus | BMul
  | BShl | BShra | BMod | BDiv | BShr.

Inductive eop : Type :=
  | EConst (n : nat) (signed : bool) (v : Z)   (* DW_OP_const<n>u, const<n>s *)
  | EAddr (v : Z)
  | EConstu (v : Z)
  | EConsts (v : Z)
  | ELit (v : Z)
  | EBreg (r o : Z)
  | EBregx (r o : Z)
  | EBin (b : binop)
  | EDup | EDrop | ESwap | EAbs | ENop.

(** A program without backward jumps: [PBra b k] is a conditional branch over
    [b], [PSkip junk k] an unconditional jump over bytes that are never run. *)
Inductive prog : Type :=
  | PEnd
  | POp (o : eop) (k : prog)
  | PBra (b k : prog)
  | PSkip (junk : list Z) (k : prog).

(** The outcome of a step: the new stack, a rejected expression, or an operation
    C gives no meaning to. *)
Inductive outcome (A : Type) : Type := Go (a : A) | Reject | Undefined.
Arguments Go {A} a.
Arguments Reject {A}.
Arguments Undefined {A}.

Definition push (v : Z) (l : list Z) : outcome (list Z) :=
  if (length l <? 8)%nat then Go (u64 v :: l) else Reject.

Definition push2 (v w : Z) (l : list Z) : outcome (list Z) :=
  match push v l with Go l => push w l | r => r end.

(** [x] is below [y] on the stack; both are 64-bit words. *)
Definition eval_bin (b : binop) (x y : Z) : outcome Z :=
  match b with
  | BEq => Go (of_bool (x =? y))
  | BNe => Go (of_bool (negb (x =? y)))
  | BGe => Go (of_bool (s64 y <=? s64 x))
  | BGt => Go (of_bool (s64 y <? s64 x))
  | BLe => Go (of_bool (s64 x <=? s64 y))
  | BLt => Go (of_bool (s64 x <? s64 y))
  | BAnd => Go (Z.land x y)
  | BOr => Go (Z.lor x y)
  | BXor => Go (Z.lxor x y)
  | BPlus => Go (x + y)
  | BMinus => Go (x - y)
  | BMul => Go (x * y)
  | BShl => if y <? 64 then Go (x * 2 ^ y) else Undefined
  | BShra => if y <? 64 then Go (s64 x / 2 ^ y) else Undefined
  | BShr => if y <? 64 then Go (x / 2 ^ y) else Undefined
  | BMod => if y =? 0 then Reject else Go (x mod y)
  | BDiv => if y =? 0 then Reject
            else if (s64 x =? - 2 ^ 63) && (s64 y =? -1) then Undefined
            else Go (Z.quot (s64 x) (s64 y))
  end.

Section eval.
Context `{K : Kernel}.
Variables (frame : unwind_frame_info) (compat_task : bool).

(** The register a DWARF number names. *)
Definition reg_value (r : Z) : option Z :=
  match FRAME_REG frame (if compat_task then COMPAT_REG_MAP r else r) with
  | Ok v => Some v
  | Crash _ => None
  end.

Definition eval_op (o : eop) (l : list Z) : outcome (list Z) :=
  match o, l with
  | EConst _ _ v, _ | EAddr v, _ | EConstu v, _ | EConsts v, _ | ELit v, _ => push v l
  | EBreg r o, _ | EBregx r o, _ =>
      match reg_value r with Some v => push (v + o) l | None => Reject end
  | EBin b, y :: x :: l =>
      match eval_bin b x y with Go v => push v l | Reject => Reject | Undefined => Undefined end
  | EDup, x :: l => push2 x x l
  | EDrop, _ :: l => Go l
  | ESwap, x :: y :: l => push2 x y l
  | EAbs, x :: l => push (kabs x) l
  | ENop, _ => Go l
  | _, _ => Reject
  end.

Fixpoint eval (p : prog) (l : list Z) : outcome (list Z) :=
  match p with
  | PEnd => Go l
  | POp o k =>
      match eval_op o l with Go l => eval k l | Reject => Reject | Undefined => Undefined end
  | PBra b k =>
      match l with
      | [] => Reject
      | x :: l =>
          if x =? 0
          then match eval b l with Go l => eval k l | Reject => Reject | Undefined => Undefined end
          else eval k l
      end
  | PSkip _ k => eval k l
  end.

End eval.

(** ** Encoding *)

Definition binop_code (b : binop) : Z :=
  match b with
  | BEq => DW_OP_eq | BNe => DW_OP_ne | BGe => DW_OP_ge | BGt => DW_OP_gt
  | BLe => DW_OP_le | BLt => DW_OP_lt | BAnd => DW_OP_and | BOr => DW_OP_or
  | BXor => DW_OP_xor | BPlus => DW_OP_plus | BMinus => DW_OP_minus | BMul => DW_OP_mul
  | BShl => DW_OP_shl | BShra => DW_OP_shra | BMod => DW_OP_mod | BDiv => DW_OP_div
  | BShr => DW_OP_shr
  end.

Definition const_code (n : nat) (signed : bool) : Z :=
  let s := if signed then 1 else 0 in
  match n with
  | 1%nat => DW_OP_const1u + s
  | 2%nat => DW_OP_const2u + s
  | 4%nat => DW_OP_const4u + s
  | _ => DW_OP_const8u + s
  end.

Definition encode_op (o : eop) : list Z :=
  match o with
  | EConst n s v => const_code n s :: le_bytes n v
  | EAddr v => DW_OP_addr :: le_bytes 8 v
  | EConstu v => DW_OP_constu :: uleb_encode v
  | EConsts v => DW_OP_consts :: sleb_enc 4 v
  | ELit v => [DW_OP_lit0 + v]
  | EBreg r o => DW_OP_breg0 + r :: sleb_enc 4 o
  | EBregx r o => DW_OP_bregx :: uleb_encode r ++ sleb_enc 4 o
  | EBin b => [binop_code b]
  | EDup => [DW_OP_dup]
  | EDrop => [DW_OP_drop]
  | ESwap => [DW_OP_swap]
  | EAbs => [DW_OP_abs]
  | ENop => [DW_OP_nop]
  end.

Fixpoint encode (p : prog) : list Z :=
  match p with
  | PEnd => []
  | POp o k => encode_op o ++ encode k
  | PBra b k =>
      (DW_OP_bra :: le_bytes 2 (Z.of_nat (length (encode b)))) ++ encode b ++ encode k
  | PSkip junk k =>
      (DW_OP_skip :: le_bytes 2 (Z.of_nat (length junk))) ++ junk ++ encode k
  end.

(** The operands that fit their encodings; [const] operands of signed type are
    signed, and [SLEB128] operands are those [get_sleb128] decodes. *)
Definition eop_ok (o : eop) : Prop :=
  match o with
  | EConst n s v =>
      (n = 1 \/ n = 2 \/ n = 4 \/ n = 8)%nat /\
      if s then - 2 ^ (8 * Z.of_nat n - 1) <= v < 2 ^ (8 * Z.of_nat n - 1)
      else 0 <= v < 2 ^ (8 * Z.of_nat n)
  | EAddr v | EConstu v => is_u64 v
  | EConsts v => - 2 ^ 27 <= v < 2 ^ 27
  | ELit v => 0 <= v < 32
  | EBreg r o => 0 <= r < 32 /\ - 2 ^ 27 <= o < 2 ^ 27
  | EBregx r o => is_u64 r /\ - 2 ^ 27 <= o < 2 ^ 27
  | _ => True
  end.

(** Every conditional branch the program reaches is taken. *)
Fixpoint branches_taken `{K : Kernel} (frame : unwind_frame_info) (compat_task : bool)
    (p : prog) (l : list Z) : Prop :=
  match p with
  | PEnd => True
  | POp o k =>
      match eval_op frame compat_task o l with
      | Go l => branches_taken frame compat_task k l
      | _ => True
      end
  | PBra _ k =>
      match l with [] => True | x :: l => x <> 0 /\ branches_taken frame compat_task k l end
  | PSkip _ k => branches_taken frame compat_task k l
  end.

Fixpoint prog_ok (p : prog) : Prop :=
  match p with
  | PEnd => True
  | POp o k => eop_ok o /\ prog_ok k
  | PBra b k => Z.of_nat (length (encode b)) < 2 ^ 15 /\ prog_ok b /\ prog_ok k
  | PSkip junk k => Z.of_nat (length junk) < 2 ^ 15 /\ prog_ok k
  end.

(** ** The array stack and the list stack *)

#[local] Arguments sleb_enc : simpl never.

Definition stack_is (s : estack) (l : list Z) : Prop :=
  (exists junk, slots s = map Some (rev l) ++ junk) /\ sp s = length l /\
  length (slots s) = MAX_EXPR_STACK /\ Forall is_u64 l.

Lemma stack_is_empty : stack_is empty_stack [].
Proof. split_and!; try reflexivity; [exists (slots empty_stack); reflexivity|constructor]. Qed.

Lemma stack_is_length s l : stack_is s l -> (length l <= 8)%nat.
Proof.
  intros ([junk E] & _ & H & _). rewrite E, length_app, length_map, length_rev in H.
  unfold MAX_EXPR_STACK in H. lia.
Qed.

Lemma PUSH_is s l v :
  stack_is s l ->
  match push v l with
  | Go l' => exists s', PUSH v s = Some s' /\ stack_is s' l'
  | _ => PUSH v s = None
  end.
Proof.
  intros S. pose proof (stack_is_length s l S) as H8.
  destruct S as ([junk E] & Hsp & H & Hw). unfold push, PUSH. rewrite Hsp.
  change MAX_EXPR_STACK with 8%nat in *.
  destruct (Nat.ltb_spec (length l) 8), (Nat.eqb_spec (length l) 8); try lia; [|reflexivity].
  eexists. split; [reflexivity|]. split_and!; simpl.
  - rewrite E, length_app, length_map, length_rev in H.
    destruct junk as [|x junk]; [simpl in H; lia|]. exists junk. rewrite E.
    rewrite insert_app_r_alt by (rewrite length_map, length_rev; lia).
    rewrite length_map, length_rev, Nat.sub_diag. simpl.
    rewrite map_app, <- app_assoc. reflexivity.
  - reflexivity.
  - rewrite length_insert. exact H.
  - constructor; [apply is_u64_u64|exact Hw].
Qed.

Lemma POP_is s v l :
  stack_is s (v :: l) -> is_u64 v /\ exists s', POP s = Some (Ok v, s') /\ stack_is s' l.
Proof.
  intros ([junk E] & Hsp & H & Hw). inversion Hw as [|? ? Hv Hl]. split; [exact Hv|].
  exists (mk_estack (slots s) (length l)). unfold POP. rewrite Hsp. simpl. split.
  - rewrite E. simpl. rewrite map_app, <- app_assoc.
    rewrite app_nth2; rewrite length_map, length_rev; [|lia]. rewrite Nat.sub_diag. reflexivity.
  - split_and!; simpl; try assumption; [|reflexivity].
    exists (Some v :: junk). rewrite E. simpl. rewrite map_app, <- app_assoc. reflexivity.
Qed.

Lemma POP_is_nil s : stack_is s [] -> POP s = None.
Proof. intros (_ & Hsp & _). unfold POP. rewrite Hsp. reflexivity. Qed.

(** A machine step matches a step of the reference machine. *)
Definition matches (e' : Z) (r : op_result) (o : outcome (list Z)) : Prop :=
  match o with
  | Go l' => exists s', r = Ok (Some (e', s')) /\ stack_is s' l'
  | Reject => r = Ok None
  | Undefined => r = Crash UndefinedShift \/ r = Crash DivideError
  end.

Lemma push_next_is v e s l : stack_is s l -> matches e (push_next v e s) (push v l).
Proof.
  intros S. pose proof (PUSH_is s l v S) as H. unfold push_next, push in *.
  destruct (_ <? _)%nat; simpl.
  - destruct H as (s' & -> & S'). eauto.
  - rewrite H. reflexivity.
Qed.

Lemma push_congr v w l : u64 v = u64 w -> push v l = push w l.
Proof. intros E. unfold push. rewrite E. reflexivity. Qed.

Lemma with_pop_is e s l k (f : Z -> list Z -> outcome (list Z)) :
  stack_is s l ->
  (forall v l' s', is_u64 v -> stack_is s' l' -> matches e (k v s') (f v l')) ->
  matches e (with_pop s k) (match l with [] => Reject | v :: l' => f v l' end).
Proof.
  intros S H. unfold with_pop. destruct l as [|v l].
  - rewrite POP_is_nil by exact S. reflexivity.
  - destruct (POP_is s v l S) as (Hv & s' & -> & S'). simpl. auto.
Qed.

Lemma push2_is v w e s l :
  stack_is s l ->
  matches e (match PUSH v s with None => Ok None | Some s => push_next w e s end) (push2 v w l).
Proof.
  intros S. pose proof (PUSH_is s l v S) as H. unfold push2.
  destruct (push v l) eqn:E; [|rewrite H; reflexivity|].
  - destruct H as (s' & -> & S'). apply push_next_is, S'.
  - unfold push in E. destruct (_ <? _)%nat; discriminate.
Qed.

(** Two's complement: the operators on [long] and on words agree modulo 2^64. *)
Lemma s64_eqb x y : is_u64 x -> is_u64 y -> (s64 x =? s64 y) = (x =? y).
Proof. unfold is_u64. intros Hx Hy. apply eq_true_iff_eq. rewrite !Z.eqb_eq. split; word_lia. Qed.

Lemma u64_land a b : u64 (Z.land a b) = Z.land (u64 a) (u64 b).
Proof.
  unfold u64. rewrite <- !Z.land_ones by lia. apply Z.bits_inj'. intros n Hn.
  rewrite !Z.land_spec. destruct (Z.testbit (Z.ones 64) n); rewrite ?andb_true_r, ?andb_false_r; reflexivity.
Qed.

Lemma u64_lxor a b : u64 (Z.lxor a b) = Z.lxor (u64 a) (u64 b).
Proof.
  unfold u64. rewrite <- !Z.land_ones by lia. apply Z.bits_inj'. intros n Hn.
  rewrite !Z.land_spec, !Z.lxor_spec, !Z.land_spec.
  destruct (Z.testbit (Z.ones 64) n); rewrite ?andb_true_r, ?andb_false_r; reflexivity.
Qed.

Lemma u64_add_s64 x y : u64 (s64 x + s64 y) = u64 (x + y).
Proof. rewrite <- u64_add_l, <- u64_add_r, !u64_s64. autorewrite with words. reflexivity. Qed.

Lemma u64_sub_s64 x y : u64 (s64 x - s64 y) = u64 (x - y).
Proof.
  unfold u64. rewrite Zminus_mod. fold (u64 (s64 x)) (u64 (s64 y)). rewrite !u64_s64.
  symmetry. apply Zminus_mod.
Qed.

Lemma u64_mul_s64 x y : u64 (s64 x * s64 y) = u64 (x * y).
Proof.
  unfold u64. rewrite Zmult_mod. fold (u64 (s64 x)) (u64 (s64 y)). rewrite !u64_s64.
  symmetry. apply Zmult_mod.
Qed.

Lemma shift_ok_s64 y : is_u64 y -> shift_ok 64 (s64 y) = (y <? 64).
Proof.
  unfold is_u64, shift_ok. intros Hy. apply eq_true_iff_eq.
  rewrite andb_true_iff, Z.leb_le, !Z.ltb_lt. split; word_lia.
Qed.

Lemma two_pops_is e s l k (g : Z -> Z -> list Z -> outcome (list Z)) :
  stack_is s l ->
  (forall y x l' s', is_u64 y -> is_u64 x -> stack_is s' l' ->
     matches e (k y x s') (g y x l')) ->
  matches e (with_pop s (fun y s => with_pop s (fun x s => k y x s)))
    (match l with y :: x :: l' => g y x l' | _ => Reject end).
Proof.
  intros S H.
  pose proof (with_pop_is e s l (fun y s => with_pop s (fun x s => k y x s))
    (fun y l => match l with [] => Reject | x :: l' => g y x l' end) S) as W.
  destruct l as [|y [|x l]]; apply W; intros; apply with_pop_is; auto.
Qed.

(** The result of a binary operator, pushed. *)
Definition eval_bin_push (b : binop) (y x : Z) (l : list Z) : outcome (list Z) :=
  match eval_bin b x y with Go v => push v l | Reject => Reject | Undefined => Undefined end.

Definition bin_agrees (f : Z -> Z -> C Z) (b : binop) : Prop :=
  forall x y, is_u64 x -> is_u64 y ->
    match eval_bin b x y with
    | Go v => exists w, f (s64 x) (s64 y) = Ok w /\ u64 w = u64 v
    | Reject => False
    | Undefined => f (s64 x) (s64 y) = Crash UndefinedShift
    end.

Lemma op_binop_is f b e s l :
  bin_agrees f b -> stack_is s l ->
  matches e (op_binop f e s)
    (match l with y :: x :: l' => eval_bin_push b y x l' | _ => Reject end).
Proof.
  intros A S. apply two_pops_is; [exact S|]. intros y x l' s' Hy Hx S'.
  specialize (A x y Hx Hy). unfold eval_bin_push. destruct (eval_bin b x y) as [v| |].
  - destruct A as (w & -> & Hw). simpl. rewrite <- (push_congr w v l' Hw).
    apply push_next_is, S'.
  - destruct A.
  - rewrite A. left. reflexivity.
Qed.

Lemma pure_agrees (f : Z -> Z -> Z) b :
  (forall x y, is_u64 x -> is_u64 y ->
     exists v, eval_bin b x y = Go v /\ u64 (f (s64 x) (s64 y)) = u64 v) ->
  bin_agrees (fun a b => Ok (f a b)) b.
Proof. intros H x y Hx Hy. destruct (H x y Hx Hy) as (v & -> & E). eauto. Qed.

Lemma cmp_agrees (f : Z -> Z -> bool) b :
  (forall x y, is_u64 x -> is_u64 y -> eval_bin b x y = Go (of_bool (f (s64 x) (s64 y)))) ->
  bin_agrees (fun a b => Ok (of_bool (f a b))) b.
Proof. intros H x y Hx Hy. rewrite (H x y Hx Hy). eauto. Qed.

Lemma shl_agrees : bin_agrees long_shl BShl.
Proof.
  intros x y Hx Hy. unfold long_shl. simpl. rewrite shift_ok_s64 by exact Hy.
  destruct (Z.ltb_spec y 64); [|reflexivity]. unfold is_u64 in *.
  eexists. split; [reflexivity|]. rewrite (s64_small y) by lia.
  rewrite Z.shiftl_mul_pow2 by lia. rewrite (Z.mul_comm x), (Z.mul_comm (s64 x)).
  rewrite <- u64_mul_r, u64_s64. apply u64_mul_r.
Qed.

Lemma shra_agrees : bin_agrees long_shr BShra.
Proof.
  intros x y Hx Hy. unfold long_shr. simpl. rewrite shift_ok_s64 by exact Hy.
  destruct (Z.ltb_spec y 64); [|reflexivity]. unfold is_u64 in *.
  eexists. split; [reflexivity|]. rewrite (s64_small y) by lia.
  rewrite Z.shiftr_div_pow2 by lia. reflexivity.
Qed.

#[local] Create HintDb ops.
Hint Resolve shl_agrees shra_agrees : ops.
Hint Extern 1 (bin_agrees _ _) =>
  apply cmp_agrees; intros; simpl; rewrite ?s64_eqb, ?Z.geb_leb, ?Z.gtb_ltb by assumption;
  reflexivity : ops.
Hint Extern 2 (bin_agrees _ _) =>
  apply pure_agrees; intros; eexists; (split; [reflexivity|]);
  rewrite ?u64_land, ?u64_lor, ?u64_lxor, ?u64_s64, ?u64_add_s64, ?u64_sub_s64, ?u64_mul_s64;
  reflexivity : ops.

(** ** One operation *)

Section step.
Context `{K : Kernel}.
Variables (frame : unwind_frame_info) (user compat_task : bool) (end_ : Z).
Hypothesis Hend : end_ <= ptr_limit.

Definition step (e : Z) (s : estack) : op_result :=
  op ← load8 e; expr_op frame user compat_task end_ op (u64 (e + 1)) s.

Lemma step_at e op bs s :
  bytes_at e (op :: bs) -> e + 1 <= end_ ->
  step e s = expr_op frame user compat_task end_ op (e + 1) s /\ bytes_at (e + 1) bs.
Proof.
  intros (Hb & Hp & H)%bytes_at_cons He. unfold ptr_limit in Hend. unfold step. rewrite Hb.
  simpl. rewrite u64_small by lia. auto.
Qed.

Lemma step_bin b e s l :
  bytes_at e (encode_op (EBin b)) -> e + 1 <= end_ -> stack_is s l ->
  matches (e + 1) (step e s) (eval_op frame compat_task (EBin b) l).
Proof.
  intros H He S. destruct (step_at e _ _ s H He) as [-> _].
  change (eval_op frame compat_task (EBin b) l) with
    (match l with y :: x :: l' => eval_bin_push b y x l' | _ => Reject end).
  destruct b; unfold binop_code; simpl; try (apply op_binop_is; [solve [auto with ops]|exact S]).
  - apply two_pops_is; [exact S|]. intros y x l' s' Hy Hx S'. unfold eval_bin_push. simpl.
    destruct (Z.eqb_spec y 0); [reflexivity|]. apply push_next_is, S'.
  - apply two_pops_is; [exact S|]. intros y x l' s' Hy Hx S'. unfold eval_bin_push. simpl.
    destruct (Z.eqb_spec y 0); [reflexivity|].
    destruct (_ && _); [right; reflexivity|]. apply push_next_is, S'.
  - apply two_pops_is; [exact S|]. intros y x l' s' Hy Hx S'. unfold eval_bin_push. simpl.
    unfold shr_u64, shift_ok, is_u64 in *. destruct (Z.leb_spec 0 y); [simpl|lia].
    destruct (Z.ltb_spec y 64); [|left; reflexivity]. simpl.
    rewrite Z.shiftr_div_pow2 by lia.
    rewrite <- (push_congr (u64 (x / 2 ^ y))) by apply u64_u64. apply push_next_is, S'.
Qed.

Lemma step_constant n sg v e s l bs :
  eop_ok (EConst n sg v) -> bytes_at e (le_bytes n v) -> e + Z.of_nat n <= end_ ->
  stack_is s l -> bs = e + Z.of_nat n ->
  matches bs (op_constant end_ n sg e s) (push v l).
Proof.
  intros [Hn Hv] H He S ->. unfold op_constant, need_sizeof. unfold ptr_limit in Hend.
  destruct H as (Hp & H2 & H3). rewrite length_le_bytes in H2.
  destruct (Z.leb_spec (Z.of_nat n) (u64 (end_ - e))) as [|B];
    [|rewrite u64_small in B by lia; lia].
  rewrite (load_le_bytes n e v) by (split_and!; try assumption; rewrite length_le_bytes; lia).
  simpl. rewrite (u64_small (e + _)) by lia.
  match goal with |- matches _ (push_next ?w _ _) _ => replace w with v; [apply push_next_is, S|] end.
  destruct Hn as [-> | [-> | [-> | ->]]]; destruct sg; simpl in *; word_lia.
Qed.

Lemma step_simple o e s l bs :
  match o with EDup | EDrop | ESwap | EAbs | ENop => True | _ => False end ->
  bytes_at e (encode_op o) -> e + 1 <= end_ -> stack_is s l -> bs = e + 1 ->
  matches bs (step e s) (eval_op frame compat_task o l).
Proof.
  intros Ho H He S ->.
  destruct o; try destruct Ho;
    (destruct (step_at e _ _ s H He) as [-> _]); unfold expr_op; simpl.
  - apply (with_pop_is _ _ _ _ (fun x l => push2 x x l)); [exact S|]. intros. apply push2_is. assumption.
  - apply (with_pop_is _ _ _ _ (fun x l => Go l)); [exact S|]. intros. simpl. eauto.
  - apply (two_pops_is _ _ _ _ (fun y x l => push2 y x l)); [exact S|].
    intros. apply push2_is. assumption.
  - apply (with_pop_is _ _ _ _ (fun x l => push (kabs x) l)); [exact S|].
    intros. apply push_next_is. assumption.
  - eauto.
Qed.

Lemma op_breg_is r o e s l bs :
  0 <= r -> - 2 ^ 27 <= o < 2 ^ 27 ->
  bytes_at e (sleb_enc 4 o) -> e + Z.of_nat (length (sleb_enc 4 o)) <= end_ -> stack_is s l ->
  bs = e + Z.of_nat (length (sleb_enc 4 o)) ->
  matches bs (op_breg frame compat_task end_ r e s) (eval_op frame compat_task (EBreg r o) l).
Proof.
  intros Hr Ho H He S ->. unfold ptr_limit in Hend. unfold op_breg, eval_op, reg_value, DWARF_REG_MAP.
  cbv zeta. set (m := if compat_task then _ else _).
  assert (0 <= m) by (unfold m, COMPAT_REG_MAP; repeat case_match; lia).
  unfold FRAME_REG. destruct (Z.leb_spec NR_REGS m).
  - rewrite reg_info_at_invalid by lia. destruct l; reflexivity.
  - destruct (reg_info_at_valid m ltac:(lia)) as [w ->].
    rewrite (get_sleb128_encode e end_ o) by (assumption || lia). simpl.
    destruct l; apply push_next_is, S.
Qed.

(** The two ranges of opcodes that carry their operand. *)
Lemma expr_op_lit v e s :
  0 <= v < 32 ->
  expr_op frame user compat_task end_ (DW_OP_lit0 + v) e s = push_next v e s.
Proof.
  intros Hv. unfold expr_op.
  repeat match goal with
  | |- context [DW_OP_lit0 + v =? ?c] =>
      replace (DW_OP_lit0 + v =? c) with false
        by (symmetry; apply Z.eqb_neq; unfold DW_OP_lit0, c; lia)
  end.
  replace ((DW_OP_lit0 <=? DW_OP_lit0 + v) && (DW_OP_lit0 + v <=? DW_OP_lit31)) with true
    by (unfold DW_OP_lit0, DW_OP_lit31; lia).
  replace (DW_OP_lit0 + v - DW_OP_lit0) with v by lia. reflexivity.
Qed.

Lemma expr_op_breg r e s :
  0 <= r < 32 ->
  expr_op frame user compat_task end_ (DW_OP_breg0 + r) e s =
  op_breg frame compat_task end_ r e s.
Proof.
  intros Hr. unfold expr_op.
  repeat match goal with
  | |- context [DW_OP_breg0 + r =? ?c] =>
      replace (DW_OP_breg0 + r =? c) with false
        by (symmetry; apply Z.eqb_neq; unfold DW_OP_breg0, c; lia)
  end.
  replace (DW_OP_breg0 + r <=? DW_OP_lit31) with false
    by (symmetry; apply Z.leb_gt; unfold DW_OP_breg0, DW_OP_lit31; lia).
  replace ((DW_OP_breg0 <=? DW_OP_breg0 + r) && (DW_OP_breg0 + r <=? DW_OP_breg31)) with true
    by (unfold DW_OP_breg0, DW_OP_breg31; lia).
  rewrite andb_false_r. replace (DW_OP_breg0 + r - DW_OP_breg0) with r by lia. reflexivity.
Qed.

(** Whatever the opcode, a step on the encoding of an operation does what the
    reference machine does. *)
Lemma step_op o e s l :
  eop_ok o -> bytes_at e (encode_op o) -> e + Z.of_nat (length (encode_op o)) <= end_ ->
  stack_is s l ->
  matches (e + Z.of_nat (length (encode_op o))) (step e s) (eval_op frame compat_task o l).
Proof.
  intros Ho H He S. pose proof Hend as Hl. unfold ptr_limit in Hl.
  destruct o; simpl length in *; rewrite ?length_le_bytes in *;
    try (apply step_bin; assumption); try (apply step_simple; solve [auto]).
  - destruct Ho as [Hn Hv]. pose proof Hn as Hn'.
    assert (E : eval_op frame compat_task (EConst n signed v) l = push v l) by (destruct l; reflexivity).
    destruct (step_at e _ _ s H ltac:(lia)) as [-> H']. rewrite E.
    destruct Hn as [-> | [-> | [-> | ->]]]; destruct signed; unfold expr_op; simpl;
      (apply step_constant; [split; assumption|assumption|lia|exact S|lia]).
  - destruct (step_at e _ _ s H ltac:(lia)) as [-> H'].
    replace (eval_op _ _ _ l) with (push v l) by (destruct l; reflexivity).
    unfold expr_op. simpl. apply step_constant; [|assumption|lia|exact S|lia].
    split; [tauto|exact Ho].
  - destruct (step_at e _ _ s H ltac:(lia)) as [-> H'].
    replace (eval_op _ _ _ l) with (push v l) by (destruct l; reflexivity).
    unfold expr_op. simpl. unfold op_constu.
    rewrite (get_uleb128_encode (e + 1) end_ v) by (assumption || lia). simpl.
    match goal with |- matches ?a _ _ => replace (e + 1 + _) with a by lia end.
    apply push_next_is, S.
  - destruct (step_at e _ _ s H ltac:(lia)) as [-> H'].
    replace (eval_op _ _ _ l) with (push v l) by (destruct l; reflexivity).
    unfold expr_op. simpl. unfold op_consts.
    rewrite (get_sleb128_encode (e + 1) end_ v) by (assumption || lia). simpl.
    match goal with |- matches ?a _ _ => replace (e + 1 + _) with a by lia end.
    apply push_next_is, S.
  - destruct (step_at e _ _ s H ltac:(lia)) as [-> H'].
    replace (eval_op _ _ _ l) with (push v l) by (destruct l; reflexivity).
    simpl in Ho. rewrite expr_op_lit by exact Ho. apply push_next_is, S.
  - destruct Ho as [Hr Ho]. destruct (step_at e _ _ s H ltac:(lia)) as [-> H'].
    rewrite expr_op_breg by exact Hr.
    apply op_breg_is; [lia|exact Ho|exact H'|lia|exact S|lia].
  - destruct Ho as [Hr Ho]. rewrite length_app in He.
    destruct (step_at e _ _ s H ltac:(lia)) as [-> H'].
    apply bytes_at_app in H' as [H1 H2]. unfold expr_op. simpl. unfold op_bregx.
    rewrite (get_uleb128_encode (e + 1) end_ r) by (assumption || lia). simpl.
    apply (op_breg_is r o); [unfold is_u64 in Hr; lia|exact Ho|exact H2|lia|exact S|].
    rewrite length_app. lia.
Qed.

Lemma op_skip_is n e s :
  bytes_at e (le_bytes 2 n) -> 0 <= n < 2 ^ 15 -> e + 2 + n <= end_ ->
  end_ - e < 2 ^ 63 ->
  op_skip end_ e s = Ok (Some (e + 2 + n, s)).
Proof.
  intros H Hn He Hbig. pose proof Hend as Hl. unfold ptr_limit in Hl.
  assert (0 <= e) by apply H.
  unfold op_skip, need_sizeof. rewrite (u64_small (end_ - e)) by lia.
  destruct (Z.leb_spec 2 (end_ - e)); [|lia].
  rewrite (load_le_bytes 2 e n H). simpl.
  rewrite Z.mod_small by lia. rewrite (u64_small (e + 2)) by lia.
  replace (s16 n) with n by word_lia. destruct (Z.ltb_spec n 0); [lia|].
  rewrite s64_small by lia. destruct (Z.ltb_spec (end_ - (e + 2)) n); [lia|].
  rewrite u64_small by lia. reflexivity.
Qed.

Lemma step_skip n e s :
  bytes_at e (DW_OP_skip :: le_bytes 2 n) -> 0 <= n < 2 ^ 15 -> e + 3 + n <= end_ ->
  end_ - e < 2 ^ 63 -> step e s = Ok (Some (e + 3 + n, s)).
Proof.
  intros H Hn He Hb. destruct (step_at e _ _ s H ltac:(lia)) as [-> H'].
  change (op_skip end_ (e + 1) s = Ok (Some (e + 3 + n, s))).
  rewrite (op_skip_is n) by (assumption || lia).
  replace (e + 1 + 2 + n) with (e + 3 + n) by lia. reflexivity.
Qed.

(** A branch that is not taken leaves the cursor on its own operand. *)
Lemma step_bra n e s l :
  bytes_at e (DW_OP_bra :: le_bytes 2 n) -> 0 <= n < 2 ^ 15 -> e + 3 + n <= end_ ->
  end_ - e < 2 ^ 63 -> stack_is s l ->
  match l with
  | [] => step e s = Ok None
  | x :: l => exists s', stack_is s' l /\
      step e s = Ok (Some (if x =? 0 then e + 1 else e + 3 + n, s'))
  end.
Proof.
  intros H Hn He Hb S. destruct (step_at e _ _ s H ltac:(lia)) as [-> H'].
  change (expr_op _ _ _ _ _ _ _) with (op_bra end_ (e + 1) s). unfold op_bra, with_pop.
  destruct l as [|x l]; [rewrite POP_is_nil by exact S; reflexivity|].
  destruct (POP_is s x l S) as (_ & s' & -> & S'). exists s'. split; [exact S'|]. simpl.
  destruct (x =? 0); [reflexivity|].
  rewrite (op_skip_is n) by (assumption || lia).
  replace (e + 1 + 2 + n) with (e + 3 + n) by lia. reflexivity.
Qed.

(** ** Programs *)

Lemma expr_loop_step fuel e s :
  e < end_ ->
  expr_loop frame user compat_task end_ (S fuel) e s =
    r ← step e s;
    match r with
    | None => Ok None
    | Some (e', s') => expr_loop frame user compat_task end_ fuel e' s'
    end.
Proof.
  intros He. simpl. destruct (Z.ltb_spec e end_); [|lia]. unfold step.
  destruct (load8 e); reflexivity.
Qed.

Definition result_is (r : C (option Z)) (o : outcome (list Z)) : Prop :=
  match o with
  | Go [] | Reject => r = Ok None
  | Go (v :: _) => r = Ok (Some v)
  | Undefined => r = Crash UndefinedShift \/ r = Crash DivideError
  end.

Lemma length_encode_op o : (1 <= length (encode_op o))%nat.
Proof. destruct o; simpl; lia. Qed.

Lemma expr_loop_is p : forall fuel e s l,
  prog_ok p -> branches_taken frame compat_task p l -> bytes_at e (encode p) ->
  e + Z.of_nat (length (encode p)) = end_ -> Z.of_nat (length (encode p)) < 2 ^ 63 ->
  stack_is s l -> (length (encode p) < fuel)%nat ->
  result_is (expr_loop frame user compat_task end_ fuel e s) (eval frame compat_task p l).
Proof.
  induction p as [|o k IH|b _ k IH|junk k IH]; intros fuel e s l Hok Ht H He Hb S Hf.
  all: destruct fuel as [|fuel]; [lia|].
  - simpl in *. destruct (Z.ltb_spec e end_); [lia|]. destruct l as [|v l].
    + rewrite POP_is_nil by exact S. reflexivity.
    + destruct (POP_is s v l S) as (_ & s' & -> & _). reflexivity.
  - destruct Hok as [Ho Hk]. simpl encode in *. rewrite length_app in *.
    apply bytes_at_app in H as [H1 H2]. pose proof (length_encode_op o).
    rewrite expr_loop_step by lia.
    pose proof (step_op o e s l Ho H1 ltac:(lia) S) as M. simpl eval. simpl in Ht.
    destruct (eval_op frame compat_task o l) as [l'| |].
    + destruct M as (s' & -> & S'). simpl. apply IH; try assumption; lia.
    + rewrite M. reflexivity.
    + destruct M as [-> | ->]; [left|right]; reflexivity.
  - destruct Hok as (Hn & _ & Hk). simpl encode in *. simpl length in *. rewrite length_app in *.
    change (DW_OP_bra :: ?a :: ?b :: ?t) with ([DW_OP_bra; a; b] ++ t) in H.
    apply bytes_at_app in H as [H1 H2]. apply bytes_at_app in H2 as [_ H2].
    rewrite expr_loop_step by lia.
    pose proof (step_bra (Z.of_nat (length (encode b))) e s l H1 ltac:(lia) ltac:(lia) ltac:(lia) S) as M.
    simpl eval. simpl in Ht. destruct l as [|x l]; [rewrite M; reflexivity|].
    destruct M as (s' & S' & ->). destruct Ht as [Hx Ht]. rewrite (proj2 (Z.eqb_neq x 0) Hx). simpl.
    apply IH; try assumption; try lia.
  - destruct Hok as (Hn & Hk). simpl encode in *. simpl length in *. rewrite length_app in *.
    change (DW_OP_skip :: ?a :: ?b :: ?t) with ([DW_OP_skip; a; b] ++ t) in H.
    apply bytes_at_app in H as [H1 H2]. apply bytes_at_app in H2 as [_ H2].
    rewrite expr_loop_step by lia.
    rewrite (step_skip (Z.of_nat (length junk))) by (assumption || lia). simpl.
    apply IH; try assumption; try lia.
Qed.
End step.

(** The refinement, in the form the corollaries use. *)
Lemma compute_expr_eval `{K : Kernel} p expr frame user compat :
  prog_ok p -> branches_taken frame compat p [] ->
  bytes_at expr (uleb_encode (Z.of_nat (length (encode p))) ++ encode p) ->
  expr + Z.of_nat (length (uleb_encode (Z.of_nat (length (encode p))) ++ encode p)) <= ptr_limit ->
  Z.of_nat (length (encode p)) < 2 ^ 63 ->
  result_is (compute_expr expr frame user compat) (eval frame compat p []).
Proof.
  intros Hok Ht [H1 H2]%bytes_at_app He Hb. rewrite length_app in He. unfold ptr_limit in He.
  unfold compute_expr.
  rewrite (get_uleb128_encode expr (2 ^ 64 - 1) (Z.of_nat (length (encode p)))) by (assumption || lia).
  unfold mbind, C_bind. assert (0 <= expr) by apply H1. rewrite u64_small by lia.
  apply expr_loop_is; try assumption; unfold ptr_limit; try lia. apply stack_is_empty.
Qed.

(** C9: [compute_expr] refines the reference machine on the operations it has: literals,
    addresses and constants and register operands (signed LEB128 numbers of at most
    four bytes), [dup], [drop], [swap], [abs], [nop], the binary operations and the
    comparisons, and forward [skip] and [bra]; not [deref], [deref_size], [pick],
    [over], [rot], [plus_uconst], [not], [neg] and backward jumps. On the encoding of a program whose reached branches are taken it returns the top of the list
    stack, fails where the machine rejects (underflow, overflow of the eight
    slots, an unknown register, a zero divisor), and is without meaning only for
    a shift by 64 or more and for the quotient -2^63 / -1. *)
Theorem compute_expr_refines `{K : Kernel} p expr frame user compat :
  prog_ok p -> branches_taken frame compat p [] ->
  bytes_at expr (uleb_encode (Z.of_nat (length (encode p))) ++ encode p) ->
  expr + Z.of_nat (length (uleb_encode (Z.of_nat (length (encode p))) ++ encode p)) <= ptr_limit ->
  Z.of_nat (length (encode p)) < 2 ^ 63 ->
  let r := compute_expr expr frame user compat in
  match eval frame compat p [] with
  | Go l => r = Ok (hd_error l)
  | Reject => r = Ok None
  | Undefined => r = Crash UndefinedShift \/ r = Crash DivideError
  end.
Proof.
  intros Hok Ht H He Hb. pose proof (compute_expr_eval p expr frame user compat Hok Ht H He Hb) as R.
  unfold result_is in R. simpl. destruct (eval frame compat p []) as [[|v l]| |]; exact R.
Qed.

(** [lit5; lit3; lit1; bra over (lit9; mul); minus; dup; mul]. *)
Definition demo_prog : prog :=
  POp (ELit 5) (POp (ELit 3) (POp (ELit 1)
    (PBra (POp (ELit 9) (POp (EBin BMul) PEnd))
      (POp (EBin BMinus) (POp EDup (POp (EBin BMul) PEnd)))))).

Definition demo_kernel : Kernel :=
  image_kernel [(4096, uleb_encode (Z.of_nat (length (encode demo_prog))) ++ encode demo_prog)] [].

Definition zero_frame : unwind_frame_info := mk_frame (repeat 0 PT_WORDS) 0.

Lemma compute_expr_refines_witness :
  compute_expr (K := demo_kernel) 4096 zero_frame true false = Ok (Some 4).
Proof.
  apply (compute_expr_refines (K := demo_kernel) demo_prog 4096 zero_frame true false).
  - unfold demo_prog. cbn [prog_ok eop_ok]. split_and!; try exact I; vm_compute; congruence.
  - vm_compute. split; [congruence|exact I].
  - apply (bytes_atb_true (K := demo_kernel)). vm_compute. reflexivity.
  - vm_compute. discriminate.
  - vm_compute. reflexivity.
Defined.

(** ** The CFA of a PLT entry

    The expression the linker emits for a lazily bound PLT:
    [breg7+8; breg16+0; lit15; and; lit11; ge; lit3; shl; plus]. *)
Definition plt_prog : prog :=
  POp (EBreg RSP 8) (POp (EBreg 16 0) (POp (ELit 15) (POp (EBin BAnd)
    (POp (ELit 11) (POp (EBin BGe) (POp (ELit 3) (POp (EBin BShl)
      (POp (EBin BPlus) PEnd)))))))).

Definition plt_bytes : list Z :=
  [11; 0x77; 8; 0x80; 0; 0x3f; 0x1a; 0x3b; 0x2a; 0x33; 0x24; 0x22].

Lemma plt_encoding : uleb_encode (Z.of_nat (length (encode plt_prog))) ++ encode plt_prog = plt_bytes.
Proof. vm_compute. reflexivity. Qed.

Lemma plt_eval `{K : Kernel} frame :
  wf_frame frame ->
  eval frame false plt_prog [] =
    Go [u64 (UNW_SP frame + (if 11 <=? UNW_PC frame mod 16 then 16 else 8))].
Proof.
  intros W. pose proof (word_range frame PT_IP W) as Hpc. fold (UNW_PC frame) in Hpc.
  assert (E7 : reg_value frame false RSP = Some (UNW_SP frame)) by reflexivity.
  assert (E16 : reg_value frame false 16 = Some (UNW_PC frame)) by reflexivity.
  unfold plt_prog. cbn [eval eval_op]. rewrite E7, E16.
  generalize dependent (UNW_SP frame). generalize dependent (UNW_PC frame).
  intros pc Hpc _ sp _. unfold push.
  cbn [length Nat.ltb Nat.leb eval_bin eval_bin_push].
  change (u64 15) with (Z.ones 4). change (u64 11) with 11. change (u64 3) with 3.
  rewrite Z.land_ones by lia. rewrite Z.add_0_r, (u64_small pc) by lia.
  change (2 ^ 4) with 16. pose proof (Z.mod_pos_bound pc 16 ltac:(lia)).
  rewrite (u64_small (pc mod 16)) by lia.
  rewrite (s64_small (pc mod 16)), (s64_small 11) by lia.
  change (3 <? 64) with true. cbv iota.
  destruct (Z.leb_spec 11 (pc mod 16)); unfold of_bool;
    [change (u64 1 * 2 ^ 3) with 8|change (u64 0 * 2 ^ 3) with 0];
    cbn [length Nat.leb]; autorewrite with words;
    [replace (sp + 8 + 8) with (sp + 16) by lia|rewrite Z.add_0_r]; reflexivity.
Qed.

(** in a PLT entry the unwinder finds the caller's frame: one word above
    the stack pointer, two once the entry has pushed its index (its last five
    bytes). *)
Theorem compute_expr_plt `{K : Kernel} expr frame user :
  wf_frame frame -> bytes_at expr plt_bytes -> expr + 12 <= ptr_limit ->
  compute_expr expr frame user false =
    Ok (Some (u64 (UNW_SP frame + (if 11 <=? UNW_PC frame mod 16 then 16 else 8)))).
Proof.
  intros W H He. rewrite <- plt_encoding in H.
  pose proof (compute_expr_eval plt_prog expr frame user false) as R.
  rewrite (plt_eval frame W) in R. apply R.
  - unfold plt_prog. cbn [prog_ok eop_ok]. split_and!; try exact I; vm_compute; congruence.
  - simpl. auto.
  - exact H.
  - rewrite plt_encoding. simpl. lia.
  - vm_compute. reflexivity.
Qed.

Definition plt_kernel : Kernel := image_kernel [(4096, plt_bytes)] [].
Definition plt_frame : unwind_frame_info :=
  set_word (set_word zero_frame PT_SP 0x7000) PT_IP 0x40102b.

Lemma zero_frame_wf : wf_frame zero_frame.
Proof.
  split_and!; try reflexivity; try (simpl; lia).
  unfold zero_frame, PT_WORDS. simpl. repeat constructor; lia.
Qed.

Lemma compute_expr_plt_witness :
  compute_expr (K := plt_kernel) 4096 plt_frame true false = Ok (Some 0x7010).
Proof.
  apply (compute_expr_plt (K := plt_kernel) 4096 plt_frame true).
  - unfold plt_frame. apply wf_set_word; [apply wf_set_word; [apply zero_frame_wf|lia]|lia].
  - apply (bytes_atb_true (K := plt_kernel)). vm_compute. reflexivity.
  - vm_compute. discriminate.
Defined.

(** ** Operations whose code departs from DWARF *)

Section departures.
Context `{K : Kernel}.
Variables (frame : unwind_frame_info) (user compat_task : bool) (expr : Z).

Lemma compute_expr_start bs :
  bytes_at expr (Z.of_nat (length bs) :: bs) -> (length bs < 128)%nat ->
  expr + 1 + Z.of_nat (length bs) <= ptr_limit ->
  compute_expr expr frame user compat_task =
    expr_loop frame user compat_task (expr + 1 + Z.of_nat (length bs)) (S (length bs))
      (expr + 1) empty_stack.
Proof.
  intros H Hn He. unfold ptr_limit in He. set (n := Z.of_nat (length bs)) in *.
  assert (E : uleb_encode n = [n]).
  { unfold uleb_encode. simpl. destruct (Z.ltb_spec n 128); [reflexivity|unfold n in *; lia]. }
  change (n :: bs) with ([n] ++ bs) in H. apply bytes_at_app in H as [H _].
  unfold compute_expr. rewrite (get_uleb128_encode expr (2 ^ 64 - 1) n); rewrite ?E;
    try assumption; simpl length; unfold n in *; try lia.
  unfold mbind, C_bind. assert (0 <= expr) by apply H.
  rewrite u64_small, Nat2Z.id by lia. reflexivity.
Qed.

Lemma expr_loop_end end_ fuel e s :
  end_ <= e ->
  expr_loop frame user compat_task end_ (S fuel) e s =
    match POP s with None => Ok None | Some (v, _) => v ← v; Ok (Some v) end.
Proof. intros H. simpl. destruct (Z.ltb_spec e end_); [lia|reflexivity]. Qed.

#[local] Arguments expr_loop : simpl never.
#[local] Arguments op_deref_at : simpl never.

(** Fetches the opcode at the head of the bytes [H] and enters its code. *)
Ltac fetch H :=
  let Hb := fresh "Hb" in
  apply bytes_at_cons in H as (Hb & _ & H);
  rewrite expr_loop_step by lia; unfold step; rewrite Hb; cbn [mbind C_bind];
  rewrite u64_small by lia; clear Hb;
  lazymatch goal with
  | |- context [expr_op _ _ _ _ ?op _ _] => let v := eval vm_compute in op in change op with v
  end;
  unfold expr_op; simpl.

Ltac start bs H He :=
  pose proof He as Hl; unfold ptr_limit in Hl;
  rewrite (compute_expr_start bs) by (exact H || simpl; lia);
  let Hp := fresh "Hp" in apply bytes_at_cons in H as (_ & Hp & H); simpl length.

(** [DW_OP_deref] pops the address and reads the memory, but the value is
    not pushed: an expression that dereferences a constant address fails. *)
Theorem deref_pushes_nothing a :
  is_u64 a -> bytes_at expr (10 :: DW_OP_addr :: le_bytes 8 a ++ [DW_OP_deref]) ->
  expr + 11 <= ptr_limit ->
  compute_expr expr frame user compat_task = Ok None.
Proof.
  intros Ha H He.
  start (DW_OP_addr :: le_bytes 8 a ++ [DW_OP_deref]) H He.
  fetch H. apply bytes_at_app in H as [H1 H2]. rewrite length_le_bytes in H2.
  destruct (step_constant (expr + 1 + Z.of_nat 10) ltac:(unfold ptr_limit; lia) 8 false a
    (expr + 1 + 1) empty_stack [] (expr + 10)) as (s1 & -> & S1);
    [split; [tauto|exact Ha]|exact H1|lia|apply stack_is_empty|lia|]. simpl.
  replace (expr + 1 + 1 + Z.of_nat 8) with (expr + 10) in H2 by lia.
  fetch H2. unfold op_deref_at, with_pop.
  destruct (POP_is s1 _ _ S1) as (_ & s2 & -> & S2). simpl.
  destruct (_stp_read_address _ _ _ _); simpl; [|reflexivity].
  rewrite expr_loop_end by lia. rewrite POP_is_nil by exact S2. reflexivity.
Qed.

(** [DW_OP_over] and [DW_OP_pick] count from one: [over] copies the top of
    the stack, the same as [dup], and [pick 0] reads the slot above it, which
    was never written. *)
Theorem over_is_dup :
  bytes_at expr [3; DW_OP_lit0 + 1; DW_OP_lit0 + 2; DW_OP_over] -> expr + 4 <= ptr_limit ->
  compute_expr expr frame user compat_task = Ok (Some 2).
Proof.
  intros H He. start [DW_OP_lit0 + 1; DW_OP_lit0 + 2; DW_OP_over] H He.
  fetch H. fetch H. fetch H. rewrite expr_loop_end by lia. reflexivity.
Qed.

(** DW_OP_pick with index 0, which duplicates the top of the stack in DWARF,
    reads the slot above it, which nothing has written. *)
Theorem pick_zero_uninitialised :
  bytes_at expr [3; DW_OP_lit0 + 1; DW_OP_pick; 0] -> expr + 4 <= ptr_limit ->
  compute_expr expr frame user compat_task = Crash Uninitialised.
Proof.
  intros H He. start [DW_OP_lit0 + 1; DW_OP_pick; 0] H He. fetch H. fetch H.
  apply bytes_at_cons in H as (Hb & _ & H). unfold op_pick, need_1.
  rewrite s64_small by lia. destruct (Z.leb_spec 1 (expr + 1 + Z.of_nat 3 - (expr + 1 + 1 + 1))); [|lia].
  rewrite Hb. reflexivity.
Qed.

(** a conditional branch that is not taken does not skip its operand: the
    two bytes of the offset are run as operations, and the expression
    [lit7; lit0; bra +1; nop], which is 7, is rejected. *)
Theorem bra_not_taken_runs_its_operand :
  bytes_at expr [6; DW_OP_lit0 + 7; DW_OP_lit0; DW_OP_bra; 1; 0; DW_OP_nop] ->
  expr + 7 <= ptr_limit ->
  compute_expr expr frame user compat_task = Ok None.
Proof.
  intros H He. start [DW_OP_lit0 + 7; DW_OP_lit0; DW_OP_bra; 1; 0; DW_OP_nop] H He.
  fetch H. fetch H. fetch H. fetch H. reflexivity.
Qed.

(** [DW_OP_plus_uconst], [DW_OP_not] and [DW_OP_neg] push an expression
    that itself pops: the two changes of [sp] are not sequenced, so that C gives
    them no meaning. *)
Theorem push_of_pop_undefined op :
  op = DW_OP_not \/ op = DW_OP_neg ->
  bytes_at expr [2; DW_OP_lit0 + 5; op] -> expr + 3 <= ptr_limit ->
  compute_expr expr frame user compat_task = Crash Unsequenced.
Proof.
  intros Hop H He. start [DW_OP_lit0 + 5; op] H He. fetch H.
  destruct Hop as [-> | ->]; fetch H; reflexivity.
Qed.
End departures.

(** ** Witnesses of the departures *)

Definition at_page (bs : list Z) : Kernel := image_kernel [(4096, bs)] [].

Ltac image := apply bytes_atb_true; vm_compute; reflexivity.

Lemma deref_pushes_nothing_witness :
  compute_expr (K := at_page (10 :: DW_OP_addr :: le_bytes 8 0x7000 ++ [DW_OP_deref]))
    4096 zero_frame true false = Ok None.
Proof.
  apply (deref_pushes_nothing (K := at_page _) zero_frame true false 4096 0x7000);
    [unfold is_u64; lia|image|vm_compute; discriminate].
Defined.

Lemma over_is_dup_witness :
  compute_expr (K := at_page [3; DW_OP_lit0 + 1; DW_OP_lit0 + 2; DW_OP_over])
    4096 zero_frame true false = Ok (Some 2).
Proof.
  apply (over_is_dup (K := at_page _) zero_frame true false 4096); [image|vm_compute; discriminate].
Defined.

Lemma pick_zero_uninitialised_witness :
  compute_expr (K := at_page [3; DW_OP_lit0 + 1; DW_OP_pick; 0]) 4096 zero_frame true false =
    Crash Uninitialised.
Proof.
  apply (pick_zero_uninitialised (K := at_page _) zero_frame true false 4096);
    [image|vm_compute; discriminate].
Defined.

Lemma bra_not_taken_runs_its_operand_witness :
  compute_expr (K := at_page [6; DW_OP_lit0 + 7; DW_OP_lit0; DW_OP_bra; 1; 0; DW_OP_nop])
    4096 zero_frame true false = Ok None.
Proof.
  apply (bra_not_taken_runs_its_operand (K := at_page _) zero_frame true false 4096);
    [image|vm_compute; discriminate].
Defined.

Lemma push_of_pop_undefined_witness :
  compute_expr (K := at_page [2; DW_OP_lit0 + 5; DW_OP_neg]) 4096 zero_frame true false =
    Crash Unsequenced.
Proof.
  apply (push_of_pop_undefined (K := at_page _) zero_frame true false 4096 DW_OP_neg);
    [right; reflexivity|image|vm_compute; discriminate].
Defined.
