(* ===== verification/FdeCie.v ===== *)
(** * Frame descriptions and their common information

    [has_cie_id], [check_fde], [cie_for_fde] and [parse_fde_cie] of
    src/src/unwind.c: from the address of an FDE in the mapped .eh_frame section
    to the instruction ranges, alignment factors and pointer encoding the CFI
    interpreter needs. *)
From S2P Require Import Prelude Machine Leb128 EncodedPtr Regs.

Section fde.
Context `{K : Kernel}.

(** [p[i]] for a [const u32 *p]. *)
Definition u32_at (p i : Z) : C Z := load 4 (u64 (p + 4 * i)).

Definition has_cie_id (cie : Z) (is_ehframe : bool) : C bool :=
  id ← u32_at cie 1;
  Ok ((is_ehframe && (id =? 0)) || (id =? 0xffffffff)).

Definition check_fde (fde table table_len : Z) (is_ehframe : bool) : C bool :=
  len ← u32_at fde 0;
  if (len =? 0) || flag len 3 then Ok false
  else
    id ← has_cie_id fde is_ehframe;
    if (id : bool) then Ok false
    else
      let end_ := u64 (u64 (fde + 4) + len) in
      if (end_ <? table) || (u64 (table + table_len) <? end_) then Ok false else Ok true.

(** The checks on the candidate [cie] of [cie_for_fde]; [fde1] is [fde[1]]. *)
Definition valid_cie (cie fde1 : Z) (is_ehframe : bool) : C bool :=
  len ← u32_at cie 0;
  if (len <=? 8) || (u64 (fde1 - 4) <=? len) then Ok false
  else has_cie_id cie is_ehframe.

Definition cie_for_fde (fde : Z) (ehf : section) (is_ehframe : bool) : C (option Z) :=
  let unwind_data := sec_kbuf ehf in
  let table_len := sec_size ehf in
  fde1 ← u32_at fde 1;
  if flag fde1 3 || (u64 (u64 (fde + 4) - unwind_data) <? fde1) then Ok None
  else
    let cie := if is_ehframe then u64 (fde + 4 - 4 * (fde1 / 4))
               else u64 (unwind_data + fde1) in
    if (cie <? unwind_data) || (u64 (unwind_data + table_len) <? cie) then Ok None
    else
      valid ← valid_cie cie fde1 is_ehframe;
      if negb (valid : bool) then Ok None
      else
        version ← load8 (u64 (cie + 8));
        if negb ((version =? 1) || (version =? 3) || (version =? 4)) then Ok None
        else
          len ← u32_at cie 0;
          let end_ := u64 (u64 (cie + 4) + len) in
          if (end_ <? unwind_data) || (u64 (unwind_data + table_len) <? end_)
          then Ok None else Ok (Some cie).

(** [memchr(p, 0, n)]. *)
Fixpoint memchr0 (n : nat) (p : Z) : C (option Z) :=
  match n with
  | O => Ok None
  | S n => b ← load8 p; if b =? 0 then Ok (Some p) else memchr0 n (u64 (p + 1))
  end.

(** ** The augmentation string *)

Definition AUG_z : Z := 122.
Definition AUG_L : Z := 76.
Definition AUG_P : Z := 80.
Definition AUG_R : Z := 82.
Definition AUG_S : Z := 83.

(** What the loop over the string updates. *)
Record aug_state : Type := mk_aug { a_ptr : Z; a_type : Z; a_call : Z }.

Variables (user compat_task : bool).

(** The [switch ( *aug)] on the character [c]; [None] is [return -1]. *)
Definition aug_char (cieStart c : Z) (a : aug_state) : C (option aug_state) :=
  if c =? AUG_z then Ok (Some a)
  else if c =? AUG_L then Ok (Some (mk_aug (u64 (a_ptr a + 1)) (a_type a) (a_call a)))
  else if c =? AUG_P then
    b ← load8 (a_ptr a);
    '(v, p) ← read_pointer (u64 (a_ptr a + 1)) cieStart (Z.land b 0x7f) user compat_task;
    Ok (if v =? 0 then None else Some (mk_aug p (a_type a) (a_call a)))
  else if c =? AUG_R then
    b ← load8 (a_ptr a); Ok (Some (mk_aug (u64 (a_ptr a + 1)) b (a_call a)))
  else if c =? AUG_S then Ok (Some (mk_aug (a_ptr a) (a_type a) 0))
  else Ok None.

(** [while ( *aug)] *)
Fixpoint aug_loop (fuel : nat) (aug cieStart : Z) (a : aug_state) : C (option aug_state) :=
  match fuel with
  | O => Crash OutOfFuel
  | S fuel =>
    c ← load8 aug;
    if c =? 0 then Ok (Some a)
    else if cieStart <? a_ptr a then Ok None
    else
      r ← aug_char cieStart c a;
      match r with
      | None => Ok None
      | Some a => aug_loop fuel (u64 (aug + 1)) cieStart a
      end
  end.

(** The output parameters of [parse_fde_cie]. *)
Record parsed : Type := mk_parsed {
  p_ptrType : Z;
  p_startLoc : Z;
  p_locRange : Z;
  p_fdeStart : Z;
  p_fdeEnd : Z;
  p_cieStart : Z;
  p_cieEnd : Z;
  p_codeAlign : Z;
  p_dataAlign : Z;
  p_retAddrReg : Z;
  p_call_frame : Z
}.

(** The part of [parse_fde_cie] up to the return address column:
    [(codeAlign, dataAlign, retAddrReg, ciePtr)]. *)
Definition cie_factors (ciePtr cieEnd version : Z) : C (option (Z * Z * Z * Z)) :=
  '(codeAlign, ciePtr) ← get_uleb128 ciePtr cieEnd;
  '(dataAlign, ciePtr) ← get_sleb128 ciePtr cieEnd;
  if (codeAlign =? 0) || (dataAlign =? 0) then Ok None
  else
    '(ra, ciePtr) ←
      (if version <=? 1 then b ← load8 ciePtr; Ok (b, u64 (ciePtr + 1))
       else get_uleb128 ciePtr cieEnd);
    let ra := if compat_task then COMPAT_REG_MAP (DWARF_REG_MAP ra) else DWARF_REG_MAP ra in
    Ok (Some (codeAlign, dataAlign, ra, ciePtr)).

(** An augmentation length at [ptr], bounded by [end_]: the test
    [augLen > (const u8 * )base - end] is on unsigned values. *)
Definition aug_length (base ptr end_ : Z) : C (option (Z * Z)) :=
  '(augLen, ptr) ← get_uleb128 ptr end_;
  Ok (if (u64 (base - end_) <? augLen) || (end_ <? u64 (ptr + augLen)) then None
      else Some (augLen, ptr)).

(** The FDE half: the initial location, the range and [*fdeStart]. *)
Definition parse_fde (fde fdeEnd ptrType augLen : Z) : C (option (Z * Z * Z)) :=
  '(startLoc, fdePtr) ← read_pointer (u64 (fde + 8)) fdeEnd ptrType user compat_task;
  '(locRange, fdePtr) ←
    read_pointer fdePtr fdeEnd
      (Z.land ptrType (Z.lor DW_EH_PE_FORM DW_EH_PE_signed)) user compat_task;
  if augLen =? 0 then Ok (Some (startLoc, locRange, u64 (fdePtr + augLen)))
  else
    r ← aug_length fde fdePtr fdeEnd;
    match r with
    | None => Ok None
    | Some (augLen, fdePtr) => Ok (Some (startLoc, locRange, u64 (fdePtr + augLen)))
    end.

(** The augmentation data and the end of the CIE header:
    [(augLen, cieStart, aug_state)]. *)
Definition cie_augmentation (cie aug nul ciePtr cieEnd : Z) : C (option (Z * Z * aug_state)) :=
  c ← load8 aug;
  len ← (if c =? AUG_z then aug_length cie ciePtr cieEnd else Ok (Some (0, ciePtr)));
  match len with
  | None => Ok None
  | Some (augLen, ciePtr) =>
    let cieStart := u64 (ciePtr + augLen) in
    r ← aug_loop (S (Z.to_nat (nul - aug))) aug cieStart (mk_aug ciePtr DW_EH_PE_absptr 1);
    match r with
    | None => Ok None
    | Some a => Ok (if a_ptr a =? cieStart then Some (augLen, cieStart, a) else None)
    end
  end.

(** [parse_fde_cie]; [None] is [return -1]. The string ends at [nul], so
    [nul - aug + 1] rounds of its loop are enough. *)
Definition parse_fde_cie (fde cie : Z) : C (option parsed) :=
  let ciePtr := u64 (cie + 8) in
  version ← load8 ciePtr;
  let aug := u64 (ciePtr + 1) in
  cieLen ← u32_at cie 0;
  let cieEnd := u64 (u64 (cie + 4) + cieLen) in
  fdeLen ← u32_at fde 0;
  let fdeEnd := u64 (u64 (fde + 4) + fdeLen) in
  nul ← memchr0 (Z.to_nat (u64 (cieEnd - aug))) aug;
  match nul with
  | None => Ok None
  | Some nul =>
    f ← cie_factors (u64 (nul + 1)) cieEnd version;
    match f with
    | None => Ok None
    | Some (codeAlign, dataAlign, ra, ciePtr) =>
      g ← cie_augmentation cie aug nul ciePtr cieEnd;
      match g with
      | None => Ok None
      | Some (augLen, cieStart, a) =>
        h ← parse_fde fde fdeEnd (a_type a) augLen;
        match h with
        | None => Ok None
        | Some (startLoc, locRange, fdeStart) =>
          Ok (Some (mk_parsed (a_type a) startLoc locRange fdeStart fdeEnd cieStart cieEnd
                      codeAlign dataAlign ra (a_call a)))
        end
      end
    end
  end.

End fde.
