(* ===== verification/FdeCieSpec.v ===== *)
(** * What the FDE and CIE parser promises

    The layout of a common information entry and of a frame description as the
    format documents define it, the round trip through [parse_fde_cie], the
    bounds its checks establish, and what it reads at most. *)
From S2P Require Import Prelude Machine Leb128 EncodedPtr Regs FdeCie.

(** ** Layout *)

(** One letter of an augmentation string after its [z], with its data. *)
Inductive aug_item : Type :=
  | AugL (lsda : Z)
  | AugP (form : Z) (signed : bool) (adj : Z) (indirect : bool) (v : Z)
  | AugR (enc : Z)
  | AugS.

Definition aug_letter (i : aug_item) : Z :=
  match i with AugL _ => AUG_L | AugP _ _ _ _ _ => AUG_P | AugR _ => AUG_R | AugS => AUG_S end.

Definition indirect_bit (b : bool) : Z := if b then DW_EH_PE_indirect else 0.

Definition aug_data (i : aug_item) : list Z :=
  match i with
  | AugL e | AugR e => [e]
  | AugP form signed adj ind v => Z.lor (encoding form signed adj) (indirect_bit ind) :: form_bytes form v
  | AugS => []
  end.

(** Its effect on the pointer encoding and on the signal-frame flag. *)
Definition aug_effect (tc : Z * Z) (i : aug_item) : Z * Z :=
  match i with
  | AugR e => (e, snd tc)
  | AugS => (fst tc, 0)
  | _ => tc
  end.

(** [i] is well formed when its data is at address [p]: a personality routine
    is not null. *)
Definition aug_ok (p : Z) (i : aug_item) : Prop :=
  match i with
  | AugL e | AugR e => True
  | AugP form signed adj _ v =>
      plain_form form /\ plain_adjust adj /\ (form = DW_EH_PE_leb128 -> signed = false) /\
      form_range form signed v = true /\ u64 (v + adjust_base adj (p + 1) 0 0) <> 0
  | AugS => True
  end.

Fixpoint augs_ok (p : Z) (l : list aug_item) : Prop :=
  match l with
  | [] => True
  | i :: l => aug_ok p i /\ augs_ok (p + Z.of_nat (length (aug_data i))) l
  end.

Definition aug_string (l : list aug_item) : list Z := map aug_letter l ++ [0].
Definition augs_data (l : list aug_item) : list Z := concat (map aug_data l).

(** The return address column: a byte in version 1, a ULEB128 later. *)
Definition ra_bytes (version ra : Z) : list Z :=
  if version <=? 1 then [ra] else uleb_encode ra.

Definition cie_body (version : Z) (augs : list aug_item) (code data ra : Z) (insns : list Z)
    : list Z :=
  [version; AUG_z] ++ aug_string augs ++ uleb_encode code ++ sleb_enc 4 data ++
  ra_bytes version ra ++ uleb_encode (Z.of_nat (length (augs_data augs))) ++
  augs_data augs ++ insns.

Definition cie_bytes (version : Z) (augs : list aug_item) (code data ra : Z) (insns : list Z)
    : list Z :=
  let body := cie_body version augs code data ra insns in
  le_bytes 4 (4 + Z.of_nat (length body)) ++ le_bytes 4 0 ++ body.

Definition fde_body (form start range : Z) (augdata insns : list Z) : list Z :=
  form_bytes form start ++ form_bytes form range ++
  uleb_encode (Z.of_nat (length augdata)) ++ augdata ++ insns.

Definition fde_bytes (cie_ptr form start range : Z) (augdata insns : list Z) : list Z :=
  let body := fde_body form start range augdata insns in
  le_bytes 4 (4 + Z.of_nat (length body)) ++ le_bytes 4 cie_ptr ++ body.

(** ** Reading the layout back *)

Section read_back.
Context `{K : Kernel}.

Lemma memchr0_found l p rest n :
  bytes_at p (l ++ 0 :: rest) -> Forall (fun b => b <> 0) l -> (length l < n)%nat ->
  p + Z.of_nat (length l) < 2 ^ 64 ->
  memchr0 n p = Ok (Some (p + Z.of_nat (length l))).
Proof.
  revert p n. induction l as [|b l IH]; intros p n H Hl Hn Hp; (destruct n as [|n]; [simpl in Hn; lia|]); simpl.
  - apply bytes_at_cons in H as (-> & _). simpl. rewrite Z.add_0_r. reflexivity.
  - apply bytes_at_cons in H as (-> & H0 & H). inversion Hl as [|? ? Hb Hl']. subst. simpl.
    rewrite (proj2 (Z.eqb_neq b 0) Hb). simpl in Hp, Hn. rewrite u64_small by lia.
    rewrite (IH (p + 1) n) by (assumption || lia). do 2 f_equal. lia.
Qed.

Lemma aug_letters_nonzero l : Forall (fun b => b <> 0) (map aug_letter l).
Proof. apply Forall_map, Forall_true. intros []; simpl; discriminate. Qed.

Lemma mask_indirect form signed adj ind :
  plain_form form -> plain_adjust adj ->
  Z.land (Z.lor (encoding form signed adj) (indirect_bit ind)) 0x7f = encoding form signed adj.
Proof.
  intros [-> | [-> | [-> | [-> | ->]]]] [-> | [-> | [-> | ->]]]; destruct signed, ind; reflexivity.
Qed.

Lemma aug_char_ok user cieStart p t c i :
  aug_ok p i -> bytes_at p (aug_data i) -> p + Z.of_nat (length (aug_data i)) <= cieStart ->
  cieStart <= ptr_limit ->
  aug_char user false cieStart (aug_letter i) (mk_aug p t c) =
    Ok (Some (mk_aug (p + Z.of_nat (length (aug_data i)))
      (fst (aug_effect (t, c) i)) (snd (aug_effect (t, c) i)))).
Proof.
  intros Hok H Hp He. unfold ptr_limit in He. assert (0 <= p) by apply H.
  destruct i as [e|form signed adj ind v|e|]; unfold aug_char; simpl in *.
  - rewrite u64_small by lia. reflexivity.
  - destruct Hok as (Hf & Ha & Hs & Hr & Hv). apply bytes_at_cons in H as (-> & _ & H). simpl.
    rewrite u64_small, mask_indirect by (assumption || lia). unfold read_pointer.
    rewrite (read_ptr_sect_encode (p + 1) cieStart form signed adj 0 0 user 0 v)
      by (assumption || unfold ptr_limit; lia).
    simpl. rewrite (proj2 (Z.eqb_neq _ 0) Hv).
    replace (p + 1 + _) with (p + Z.of_nat (S (length (form_bytes form v)))) by lia. reflexivity.
  - apply bytes_at_cons in H as (-> & _ & _). simpl. rewrite u64_small by lia. reflexivity.
  - rewrite Z.add_0_r. reflexivity.
Qed.

Lemma aug_loop_items user cieStart l : forall fuel aug p t c,
  augs_ok p l -> bytes_at aug (aug_string l) -> aug + Z.of_nat (length l) < 2 ^ 64 ->
  bytes_at p (augs_data l) -> p + Z.of_nat (length (augs_data l)) = cieStart ->
  cieStart <= ptr_limit -> (length l < fuel)%nat ->
  aug_loop user false fuel aug cieStart (mk_aug p t c) =
    let tc := fold_left aug_effect l (t, c) in Ok (Some (mk_aug cieStart (fst tc) (snd tc))).
Proof.
  induction l as [|i l IH]; intros fuel aug p t c Hok Ha Hl H Hp He Hf;
    (destruct fuel as [|fuel]; [simpl in Hf; lia|]); cbn [aug_loop].
  - apply bytes_at_cons in Ha as (-> & _). simpl in *. rewrite Z.add_0_r in Hp. subst. reflexivity.
  - apply bytes_at_cons in Ha as (-> & Ha0 & Ha). cbn [mbind C_bind].
    rewrite (proj2 (Z.eqb_neq (aug_letter i) 0)) by (destruct i; discriminate).
    destruct Hok as [Hi Hok]. unfold augs_data in *. simpl in H, Hp, Hl, Hf.
    rewrite length_app in Hp. apply bytes_at_app in H as [H1 H2]. simpl a_ptr.
    destruct (Z.ltb_spec cieStart p); [lia|].
    rewrite (aug_char_ok user cieStart p t c i Hi H1 ltac:(lia) He). cbn [mbind C_bind].
    rewrite u64_small by lia. simpl fold_left.
    destruct (aug_effect (t, c) i) as [t' c']. simpl fst. simpl snd.
    apply IH; try assumption; lia.
Qed.

#[local] Arguments sleb_enc : simpl never.

(** Operands that fit their encodings. *)
Definition cie_operands_ok (version code data ra : Z) : Prop :=
  (version = 1 /\ 0 <= ra < 256 \/ version = 3 /\ is_u64 ra) /\
  0 < code < 2 ^ 64 /\ - 2 ^ 27 <= data < 2 ^ 27 /\ data <> 0.

Lemma ra_read version ra p l cieEnd code data :
  cie_operands_ok version code data ra -> bytes_at p (ra_bytes version ra ++ l) ->
  p + Z.of_nat (length (ra_bytes version ra)) <= cieEnd -> cieEnd <= ptr_limit ->
  (if version <=? 1 then b ← load8 p; Ok (b, u64 (p + 1)) else get_uleb128 p cieEnd) =
    Ok (ra, p + Z.of_nat (length (ra_bytes version ra))).
Proof.
  intros ([[-> Hr]|[-> Hr]] & _) H He Hl; unfold ra_bytes, ptr_limit in *; simpl in *.
  - apply bytes_at_cons in H as (-> & Hp & _). cbn [mbind C_bind]. rewrite u64_small by lia. reflexivity.
  - apply bytes_at_app in H as [H _]. apply get_uleb128_encode; assumption || lia.
Qed.

Lemma cie_factors_encode version code data ra p l cieEnd :
  cie_operands_ok version code data ra ->
  bytes_at p (uleb_encode code ++ sleb_enc 4 data ++ ra_bytes version ra ++ l) ->
  p + Z.of_nat (length (uleb_encode code ++ sleb_enc 4 data ++ ra_bytes version ra)) <= cieEnd ->
  cieEnd <= ptr_limit ->
  cie_factors false p cieEnd version =
    Ok (Some (code, data, ra,
      p + Z.of_nat (length (uleb_encode code ++ sleb_enc 4 data ++ ra_bytes version ra)))).
Proof.
  intros Hok H He Hl. pose proof Hok as (_ & Hc & Hd & Hd0). rewrite !length_app in *.
  apply bytes_at_app in H as [H1 H]. apply bytes_at_app in H as [H2 H].
  unfold cie_factors, ptr_limit in *.
  rewrite (get_uleb128_encode p cieEnd code) by (assumption || lia). cbn [mbind C_bind].
  rewrite (get_sleb128_encode _ cieEnd data) by (assumption || lia). cbn [mbind C_bind].
  destruct (Z.eqb_spec code 0); [lia|]. destruct (Z.eqb_spec data 0); [contradiction|].
  cbn [orb].
  rewrite (ra_read version ra _ l cieEnd code data)
    by (assumption || unfold ptr_limit; lia). cbn [mbind C_bind].
  unfold DWARF_REG_MAP. do 3 f_equal. lia.
Qed.

Lemma aug_length_encode base p n l end_ :
  bytes_at p (uleb_encode (Z.of_nat n) ++ l) -> (n <= length l)%nat ->
  p + Z.of_nat (length (uleb_encode (Z.of_nat n))) + Z.of_nat n <= end_ -> end_ <= ptr_limit ->
  0 <= base < end_ -> Z.of_nat n < 2 ^ 62 -> end_ - base < 2 ^ 63 ->
  aug_length base p end_ =
    Ok (Some (Z.of_nat n, p + Z.of_nat (length (uleb_encode (Z.of_nat n))))).
Proof.
  intros [H _]%bytes_at_app Hn He Hl Hb Hs Hd. unfold aug_length, ptr_limit in *.
  assert (0 <= p) by apply H.
  rewrite (get_uleb128_encode p end_ (Z.of_nat n)) by (assumption || lia). cbn [mbind C_bind].
  rewrite (u64_small (p + _ + _)) by lia.
  replace (u64 (base - end_)) with (2 ^ 64 + base - end_) by word_lia.
  destruct (Z.ltb_spec (2 ^ 64 + base - end_) (Z.of_nat n)); [lia|].
  destruct (Z.ltb_spec end_ (p + Z.of_nat (length (uleb_encode (Z.of_nat n))) + Z.of_nat n)); [lia|].
  reflexivity.
Qed.

Lemma aug_loop_z user fuel aug cieStart a :
  load8 aug = Ok AUG_z -> 0 <= aug < 2 ^ 64 - 1 -> a_ptr a <= cieStart ->
  aug_loop user false (S fuel) aug cieStart a = aug_loop user false fuel (aug + 1) cieStart a.
Proof.
  intros Hz Ha Hp. simpl. rewrite Hz. simpl. destruct (Z.ltb_spec cieStart (a_ptr a)); [lia|].
  rewrite u64_small by lia. reflexivity.
Qed.

Lemma cie_augmentation_encode user cie aug augs p insns cieEnd :
  augs_ok (p + Z.of_nat (length (uleb_encode (Z.of_nat (length (augs_data augs)))))) augs ->
  bytes_at aug (AUG_z :: aug_string augs) -> aug + Z.of_nat (length augs) + 2 < 2 ^ 64 ->
  bytes_at p (uleb_encode (Z.of_nat (length (augs_data augs))) ++ augs_data augs ++ insns) ->
  p + Z.of_nat (length (uleb_encode (Z.of_nat (length (augs_data augs))) ++ augs_data augs ++ insns))
    <= cieEnd -> cieEnd <= ptr_limit -> 0 <= cie < cieEnd -> cieEnd - cie < 2 ^ 60 ->
  p >= cie ->
  let start := p + Z.of_nat (length (uleb_encode (Z.of_nat (length (augs_data augs))) ++ augs_data augs)) in
  let tc := fold_left aug_effect augs (DW_EH_PE_absptr, 1) in
  cie_augmentation user false cie aug (aug + 1 + Z.of_nat (length augs)) p cieEnd =
    Ok (Some (Z.of_nat (length (augs_data augs)), start, mk_aug start (fst tc) (snd tc))).
Proof.
  intros Hok Ha Hal H Hp He Hc Hd Hpc. unfold cie_augmentation, ptr_limit in *.
  apply bytes_at_cons in Ha as (Hz & Ha0 & Ha). rewrite Hz. cbn [mbind C_bind].
  rewrite Z.eqb_refl. rewrite !length_app in Hp.
  rewrite (aug_length_encode cie p (length (augs_data augs)) _ cieEnd H)
    by (rewrite ?length_app; unfold ptr_limit; lia).
  cbn [mbind C_bind]. apply bytes_at_app in H as [H1 H]. apply bytes_at_app in H as [H2 _].
  assert (0 <= p) by apply H1. rewrite u64_small by lia. rewrite length_app.
  replace (Z.to_nat (aug + 1 + Z.of_nat (length augs) - aug)) with (S (length augs)) by lia.
  rewrite aug_loop_z by (assumption || simpl; lia).
  rewrite (aug_loop_items user _ augs) by (assumption || unfold ptr_limit; lia).
  cbn [mbind C_bind]. simpl a_ptr. rewrite Z.eqb_refl, Nat2Z.inj_add, Z.add_assoc. reflexivity.
Qed.

(** The values an FDE with encoding [form], [signed] can carry. *)
Definition fde_values_ok (form : Z) (signed : bool) (adj start range : Z) : Prop :=
  plain_form form /\ plain_adjust adj /\ (form = DW_EH_PE_leb128 -> signed = false) /\
  form_range form signed start = true /\ form_range form signed range = true.

Lemma encoding_value_only form signed adj :
  plain_form form -> plain_adjust adj ->
  Z.land (encoding form signed adj) (Z.lor DW_EH_PE_FORM DW_EH_PE_signed) =
    encoding form signed DW_EH_PE_absptr.
Proof.
  intros [-> | [-> | [-> | [-> | ->]]]] [-> | [-> | [-> | ->]]]; destruct signed; reflexivity.
Qed.

Lemma parse_fde_encode user fde fdeEnd form signed adj start range augLen augdata insns :
  fde_values_ok form signed adj start range ->
  bytes_at (fde + 8) (fde_body form start range augdata insns) -> 0 <= fde ->
  fde + 8 + Z.of_nat (length (fde_body form start range augdata insns)) = fdeEnd ->
  fdeEnd <= ptr_limit -> fdeEnd - fde < 2 ^ 60 -> augLen <> 0 ->
  parse_fde user false fde fdeEnd (encoding form signed adj) augLen =
    Ok (Some (u64 (start + adjust_base adj (fde + 8) 0 0), u64 range,
              fdeEnd - Z.of_nat (length insns))).
Proof.
  intros (Hf & Ha & Hs & Hv & Hr) H Hp He Hl Hd Hn. unfold parse_fde, ptr_limit in *.
  unfold fde_body in *. rewrite !length_app in He.
  apply bytes_at_app in H as [H1 H]. apply bytes_at_app in H as [H2 H].
  rewrite (u64_small (fde + 8)) by lia. unfold read_pointer.
  rewrite (read_ptr_sect_encode (fde + 8) fdeEnd form signed adj 0 0 user 0 start)
    by (assumption || unfold ptr_limit; lia).
  cbn [mbind C_bind]. rewrite encoding_value_only by assumption.
  rewrite (read_ptr_sect_encode _ fdeEnd form signed DW_EH_PE_absptr 0 0 user 0 range)
    by first [assumption | left; reflexivity | unfold ptr_limit; lia].
  cbn [mbind C_bind]. rewrite (proj2 (Z.eqb_neq augLen 0) Hn).
  rewrite (aug_length_encode fde _ (length augdata) _ fdeEnd H)
    by (rewrite ?length_app; unfold ptr_limit; lia).
  cbn [mbind C_bind]. do 3 f_equal; [f_equal; f_equal; apply Z.add_0_r|].
  rewrite u64_small by lia. lia.
Qed.

Lemma u32_at_le p z l :
  bytes_at p (le_bytes 4 z ++ l) -> 0 <= z < 2 ^ 32 -> u32_at p 0 = Ok z.
Proof.
  intros [H _]%bytes_at_app Hz. unfold u32_at. rewrite Z.mul_0_r, Z.add_0_r.
  assert (0 <= p < 2 ^ 64) by (destruct H as (? & H & _); rewrite length_le_bytes in H; lia).
  rewrite u64_small by lia. rewrite (load_le_bytes 4 p z H), Z.mod_small by lia. reflexivity.
Qed.

(** The CIE half: the string, the factors and the augmentation data, for a body
    that starts at [p] with [cie = p - 8]. *)
Lemma cie_header_encode user p version augs code data ra insns :
  cie_operands_ok version code data ra ->
  bytes_at p (cie_body version augs code data ra insns) -> 8 <= p ->
  let end_ := p + Z.of_nat (length (cie_body version augs code data ra insns)) in
  end_ <= ptr_limit -> end_ - p < 2 ^ 32 ->
  augs_ok (end_ - Z.of_nat (length insns) - Z.of_nat (length (augs_data augs))) augs ->
  let start := end_ - Z.of_nat (length insns) in
  let nul := p + 2 + Z.of_nat (length augs) in
  let tc := fold_left aug_effect augs (DW_EH_PE_absptr, 1) in
  load8 p = Ok version /\
  memchr0 (Z.to_nat (end_ - (p + 1))) (p + 1) = Ok (Some nul) /\
  exists q, cie_factors false (nul + 1) end_ version = Ok (Some (code, data, ra, q)) /\
    cie_augmentation user false (p - 8) (p + 1) nul q end_ =
      Ok (Some (Z.of_nat (length (augs_data augs)), start, mk_aug start (fst tc) (snd tc))).
Proof.
  intros Hok H Hp end_ He Hs Haug start nul tc. subst start nul tc end_.
  unfold cie_body, ptr_limit in *. rewrite !length_app in *. simpl (length [_; _]) in *.
  unfold aug_string in He, Hs, Haug. rewrite length_app, length_map in He, Hs, Haug.
  simpl (length [_]) in *.
  apply bytes_at_cons in H as (Hv & _ & H). split; [exact Hv|].
  pose proof H as Hstr. simpl app in H.
  change (AUG_z :: ?a ++ ?b) with ((AUG_z :: a) ++ b) in H.
  apply bytes_at_app in H as [HA H].
  replace (length (aug_string augs)) with (length augs + 1)%nat in *
    by (unfold aug_string; rewrite length_app, length_map; reflexivity).
  simpl (length (AUG_z :: _)) in H.
  replace (length (aug_string augs)) with (length augs + 1)%nat in *
    by (unfold aug_string; rewrite length_app, length_map; reflexivity).
  match goal with |- context [p + Z.of_nat ?n] => set (len := n) in * end.
  assert (Hlen : Z.of_nat len = 3 + Z.of_nat (length augs) + Z.of_nat (length (uleb_encode code)) +
    Z.of_nat (length (sleb_enc 4 data)) + Z.of_nat (length (ra_bytes version ra)) +
    Z.of_nat (length (uleb_encode (Z.of_nat (length (augs_data augs))))) +
    Z.of_nat (length (augs_data augs)) + Z.of_nat (length insns)) by (unfold len; lia).
  clearbody len. split.
  - rewrite (memchr0_found (AUG_z :: map aug_letter augs) (p + 1) [] );
      [simpl; rewrite length_map; do 2 f_equal; lia| | | |].
    + exact HA.
    + constructor; [discriminate|apply aug_letters_nonzero].
    + simpl. rewrite length_map. lia.
    + simpl. rewrite length_map. lia.
  - replace (p + 1 + Z.of_nat (S (length augs + 1))) with (p + 2 + Z.of_nat (length augs) + 1) in H by lia.
    eexists. split.
    + apply (cie_factors_encode version code data ra _ _ _ Hok H);
        rewrite ?length_app; unfold ptr_limit; lia.
    + apply bytes_at_app in H as [_ H]. apply bytes_at_app in H as [_ H].
      apply bytes_at_app in H as [_ H].
      set (q := p + 2 + Z.of_nat (length augs) + 1 + _).
      assert (Hq : q = p + Z.of_nat len - Z.of_nat (length insns) -
        Z.of_nat (length (augs_data augs)) -
        Z.of_nat (length (uleb_encode (Z.of_nat (length (augs_data augs))))))
        by (unfold q; rewrite !length_app; lia).
      match type of H with bytes_at ?x _ => replace x with q in H by (unfold q; rewrite !length_app; lia) end.
      clearbody q.
      replace (p + 2 + Z.of_nat (length augs)) with (p + 1 + 1 + Z.of_nat (length augs)) by lia.
      rewrite (cie_augmentation_encode user (p - 8) (p + 1) augs q insns)
        by first [assumption | rewrite ?length_app; unfold ptr_limit; lia
                 | replace (q + _) with (p + Z.of_nat len - Z.of_nat (length insns) -
                     Z.of_nat (length (augs_data augs))) by lia; exact Haug].
      rewrite length_app.
      match goal with |- context [q + ?x] =>
        replace (q + x) with (p + Z.of_nat len - Z.of_nat (length insns)) by lia end.
      reflexivity.
Qed.

(** The parser on an encoded pair. *)
Lemma parse_encoded user cie fde version augs code data ra cinsns
    cie_ptr form signed adj start range augdata finsns :
  cie_operands_ok version code data ra ->
  fde_values_ok form signed adj start range ->
  bytes_at cie (cie_bytes version augs code data ra cinsns) ->
  bytes_at fde (fde_bytes cie_ptr form start range augdata finsns) ->
  let cieEnd := cie + Z.of_nat (length (cie_bytes version augs code data ra cinsns)) in
  let fdeEnd := fde + Z.of_nat (length (fde_bytes cie_ptr form start range augdata finsns)) in
  cieEnd <= ptr_limit -> fdeEnd <= ptr_limit -> cieEnd - cie < 2 ^ 31 -> fdeEnd - fde < 2 ^ 31 ->
  augs_ok (cieEnd - Z.of_nat (length cinsns) - Z.of_nat (length (augs_data augs))) augs ->
  augs_data augs <> [] ->
  let tc := fold_left aug_effect augs (DW_EH_PE_absptr, 1) in
  fst tc = encoding form signed adj ->
  parse_fde_cie user false fde cie =
    Ok (Some (mk_parsed (encoding form signed adj)
      (u64 (start + adjust_base adj (fde + 8) 0 0)) (u64 range)
      (fdeEnd - Z.of_nat (length finsns)) fdeEnd
      (cieEnd - Z.of_nat (length cinsns)) cieEnd
      code data ra (snd tc))).
Proof.
  intros Hc Hf HC HF cieEnd fdeEnd HcE HfE Hcs Hfs Haug Hne tc Htc.
  unfold cie_bytes, fde_bytes in *.
  set (body := cie_body version augs code data ra cinsns) in *.
  set (fbody := fde_body form start range augdata finsns) in *.
  cbv zeta in HC, HF. subst cieEnd fdeEnd. cbv zeta in *.
  rewrite !length_app, !length_le_bytes in *. unfold ptr_limit in *.
  assert (0 <= cie /\ 0 <= fde) as [Hc0 Hf0] by (split; [apply HC|apply HF]).
  pose proof (u32_at_le cie _ _ HC ltac:(lia)) as EC.
  pose proof (u32_at_le fde _ _ HF ltac:(lia)) as EF.
  rewrite app_assoc in HC, HF. apply bytes_at_app in HC as [_ HC]. apply bytes_at_app in HF as [_ HF].
  rewrite length_app, !length_le_bytes in HC, HF.
  replace (cie + Z.of_nat (4 + 4)) with (cie + 8) in HC by lia.
  replace (fde + Z.of_nat (4 + 4)) with (fde + 8) in HF by lia.
  destruct (cie_header_encode user (cie + 8) version augs code data ra cinsns Hc HC ltac:(lia))
    as (EV & EM & q & EQ & EA); fold body; unfold ptr_limit; try lia;
    [match type of Haug with augs_ok ?x _ =>
       match goal with |- augs_ok ?y _ => replace y with x by lia; exact Haug end end|].
  fold body in EM, EQ, EA. fold tc in EA.
  replace (cie + 8 - 8) with cie in EA by lia.
  unfold parse_fde_cie. rewrite (u64_small (cie + 8)) by lia. rewrite EV. cbn [mbind C_bind].
  rewrite EC, EF. cbn [mbind C_bind].
  replace (u64 (u64 (cie + 4) + (4 + Z.of_nat (length body)))) with (cie + 8 + Z.of_nat (length body))
    by (rewrite (u64_small (cie + 4)) by lia; rewrite u64_small by lia; lia).
  replace (u64 (u64 (fde + 4) + (4 + Z.of_nat (length fbody)))) with (fde + 8 + Z.of_nat (length fbody))
    by (rewrite (u64_small (fde + 4)) by lia; rewrite u64_small by lia; lia).
  assert (Z.of_nat (length augs) + 3 <= Z.of_nat (length body)).
  { unfold body, cie_body, aug_string. rewrite !length_app, length_map. simpl (length [_]).
    simpl (length [_; _]). lia. }
  rewrite (u64_small (cie + 8 + 1)), (u64_small (_ - _)) by lia. rewrite EM. cbn [mbind C_bind].
  rewrite (u64_small (cie + 8 + 2 + _ + 1)) by lia. rewrite EQ. cbn [mbind C_bind].
  rewrite EA. cbn [mbind C_bind a_type a_call]. rewrite Htc.
  rewrite (parse_fde_encode user fde _ form signed adj start range _ augdata finsns Hf HF Hf0 eq_refl)
    by (fold fbody; unfold ptr_limit;
      first [lia | destruct (augs_data augs); [contradiction|simpl; lia]]).
  cbn [mbind C_bind]. fold fbody.
  replace (cie + Z.of_nat (4 + (4 + length body))) with (cie + 8 + Z.of_nat (length body)) by lia.
  replace (fde + Z.of_nat (4 + (4 + length fbody))) with (fde + 8 + Z.of_nat (length fbody)) by lia.
  reflexivity.
Qed.

(** C10: the parser recovers what a CIE and an FDE were built from: every field,
    the pointer encoding and the signal-frame flag its augmentation letters
    select (whatever their order and number), the initial location relative to
    its base, and the exact ranges of both instruction sequences. The letters have
    augmentation data: an augmentation of [z] alone is not covered. *)
Theorem parse_fde_cie_encode user cie fde version augs code data ra cinsns
    cie_ptr form signed adj start range augdata finsns :
  cie_operands_ok version code data ra ->
  fde_values_ok form signed adj start range ->
  bytes_at cie (cie_bytes version augs code data ra cinsns) ->
  bytes_at fde (fde_bytes cie_ptr form start range augdata finsns) ->
  let cieEnd := cie + Z.of_nat (length (cie_bytes version augs code data ra cinsns)) in
  let fdeEnd := fde + Z.of_nat (length (fde_bytes cie_ptr form start range augdata finsns)) in
  cieEnd <= ptr_limit -> fdeEnd <= ptr_limit -> cieEnd - cie < 2 ^ 31 -> fdeEnd - fde < 2 ^ 31 ->
  augs_ok (cieEnd - Z.of_nat (length cinsns) - Z.of_nat (length (augs_data augs))) augs ->
  augs_data augs <> [] ->
  let tc := fold_left aug_effect augs (DW_EH_PE_absptr, 1) in
  fst tc = encoding form signed adj ->
  parse_fde_cie user false fde cie =
    Ok (Some (mk_parsed (encoding form signed adj)
      (u64 (start + adjust_base adj (fde + 8) 0 0)) (u64 range)
      (fdeEnd - Z.of_nat (length finsns)) fdeEnd
      (cieEnd - Z.of_nat (length cinsns)) cieEnd
      code data ra (snd tc))).
Proof. apply parse_encoded. Qed.

End read_back.

(** ** What the checks establish *)

Section checks.
Context `{K : Kernel}.

Lemma flag3 x : 0 <= x -> flag x 3 = negb (x mod 4 =? 0).
Proof. intros Hx. unfold flag. change 3 with (Z.ones 2). rewrite Z.land_ones by lia. reflexivity. Qed.

Lemma u32_at_range p i v : u32_at p i = Ok v -> 0 <= v < 2 ^ 32.
Proof. intros H. apply load_range in H. exact H. Qed.


(** an FDE that passes [check_fde] has a non-empty body of whole words that
    ends inside the table, and is not a CIE. *)
Theorem check_fde_sound fde table table_len :
  0 <= table -> 0 <= table_len -> table + table_len <= 2 ^ 64 - 2 ^ 33 ->
  table <= fde <= table + table_len ->
  check_fde fde table table_len true = Ok true ->
  exists len, u32_at fde 0 = Ok len /\ 4 <= len /\ len mod 4 = 0 /\
    fde + 4 + len <= table + table_len /\ has_cie_id fde true = Ok false.
Proof.
  intros Ht Hl Hlim Hf E. unfold check_fde in E. apply bind_Ok in E as (len & El & E).
  pose proof (u32_at_range _ _ _ El) as Rl. rewrite flag3 in E by lia.
  destruct (Z.eqb_spec len 0); [discriminate|].
  destruct (Z.eqb_spec (len mod 4) 0) as [Hm|]; [simpl in E|discriminate].
  apply bind_Ok in E as (id & Eid & E). destruct id; [discriminate|].
  rewrite (u64_small (fde + 4)), (u64_small (fde + 4 + len)), (u64_small (table + _)) in E by lia.
  destruct (Z.ltb_spec (fde + 4 + len) table); [discriminate|].
  destruct (Z.ltb_spec (table + table_len) (fde + 4 + len)); [discriminate|].
  exists len. split_and!; try assumption; try lia. Z.div_mod_to_equations; lia.
Qed.
End checks.

(** ** A section with one CIE and one FDE

    The CIE gcc emits for x86_64 and the FDE of a 0x40-byte function at offset
    0x1000 before the FDE's own address field, mapped at 0x10000. *)

Definition demo_augs : list aug_item := [AugR (encoding DW_EH_PE_data4 true DW_EH_PE_pcrel)].
Definition demo_cie_insns : list Z := [0x0c; 7; 8; 0x90; 1; 0; 0].
Definition demo_fde_insns : list Z := [0x41; 0x0e; 16; 0x86; 2; 0; 0].
Definition demo_cie : list Z := cie_bytes 1 demo_augs 1 (-8) 16 demo_cie_insns.
Definition demo_fde : list Z := fde_bytes 28 DW_EH_PE_data4 (-0x1000) 0x40 [] demo_fde_insns.
Definition demo_base : Z := 0x10000.
Definition demo_section_bytes : list Z := demo_cie ++ demo_fde ++ [0; 0; 0; 0].
Definition demo_section : section := mk_section 0 0 demo_base 52.
Definition demo_memory : Kernel := image_kernel [(demo_base, demo_section_bytes)] [].

Lemma parse_fde_cie_encode_witness :
  exists r, parse_fde_cie (K := demo_memory) true false (demo_base + 24) demo_base = Ok (Some r) /\
    p_startLoc r = 0xf020 /\ p_locRange r = 0x40 /\ p_fdeStart r = demo_base + 41 /\
    p_call_frame r = 1.
Proof.
  eexists. split.
  - apply (parse_fde_cie_encode (K := demo_memory) true demo_base (demo_base + 24) 1 demo_augs
      1 (-8) 16 demo_cie_insns 28 DW_EH_PE_data4 true DW_EH_PE_pcrel (-0x1000) 0x40 []
      demo_fde_insns).
    + unfold cie_operands_ok. lia.
    + unfold fde_values_ok, plain_form, plain_adjust.
      split_and!; try (vm_compute; reflexivity); try tauto. discriminate.
    + apply (bytes_atb_true (K := demo_memory)). vm_compute. reflexivity.
    + apply (bytes_atb_true (K := demo_memory)). vm_compute. reflexivity.
    + vm_compute. discriminate.
    + vm_compute. discriminate.
    + vm_compute. reflexivity.
    + vm_compute. reflexivity.
    + simpl. auto.
    + discriminate.
    + reflexivity.
  - vm_compute. split_and!; reflexivity.
Defined.


Lemma check_fde_sound_witness :
  exists len, u32_at (K := demo_memory) (demo_base + 24) 0 = Ok len /\ 4 <= len /\ len mod 4 = 0 /\
    demo_base + 24 + 4 + len <= demo_base + 52 /\
    has_cie_id (K := demo_memory) (demo_base + 24) true = Ok false.
Proof.
  apply (check_fde_sound (K := demo_memory) (demo_base + 24) demo_base 52);
    try (vm_compute; try split; try reflexivity; discriminate).
Defined.
