(* ===== verification/FdeCieBounds.v ===== *)
(** * What the FDE and CIE parser reads

    [parse_fde_cie] on arbitrary bytes: it ends, it reads at most three bytes
    past the CIE, and where the ranges it returns lie. *)
From S2P Require Import Prelude Machine Leb128 EncodedPtr Regs FdeCie.

Section bounds.
Context `{K : Kernel}.
Variables (lo hi : Z) (user compat_task : bool).
Hypothesis Hmap : mapped lo hi.
Hypothesis Hlim : hi <= ptr_limit.

Lemma mapped_within p e : lo <= p -> e <= hi -> mapped p e.
Proof.
  intros Hp He. destruct Hmap as (M0 & M1 & M2). repeat split; try lia.
  intros a Ha. apply M2. lia.
Qed.

Lemma lo_nonneg : 0 <= lo.
Proof. apply Hmap. Qed.

Lemma load8_safe a : lo <= a < hi -> safe (fun b => 0 <= b < 256) (load8 a).
Proof.
  intros Ha. destruct (load8_runs lo hi a Hmap Ha) as [b E]. rewrite E.
  exact (load8_range a b E).
Qed.

(** A decoder, also when it starts past its limit. *)
Definition leb_moved (cur end_ : Z) (vc : Z * Z) : Prop :=
  cur <= snd vc /\ (snd vc <= cur \/ snd vc <= end_ + 1).

Lemma uleb_safe cur end_ :
  lo <= cur -> end_ <= hi -> cur < 2 ^ 64 ->
  safe (fun vc => leb_moved cur end_ vc /\ 0 <= fst vc < 2 ^ 64) (get_uleb128 cur end_).
Proof.
  intros Hc He H64. pose proof lo_nonneg. unfold ptr_limit in Hlim. destruct (Z.le_gt_cases cur end_).
  - pose proof (get_uleb128_bounds cur end_ (mapped_within cur end_ Hc He) ltac:(lia) ltac:(lia)) as B.
    destruct (get_uleb128 cur end_) as [[v c]|]; [|exact B]. simpl. unfold leb_moved. simpl.
    destruct B as [Hv [Hc'|[_ Hc']]]; [lia|]. rewrite u64_small in Hc' by lia. lia.
  - rewrite get_uleb128_past by lia. simpl. unfold leb_moved. simpl. lia.
Qed.

Lemma sleb_safe cur end_ :
  lo <= cur -> end_ <= hi -> cur < 2 ^ 64 ->
  safe (leb_moved cur end_) (get_sleb128 cur end_).
Proof.
  intros Hc He H64. pose proof lo_nonneg. unfold ptr_limit in Hlim. destruct (Z.le_gt_cases cur end_).
  - pose proof (get_sleb128_bounds cur end_ (mapped_within cur end_ Hc He) ltac:(lia) ltac:(lia)) as B.
    destruct (get_sleb128 cur end_) as [[v c]|]; [|exact B]. simpl. unfold leb_moved. simpl.
    destruct B as [Hv [Hc'|[_ Hc']]]; [lia|]. rewrite u64_small in Hc' by lia. lia.
  - rewrite get_sleb128_past by lia. simpl. unfold leb_moved. simpl. lia.
Qed.

(** A pointer that starts past its limit is not read. *)
Lemma read_fixed_past n sg loc end_ :
  end_ < loc -> loc + Z.of_nat n < 2 ^ 64 -> 0 <= loc -> read_fixed n sg loc end_ = Ok None.
Proof.
  intros H1 H2 H3. unfold read_fixed. rewrite u64_small by lia.
  destruct (Z.ltb_spec end_ (loc + Z.of_nat n)); [reflexivity|lia].
Qed.

Lemma read_form_past loc end_ t :
  end_ < loc -> loc + 8 < 2 ^ 64 -> 0 <= loc -> read_form loc end_ t compat_task 0 = Ok None.
Proof.
  intros H1 H2 H3. unfold read_form, read_absptr.
  rewrite get_uleb128_past, get_sleb128_past by lia. simpl.
  repeat case_match; try reflexivity; try (apply read_fixed_past; simpl; lia); simpl in *; c_inv;
    destruct (Z.ltb_spec end_ loc); try reflexivity; lia.
Qed.

Lemma read_pointer_safe loc end_ t :
  lo <= loc <= end_ + 1 -> end_ <= hi ->
  safe (fun vc => fst vc <> 0 -> loc <= snd vc <= end_) (read_pointer loc end_ t user compat_task).
Proof.
  intros Hl He. pose proof lo_nonneg. unfold read_pointer. destruct (Z.le_gt_cases loc end_).
  - pose proof (read_ptr_sect_bounds loc end_ t 0 0 user compat_task 0
      (mapped_within loc end_ ltac:(lia) He) ltac:(lia) ltac:(lia)) as B.
    destruct (read_ptr_sect _ _ _ _ _ _ _ _) as [[v c]|]; [simpl in *; lia|exact B].
  - unfold read_ptr_sect, ptr_limit in *. destruct (_ || _); [simpl; lia|].
    rewrite read_form_past by lia. simpl. lia.
Qed.

Lemma memchr0_safe n p :
  lo <= p -> p + Z.of_nat n <= hi ->
  safe (fun r => match r with
                 | Some nul => p <= nul < p + Z.of_nat n /\ load8 nul = Ok 0
                 | None => True end) (memchr0 n p).
Proof.
  revert p. induction n as [|n IH]; intros p Hp Hn; simpl; [exact I|].
  destruct (load8_runs lo hi p Hmap ltac:(lia)) as [b Eb]. rewrite Eb. simpl.
  destruct (Z.eqb_spec b 0) as [->|]; [simpl; split; [lia|exact Eb]|].
  pose proof lo_nonneg. destruct n as [|n]; [exact I|].
  unfold ptr_limit in *. rewrite u64_small by lia.
  eapply safe_mono; [apply IH; lia|]. intros [nul|]; [|auto]. intros [? ?]. split; [lia|assumption].
Qed.

(** Before each letter the data pointer is at most [cieStart]. *)
Lemma aug_char_safe cieStart c a :
  lo <= a_ptr a <= cieStart -> cieStart < hi -> 0 <= a_type a < 256 ->
  safe (fun r => match r with
                 | Some b => a_ptr a <= a_ptr b <= cieStart + 1 /\ 0 <= a_type b < 256
                 | None => True end) (aug_char user compat_task cieStart c a).
Proof.
  intros Ha Hs Ht. pose proof lo_nonneg. unfold ptr_limit in Hlim. unfold aug_char.
  repeat match goal with |- safe _ (if ?b then _ else _) => destruct b end; simpl; try lia; try exact I.
  - rewrite u64_small by lia. lia.
  - eapply safe_bind; [apply load8_safe; lia|]. intros b Hb. simpl. rewrite u64_small by lia.
    eapply safe_bind; [apply read_pointer_safe; lia|]. intros [v p] Hv. simpl in *.
    destruct (Z.eqb_spec v 0); simpl; [exact I|]. lia.
  - eapply safe_bind; [apply load8_safe; lia|]. intros b Hb. simpl in *. rewrite u64_small by lia. lia.
Qed.

Lemma aug_loop_safe cieStart nul fuel : forall aug a,
  lo <= aug <= nul -> nul < hi -> load8 nul = Ok 0 -> nul - aug < Z.of_nat fuel ->
  lo <= a_ptr a -> cieStart < hi -> 0 <= a_type a < 256 ->
  safe (fun r => match r with
                 | Some b => a_ptr a <= a_ptr b /\ 0 <= a_type b < 256
                 | None => True end) (aug_loop user compat_task fuel aug cieStart a).
Proof.
  induction fuel as [|fuel IH]; intros aug a Haug Hnul E0 Hf Ha Hs Ht; [lia|]. simpl.
  destruct (load8_runs lo hi aug Hmap ltac:(lia)) as [c Ec]. rewrite Ec. simpl.
  destruct (Z.eqb_spec c 0) as [->|Hc]; [simpl; lia|].
  destruct (Z.ltb_spec cieStart (a_ptr a)); [exact I|].
  eapply safe_bind; [apply aug_char_safe; lia|]. intros [b|] Hb; [|exact I].
  assert (aug <> nul) by congruence. pose proof lo_nonneg. unfold ptr_limit in Hlim.
  rewrite u64_small by lia. eapply safe_mono; [apply IH; (assumption || lia)|].
  intros [d|]; [|auto]. lia.
Qed.

Lemma cie_factors_safe p end_ version :
  lo <= p <= end_ + 1 -> end_ + 3 < hi ->
  safe (fun r => match r with Some (_, _, _, q) => p <= q <= end_ + 2 | None => True end)
    (cie_factors compat_task p end_ version).
Proof.
  intros Hp He. pose proof lo_nonneg. unfold ptr_limit in Hlim. unfold cie_factors.
  eapply safe_bind; [apply uleb_safe; lia|]. intros [code p1] [H1 _]. unfold leb_moved in H1. simpl in H1.
  eapply safe_bind; [apply sleb_safe; lia|]. intros [data p2] H2. unfold leb_moved in H2. simpl in H2.
  destruct (_ || _); [exact I|].
  eapply (safe_bind (fun vc => p2 <= snd vc <= end_ + 2)).
  - destruct (version <=? 1).
    + eapply safe_bind; [apply load8_safe; lia|]. intros b _. simpl. rewrite u64_small by lia. lia.
    + eapply safe_mono; [apply uleb_safe; lia|]. intros [v q] [Hq _]. unfold leb_moved in Hq. simpl in *. lia.
  - intros [ra q] Hq. simpl in *. lia.
Qed.

Lemma aug_length_safe base p end_ :
  lo <= p <= end_ + 2 -> end_ + 3 < hi ->
  safe (fun r => match r with
                 | Some (n, q) => p <= q /\ u64 (q + n) <= end_ /\ 0 <= n
                 | None => True end) (aug_length base p end_).
Proof.
  intros Hp He. pose proof lo_nonneg. unfold ptr_limit in Hlim. unfold aug_length.
  eapply safe_bind; [apply uleb_safe; lia|]. intros [n q] [Hq Hn]. unfold leb_moved in Hq. simpl in *.
  destruct (u64 (base - end_) <? n); [exact I|]. simpl.
  destruct (Z.ltb_spec end_ (u64 (q + n))); simpl; [exact I|lia].
Qed.

Lemma cie_augmentation_safe cie aug nul p end_ :
  lo <= aug <= nul -> nul < hi -> load8 nul = Ok 0 -> lo <= p <= end_ + 2 -> end_ + 3 < hi ->
  safe (fun r => match r with
                 | Some (n, start, a) =>
                     p <= start <= end_ + 2 /\ 0 <= a_type a < 256 /\ 0 <= n
                 | None => True end)
    (cie_augmentation user compat_task cie aug nul p end_).
Proof.
  intros Haug Hnul E0 Hp He. pose proof lo_nonneg. unfold ptr_limit in Hlim.
  unfold cie_augmentation. eapply safe_bind; [apply load8_safe; lia|]. intros c _.
  eapply (safe_bind (fun r => match r with
    | Some (n, q) => p <= q /\ u64 (q + n) <= end_ + 2 /\ 0 <= n | None => True end)).
  - destruct (c =? AUG_z).
    + eapply safe_mono; [apply aug_length_safe; lia|]. intros [[n q]|]; [lia|auto].
    + simpl. rewrite Z.add_0_r, u64_small by lia. lia.
  - intros [[n q]|] Hq; [|exact I]. pose proof (u64_range (q + n)).
    eapply safe_bind; [apply (aug_loop_safe _ nul); first [exact E0 | simpl; unfold DW_EH_PE_absptr; lia]|].
    intros [a|] Ha; [|exact I]. simpl in *.
    destruct (Z.eqb_spec (a_ptr a) (u64 (q + n))); simpl; [lia|exact I].
Qed.

Lemma parse_fde_safe fde end_ t n :
  lo <= fde -> fde + 8 <= end_ -> end_ + 3 < hi ->
  safe (fun r => match r with
                 | Some (_, _, start) => 0 <= start <= end_ | None => True end)
    (parse_fde user compat_task fde end_ t n).
Proof.
  intros Hf He Hh. pose proof lo_nonneg. unfold ptr_limit in Hlim.
  unfold parse_fde. rewrite u64_small by lia.
  assert (R : forall loc t', lo <= loc <= end_ -> safe (fun vc => loc <= snd vc <= end_)
    (read_pointer loc end_ t' user compat_task)).
  { intros loc t' Hl. unfold read_pointer.
    pose proof (read_ptr_sect_bounds loc end_ t' 0 0 user compat_task 0
      (mapped_within loc end_ ltac:(lia) ltac:(lia)) ltac:(lia) ltac:(unfold ptr_limit; lia)) as B.
    destruct (read_ptr_sect _ _ _ _ _ _ _ _) as [[v c]|]; [simpl in *; lia|exact B]. }
  eapply safe_bind; [apply R; lia|]. intros [v p] Hv. simpl in Hv.
  eapply safe_bind; [apply R; lia|]. intros [w q] Hw. simpl in Hw.
  destruct (n =? 0) eqn:E0.
  - apply Z.eqb_eq in E0 as ->. simpl. rewrite Z.add_0_r, u64_small by lia. lia.
  - eapply safe_bind; [apply aug_length_safe; lia|]. intros [[m r]|] Hr; [|exact I]. simpl.
    pose proof (u64_range (r + m)). lia.
Qed.

Lemma u32_at_safe p : lo <= p -> p + 4 <= hi -> safe (fun v => 0 <= v < 2 ^ 32) (u32_at p 0).
Proof.
  intros Hp Hh. pose proof lo_nonneg. unfold ptr_limit in Hlim. unfold u32_at.
  rewrite Z.mul_0_r, Z.add_0_r, u64_small by lia.
  destruct (load_runs 4 lo hi p Hmap Hp) as [v E]; [simpl; lia|]. rewrite E.
  exact (load_range 4 p v E).
Qed.

End bounds.

(** ** The augmentation length of an FDE

    [augLen > fde - fdeEnd] was meant to bound the length by the size of the
    FDE, but the negative difference is converted to an unsigned number. *)

(** an FDE whose augmentation length is [2^64 - k] passes the checks, and its
    instructions are taken to start [k] bytes before its own augmentation data:
    outside the FDE, and below the section when [k] is large enough. *)
Theorem fde_augmentation_wraps `{K : Kernel} fde fdePtr fdeEnd k :
  0 <= fde -> fde <= fdePtr -> k <= fdePtr -> fdeEnd <= ptr_limit ->
  fdeEnd - fde <= k ->
  bytes_at fdePtr (uleb_encode (2 ^ 64 - k)) ->
  fdePtr + Z.of_nat (length (uleb_encode (2 ^ 64 - k))) <= fdeEnd -> fde < fdeEnd ->
  exists n q, aug_length fde fdePtr fdeEnd = Ok (Some (n, q)) /\
    u64 (q + n) = fdePtr + Z.of_nat (length (uleb_encode (2 ^ 64 - k))) - k /\
    u64 (q + n) <= fde.
Proof.
  intros Hf Hp Hk He Hd H Hl Hlt. unfold ptr_limit in He. set (len := Z.of_nat _) in *.
  assert (0 <= len) by (unfold len; lia).
  unfold aug_length. rewrite (get_uleb128_encode fdePtr fdeEnd (2 ^ 64 - k)) by (assumption || lia).
  cbn [mbind C_bind]. fold len.
  replace (u64 (fde - fdeEnd)) with (2 ^ 64 + fde - fdeEnd) by word_lia.
  destruct (Z.ltb_spec (2 ^ 64 + fde - fdeEnd) (2 ^ 64 - k)); [lia|].
  replace (u64 (fdePtr + len + (2 ^ 64 - k))) with (fdePtr + len - k) by word_lia.
  destruct (Z.ltb_spec fdeEnd (fdePtr + len - k)); [lia|]. simpl.
  do 2 eexists. split; [reflexivity|]. replace (u64 (fdePtr + len + (2 ^ 64 - k))) with (fdePtr + len - k) by word_lia.
  lia.
Qed.

(** A CIE of twelve zero-filled bytes and an FDE, both without meaning. *)
Definition noise : list Z :=
  le_bytes 4 12 ++ le_bytes 4 0 ++ repeat 7 8 ++ le_bytes 4 8 ++ le_bytes 4 20 ++ repeat 9 16.
Definition noise_memory : Kernel := image_kernel [(4096, noise)] [].


Definition wrapping_fde : Kernel := image_kernel [(0x20010, uleb_encode (2 ^ 64 - 0x10000))] [].

Lemma fde_augmentation_wraps_witness :
  exists n q, aug_length (K := wrapping_fde) 0x20000 0x20010 0x2001c = Ok (Some (n, q)) /\
    u64 (q + n) = 0x20010 + Z.of_nat (length (uleb_encode (2 ^ 64 - 0x10000))) - 0x10000 /\
    u64 (q + n) <= 0x20000.
Proof.
  apply (fde_augmentation_wraps (K := wrapping_fde) 0x20000 0x20010 0x2001c 0x10000);
    [lia|lia|lia|vm_compute; discriminate|lia| |vm_compute; discriminate|lia].
  apply (bytes_atb_true (K := wrapping_fde)). vm_compute. reflexivity.
Defined.
