(* ===== verification/KModule.v ===== *)
(** * Modules of a process

    [struct kunwind_module] (src/src/modules.h) and what the code uses of
    [struct vm_area_struct]. *)
From S2P Require Import Prelude Machine.

Record vm_area : Type := mk_vma { vm_start : Z; vm_end : Z; vm_pgoff : Z }.

(** The array of [struct page *]: its own block and what it holds. *)
Record page_array : Type := mk_pages { pa_addr : Z; pa_pages : list Z }.

(** [mod_addr] is the address of the structure itself. *)
Record kunwind_module : Type := mk_module {
  mod_addr : Z;
  elf_vma : vm_area;       (* ELF userspace vma *)
  elf_vmap : Z;            (* ELF vmap in kernel *)
  mod_pages : page_array;  (* ELF pages for kernel vmap *)
  mod_npages : Z;
  ehf_hdr : section;       (* eh_frame_hdr *)
  ehf : section;           (* eh_frame *)
  is_dynamic : bool
}.
