(* ===== verification/EhFrameHdr.v ===== *)
(** * The binary search table

    [adjust_start_loc], [_stp_search_fde] and [eh_frame_from_hdr] of
    src/src/unwind.c: from a program counter to the FDE that covers it, through
    the table of .eh_frame_hdr, and the recovery of the extent of .eh_frame. *)
From S2P Require Import Prelude Machine Leb128 EncodedPtr KModule FdeCie.

Definition adjust_start_loc (start_loc ptr_type : Z) (is_ehframe : bool)
    (kunw_mod : kunwind_module) : Z :=
  if (start_loc =? 0) || negb is_ehframe then 0
  else
    let new_start_loc :=
      if Z.land ptr_type DW_EH_PE_ADJUST =? DW_EH_PE_pcrel
      then u64 (start_loc - sec_kbuf (ehf kunw_mod) + sec_offset (ehf kunw_mod))
      else start_loc in
    if is_dynamic kunw_mod then u64 (new_start_loc + vm_start (elf_vma kunw_mod))
    else new_start_loc.

Section search.
Context `{K : Kernel}.
Variables (pc : Z) (is_ehframe user compat_task : bool) (kunw_mod : kunwind_module).

Let hdr : Z := sec_kbuf (ehf_hdr kunw_mod).
Let hdr_len : Z := sec_size (ehf_hdr kunw_mod).
Let eh_hdr_addr : Z := sec_offset (ehf_hdr kunw_mod).

(** [hdr[i]] *)
Definition hdr_byte (i : Z) : C Z := load8 (u64 (hdr + i)).

(** [switch (hdr[3] & DW_EH_PE_FORM)]; [None] is the bad encoding. *)
Definition table_size_of (enc : Z) : option Z :=
  let form := Z.land enc DW_EH_PE_FORM in
  if form =? DW_EH_PE_absptr then Some (if compat_task then 4 else 8)
  else if form =? DW_EH_PE_data2 then Some 2
  else if form =? DW_EH_PE_data4 then Some 4
  else if form =? DW_EH_PE_data8 then Some 8
  else None.

(** A pointer of the header: [read_ptr_sect(&ptr, end, enc, 0, eh_hdr_addr, ...)]. *)
Definition read_hdr (ptr end_ enc table_size : Z) : C (Z * Z) :=
  read_ptr_sect ptr end_ enc 0 eh_hdr_addr user compat_task table_size.

(** The start address of the entry at [cur], and the cursor after it. *)
Definition entry_start_loc (cur enc table_size : Z) : C (Z * Z) :=
  '(start_loc, cur') ← read_hdr cur (u64 (cur + table_size)) enc table_size;
  Ok (adjust_start_loc start_loc enc is_ehframe kunw_mod, cur').

(** The [do ... while] loop: [None] is the [return NULL] on a bad start address,
    else [ptr] and [num] when the loop ends. *)
Fixpoint search_loop (fuel : nat) (ptr num enc table_size : Z) : C (option (Z * Z)) :=
  match fuel with
  | O => Crash OutOfFuel
  | S fuel =>
    let cur := u64 (ptr + u32 (num / 2 * (2 * table_size))) in
    '(start_loc, cur) ← entry_start_loc cur enc table_size;
    if start_loc =? 0 then Ok None
    else
      let '(ptr, num) :=
        if pc <? start_loc then (ptr, num / 2)
        else (u64 (cur - table_size), u32 (num + 1) / 2) in
      if 1 <? num then search_loop fuel ptr num enc table_size else Ok (Some (ptr, num))
  end.

(** [num] is an [unsigned int] and every round about halves it. *)
Definition SEARCH_FUEL : nat := 33.

(** The candidate after the loop; 0 is NULL. *)
Definition search_result (ptr num enc table_size : Z) : C Z :=
  if num =? 1 then
    '(start_loc, ptr) ← entry_start_loc ptr enc table_size;
    if negb (start_loc =? 0) && (start_loc <=? pc) then
      '(off, _) ← read_hdr ptr (u64 (ptr + table_size)) enc table_size;
      Ok (if is_ehframe
          then u64 (off - sec_offset (ehf kunw_mod) + sec_kbuf (ehf kunw_mod))
          else u64 (sec_kbuf (ehf kunw_mod) + off))
    else Ok 0
  else Ok 0.

(** The checks on the header: [(ptr, num, enc, table_size)] of the table. *)
Definition search_header : C (option (Z * Z * Z * Z)) :=
  if (hdr =? 0) || (hdr_len <? 4) then Ok None
  else
    version ← hdr_byte 0;
    if negb (version =? 1) then Ok None
    else
      enc ← hdr_byte 3;
      match table_size_of enc with
      | None => Ok None
      | Some table_size =>
        let end_ := u64 (hdr + hdr_len) in
        enc1 ← hdr_byte 1;
        '(eh, ptr) ← read_hdr (u64 (hdr + 4)) end_ enc1 table_size;
        let eh := if Z.land enc1 DW_EH_PE_ADJUST =? DW_EH_PE_pcrel
                  then u64 (eh - hdr + eh_hdr_addr) else eh in
        if is_ehframe && negb (eh =? sec_offset (ehf kunw_mod)) then Ok None
        else
          enc2 ← hdr_byte 2;
          '(num, ptr) ← read_hdr ptr end_ enc2 table_size;
          let num := u32 num in
          let room := s64 (end_ - ptr) in
          if (num =? 0) || negb (num =? Z.quot room (2 * table_size))
             || negb (Z.rem room (2 * table_size) =? 0)
          then Ok None
          else Ok (Some (ptr, num, enc, table_size))
      end.

(** [_stp_search_fde]: the address of the FDE, 0 for NULL. *)
Definition _stp_search_fde : C Z :=
  h ← search_header;
  match h with
  | None => Ok 0
  | Some (ptr, num, enc, table_size) =>
    r ← search_loop SEARCH_FUEL ptr num enc table_size;
    match r with
    | None => Ok 0
    | Some (ptr, num) =>
      fde ← search_result ptr num enc table_size;
      ok ← check_fde fde (sec_kbuf (ehf kunw_mod)) (sec_size (ehf kunw_mod)) is_ehframe;
      Ok (if (ok : bool) then fde else 0)
    end
  end.

End search.

(** ** The extent of .eh_frame *)

Section from_hdr.
Context `{K : Kernel}.
Variables (vma_start vma_end hdr_addr eh : Z).

(** The [do ... while (cie_fde_size)] loop from [prev_ptr]: [None] is
    [-EINVAL], else [eh_len]. *)
Fixpoint eh_frame_loop (fuel : nat) (prev_ptr : Z) : C (option Z) :=
  match fuel with
  | O => Crash OutOfFuel
  | S fuel =>
    size ← load 4 prev_ptr;
    let ptr := u64 (prev_ptr + 4) in
    '(size, ptr) ←
      (if size =? 0xffffffff then s ← load 8 ptr; Ok (s, u64 (ptr + 8)) else Ok (size, ptr));
    let ptr := u64 (ptr + size) in
    let eh_len := u64 (ptr - eh) in
    if vma_end <? u64 (eh_len + vma_start + hdr_addr) then Ok None
    else if ptr <=? prev_ptr then Ok None
    else if size =? 0 then Ok (Some eh_len)
    else eh_frame_loop fuel ptr
  end.
End from_hdr.

(** [eh_frame_from_hdr(base, vma_start, vma_end, compat, ehf_hdr, ehf)]: the
    [.eh_frame] section, [None] for [-EINVAL]. *)
Definition eh_frame_from_hdr `{K : Kernel} (fuel : nat) (base vma_start vma_end : Z)
    (compat : bool) (hdr_sec : section) : C (option section) :=
  let hdr := sec_kbuf hdr_sec in
  let hdr_addr := sec_offset hdr_sec in
  enc ← load8 (u64 (hdr + 1));
  '(eh_addr, _) ← read_ptr_sect (u64 (hdr + 4)) (u64 (hdr + sec_size hdr_sec)) enc
                    vma_start hdr_addr true compat (-1);
  let eh_off := u64 (eh_addr - base) in
  r ← eh_frame_loop vma_start vma_end hdr_addr eh_addr fuel eh_addr;
  match r with
  | None => Ok None
  | Some eh_len =>
    Ok (Some (mk_section eh_off (u64 (sec_ubuf hdr_sec - sec_offset hdr_sec + eh_off))
                eh_addr (u32 eh_len)))
  end.
