(* ===== verification/EhFrameHdrSpec.v ===== *)
(** * Correctness of the table search

    The layout of .eh_frame_hdr as linkers emit it, and what [_stp_search_fde]
    finds in it: the last entry that starts at or before the program counter;
    and the null pointer it dereferences when there is none. *)
From S2P Require Import Prelude Machine Leb128 EncodedPtr KModule FdeCie EhFrameHdr.

(** The encodings: the address of .eh_frame is pcrel|sdata4, the count udata4,
    the table datarel|sdata4. *)
Definition EH_ENC : Z := encoding DW_EH_PE_data4 true DW_EH_PE_pcrel.
Definition COUNT_ENC : Z := encoding DW_EH_PE_data4 false DW_EH_PE_absptr.
Definition TABLE_ENC : Z := encoding DW_EH_PE_data4 true DW_EH_PE_datarel.

(** An entry: start address and FDE address, both relative to the header. *)
Definition entry : Type := Z * Z.
Definition entry_bytes (e : entry) : list Z := le_bytes 4 (fst e) ++ le_bytes 4 (snd e).
Definition entry_ok (e : entry) : Prop :=
  - 2 ^ 31 <= fst e < 2 ^ 31 /\ - 2 ^ 31 <= snd e < 2 ^ 31.

Definition table_bytes (l : list entry) : list Z := concat (map entry_bytes l).

Definition hdr_bytes (eh_rel : Z) (l : list entry) : list Z :=
  [1; EH_ENC; COUNT_ENC; TABLE_ENC] ++ le_bytes 4 eh_rel ++
  le_bytes 4 (Z.of_nat (length l)) ++ table_bytes l.

Lemma length_entry_bytes e : length (entry_bytes e) = 8%nat.
Proof. reflexivity. Qed.

Lemma length_table_bytes l : length (table_bytes l) = (8 * length l)%nat.
Proof.
  induction l as [|e l IH]; [reflexivity|].
  change (table_bytes (e :: l)) with (entry_bytes e ++ table_bytes l).
  rewrite length_app, IH, length_entry_bytes. simpl. lia.
Qed.

Section table.
Context `{K : Kernel}.
Variables (pc : Z) (user : bool) (kunw_mod : kunwind_module).
Variables (entries : list entry) (tbl : Z).

Let n : Z := Z.of_nat (length entries).
Let eh_hdr_addr : Z := sec_offset (ehf_hdr kunw_mod).

Hypothesis Htbl : bytes_at tbl (table_bytes entries).
Hypothesis Hlim : tbl + 8 * n <= ptr_limit.
Hypothesis Hn : n < 2 ^ 28.
Hypothesis Hok : Forall entry_ok entries.

(** The run-time start address of an entry. *)
Definition start_of (e : entry) : Z :=
  adjust_start_loc (u64 (fst e + eh_hdr_addr)) TABLE_ENC true kunw_mod.

(** Start addresses are not zero and grow along the table. *)
Hypothesis Hnz : forall e, e ∈ entries -> start_of e <> 0.
Hypothesis Hsorted : forall i j ei ej,
  entries !! i = Some ei -> entries !! j = Some ej -> (i <= j)%nat -> start_of ei <= start_of ej.

Lemma entry_at (i : nat) e :
  entries !! i = Some e -> bytes_at (tbl + 8 * Z.of_nat i) (entry_bytes e).
Proof.
  intros E. assert (Hsplit := take_drop_middle entries i e E).
  pose proof Htbl as H. rewrite <- Hsplit in H. unfold table_bytes in H.
  rewrite map_app, concat_app in H. apply bytes_at_app in H as [_ H].
  change (concat (map entry_bytes (e :: ?l))) with (entry_bytes e ++ table_bytes l) in H.
  apply bytes_at_app in H as [H _]. fold (table_bytes (take i entries)) in H. rewrite length_table_bytes, length_take in H.
  apply lookup_lt_Some in E. replace (i `min` length entries)%nat with i in H by lia.
  replace (tbl + 8 * Z.of_nat i) with (tbl + Z.of_nat (8 * i)) by lia. exact H.
Qed.

Lemma read_hdr_table loc end_ v :
  bytes_at loc (le_bytes 4 v) -> - 2 ^ 31 <= v < 2 ^ 31 -> loc + 4 <= end_ -> end_ <= ptr_limit ->
  read_hdr user false kunw_mod loc end_ TABLE_ENC 4 = Ok (u64 (v + eh_hdr_addr), loc + 4).
Proof.
  intros H Hv He Hl. unfold read_hdr, TABLE_ENC.
  apply (read_ptr_sect_encode loc end_ DW_EH_PE_data4 true DW_EH_PE_datarel 0 eh_hdr_addr user 4 v);
    try assumption.
  - unfold plain_form. tauto.
  - unfold plain_adjust. tauto.
  - discriminate.
  - unfold form_range. simpl. lia.
Qed.

Lemma entry_start_loc_at (i : nat) e :
  entries !! i = Some e ->
  entry_start_loc true user false kunw_mod (tbl + 8 * Z.of_nat i) TABLE_ENC 4 =
    Ok (start_of e, tbl + 8 * Z.of_nat i + 4).
Proof.
  intros E. pose proof (entry_at i e E) as H. apply bytes_at_app in H as [H _].
  pose proof (lookup_lt_Some _ _ _ E). unfold n, ptr_limit in *. assert (0 <= tbl) by apply Htbl.
  destruct (Forall_lookup_1 _ _ _ _ Hok E) as [He _].
  unfold entry_start_loc. rewrite u64_small by lia.
  rewrite (read_hdr_table _ _ (fst e)) by (assumption || unfold ptr_limit; lia). reflexivity.
Qed.

(** The window [base, base + num) still holds the entry looked for: what is
    below starts at or before [pc], what is above starts after it. *)
Record window (base num : Z) : Prop := {
  win_range : 0 <= base /\ 1 <= num /\ base + num <= n;
  win_low : base = 0 \/ exists e, entries !! Z.to_nat base = Some e /\ start_of e <= pc;
  win_high : forall i e, entries !! i = Some e -> base + num <= Z.of_nat i -> pc < start_of e
}.

(** One round looks at the middle entry and keeps one half. *)
Lemma search_round fuel base num :
  window base num ->
  exists base' num',
    search_loop pc true user false kunw_mod (S fuel) (tbl + 8 * base) num TABLE_ENC 4 =
      (if 1 <? num' then
         search_loop pc true user false kunw_mod fuel (tbl + 8 * base') num' TABLE_ENC 4
       else Ok (Some (tbl + 8 * base', num'))) /\
    num' <= (num + 1) / 2 /\
    (window base' num' \/
     base' = 0 /\ num' = 0 /\ exists e, entries !! 0%nat = Some e /\ pc < start_of e).
Proof.
  intros [(Hb & H1 & Hbn) Hlow Hhigh]. unfold n, ptr_limit in *. assert (0 <= tbl) by apply Htbl.
  assert (Hhalf : 0 <= num / 2 < num /\ num / 2 + (num + 1) / 2 = num)
    by (Z.div_mod_to_equations; lia).
  set (m := Z.to_nat (base + num / 2)).
  assert (Hm : Z.of_nat m = base + num / 2) by (unfold m; lia).
  destruct (lookup_lt_is_Some_2 entries m ltac:(lia)) as [e Ee].
  cbn [search_loop]. unfold u32. rewrite (Z.mod_small (num / 2 * (2 * 4))) by lia.
  rewrite u64_small by lia.
  replace (tbl + 8 * base + num / 2 * (2 * 4)) with (tbl + 8 * Z.of_nat m) by lia.
  rewrite (entry_start_loc_at m e Ee). cbn [mbind C_bind].
  rewrite (proj2 (Z.eqb_neq (start_of e) 0)) by (apply Hnz; eapply list_elem_of_lookup_2, Ee).
  destruct (Z.ltb_spec pc (start_of e)) as [Hpc|Hpc].
  - exists base, (num / 2). split; [reflexivity|]. split; [Z.div_mod_to_equations; lia|].
    destruct (Z.eq_dec num 1) as [->|].
    + change (1 / 2) with 0 in *. destruct Hlow as [->|(e' & E' & Hle)].
      * right. split; [reflexivity|]. split; [reflexivity|]. exists e. split; [exact Ee|exact Hpc].
      * exfalso. replace (Z.to_nat base) with m in E' by lia. rewrite Ee in E'.
        injection E' as <-. lia.
    + left. constructor; [Z.div_mod_to_equations; lia|exact Hlow|].
      intros i ei Ei Hi. pose proof (Hsorted m i e ei Ee Ei ltac:(lia)). lia.
  - exists (base + num / 2), ((num + 1) / 2). split.
    + rewrite (u64_small (_ - 4)), (Z.mod_small (num + 1)) by lia.
      replace (tbl + 8 * Z.of_nat m + 4 - 4) with (tbl + 8 * (base + num / 2)) by lia.
      reflexivity.
    + split; [lia|]. left. constructor; [Z.div_mod_to_equations; lia| |].
      * right. exists e. split; [exact Ee|lia].
      * intros i ei Ei Hi. apply (Hhigh i ei Ei). lia.
Qed.

Lemma search_loop_correct fuel : forall base num,
  window base num -> num <= 2 ^ Z.of_nat fuel ->
  exists base' num',
    search_loop pc true user false kunw_mod (S fuel) (tbl + 8 * base) num TABLE_ENC 4 =
      Ok (Some (tbl + 8 * base', num')) /\
    (window base' 1 /\ num' = 1 \/
     base' = 0 /\ num' = 0 /\ exists e, entries !! 0%nat = Some e /\ pc < start_of e).
Proof.
  induction fuel as [|fuel IH]; intros base num W Hf.
  - destruct (search_round 0 base num W) as (b & m & E & Hm & Hw). rewrite E; clear E.
    assert (m <= 1) by (simpl in Hf; Z.div_mod_to_equations; lia).
    destruct (Z.ltb_spec 1 m); [lia|]. exists b, m. split; [reflexivity|].
    destruct Hw as [Hw|Hw]; [left|right; exact Hw].
    assert (m = 1) as -> by (destruct Hw as [[? ?] _ _]; lia). auto.
  - destruct (search_round (S fuel) base num W) as (b & m & E & Hm & Hw). rewrite E; clear E.
    destruct (Z.ltb_spec 1 m).
    + destruct Hw as [Hw|(_ & -> & _)]; [|lia]. apply IH; [exact Hw|].
      replace (Z.of_nat (S fuel)) with (1 + Z.of_nat fuel) in Hf by lia.
      rewrite Z.pow_add_r in Hf by lia. Z.div_mod_to_equations; lia.
    + exists b, m. split; [reflexivity|]. destruct Hw as [Hw|Hw]; [left|right; exact Hw].
      assert (m = 1) as -> by (destruct Hw as [[? ?] _ _]; lia). auto.
Qed.

(** The FDE an entry points to. *)
Definition fde_of (e : entry) : Z :=
  u64 (u64 (snd e + eh_hdr_addr) - sec_offset (ehf kunw_mod) + sec_kbuf (ehf kunw_mod)).

Lemma search_result_at i e :
  entries !! i = Some e ->
  search_result pc true user false kunw_mod (tbl + 8 * Z.of_nat i) 1 TABLE_ENC 4 =
    Ok (if start_of e <=? pc then fde_of e else 0).
Proof.
  intros E. unfold search_result. cbn [Z.eqb Pos.eqb]. rewrite (entry_start_loc_at i e E).
  cbn [mbind C_bind].
  rewrite (proj2 (Z.eqb_neq (start_of e) 0)) by (apply Hnz; eapply list_elem_of_lookup_2, E).
  cbn [negb andb]. destruct (start_of e <=? pc); [|reflexivity].
  pose proof (entry_at i e E) as H. apply bytes_at_app in H as [_ H].
  pose proof (lookup_lt_Some _ _ _ E). unfold n, ptr_limit in *. assert (0 <= tbl) by apply Htbl.
  destruct (Forall_lookup_1 _ _ _ _ Hok E) as [_ He]. rewrite length_le_bytes in H.
  rewrite u64_small by lia.
  rewrite (read_hdr_table _ _ (snd e)) by (assumption || unfold ptr_limit; lia). reflexivity.
Qed.

(** The search on the table: the FDE of the last entry that starts at or before
    [pc], or NULL. *)
Lemma search_table :
  entries <> [] ->
  exists fde ptr num,
    search_loop pc true user false kunw_mod SEARCH_FUEL tbl n TABLE_ENC 4 = Ok (Some (ptr, num)) /\
    search_result pc true user false kunw_mod ptr num TABLE_ENC 4 = Ok fde /\
    (forall i e, entries !! i = Some e -> start_of e <= pc ->
       (forall e', entries !! S i = Some e' -> pc < start_of e') -> fde = fde_of e) /\
    (forall e, entries !! 0%nat = Some e -> pc < start_of e -> fde = 0).
Proof.
  intros Hne.
  assert (W : window 0 n).
  { constructor; [|left; reflexivity|].
    - unfold n. destruct entries; [contradiction|simpl; lia].
    - intros i e E Hi. apply lookup_lt_Some in E. unfold n in Hi. lia. }
  destruct (search_loop_correct 32 0 n W ltac:(lia)) as (b & m & E & Hbm).
  rewrite Z.mul_0_r, Z.add_0_r in E. unfold SEARCH_FUEL.
  destruct Hbm as [[[(Hb & _ & Hbn) Hlow Hhigh] ->]|(-> & -> & e0 & E0 & Hpc)].
  - destruct (lookup_lt_is_Some_2 entries (Z.to_nat b) ltac:(unfold n in *; lia)) as [e Ee].
    exists (if start_of e <=? pc then fde_of e else 0), (tbl + 8 * b), 1.
    split; [exact E|]. split; [|split].
    + rewrite <- (search_result_at _ e Ee). repeat f_equal. lia.
    + intros i ei Ei Hle Hnext.
      assert (i = Z.to_nat b) as ->.
      { destruct (Nat.lt_trichotomy i (Z.to_nat b)) as [Hlt|[Heq|Hgt]]; [|exact Heq|].
        - destruct (lookup_lt_is_Some_2 entries (S i)) as [e' E'];
            [apply lookup_lt_Some in Ee; lia|].
          specialize (Hnext e' E'). destruct Hlow as [->|(eb & Eb & Hle')]; [lia|].
          pose proof (Hsorted _ _ _ _ E' Eb ltac:(lia)). lia.
        - pose proof (Hhigh i ei Ei ltac:(lia)). lia. }
      rewrite Ei in Ee. injection Ee as <-. destruct (Z.leb_spec (start_of ei) pc); [reflexivity|lia].
    + intros e0 E0 Hpc. pose proof (Hsorted _ _ _ _ E0 Ee ltac:(lia)).
      destruct (Z.leb_spec (start_of e) pc); [lia|reflexivity].
  - exists 0, (tbl + 8 * 0), 0. split; [exact E|]. split; [reflexivity|]. split; [|reflexivity].
    intros i e Ei Hle _. pose proof (Hsorted _ _ _ _ E0 Ei ltac:(lia)). lia.
Qed.
End table.

(** ** The whole header *)

(** A loaded module whose header has the linkers' layout for [entries]. *)
Record hdr_loaded `{K : Kernel} (m : kunwind_module) (eh_rel : Z) (entries : list entry) : Prop := {
  hl_bytes : bytes_at (sec_kbuf (ehf_hdr m)) (hdr_bytes eh_rel entries);
  hl_size : sec_size (ehf_hdr m) = Z.of_nat (length (hdr_bytes eh_rel entries));
  hl_kbuf : 0 < sec_kbuf (ehf_hdr m);
  hl_limit : sec_kbuf (ehf_hdr m) + sec_size (ehf_hdr m) <= ptr_limit;
  hl_count : 0 < Z.of_nat (length entries) < 2 ^ 28;
  hl_rel : - 2 ^ 31 <= eh_rel < 2 ^ 31;
  (* the header points at the section the module has as its .eh_frame *)
  hl_eh : u64 (eh_rel + 4 + sec_offset (ehf_hdr m)) = sec_offset (ehf m);
  hl_entries : Forall entry_ok entries;
  hl_start : forall e, e ∈ entries -> start_of m e <> 0;
  hl_sorted : forall i j ei ej, entries !! i = Some ei -> entries !! j = Some ej ->
    (i <= j)%nat -> start_of m ei <= start_of m ej
}.

Section header.
Context `{K : Kernel}.
Variables (m : kunwind_module) (eh_rel : Z) (entries : list entry) (user : bool).
Hypothesis L : hdr_loaded m eh_rel entries.

Let hdr : Z := sec_kbuf (ehf_hdr m).

Lemma length_hdr_bytes : length (hdr_bytes eh_rel entries) = (12 + 8 * length entries)%nat.
Proof.
  unfold hdr_bytes. rewrite !length_app, !length_le_bytes, length_table_bytes. simpl. lia.
Qed.

Lemma hdr_size : sec_size (ehf_hdr m) = 12 + 8 * Z.of_nat (length entries).
Proof. rewrite (hl_size _ _ _ L), length_hdr_bytes. lia. Qed.

Lemma hdr_prefix (i : nat) z b :
  [1; EH_ENC; COUNT_ENC; TABLE_ENC] !! i = Some b -> z = Z.of_nat i -> hdr_byte m z = Ok b.
Proof.
  intros E ->. pose proof (hl_bytes _ _ _ L) as H. pose proof (hl_limit _ _ _ L) as Hl.
  rewrite hdr_size in Hl. pose proof (hl_kbuf _ _ _ L). unfold ptr_limit in Hl.
  pose proof (lookup_lt_Some _ _ _ E) as Hi. simpl in Hi.
  unfold hdr_byte. rewrite u64_small by lia.
  apply bytes_at_app in H as [(_ & _ & H) _]. apply H. exact E.
Qed.

Lemma search_header_correct :
  search_header true user false m = Ok (Some (hdr + 12, Z.of_nat (length entries), TABLE_ENC, 4)).
Proof.
  pose proof (hl_bytes _ _ _ L) as H. pose proof (hl_limit _ _ _ L) as Hl.
  pose proof (hl_kbuf _ _ _ L) as Hk. pose proof (hl_count _ _ _ L) as Hc.
  pose proof (hl_rel _ _ _ L) as Hr.
  rewrite hdr_size in Hl. unfold hdr_bytes in H. fold hdr in H, Hl, Hk.
  apply bytes_at_app in H as [_ H]. apply bytes_at_app in H as [H1 H].
  apply bytes_at_app in H as [H2 _]. simpl length in H1, H2.
  unfold ptr_limit in Hl. unfold search_header. fold hdr.
  rewrite hdr_size. destruct (Z.eqb_spec hdr 0); [lia|].
  destruct (Z.ltb_spec (12 + 8 * Z.of_nat (length entries)) 4); [lia|]. cbn [orb].
  rewrite (hdr_prefix 0 0 1 eq_refl eq_refl). cbn [mbind C_bind negb Z.eqb Pos.eqb].
  rewrite (hdr_prefix 3 3 TABLE_ENC eq_refl eq_refl). cbn [mbind C_bind].
  change (table_size_of false TABLE_ENC) with (Some 4). cbv iota.
  rewrite (hdr_prefix 1 1 EH_ENC eq_refl eq_refl). cbn [mbind C_bind].
  rewrite (u64_small (hdr + 4)), (u64_small (hdr + _)) by lia.
  unfold read_hdr, EH_ENC.
  rewrite (read_ptr_sect_encode (hdr + 4) _ DW_EH_PE_data4 true DW_EH_PE_pcrel 0 _ user 4 eh_rel);
    [|unfold plain_form; tauto|unfold plain_adjust; tauto|discriminate
     |unfold form_range; simpl; lia|exact H1|rewrite ?length_le_bytes; simpl; lia|unfold ptr_limit; lia].
  cbn [mbind C_bind]. fold EH_ENC. change (Z.land EH_ENC DW_EH_PE_ADJUST =? DW_EH_PE_pcrel) with true.
  cbv iota. change (adjust_base DW_EH_PE_pcrel (hdr + 4) 0 ?d) with (hdr + 4).
  replace (u64 (u64 (eh_rel + (hdr + 4)) - hdr + sec_offset (ehf_hdr m))) with (sec_offset (ehf m)).
  2: { rewrite <- (hl_eh _ _ _ L).
       replace (u64 (eh_rel + (hdr + 4)) - hdr + sec_offset (ehf_hdr m))
         with (u64 (eh_rel + (hdr + 4)) + (sec_offset (ehf_hdr m) - hdr)) by lia.
       rewrite u64_add_l. f_equal. lia. }
  rewrite Z.eqb_refl. cbn [andb negb].
  rewrite (hdr_prefix 2 2 COUNT_ENC eq_refl eq_refl). cbn [mbind C_bind].
  change (length (form_bytes DW_EH_PE_data4 eh_rel)) with 4%nat. unfold COUNT_ENC.
  rewrite (read_ptr_sect_encode _ _ DW_EH_PE_data4 false DW_EH_PE_absptr 0 _ user 4
    (Z.of_nat (length entries)));
    [|unfold plain_form; tauto|unfold plain_adjust; tauto|discriminate
     |unfold form_range; simpl; lia
     |replace (hdr + 4 + Z.of_nat 4) with (hdr + Z.of_nat 4 + Z.of_nat 4) by lia; exact H2
     |rewrite ?length_le_bytes; simpl; lia|unfold ptr_limit; lia].
  cbn [mbind C_bind]. change (length (form_bytes DW_EH_PE_data4 _)) with 4%nat.
  change (adjust_base DW_EH_PE_absptr _ _ _) with 0. rewrite Z.add_0_r, u64_small by lia.
  unfold u32. rewrite Z.mod_small by lia.
  replace (hdr + (12 + 8 * Z.of_nat (length entries)) - (hdr + 4 + Z.of_nat 4 + Z.of_nat 4))
    with (Z.of_nat (length entries) * (2 * 4)) by lia.
  rewrite s64_small, Z.quot_mul, Z.rem_mul, !Z.eqb_refl by lia.
  destruct (Z.eqb_spec (Z.of_nat (length entries)) 0); [lia|].
  cbn [orb negb]. do 5 f_equal. lia.
Qed.

Lemma table_at : bytes_at (hdr + 12) (table_bytes entries).
Proof.
  pose proof (hl_bytes _ _ _ L) as H. unfold hdr_bytes in H. fold hdr in H.
  apply bytes_at_app in H as [_ H]. apply bytes_at_app in H as [_ H].
  apply bytes_at_app in H as [_ H]. rewrite !length_le_bytes in H. simpl length in H.
  replace (hdr + 12) with (hdr + Z.of_nat 4 + Z.of_nat 4 + Z.of_nat 4) by lia. exact H.
Qed.

Lemma search_candidate pc :
  exists fde,
    _stp_search_fde pc true user false m =
      (ok ← check_fde fde (sec_kbuf (ehf m)) (sec_size (ehf m)) true;
       Ok (if (ok : bool) then fde else 0)) /\
    (forall i e, entries !! i = Some e -> start_of m e <= pc ->
       (forall e', entries !! S i = Some e' -> pc < start_of m e') -> fde = fde_of m e) /\
    (forall e, entries !! 0%nat = Some e -> pc < start_of m e -> fde = 0).
Proof.
  pose proof (hl_limit _ _ _ L) as Hl. rewrite hdr_size in Hl. pose proof (hl_count _ _ _ L) as Hc.
  fold hdr in Hl.
  destruct (search_table pc user m entries (hdr + 12) table_at) as (fde & ptr & num & E1 & E2 & Hfde).
  - unfold ptr_limit in *. lia.
  - lia.
  - apply L.
  - apply L.
  - intros i j ei ej. apply (hl_sorted _ _ _ L).
  - intros ->. simpl in Hc. lia.
  - exists fde. split; [|exact Hfde]. unfold _stp_search_fde.
    rewrite search_header_correct. cbn [mbind C_bind].
    rewrite E1. cbn [mbind C_bind]. rewrite E2. reflexivity.
Qed.

(** C11: The binary search finds the FDE of the last table entry that starts at or
    before [pc]; it is returned if it passes [check_fde], else the result is
    NULL. *)
Theorem stp_search_fde_finds pc i e ok :
  entries !! i = Some e -> start_of m e <= pc ->
  (forall e', entries !! S i = Some e' -> pc < start_of m e') ->
  check_fde (fde_of m e) (sec_kbuf (ehf m)) (sec_size (ehf m)) true = Ok ok ->
  _stp_search_fde pc true user false m = Ok (if ok then fde_of m e else 0).
Proof.
  intros Ei Hle Hnext Hc. destruct (search_candidate pc) as (fde & -> & Hfound & _).
  rewrite (Hfound i e Ei Hle Hnext), Hc. reflexivity.
Qed.

(** For a [pc] below the first entry the candidate stays NULL, and [check_fde]
    reads its length through it: the kernel faults at address 0. *)
Theorem stp_search_fde_below_table pc e :
  entries !! 0%nat = Some e -> pc < start_of m e -> kread 0 = None ->
  _stp_search_fde pc true user false m = Crash (PageFault 0).
Proof.
  intros E0 Hpc Hz. destruct (search_candidate pc) as (fde & -> & _ & Hbelow).
  rewrite (Hbelow e E0 Hpc). unfold check_fde, u32_at.
  change (u64 (0 + 4 * 0)) with 0. cbn [load]. unfold load8. rewrite Hz. reflexivity.
Qed.
End header.

(** ** Termination on arbitrary bytes *)

Section termination.
Context `{K : Kernel}.

Lemma read_fixed_terminates n sg loc end_ : terminates (read_fixed n sg loc end_).
Proof.
  unfold read_fixed. destruct (_ <? _); [discriminate|].
  apply terminates_bind; [auto with kunwind|discriminate].
Qed.

Lemma read_form_terminates loc end_ t compat ts : terminates (read_form loc end_ t compat ts).
Proof.
  unfold read_form, read_absptr. repeat case_match; try apply read_fixed_terminates; try discriminate.
  all: apply terminates_bind; [|intros [v c] _; destruct (_ <? _); discriminate].
  - apply terminates_bind; [auto with kunwind|intros [v c] _; discriminate].
  - auto with kunwind.
Qed.

Lemma read_ptr_sect_terminates loc end_ t ta da user compat ts :
  terminates (read_ptr_sect loc end_ t ta da user compat ts).
Proof.
  unfold read_ptr_sect. destruct (_ || _); [discriminate|].
  apply terminates_bind; [apply read_form_terminates|].
  intros [[v c]|] _; [|discriminate]. repeat case_match; discriminate.
Qed.

Lemma u32_at_terminates p i : terminates (u32_at p i).
Proof. apply load_terminates. Qed.

Lemma check_fde_terminates fde t len eh : terminates (check_fde fde t len eh).
Proof.
  unfold check_fde, has_cie_id. apply terminates_bind; [apply u32_at_terminates|]. intros l _.
  destruct (_ || _); [discriminate|]. apply terminates_bind.
  - apply terminates_bind; [apply u32_at_terminates|discriminate].
  - intros [] _; [discriminate|]. destruct (_ || _); discriminate.
Qed.

Lemma entry_start_loc_terminates eh user compat m cur enc ts :
  terminates (entry_start_loc eh user compat m cur enc ts).
Proof.
  apply terminates_bind; [apply read_ptr_sect_terminates|]. intros [v c] _. discriminate.
Qed.

Lemma search_loop_terminates pc eh user compat m enc ts fuel : forall ptr num,
  0 <= num <= 2 ^ Z.of_nat fuel -> (fuel <= 32)%nat ->
  terminates (search_loop pc eh user compat m (S fuel) ptr num enc ts).
Proof.
  assert (Hdone : forall p q, terminates (@Ok (option (Z * Z)) (Some (p, q)))) by discriminate.
  induction fuel as [|fuel IH]; intros ptr num Hnum Hf; cbn [search_loop];
    (apply terminates_bind; [apply entry_start_loc_terminates|]);
    intros [st cur] _; (destruct (st =? 0); [discriminate|]);
    unfold u32; destruct (pc <? st).
  - destruct (Z.ltb_spec 1 (num / 2)); [|apply Hdone].
    simpl in Hnum. Z.div_mod_to_equations; lia.
  - destruct (Z.ltb_spec 1 ((num + 1) mod 2 ^ 32 / 2)); [|apply Hdone].
    simpl in Hnum. Z.div_mod_to_equations; lia.
  - destruct (1 <? num / 2); [|apply Hdone]. apply IH; [|lia].
    rewrite Nat2Z.inj_succ, Z.pow_succ_r in Hnum by lia. Z.div_mod_to_equations; lia.
  - destruct (1 <? _); [|apply Hdone]. apply IH; [|lia].
    rewrite Nat2Z.inj_succ, Z.pow_succ_r in Hnum by lia.
    assert ((num + 1) mod 2 ^ 32 <= num + 1) by (apply Z.mod_le; lia).
    pose proof (Z.mod_pos_bound (num + 1) (2 ^ 32)). Z.div_mod_to_equations; lia.
Qed.

Lemma search_header_num eh user compat m ptr num enc ts :
  search_header eh user compat m = Ok (Some (ptr, num, enc, ts)) -> 0 <= num < 2 ^ 32.
Proof.
  unfold search_header. intros E. destruct (_ || _); [discriminate|].
  apply bind_Ok in E as (v & _ & E). destruct (negb _); [discriminate|].
  apply bind_Ok in E as (e & _ & E). destruct (table_size_of _ _); [|discriminate].
  apply bind_Ok in E as (e1 & _ & E). apply bind_Ok in E as ([h p1] & _ & E).
  destruct (_ && _); [discriminate|].
  apply bind_Ok in E as (e2 & _ & E). apply bind_Ok in E as ([c p2] & _ & E).
  destruct (_ || _); [discriminate|]. injection E as <- <- <- <-. apply u32_range.
Qed.

(** Whatever the header holds and whatever its encodings, the search ends:
    thirty-three rounds are enough for a 32-bit count. *)
Theorem stp_search_fde_terminates pc eh user compat m :
  terminates (_stp_search_fde pc eh user compat m).
Proof.
  apply terminates_bind.
  - unfold search_header, hdr_byte, read_hdr.
    repeat (first [discriminate | apply read_ptr_sect_terminates | apply load8_terminates
                  | apply terminates_bind | progress intros | case_match]).
  - intros [[[[ptr num] enc] ts]|] E; [|discriminate]. apply terminates_bind.
    + apply search_header_num in E. apply search_loop_terminates; lia.
    + intros [[p q]|] _; [|discriminate]. apply terminates_bind.
      * unfold search_result. destruct (q =? 1); [|discriminate].
        apply terminates_bind; [apply entry_start_loc_terminates|]. intros [v c] _.
        destruct (_ && _); [|discriminate].
        apply terminates_bind; [apply read_ptr_sect_terminates|]. intros [w d] _. discriminate.
      * intros fde _. apply terminates_bind; [apply check_fde_terminates|discriminate].
Qed.

(** Every round moves on by at least a byte, so the walk over .eh_frame ends. *)
Lemma eh_frame_loop_terminates vs ve ha eh fuel : forall prev,
  0 <= prev < 2 ^ 64 -> 2 ^ 64 - prev <= Z.of_nat fuel ->
  terminates (eh_frame_loop vs ve ha eh fuel prev).
Proof.
  induction fuel as [|fuel IH]; intros prev Hp Hf; [lia|]. cbn [eh_frame_loop].
  apply terminates_bind; [auto with kunwind|]. intros size _.
  apply terminates_bind.
  { destruct (_ =? _); [|discriminate]. apply terminates_bind; [auto with kunwind|discriminate]. }
  intros [s p] _. destruct (_ <? _); [discriminate|].
  destruct (Z.leb_spec (u64 (p + s)) prev); [discriminate|].
  destruct (s =? 0); [discriminate|]. pose proof (u64_range (p + s)). apply IH; lia.
Qed.
End termination.

(** ** The extent of .eh_frame *)

(** A chain of records, each a length and a body, closed by a zero length. *)
Definition record_bytes (body : list Z) : list Z :=
  le_bytes 4 (Z.of_nat (length body)) ++ body.
Definition eh_chain (bodies : list (list Z)) : list Z :=
  concat (map record_bytes bodies) ++ le_bytes 4 0.

Lemma eh_frame_loop_chain `{K : Kernel} vs ve ha eh bodies : forall fuel prev,
  Forall (fun b => 0 < Z.of_nat (length b) < 2 ^ 32 - 1) bodies ->
  bytes_at prev (eh_chain bodies) -> 0 <= eh <= prev ->
  prev + Z.of_nat (length (eh_chain bodies)) <= ptr_limit ->
  0 <= vs + ha -> vs + ha + (prev + Z.of_nat (length (eh_chain bodies)) - eh) <= ve -> ve < 2 ^ 64 ->
  (length bodies < fuel)%nat ->
  eh_frame_loop vs ve ha eh fuel prev =
    Ok (Some (prev + Z.of_nat (length (eh_chain bodies)) - eh)).
Proof.
  unfold ptr_limit. induction bodies as [|b l IH]; intros fuel prev Hb H He Hl Hs Hv Hve Hf;
    (destruct fuel as [|fuel]; [simpl in Hf; lia|]); cbn [eh_frame_loop].
  - assert (E := load_le_bytes 4 prev 0 H). change (0 mod _) with 0 in E. rewrite E.
    cbn [mbind C_bind]. change (0 =? 0xffffffff) with false. cbv iota. cbn [mbind C_bind].
    simpl length in *. rewrite Z.add_0_r. change (Z.of_nat 4) with 4 in *.
    rewrite !u64_u64, (u64_small (prev + 4)) by lia.
    rewrite (u64_small (prev + 4 - eh)), (u64_small (prev + 4 - eh + vs + ha)) by lia.
    destruct (Z.ltb_spec ve (prev + 4 - eh + vs + ha)); [lia|].
    destruct (Z.leb_spec (prev + 4) prev); [lia|]. cbn [Z.eqb]. do 3 f_equal.
  - inversion Hb as [|? ? Hb0 Hb']. subst.
    change (eh_chain (b :: l)) with ((record_bytes b ++ concat (map record_bytes l)) ++ le_bytes 4 0) in *.
    rewrite <- app_assoc in *. fold (eh_chain l) in *. unfold record_bytes in *.
    rewrite !length_app, length_le_bytes in *.
    apply bytes_at_app in H as [H1 H2]. apply bytes_at_app in H1 as [H1 _].
    rewrite (load_le_bytes 4 prev _ H1). rewrite Z.mod_small by (simpl; lia).
    cbn [mbind C_bind]. destruct (Z.eqb_spec (Z.of_nat (length b)) 0xffffffff); [lia|].
    cbn [mbind C_bind]. rewrite (u64_small (prev + 4)), (u64_small (prev + 4 + _)) by lia.
    rewrite (u64_small (_ - eh)), (u64_small (_ - eh + vs + ha)) by lia.
    destruct (Z.ltb_spec ve (prev + 4 + Z.of_nat (length b) - eh + vs + ha)); [lia|].
    destruct (Z.leb_spec (prev + 4 + Z.of_nat (length b)) prev); [lia|].
    destruct (Z.eqb_spec (Z.of_nat (length b)) 0); [lia|].
    rewrite length_app, length_le_bytes in H2. simpl length in Hf.
    replace (prev + Z.of_nat (4 + length b)) with (prev + 4 + Z.of_nat (length b)) in H2 by lia.
    rewrite IH by (assumption || lia). do 2 f_equal. lia.
Qed.

(** The walk from the header to the end of .eh_frame. *)
Lemma eh_frame_extent `{K : Kernel} fuel base vs ve hdr_sec eh_rel bodies :
  let eh := sec_kbuf hdr_sec + 4 + eh_rel in
  let len := Z.of_nat (length (eh_chain bodies)) in
  bytes_at (sec_kbuf hdr_sec) ([1; EH_ENC; COUNT_ENC; TABLE_ENC] ++ le_bytes 4 eh_rel) ->
  8 <= sec_size hdr_sec -> sec_kbuf hdr_sec + sec_size hdr_sec <= ptr_limit ->
  - 2 ^ 31 <= eh_rel < 2 ^ 31 ->
  Forall (fun b => 0 < Z.of_nat (length b) < 2 ^ 32 - 1) bodies ->
  bytes_at eh (eh_chain bodies) -> eh + len <= ptr_limit -> len < 2 ^ 32 ->
  0 <= vs + sec_offset hdr_sec -> vs + sec_offset hdr_sec + len <= ve -> ve < 2 ^ 64 ->
  (length bodies < fuel)%nat ->
  eh_frame_from_hdr fuel base vs ve false hdr_sec =
    Ok (Some (mk_section (u64 (eh - base))
                (u64 (sec_ubuf hdr_sec - sec_offset hdr_sec + u64 (eh - base))) eh len)).
Proof.
  intros eh len H Hsz Hlim Hr Hb Hc Hel Hl32 Hs Hv Hve Hf. unfold ptr_limit in *.
  apply bytes_at_app in H as [H1 H2]. simpl length in H2.
  assert (Hk : 0 <= sec_kbuf hdr_sec) by apply H1. assert (Heh : 0 <= eh) by apply Hc.
  unfold eh_frame_from_hdr. rewrite (u64_small (_ + 1)), (u64_small (_ + 4)), (u64_small (_ + sec_size _)) by lia.
  replace (load8 (sec_kbuf hdr_sec + 1)) with (@Ok Z EH_ENC)
    by (symmetry; destruct H1 as (_ & _ & H1); exact (H1 1%nat EH_ENC eq_refl)).
  cbn [mbind C_bind]. unfold EH_ENC.
  rewrite (read_ptr_sect_encode (sec_kbuf hdr_sec + 4) _ DW_EH_PE_data4 true DW_EH_PE_pcrel
    vs _ true (-1) eh_rel);
    [|unfold plain_form; tauto|unfold plain_adjust; tauto|discriminate
     |unfold form_range; simpl; lia|exact H2|rewrite ?length_le_bytes; simpl; lia|unfold ptr_limit; lia].
  cbn [mbind C_bind].
  replace (u64 (eh_rel + adjust_base DW_EH_PE_pcrel (sec_kbuf hdr_sec + 4) vs (sec_offset hdr_sec)))
    with eh by (change (adjust_base DW_EH_PE_pcrel ?a _ _) with a; rewrite u64_small; unfold eh; lia).
  unfold len in *.
  rewrite (eh_frame_loop_chain vs ve (sec_offset hdr_sec) eh bodies fuel eh)
    by (assumption || unfold ptr_limit; lia).
  cbn [mbind C_bind]. replace (eh + Z.of_nat (length (eh_chain bodies)) - eh) with
    (Z.of_nat (length (eh_chain bodies))) by lia.
  unfold u32. rewrite Z.mod_small by lia. reflexivity.
Qed.

(** C30: The header's first pointer leads to .eh_frame, whose size is the length of
    the whole chain of records, terminator included. *)
Theorem eh_frame_from_hdr_extent `{K : Kernel} fuel base vs ve hdr_sec eh_rel bodies :
  let eh := sec_kbuf hdr_sec + 4 + eh_rel in
  let len := Z.of_nat (length (eh_chain bodies)) in
  bytes_at (sec_kbuf hdr_sec) ([1; EH_ENC; COUNT_ENC; TABLE_ENC] ++ le_bytes 4 eh_rel) ->
  8 <= sec_size hdr_sec -> sec_kbuf hdr_sec + sec_size hdr_sec <= ptr_limit ->
  - 2 ^ 31 <= eh_rel < 2 ^ 31 ->
  Forall (fun b => 0 < Z.of_nat (length b) < 2 ^ 32 - 1) bodies ->
  bytes_at eh (eh_chain bodies) -> eh + len <= ptr_limit -> len < 2 ^ 32 ->
  0 <= vs + sec_offset hdr_sec -> vs + sec_offset hdr_sec + len <= ve -> ve < 2 ^ 64 ->
  (length bodies < fuel)%nat ->
  eh_frame_from_hdr fuel base vs ve false hdr_sec =
    Ok (Some (mk_section (u64 (eh - base))
                (u64 (sec_ubuf hdr_sec - sec_offset hdr_sec + u64 (eh - base))) eh len)).
Proof. apply eh_frame_extent. Qed.

(** ** A loaded module

    A shared object mapped at 0x400000 whose first bytes the kernel sees at
    0x100000: two functions of 0x40 bytes at offset 0x1000, the header at offset
    0x2000 and .eh_frame at 0x2100. *)

Definition lib_vmap : Z := 0x100000.
Definition lib_cie : list Z :=
  le_bytes 4 20 ++ le_bytes 4 0 ++
  [1; 122; 82; 0; 1; 0x78; 16; 1; 0x1b; 0x0c; 7; 8; 0x90; 1; 0; 0].
Definition lib_fde (back start : Z) (insns : list Z) : list Z :=
  le_bytes 4 20 ++ le_bytes 4 back ++ le_bytes 4 start ++ le_bytes 4 0x40 ++ [0] ++ insns.
Definition lib_eh_frame : list Z :=
  lib_cie ++ lib_fde 28 (-0x1120) [0x41; 0x0e; 16; 0x86; 2; 0; 0] ++
  lib_fde 52 (-0x10f8) [0x44; 0x0e; 32; 0; 0; 0; 0] ++ le_bytes 4 0.
Definition lib_entries : list entry := [(-0x1000, 0x118); (-0xfc0, 0x130)].
Definition lib_hdr : list Z := hdr_bytes 0xfc lib_entries.

Definition lib_module : kunwind_module :=
  mk_module 0x9000 (mk_vma 0x400000 0x403000 0) lib_vmap (mk_pages 0x9100 [1; 2; 3]) 3
    (mk_section 0x2000 0x402000 (lib_vmap + 0x2000) 28)
    (mk_section 0x2100 0x402100 (lib_vmap + 0x2100) 76) true.

Definition lib_images : list (Z * list Z) :=
  [(lib_vmap + 0x2000, lib_hdr); (lib_vmap + 0x2100, lib_eh_frame)].
Definition lib_kernel : Kernel := image_kernel lib_images [].

Lemma lib_loaded : hdr_loaded (K := lib_kernel) lib_module 0xfc lib_entries.
Proof.
  constructor.
  - apply (bytes_atb_true (K := lib_kernel)). vm_compute. reflexivity.
  - reflexivity.
  - vm_compute. reflexivity.
  - vm_compute. discriminate.
  - vm_compute. split; reflexivity.
  - vm_compute. split; [discriminate|reflexivity].
  - reflexivity.
  - repeat constructor; vm_compute; discriminate.
  - intros e He. unfold lib_entries in He. rewrite !elem_of_cons, elem_of_nil in He.
    destruct He as [-> | [-> | []]]; vm_compute; discriminate.
  - intros [|[|i]] [|[|j]] ei ej Ei Ej Hij; try (simpl in Ei, Ej; discriminate);
      simpl in Ei, Ej; try lia; injection Ei as <-; injection Ej as <-; vm_compute; discriminate.
Qed.

Lemma stp_search_fde_finds_witness :
  _stp_search_fde (K := lib_kernel) 0x401050 true true false lib_module = Ok (lib_vmap + 0x2130).
Proof.
  apply (stp_search_fde_finds (K := lib_kernel) lib_module 0xfc lib_entries true lib_loaded
    0x401050 1 (-0xfc0, 0x130) true);
    [reflexivity|vm_compute; discriminate|simpl; discriminate|vm_compute; reflexivity].
Defined.

Lemma stp_search_fde_below_table_witness :
  _stp_search_fde (K := lib_kernel) 0x400040 true true false lib_module = Crash (PageFault 0).
Proof.
  apply (stp_search_fde_below_table (K := lib_kernel) lib_module 0xfc lib_entries true lib_loaded
    0x400040 (-0x1000, 0x118));
    [reflexivity|vm_compute; reflexivity|reflexivity].
Defined.

Definition chain_bodies : list (list Z) := [repeat 1 20; repeat 2 20; repeat 3 20].
Definition chain_kernel : Kernel :=
  image_kernel [(0x102000, [1; EH_ENC; COUNT_ENC; TABLE_ENC] ++ le_bytes 4 0xfc);
                (0x102100, eh_chain chain_bodies)] [].

Lemma eh_frame_from_hdr_extent_witness :
  eh_frame_from_hdr (K := chain_kernel) 10 0x100000 0x400000 0x403000 false
    (mk_section 0x2000 0x402000 0x102000 28) =
  Ok (Some (mk_section 0x2100 0x402100 0x102100 76)).
Proof.
  apply (eh_frame_from_hdr_extent (K := chain_kernel) 10 0x100000 0x400000 0x403000
    (mk_section 0x2000 0x402000 0x102000 28) 0xfc chain_bodies).
  - apply (bytes_atb_true (K := chain_kernel)). vm_compute. reflexivity.
  - simpl. lia.
  - vm_compute. discriminate.
  - lia.
  - unfold chain_bodies. repeat constructor; simpl; lia.
  - apply (bytes_atb_true (K := chain_kernel)). vm_compute. reflexivity.
  - vm_compute. discriminate.
  - vm_compute. reflexivity.
  - simpl. lia.
  - vm_compute. discriminate.
  - lia.
  - simpl. lia.
Defined.
