(* ===== verification/HashTable.v ===== *)
(** * Hash tables

    The tables of the kernel's hashtable.h as both tables of the program use them:
    an array of bucket lists, a search in the bucket of a key, an insertion at its
    head and the removal of the entry a search found. Entries have integer keys;
    [home] is the bucket of a key. *)
From S2P Require Import Prelude.

Section hashtable.
Context {E : Type} (key : E -> Z) (home : Z -> nat) (size : nat).

Definition has_key (k : Z) (e : E) : bool := k =? key e.

Definition ht_bucket (t : list (list E)) (k : Z) : list E := nth (home k) t [].

(** [hash_for_each_possible_rcu] with a return at the first match. *)
Definition ht_find (t : list (list E)) (k : Z) : option E := List.find (has_key k) (ht_bucket t k).

(** [hash_add_rcu] *)
Definition ht_add (t : list (list E)) (e : E) : list (list E) :=
  <[home (key e) := e :: ht_bucket t (key e)]> t.

(** [hash_del_rcu] on the entry a search found. *)
Fixpoint ht_unlink (k : Z) (l : list E) : list E :=
  match l with
  | [] => []
  | e :: l => if has_key k e then l else e :: ht_unlink k l
  end.
Definition ht_del (t : list (list E)) (k : Z) : list (list E) :=
  <[home k := ht_unlink k (ht_bucket t k)]> t.

(** [hash_for_each_rcu] with [hash_del_rcu] on every entry. *)
Definition ht_clear (t : list (list E)) : list (list E) := map (fun _ => []) t.

Definition ht_empty : list (list E) := replicate size [].
Definition entries_of (t : list (list E)) : list E := concat t.

(** Every entry is in the bucket of its key, and no key occurs twice. *)
Record wf_table (t : list (list E)) : Prop := {
  wt_size : length t = size;
  wt_home : forall b l e, t !! b = Some l -> e ∈ l -> home (key e) = b;
  wt_keys : forall b l, t !! b = Some l -> NoDup (map key l)
}.

Hypothesis home_range : forall k, (home k < size)%nat.

Lemma bucket_at t k : wf_table t -> t !! home k = Some (ht_bucket t k).
Proof.
  intros W. unfold ht_bucket. rewrite nth_lookup.
  destruct (lookup_lt_is_Some_2 t (home k)) as [l El]; [rewrite (wt_size t W); apply home_range|].
  rewrite El. reflexivity.
Qed.

Lemma bucket_after t b l k : wf_table t -> (b < size)%nat ->
  ht_bucket (<[b := l]> t) k = if decide (home k = b) then l else ht_bucket t k.
Proof.
  intros W Hb. unfold ht_bucket. rewrite !nth_lookup. destruct (decide _) as [->|Hne].
  - rewrite list_lookup_insert_eq; [reflexivity|]. rewrite (wt_size t W). exact Hb.
  - rewrite list_lookup_insert_ne by congruence. reflexivity.
Qed.

Lemma find_key_some k l e : List.find (has_key k) l = Some e -> e ∈ l /\ key e = k.
Proof.
  intros Ef. apply find_some in Ef as [Hin Hk]. split; [apply list_elem_of_In, Hin|].
  unfold has_key in Hk. lia.
Qed.

Lemma find_key_none k l e : List.find (has_key k) l = None -> e ∈ l -> key e <> k.
Proof.
  intros Ef Hin. apply list_elem_of_In in Hin. pose proof (find_none _ _ Ef _ Hin) as Hk.
  unfold has_key in Hk. lia.
Qed.

Lemma wf_replace t b l : wf_table t ->
  (forall e, e ∈ l -> home (key e) = b) -> NoDup (map key l) -> wf_table (<[b := l]> t).
Proof.
  intros W Hl Hd. constructor.
  - rewrite length_insert. apply W.
  - intros i k e Ei Hin. apply list_lookup_insert_Some in Ei as [(<- & <- & _)|(_ & Ei)];
      [apply Hl, Hin|eapply (wt_home t W); eassumption].
  - intros i k Ei. apply list_lookup_insert_Some in Ei as [(<- & <- & _)|(_ & Ei)];
      [exact Hd|eapply (wt_keys t W), Ei].
Qed.

Lemma wf_ht_empty : wf_table ht_empty.
Proof.
  constructor; [apply length_replicate| |]; unfold ht_empty; intros b l.
  - intros e El Hin. apply lookup_replicate in El as [-> _]. apply elem_of_nil in Hin. destruct Hin.
  - intros El. apply lookup_replicate in El as [-> _]. constructor.
Qed.

Lemma wf_ht_add t e : wf_table t -> ht_find t (key e) = None -> wf_table (ht_add t e).
Proof.
  intros W Hf. pose proof (bucket_at t (key e) W) as Hb. apply wf_replace; [exact W| |].
  - intros x Hx. apply elem_of_cons in Hx as [->|Hx]; [reflexivity|]. eapply (wt_home t W); eassumption.
  - simpl. constructor; [|eapply (wt_keys t W), Hb]. intros Hin.
    apply list_elem_of_fmap in Hin as (x & Ex & Hin). eapply find_key_none; eauto.
Qed.

Lemma unlink_sub k l e : e ∈ ht_unlink k l -> e ∈ l.
Proof.
  induction l as [|x l IH]; simpl; [auto|]. destruct (has_key k x).
  - intros Hi. apply elem_of_cons. auto.
  - rewrite !elem_of_cons. intros [->|Hi]; auto.
Qed.

Lemma unlink_keys k l : NoDup (map key l) -> NoDup (map key (ht_unlink k l)).
Proof.
  induction l as [|x l IH]; simpl; [auto|]. intros [Hx Hl]%NoDup_cons.
  destruct (has_key k x); [exact Hl|]. simpl. constructor; [|apply IH, Hl].
  intros Hin. apply Hx. apply list_elem_of_fmap in Hin as (e & Ee & Hin).
  apply list_elem_of_fmap. exists e. split; [exact Ee|]. eapply unlink_sub, Hin.
Qed.

Lemma unlink_perm k l e : List.find (has_key k) l = Some e -> l ≡ₚ e :: ht_unlink k l.
Proof.
  induction l as [|x l IH]; simpl; [discriminate|]. destruct (has_key k x).
  - intros [= ->]. reflexivity.
  - intros Ef. rewrite (IH Ef) at 1. apply perm_swap.
Qed.

Lemma find_unlink_ne k k' l : k' <> k -> List.find (has_key k') (ht_unlink k l) = List.find (has_key k') l.
Proof.
  intros Hne. induction l as [|x l IH]; simpl; [reflexivity|].
  unfold has_key in *. destruct (Z.eqb_spec k (key x)).
  - destruct (Z.eqb_spec k' (key x)); [congruence|reflexivity].
  - simpl. destruct (_ =? _); [reflexivity|exact IH].
Qed.

Lemma find_unlink_eq k l : NoDup (map key l) -> List.find (has_key k) (ht_unlink k l) = None.
Proof.
  induction l as [|x l IH]; simpl; [reflexivity|]. intros [Hx Hl]%NoDup_cons.
  destruct (has_key k x) eqn:Ek.
  - destruct (List.find (has_key k) l) as [e|] eqn:F; [|reflexivity].
    apply find_key_some in F as [Hin Hk]. exfalso. apply Hx. apply list_elem_of_fmap.
    exists e. split; [|exact Hin]. unfold has_key in Ek. lia.
  - simpl. rewrite Ek. apply IH, Hl.
Qed.

Lemma wf_ht_del t k : wf_table t -> wf_table (ht_del t k).
Proof.
  intros W. pose proof (bucket_at t k W) as Hb. apply wf_replace; [exact W| |].
  - intros e He. eapply (wt_home t W); [exact Hb|eapply unlink_sub, He].
  - apply unlink_keys. eapply (wt_keys t W), Hb.
Qed.

Lemma wf_ht_clear t : wf_table t -> wf_table (ht_clear t).
Proof.
  intros W. constructor; unfold ht_clear.
  - rewrite length_map. apply W.
  - intros b l e El Hin. rewrite list_lookup_fmap in El. destruct (t !! b); [|discriminate].
    injection El as <-. apply elem_of_nil in Hin. destruct Hin.
  - intros b l El. rewrite list_lookup_fmap in El. destruct (t !! b); [|discriminate].
    injection El as <-. constructor.
Qed.

(** ** What a search finds *)

Lemma ht_find_key t k e : ht_find t k = Some e -> key e = k.
Proof. intros Ef. apply find_key_some in Ef. apply Ef. Qed.

Lemma ht_find_empty k : ht_find ht_empty k = None.
Proof.
  unfold ht_find, ht_bucket, ht_empty. rewrite nth_lookup.
  destruct (replicate size [] !! home k) eqn:Er; [apply lookup_replicate in Er as [-> _]|]; reflexivity.
Qed.

Lemma ht_find_add t e k : wf_table t ->
  ht_find (ht_add t e) k = if decide (k = key e) then Some e else ht_find t k.
Proof.
  intros W. unfold ht_find at 1, ht_add. rewrite bucket_after by (exact W || apply home_range).
  destruct (decide (home k = home (key e))) as [Hh|Hh], (decide (k = key e)) as [->|Hne]; try congruence.
  - simpl. unfold has_key at 1. rewrite Z.eqb_refl. reflexivity.
  - simpl. unfold has_key at 1. destruct (Z.eqb_spec k (key e)); [congruence|].
    unfold ht_find, ht_bucket. rewrite Hh. reflexivity.
  - reflexivity.
Qed.

Lemma ht_find_del t k k' : wf_table t ->
  ht_find (ht_del t k) k' = if decide (k' = k) then None else ht_find t k'.
Proof.
  intros W. unfold ht_find at 1, ht_del. rewrite bucket_after by (exact W || apply home_range).
  destruct (decide (home k' = home k)) as [Hh|Hh], (decide (k' = k)) as [->|Hne]; try congruence.
  - apply find_unlink_eq. eapply (wt_keys t W), bucket_at, W.
  - rewrite find_unlink_ne by exact Hne. unfold ht_find, ht_bucket. rewrite Hh. reflexivity.
  - reflexivity.
Qed.

Lemma ht_find_clear t k : ht_find (ht_clear t) k = None.
Proof.
  unfold ht_find, ht_bucket, ht_clear. rewrite nth_lookup, list_lookup_fmap. destruct (t !! home k); reflexivity.
Qed.

(** ** The entries linked *)

Lemma entries_replace t b l : wf_table t -> (b < size)%nat ->
  exists rest, entries_of t ≡ₚ nth b t [] ++ rest /\ entries_of (<[b := l]> t) ≡ₚ l ++ rest.
Proof.
  intros W Hb. unfold entries_of.
  destruct (lookup_lt_is_Some_2 t b ltac:(rewrite (wt_size t W); exact Hb)) as [k Ek].
  exists (concat (take b t) ++ concat (drop (S b) t)). rewrite nth_lookup, Ek. simpl. split.
  - rewrite <- (take_drop_middle _ _ _ Ek) at 1. rewrite concat_app. simpl.
    rewrite !app_assoc. apply Permutation_app_tail, Permutation_app_comm.
  - rewrite insert_take_drop by (rewrite (wt_size t W); exact Hb).
    rewrite concat_app. simpl. rewrite !app_assoc. apply Permutation_app_tail, Permutation_app_comm.
Qed.

Lemma entries_add t e : wf_table t -> entries_of (ht_add t e) ≡ₚ e :: entries_of t.
Proof.
  intros W. destruct (entries_replace t (home (key e)) (e :: ht_bucket t (key e)) W (home_range _))
    as (rest & E1 & E2). unfold ht_add. rewrite E2, E1. reflexivity.
Qed.

Lemma entries_del t k e : wf_table t -> ht_find t k = Some e -> entries_of t ≡ₚ e :: entries_of (ht_del t k).
Proof.
  intros W Hf. destruct (entries_replace t (home k) (ht_unlink k (ht_bucket t k)) W (home_range _))
    as (rest & E1 & E2). unfold ht_del. rewrite E1, E2. fold (ht_bucket t k).
  rewrite (unlink_perm k _ e Hf) at 1. reflexivity.
Qed.

Lemma entries_clear t : entries_of (ht_clear t) = [].
Proof. unfold entries_of, ht_clear. induction t; simpl; auto. Qed.
End hashtable.
