(* ===== verification/Cache.v ===== *)
(** * The frame cache

    The hash table of src/src/modules.c that maps a program counter to the
    register rules of its frame ([struct tdep_frame] of
    src/src/unwind/x86_64.h), with the entries handed to RCU for freeing. *)
From S2P Require Import Prelude Rules HashTable.

(** [struct tdep_item] and [struct tdep_frame]. *)
Record tdep_item : Type := mk_tdep_item { ti_where : item_location; ti_reg : Z; ti_off : Z }.
Record tdep_frame : Type := mk_tdep_frame {
  tf_pc : Z;
  tf_cfa : tdep_item;
  tf_rbp : tdep_item;
  tf_rsp : tdep_item;
  tf_last : bool
}.

(** ** What the unwinder needs of a cache

    A finite map from program counters to frames, where an insertion never
    replaces an entry and may be dropped. *)
Class FrameCache (T : Type) : Type := {
  fc_find : T -> Z -> option tdep_frame;
  fc_add : T -> tdep_frame -> option Z -> T;
  fc_inv : T -> Prop;
  fc_add_inv : forall c f alloc, fc_inv c -> fc_inv (fc_add c f alloc);
  fc_find_add : forall c f alloc pc, fc_inv c ->
    fc_find (fc_add c f alloc) pc =
      match fc_find c pc with
      | Some g => Some g
      | None => if decide (pc = tf_pc f) then match alloc with Some _ => Some f | None => None end
                else None
      end
}.

(** ** The hash table *)

(** [hash_min(jhash(key, sizeof( *key), 0), UNW_CACHE_BITS)], a kernel function. *)
Class Hash : Type := { hash_bucket : Z -> Z }.

Definition UNW_CACHE_BITS : Z := 10.
Definition HASH_SIZE : nat := 1024.

(** [struct unw_cache_entry]: its address and its frame. *)
Record unw_cache_entry : Type := mk_entry { ce_addr : Z; ce_frame : tdep_frame }.

(** The bucket lists, and the entries passed to [call_rcu] in order. *)
Record unw_cache : Type := mk_cache {
  buckets : list (list unw_cache_entry);
  rcu_pending : list Z
}.

Definition empty_cache : unw_cache := mk_cache (ht_empty HASH_SIZE) [].

Section table.
Context `{H : Hash}.

Definition bucket_of (pc : Z) : nat := Z.to_nat (hash_bucket pc mod 2 ^ UNW_CACHE_BITS).
Definition entry_pc (e : unw_cache_entry) : Z := tf_pc (ce_frame e).

Definition unw_cache_find_entry (c : unw_cache) (pc : Z) : option unw_cache_entry :=
  ht_find entry_pc bucket_of (buckets c) pc.

(** [alloc] is the result of [kzalloc]. *)
Definition unw_cache_add_entry (c : unw_cache) (frame : tdep_frame) (alloc : option Z) : unw_cache :=
  match unw_cache_find_entry c (tf_pc frame) with
  | Some _ => c
  | None =>
    match alloc with
    | None => c
    | Some addr =>
      mk_cache (ht_add entry_pc bucket_of (buckets c) (mk_entry addr frame)) (rcu_pending c)
    end
  end.

Definition unw_cache_del_entry (c : unw_cache) (pc : Z) : unw_cache :=
  match unw_cache_find_entry c pc with
  | None => c
  | Some e => mk_cache (ht_del entry_pc bucket_of (buckets c) pc) (rcu_pending c ++ [ce_addr e])
  end.

(** [hash_for_each_rcu]: every entry of every bucket is unlinked and queued. *)
Definition unw_cache_clear (c : unw_cache) : unw_cache :=
  mk_cache (ht_clear (buckets c)) (rcu_pending c ++ map ce_addr (entries_of (buckets c))).

(** ** Invariant *)

Definition wf_cache (c : unw_cache) : Prop := wf_table entry_pc bucket_of HASH_SIZE (buckets c).

Lemma bucket_of_range pc : (bucket_of pc < HASH_SIZE)%nat.
Proof.
  unfold bucket_of, HASH_SIZE, UNW_CACHE_BITS.
  pose proof (Z.mod_pos_bound (hash_bucket pc) (2 ^ 10)). lia.
Qed.

Lemma wf_empty_cache : wf_cache empty_cache.
Proof. apply wf_ht_empty. Qed.

Lemma wf_add c f alloc : wf_cache c -> wf_cache (unw_cache_add_entry c f alloc).
Proof.
  intros W. unfold unw_cache_add_entry. destruct (unw_cache_find_entry c (tf_pc f)) eqn:E; [exact W|].
  destruct alloc; [apply wf_ht_add; [apply bucket_of_range|exact W|exact E]|exact W].
Qed.

Lemma wf_del c pc : wf_cache c -> wf_cache (unw_cache_del_entry c pc).
Proof.
  intros W. unfold unw_cache_del_entry. destruct (unw_cache_find_entry c pc); [|exact W].
  apply wf_ht_del; [apply bucket_of_range|exact W].
Qed.

Lemma wf_clear c : wf_cache c -> wf_cache (unw_cache_clear c).
Proof. apply wf_ht_clear. Qed.
#[local] Hint Resolve wf_add wf_del wf_clear wf_empty_cache bucket_of_range : kunwind.

(** ** Functional behaviour *)

Definition lookup_pc (c : unw_cache) (pc : Z) : option tdep_frame :=
  ce_frame <$> unw_cache_find_entry c pc.

Lemma lookup_pc_empty pc : lookup_pc empty_cache pc = None.
Proof. unfold lookup_pc, unw_cache_find_entry. simpl buckets. rewrite ht_find_empty. reflexivity. Qed.

Lemma lookup_add c f alloc pc :
  wf_cache c ->
  lookup_pc (unw_cache_add_entry c f alloc) pc =
    match lookup_pc c pc with
    | Some g => Some g
    | None => if decide (pc = tf_pc f) then match alloc with Some _ => Some f | None => None end
              else None
    end.
Proof.
  intros W. unfold lookup_pc, unw_cache_add_entry.
  destruct (unw_cache_find_entry c (tf_pc f)) as [e|] eqn:E.
  - destruct (unw_cache_find_entry c pc) eqn:Ep; [reflexivity|]. simpl.
    destruct (decide (pc = tf_pc f)) as [->|]; [congruence|reflexivity].
  - destruct alloc as [a|]; [|destruct (unw_cache_find_entry c pc); [reflexivity|simpl; destruct (decide _); reflexivity]].
    unfold unw_cache_find_entry at 1. cbn [buckets]. rewrite (ht_find_add _ _ HASH_SIZE) by auto using bucket_of_range.
    change (entry_pc (mk_entry a f)) with (tf_pc f). fold (unw_cache_find_entry c pc).
    destruct (decide (pc = tf_pc f)) as [->|]; [rewrite E; reflexivity|].
    destruct (unw_cache_find_entry c pc); reflexivity.
Qed.

Lemma lookup_del c pc pc' :
  wf_cache c ->
  lookup_pc (unw_cache_del_entry c pc) pc' = if decide (pc' = pc) then None else lookup_pc c pc'.
Proof.
  intros W. unfold lookup_pc, unw_cache_del_entry. destruct (unw_cache_find_entry c pc) eqn:E.
  - unfold unw_cache_find_entry at 1. cbn [buckets]. rewrite (ht_find_del _ _ HASH_SIZE) by auto using bucket_of_range.
    destruct (decide _); reflexivity.
  - destruct (decide (pc' = pc)) as [->|]; [rewrite E; reflexivity|reflexivity].
Qed.

Lemma lookup_clear c pc : lookup_pc (unw_cache_clear c) pc = None.
Proof. unfold lookup_pc, unw_cache_find_entry, unw_cache_clear. cbn [buckets]. rewrite ht_find_clear. reflexivity. Qed.

(** ** Ownership of the entries *)

Definition live (c : unw_cache) : list Z := map ce_addr (entries_of (buckets c)).
Definition owned (c : unw_cache) : list Z := live c ++ rcu_pending c.

Lemma owned_add c f alloc :
  wf_cache c ->
  owned (unw_cache_add_entry c f alloc) ≡ₚ
    match lookup_pc c (tf_pc f), alloc with None, Some a => a :: owned c | _, _ => owned c end.
Proof.
  intros W. unfold lookup_pc, unw_cache_add_entry.
  destruct (unw_cache_find_entry c (tf_pc f)); [reflexivity|]. destruct alloc as [a|]; [|reflexivity].
  unfold owned, live. cbn [buckets rcu_pending fmap option_fmap option_map].
  rewrite (entries_add _ _ HASH_SIZE) by auto using bucket_of_range. reflexivity.
Qed.

Lemma owned_del c pc : wf_cache c -> owned (unw_cache_del_entry c pc) ≡ₚ owned c.
Proof.
  intros W. unfold unw_cache_del_entry. destruct (unw_cache_find_entry c pc) as [e|] eqn:E; [|reflexivity].
  unfold owned, live. cbn [buckets rcu_pending].
  rewrite (entries_del _ _ HASH_SIZE bucket_of_range (buckets c) pc e W E).
  simpl. rewrite app_assoc. symmetry. apply Permutation_cons_append.
Qed.

Lemma owned_clear c : owned (unw_cache_clear c) ≡ₚ owned c.
Proof.
  unfold owned, live, unw_cache_clear. cbn [buckets rcu_pending]. rewrite entries_clear.
  simpl. apply Permutation_app_comm.
Qed.

(** ** Histories *)

Inductive cache_op : Type :=
  | OpAdd (f : tdep_frame) (alloc : option Z)
  | OpDel (pc : Z)
  | OpClear.

Definition cache_step (c : unw_cache) (o : cache_op) : unw_cache :=
  match o with
  | OpAdd f alloc => unw_cache_add_entry c f alloc
  | OpDel pc => unw_cache_del_entry c pc
  | OpClear => unw_cache_clear c
  end.

(** The map the table stands for, with the addresses allocated so far. *)
Definition map_step (s : gmap Z tdep_frame * list Z) (o : cache_op)
    : gmap Z tdep_frame * list Z :=
  let '(m, allocated) := s in
  match o with
  | OpAdd f (Some a) =>
      match m !! tf_pc f with
      | Some _ => (m, allocated)
      | None => (<[tf_pc f := f]> m, a :: allocated)
      end
  | OpAdd _ None => (m, allocated)
  | OpDel pc => (delete pc m, allocated)
  | OpClear => (∅, allocated)
  end.

Definition cache_rel (c : unw_cache) (s : gmap Z tdep_frame * list Z) : Prop :=
  wf_cache c /\ (forall pc, lookup_pc c pc = fst s !! pc) /\ owned c ≡ₚ snd s.

Lemma cache_rel_step c s o : cache_rel c s -> cache_rel (cache_step c o) (map_step s o).
Proof.
  destruct s as [m al]. intros (W & Hm & Ho). destruct o as [f [a|]|pc|]; simpl in *.
  - rewrite <- Hm. split; [apply wf_add, W|]. split.
    + intros pc. rewrite lookup_add by exact W.
      destruct (lookup_pc c (tf_pc f)) eqn:E; simpl.
      * rewrite <- Hm. destruct (decide (pc = tf_pc f)) as [->|].
        -- rewrite E. reflexivity.
        -- destruct (lookup_pc c pc); reflexivity.
      * destruct (decide (pc = tf_pc f)) as [->|Hne].
        -- rewrite E, lookup_insert_eq. reflexivity.
        -- rewrite lookup_insert_ne, <- Hm by congruence. destruct (lookup_pc c pc); reflexivity.
    + rewrite owned_add by exact W. destruct (lookup_pc c (tf_pc f)); simpl; rewrite Ho; reflexivity.
  - split; [apply wf_add, W|]. split.
    + intros pc. rewrite lookup_add by exact W. rewrite <- Hm.
      destruct (lookup_pc c pc); [reflexivity|]. destruct (decide _); reflexivity.
    + rewrite owned_add by exact W. destruct (lookup_pc c (tf_pc f)); exact Ho.
  - split; [apply wf_del, W|]. split.
    + intros pc'. rewrite lookup_del by exact W. destruct (decide (pc' = pc)) as [->|Hne].
      * simpl. rewrite lookup_delete_eq. reflexivity.
      * simpl. rewrite lookup_delete_ne by congruence. apply Hm.
    + rewrite owned_del by exact W. exact Ho.
  - split; [apply wf_clear, W|]. split.
    + intros pc. rewrite lookup_clear. simpl. rewrite lookup_empty. reflexivity.
    + rewrite owned_clear. exact Ho.
Qed.

(** C15: The hash table is a finite map: after any history of insertions, deletions
    and clears, a search finds what the map holds, every entry sits once in the
    bucket of its key, and the allocated entries are exactly those still linked
    together with those queued for freeing: none is lost, none is queued twice. *)
Theorem cache_refines_map ops pc :
  let c := fold_left cache_step ops empty_cache in
  let '(m, allocated) := fold_left map_step ops (∅, []) in
  wf_cache c /\ lookup_pc c pc = m !! pc /\ live c ++ rcu_pending c ≡ₚ allocated.
Proof.
  assert (R : cache_rel (fold_left cache_step ops empty_cache) (fold_left map_step ops (∅, []))).
  { assert (R0 : cache_rel empty_cache (∅, [])).
    { split; [apply wf_empty_cache|]. split; [|vm_compute; constructor].
      intros p. simpl. rewrite lookup_empty. unfold lookup_pc, unw_cache_find_entry, empty_cache.
      cbn [buckets]. rewrite ht_find_empty. reflexivity. }
    revert R0. generalize empty_cache (∅ : gmap Z tdep_frame, @nil Z).
    induction ops as [|o ops IH]; intros c s R0; simpl; [exact R0|].
    apply IH, cache_rel_step, R0. }
  destruct (fold_left map_step ops _) as [m al]. destruct R as (W & Hm & Ho). auto.
Qed.

#[export] Instance hash_cache : FrameCache unw_cache.
Proof.
  refine {| fc_find := lookup_pc; fc_add := unw_cache_add_entry; fc_inv := wf_cache |}.
  - intros. apply wf_add. assumption.
  - intros. apply lookup_add. assumption.
Defined.
End table.
