(* ===== verification/Step.v ===== *)
(** * Unwinding a frame

    [kunw_mod_lookup], [get_pc], [check_standard_frame], [save_tdep_frame],
    [restore_reg_from_memory], [apply_tdep_state], [__unwind_frame],
    [unwind_frame] and [unwind_full] of src/src/unwind.c, over any cache that
    keeps the promises of [FrameCache]. *)
From S2P Require Import Prelude Machine Leb128 EncodedPtr Regs Rules Cfi Expr KModule FdeCie.
From S2P Require Import EhFrameHdr Cache.

(** [struct unwind_context]. Its third member, the [unwind_state], is scratch:
    [__unwind_frame] clears it before use and leaves nothing in it for a later
    call, so that it is a local of the model. *)
Record unwind_context : Type := mk_context { cx_info : unwind_frame_info; cx_stub : unwind_frame_info }.

Definition set_info (cx : unwind_context) (f : unwind_frame_info) : unwind_context :=
  mk_context f (cx_stub cx).
Definition set_call_frame (f : unwind_frame_info) (c : Z) : unwind_frame_info :=
  mk_frame (fr_regs f) c.

Definition get_pc (info : unwind_frame_info) : Z := u64 (UNW_PC info - call_frame info).

(** The first module of the list whose area holds [pc]; the end is included. *)
Fixpoint kunw_mod_lookup (pc : Z) (mods : list kunwind_module) : option kunwind_module :=
  match mods with
  | [] => None
  | pos :: mods =>
    if (vm_start (elf_vma pos) <=? pc) && (pc <=? vm_end (elf_vma pos)) then Some pos
    else kunw_mod_lookup pc mods
  end.

(** ** Standard frames *)

(** The three rules under which [%rsp] and [%rbp] are simple. *)
Definition simple_where (w : item_location) : bool :=
  bool_decide (w = Nowhere) || bool_decide (w = Same) || bool_decide (w = Memory).

(** The [cfa] the function also computes is only printed, by a macro that is
    empty in this build. *)
Definition check_standard_frame (st : unwind_state) : bool :=
  let rs := REG_STATE st in
  negb (cfa_is_expr rs)
  && ((cfa_reg rs =? RBP) || (cfa_reg rs =? RSP))
  && bool_decide (where_ (reg_item st UNW_PC_IDX) = Memory)
  && (item_off (reg_item st UNW_PC_IDX) =? -8)
  && simple_where (where_ (reg_item st RSP))
  && simple_where (where_ (reg_item st RBP)).

(** [dst->reg] is an [int], [dst->off] a [long]. *)
Definition save_tdep_frame (src : unwind_item) : tdep_item :=
  mk_tdep_item (where_ src) (s32 (state_ src)) (s64 (state_ src)).

(** The [tdep_frame] built when the frame is standard. *)
Definition standard_entry (pc : Z) (st : unwind_state) (retAddrReg : Z) : tdep_frame :=
  mk_tdep_frame pc
    (mk_tdep_item Register (s32 (cfa_reg (REG_STATE st))) (s64 (cfa_off (REG_STATE st))))
    (save_tdep_frame (reg_item st RBP))
    (save_tdep_frame (reg_item st RSP))
    (bool_decide (where_ (reg_item st retAddrReg) = Nowhere)).

Section unwind.
Context `{K : Kernel}.

(** The new frame and whether the C result is 0. *)
Definition restore_reg_from_memory (frame : unwind_frame_info) (r addr : Z) (compat user : bool)
    : C (unwind_frame_info * bool) :=
  match _stp_read_address 8 8 addr (if user then USER_DS else KERNEL_DS) with
  | None => Ok (frame, false)
  | Some value =>
    let value := if compat then Z.land value 0xFFFFFFFF else value in
    f ← set_FRAME_REG frame r value; Ok (f, true)
  end.

(** [if (item.where == Memory) restore ... goto err]: *)
Definition restore_tdep (frame : unwind_frame_info) (r cfa : Z) (i : tdep_item) (compat user : bool)
    : C (unwind_frame_info * bool) :=
  restore_reg_from_memory frame r (u64 (cfa + ti_off i)) compat user.

Definition apply_tdep_state (frame : unwind_frame_info) (entry : tdep_frame) (compat user : bool)
    : C (unwind_frame_info * bool) :=
  base ← FRAME_REG frame (ti_reg (tf_cfa entry));
  let cfa := u64 (base + ti_off (tf_cfa entry)) in
  '(frame, ok) ←
    (if bool_decide (ti_where (tf_rbp entry) = Memory)
     then restore_tdep frame RBP cfa (tf_rbp entry) compat user else Ok (frame, true));
  if negb (ok : bool) then Ok (frame, false)
  else
    '(frame, ok) ←
      (if bool_decide (ti_where (tf_rsp entry) = Memory)
       then restore_tdep frame RSP cfa (tf_rsp entry) compat user
       else f ← set_FRAME_REG frame UNW_SP_IDX cfa; Ok (f, true));
    if negb (ok : bool) then Ok (frame, false)
    else restore_reg_from_memory frame UNW_PC_IDX (u64 (cfa - 8)) compat user.

(** ** The general case: label [slow_path] *)

(** The CFA; [None] is [goto err]. *)
Definition compute_cfa (st : unwind_state) (frame : unwind_frame_info) (user compat_task : bool)
    : C (option Z) :=
  let rs := REG_STATE st in
  if cfa_is_expr rs then compute_expr (cfa_expr rs) frame user compat_task
  else if NR_REGS <=? cfa_reg rs then Ok None
  else
    w ← reg_width (cfa_reg rs);
    if negb (w =? 8) || negb (cfa_off rs mod 4 =? 0) then Ok None
    else v ← FRAME_REG frame (cfa_reg rs); Ok (Some (u64 (v + cfa_off rs))).

(** One round of the first loop: a [Register] rule becomes the value of that
    register. *)
Definition fetch_register (frame : unwind_frame_info) (i : Z) (st : unwind_state)
    : C (option unwind_state) :=
  invalid ← REG_INVALID i;
  if (invalid : bool) then
    Ok (if bool_decide (where_ (reg_item st i) = Nowhere) then Some st else None)
  else
    match where_ (reg_item st i) with
    | Register =>
      let r := state_ (reg_item st i) in
      if NR_REGS <=? r then Ok None
      else
        bad ← REG_INVALID r;
        wi ← reg_width i;
        wr ← reg_width r;
        if (bad : bool) || (wr <? wi) then Ok None
        else v ← FRAME_REG frame r; Ok (Some (update_item st i (mk_item Register v)))
    | _ => Ok (Some st)
    end.

Fixpoint fetch_registers (frame : unwind_frame_info) (n : nat) (i : Z) (st : unwind_state)
    : C (option unwind_state) :=
  match n with
  | O => Ok (Some st)
  | S n =>
    r ← fetch_register frame i st;
    match r with
    | None => Ok None
    | Some st => fetch_registers frame n (i + 1) st
    end
  end.

(** One round of the second loop. [val] is the variable of that name, [None]
    before its first assignment. The result of [restore_reg_from_memory] is not
    looked at. *)
Definition restore_register (st : unwind_state) (cfa : Z) (user compat_task : bool) (i : Z)
    (frame : unwind_frame_info) (val : option Z) : C (option (unwind_frame_info * option Z)) :=
  invalid ← REG_INVALID i;
  if (invalid : bool) then Ok (Some (frame, val))
  else if UNW_SP_FROM_CFA && (i =? UNW_SP_IDX) then Ok (Some (set_word frame PT_SP cfa, val))
  else
    let item := reg_item st i in
    match where_ item with
    | Same => Ok (Some (frame, val))
    | Nowhere => f ← set_FRAME_REG frame i 0; Ok (Some (f, val))
    | Register => f ← set_FRAME_REG frame i (state_ item); Ok (Some (f, val))
    | Expr =>
      r ← compute_expr (state_ item) frame user compat_task;
      match r with
      | None => Ok None
      | Some _ =>
        '(f, _) ← restore_reg_from_memory frame i (u64 (cfa + item_off item)) compat_task user;
        Ok (Some (f, val))
      end
    | ValExpr =>
      r ← compute_expr (state_ item) frame user compat_task;
      match r with
      | None => Ok None
      | Some _ =>
        match val with
        | None => Crash Uninitialised
        | Some v => f ← set_FRAME_REG frame i v; Ok (Some (f, val))
        end
      end
    | Value =>
      let v := u64 (cfa + item_off item) in
      w ← reg_width i;
      if negb (w =? 8) then Ok None
      else f ← set_FRAME_REG frame i v; Ok (Some (f, Some v))
    | Memory =>
      '(f, _) ← restore_reg_from_memory frame i (u64 (cfa + item_off item)) compat_task user;
      Ok (Some (f, val))
    end.

(** [None] for [goto err] comes with the frame as it was when the loop stopped. *)
Fixpoint restore_registers (st : unwind_state) (cfa : Z) (user compat_task : bool) (n : nat) (i : Z)
    (frame : unwind_frame_info) (val : option Z) : C (unwind_frame_info * bool) :=
  match n with
  | O => Ok (frame, true)
  | S n =>
    r ← restore_register st cfa user compat_task i frame val;
    match r with
    | None => Ok (frame, false)
    | Some (f, val) => restore_registers st cfa user compat_task n (i + 1) f val
    end
  end.

(** From the label [slow_path] on: the result and the frame. *)
Definition slow_path (st : unwind_state) (retAddrReg : Z) (frame stub : unwind_frame_info)
    (user compat_task : bool) : C (Z * unwind_frame_info) :=
  if bool_decide (where_ (reg_item st retAddrReg) = Nowhere) then Ok (2, frame)
  else
    c ← compute_cfa st frame user compat_task;
    match c with
    | None => Ok (- EIO, frame)
    | Some cfa =>
      s ← fetch_registers frame 17 0 st;
      match s with
      | None => Ok (- EIO, frame)
      | Some st =>
        '(frame, ok) ← restore_registers st cfa user compat_task 17 0 frame None;
        if negb (ok : bool) then Ok (- EIO, frame)
        else if negb (UNW_PC frame =? UNW_PC stub) || negb (UNW_SP frame =? UNW_SP stub)
                || negb (UNW_BP frame =? UNW_BP stub)
        then Ok (- EIO, frame)
        else Ok (0, frame)
      end
    end.

(** ** [__unwind_frame] *)

(** The state before the CIE program runs. *)
Definition initial_state (p : parsed) (startLoc : Z) : unwind_state :=
  let st := set_no_state_rule UNW_NR_REAL_REGS Nowhere zero_state in
  let st := mk_state startLoc (p_codeAlign p) (p_dataAlign p) 0 (reg st) (cie_regs st) in
  set_cfa_off (set_cfa_reg st (fst badCFA)) (snd badCFA).

(** [memcpy(&state->cie_regs, &REG_STATE.regs, sizeof(REG_STATE.regs))] *)
Definition save_cie_regs (st : unwind_state) : unwind_state :=
  mk_state (loc st) (codeAlign st) (dataAlign st) (stackDepth st) (reg st) (rs_regs (REG_STATE st)).

Definition bad_ret_addr_reg (r : Z) : C bool :=
  if NR_REGS <=? r then Ok true
  else invalid ← REG_INVALID r; w ← reg_width r; Ok ((invalid : bool) || negb (w =? 8)).

(** What precedes the interpretation of the rules: a decided result, or the
    parsed entry with its run-time start and end. *)
Inductive located : Type :=
  | Decided (ret : Z)
  | Located (p : parsed) (startLoc endLoc : Z).

Definition locate_fde (pc : Z) (m : kunwind_module) (compat_task : bool) : C located :=
  fde ← _stp_search_fde pc true true compat_task m;
  if fde =? 0 then Ok (Decided (- EIO))
  else
    c ← cie_for_fde fde (ehf m) true;
    match c with
    | None => Ok (Decided (- EIO))
    | Some cie =>
      r ← parse_fde_cie true compat_task fde cie;
      match r with
      | None => Ok (Decided (- EIO))
      | Some p =>
        let startLoc := adjust_start_loc (p_startLoc p) (p_ptrType p) true m in
        if startLoc =? 0 then Ok (Decided (- EIO))
        else
          let endLoc := u64 (startLoc + p_locRange p) in
          if endLoc <? pc then Ok (Decided 1)
          else
            bad ← bad_ret_addr_reg (p_retAddrReg p);
            Ok (if (bad : bool) then Decided (- EIO) else Located p startLoc endLoc)
      end
    end.

(** Both CFI programs; [None] is [goto err]. *)
Definition run_cie_fde (pc : Z) (p : parsed) (startLoc endLoc : Z) (compat_task : bool)
    : C (option unwind_state) :=
  '(r, st) ← run_cfi_program (p_cieEnd p) 0 (p_ptrType p) true compat_task CFI_FUEL
               (p_cieStart p) (initial_state p startLoc);
  if r =? 0 then Ok None
  else
    '(r, st) ← run_cfi_program (p_fdeEnd p) pc (p_ptrType p) true compat_task CFI_FUEL
                 (p_fdeStart p) (save_cie_regs st);
    Ok (if (r =? 0) || (endLoc <? loc st) then None else Some st).

Context {T : Type} `{FC : !FrameCache T}.

(** [struct kunwind_proc_modules]. *)
Record kunwind_proc_modules : Type := mk_mods {
  stp_modules : list kunwind_module;
  mods_cache : T;
  mods_compat : Z
}.

Definition set_cache (mods : kunwind_proc_modules) (c : T) : kunwind_proc_modules :=
  mk_mods (stp_modules mods) c (mods_compat mods).

(** The outcome of applying a cached or fresh standard entry. *)
Definition entry_result (entry : tdep_frame) : Z := if tf_last entry then 2 else 0.

(** [__unwind_frame(context, mods, kunw_mod, compat_task)]: the C result, the
    frame and the modules. [alloc] is what [kzalloc] gives the cache. *)
Definition __unwind_frame (cx : unwind_context) (mods : kunwind_proc_modules) (m : kunwind_module)
    (compat_task : bool) (alloc : option Z) : C (Z * unwind_frame_info * kunwind_proc_modules) :=
  let frame := cx_info cx in
  let pc := u64 (UNW_PC frame - call_frame frame) in
  if (sec_size (ehf m) =? 0) || flag (sec_size (ehf m)) 3 then Ok (- EIO, frame, mods)
  else
    match fc_find (mods_cache mods) pc with
    | Some entry =>
      '(frame, ok) ← apply_tdep_state frame entry compat_task true;
      Ok (if (ok : bool) then entry_result entry else - EIO, frame, mods)
    | None =>
      l ← locate_fde pc m compat_task;
      match l with
      | Decided ret => Ok (ret, frame, mods)
      | Located p startLoc endLoc =>
        let frame := set_call_frame frame (p_call_frame p) in
        s ← run_cie_fde pc p startLoc endLoc compat_task;
        match s with
        | None => Ok (- EIO, frame, mods)
        | Some st =>
          if check_standard_frame st then
            let entry := standard_entry pc st (p_retAddrReg p) in
            let mods := set_cache mods (fc_add (mods_cache mods) entry alloc) in
            '(frame, ok) ← apply_tdep_state frame entry compat_task true;
            if (ok : bool) then Ok (entry_result entry, frame, mods)
            else
              '(r, frame) ← slow_path st (p_retAddrReg p) frame (cx_stub cx) true compat_task;
              Ok (r, frame, mods)
          else
            '(r, frame) ← slow_path st (p_retAddrReg p) frame (cx_stub cx) true compat_task;
            Ok (r, frame, mods)
        end
      end
    end.

(** [compat_task] is [_stp_is_compat_task()]. *)
Definition unwind_frame (cx : unwind_context) (user : bool) (proc : kunwind_proc_modules)
    (compat_task : bool) (alloc : option Z) : C (Z * unwind_frame_info * kunwind_proc_modules) :=
  let frame := cx_info cx in
  let pc := get_pc frame in
  if (pc =? 0) || negb user then Ok (- EINVAL, frame, proc)
  else
    match kunw_mod_lookup pc (stp_modules proc) with
    | None => Ok (- EINVAL, frame, proc)
    | Some m => __unwind_frame cx proc m compat_task alloc
    end.

(** ** [unwind_full] *)

(** [struct kunwind_backtrace] (src/include/kunwind.h); [entries] is [None] for
    a null pointer. *)
Record kunwind_backtrace : Type := mk_bt {
  max_entries : Z;
  nr_entries : Z;
  bt_entries : option (list Z)
}.

(** [bt->entries[bt->nr_entries++] = pc] *)
Definition push_entry (bt : kunwind_backtrace) (pc : Z) : C kunwind_backtrace :=
  match bt_entries bt with
  | None => Crash (PageFault 0)
  | Some l =>
    if (Z.to_nat (nr_entries bt) <? length l)%nat
    then Ok (mk_bt (max_entries bt) (nr_entries bt + 1) (Some (<[Z.to_nat (nr_entries bt) := pc]> l)))
    else Crash OutOfBounds
  end.

(** The loop; [ret] is [None] while it has not been assigned. [alloc n] is what
    [kzalloc] gives in the round of entry [n]. *)
Fixpoint unwind_loop (fuel : nat) (cx : unwind_context) (proc : kunwind_proc_modules)
    (bt : kunwind_backtrace) (compat_task : bool) (alloc : Z -> option Z) (ret : option Z)
    : C (option Z * unwind_context * kunwind_proc_modules * kunwind_backtrace) :=
  match fuel with
  | O => Crash OutOfFuel
  | S fuel =>
    if nr_entries bt <? max_entries bt then
      let pc := get_pc (cx_info cx) in
      if pc =? 0 then Ok (ret, cx, proc, bt)
      else
        let n := nr_entries bt in
        bt ← push_entry bt pc;
        '(r, f, proc) ← unwind_frame cx true proc compat_task (alloc n);
        let cx := set_info cx f in
        if r =? 0 then unwind_loop fuel cx proc bt compat_task alloc (Some r)
        else Ok (Some r, cx, proc, bt)
    else Ok (ret, cx, proc, bt)
  end.

(** Every round stores an entry, so [max_entries + 1] rounds are enough. *)
Definition unwind_full (cx : unwind_context) (proc : kunwind_proc_modules) (bt : kunwind_backtrace)
    (compat_task : bool) (alloc : Z -> option Z)
    : C (Z * unwind_context * kunwind_proc_modules * kunwind_backtrace) :=
  match bt_entries bt with
  | None => Ok (- EINVAL, cx, proc, bt)
  | Some l =>
    if max_entries bt =? 0 then Ok (- EINVAL, cx, proc, bt)
    else
      '(ret, cx, proc, bt) ←
        unwind_loop (S (Z.to_nat (max_entries bt))) cx proc
          (mk_bt (max_entries bt) 0 (Some l)) compat_task alloc None;
      match ret with
      | None => Crash Uninitialised
      | Some r => Ok (if r =? 2 then 0 else r, cx, proc, bt)
      end
  end.

End unwind.
Arguments mk_mods {T}.
Arguments stp_modules {T}.
Arguments mods_cache {T}.
Arguments mods_compat {T}.
