(* ===== verification/Debug.v ===== *)
(** * The debug build

    What src/src/unwind.c and src/src/modules.c compile with DEBUG_UNWIND: the names
    of pointer encodings, the dumps of a context, of expressions and of the frame
    cache, and the test of the cache that runs when the proc file is opened. The
    kernel log is a list of the calls of printk, whose formats are written as in
    the source. *)
From stdpp Require Import strings.
From S2P Require Import Prelude Machine Leb128 EncodedPtr Regs Rules Cfi CfiSpec HashTable Cache Step Arch.

(** ** The kernel log *)

Inductive arg : Type := AInt (z : Z) | AStr (s : option string).
Inductive output : Type :=
  | Printk (format : string) (args : list arg)
  | ShowRegs (fn : Z) (regs : list Z) (all : Z).   (* a call of [__show_regs], found by name *)

(** ** Names

    [get_reg_name] and [get_where_name] look the names up only with UNWIND_DEBUG,
    which no other code tests: the rest of the debug build has DEBUG_UNWIND. *)
Definition regs_name : list string := reg_members x86_64.
Definition where_name : list string := ["Same"; "Nowhere"; "Memory"; "Register"; "Value"; "Expr"; "ValExpr"].

Definition where_index (w : item_location) : Z :=
  match w with Same => 0 | Nowhere => 1 | Memory => 2 | Register => 3 | Value => 4 | Expr => 5 | ValExpr => 6 end.

(** [table[n]] for an [int]. *)
Definition string_at (table : list string) (n : Z) : C string :=
  if n <? 0 then Crash OutOfBounds
  else match table !! Z.to_nat n with Some s => Ok s | None => Crash OutOfBounds end.

Section names.
Variable UNWIND_DEBUG : bool.

Definition get_reg_name (n : Z) : C (option string) :=
  if UNWIND_DEBUG then s ← string_at regs_name (s32 n); Ok (Some s) else Ok None.
Definition get_where_name (n : Z) : C (option string) :=
  if UNWIND_DEBUG then s ← string_at where_name (s32 n); Ok (Some s) else Ok None.
End names.

(** ** Pointer encodings *)

Definition _stp_enc_hi_name : list string :=
  ["DW_EH_PE"; "DW_EH_PE_pcrel"; "DW_EH_PE_textrel"; "DW_EH_PE_datarel"; "DW_EH_PE_funcrel"; "DW_EH_PE_aligned"].
Definition _stp_enc_lo_name : list string :=
  ["_absptr"; "_uleb128"; "_udata2"; "_udata4"; "_udata8"; "_sleb128"; "_sdata2"; "_sdata4"; "_sdata8"].

(** The string functions of the kernel that fill the buffer, and [%x]. *)
Definition strlcpy (src : string) (size : nat) : string := String.substring 0 (size - 1) src.
Definition strlcat (dst src : string) (size : nat) : string := dst +:+ String.substring 0 (size - 1 - String.length dst) src.

Definition hex_digit (d : Z) : string := String.substring (Z.to_nat d) 1 "0123456789abcdef".
Fixpoint hex (fuel : nat) (z : Z) : string :=
  match fuel with
  | O => ""
  | S fuel => (if z <? 16 then "" else hex fuel (z / 16)) +:+ hex_digit (z mod 16)
  end.

Definition ENC_NAME_SIZE : nat := 64.

Definition _stp_eh_enc_name (type : Z) : C string :=
  if type =? DW_EH_PE_omit then Ok "DW_EH_PE_omit"
  else
    let hi := Z.shiftr (Z.land type DW_EH_PE_ADJUST) 4 in
    let low := Z.land type DW_EH_PE_FORM in
    if (5 <? hi) || (4 <? low) || ((low =? 0) && flag type DW_EH_PE_signed) then
      Ok (String.substring 0 (ENC_NAME_SIZE - 1) ("ERROR:encoding=0x" +:+ hex 8 (u32 type)))
    else
      let buf := "" in
      let buf := if flag type DW_EH_PE_indirect then strlcpy "DW_EH_PE_indirect|" ENC_NAME_SIZE else buf in
      s ← string_at _stp_enc_hi_name hi;
      let buf := strlcat buf s ENC_NAME_SIZE in
      let low := if flag type DW_EH_PE_signed then low + 4 else low in
      s ← string_at _stp_enc_lo_name low;
      Ok (strlcat buf s ENC_NAME_SIZE).

(** ** Dumps *)

Section dump.
Context `{K : Kernel}.
Variables (UNWIND_DEBUG : bool) (DEBUG_UNWIND : Z).

(** [dbug_unwind(level, ...)] in the function [func] at [line]. *)
Definition dbug_unwind (level : Z) (func : string) (line : Z) (fmt : string) (args : list arg) : list output :=
  if level <=? DEBUG_UNWIND
  then [Printk "stp_dbug in [%s] at line %d : " [AStr (Some func); AInt line]; Printk fmt args] else [].

Fixpoint dump_ops (fuel : nat) (expr end_ : Z) : C (list output) :=
  match fuel with
  | O => Crash OutOfFuel
  | S fuel =>
    if expr <? end_ then
      op ← load8 expr;
      rest ← dump_ops fuel (u64 (expr + 1)) end_;
      Ok (Printk " %x" [AInt op] :: rest)
    else Ok []
  end.

(** The operations are read up to [expr + len], whatever the size of the section. *)
Definition dump_expr (expr : Z) : C (list output) :=
  '(len, expr) ← get_uleb128 expr (2 ^ 64 - 1);
  ops ← dump_ops (S (Z.to_nat len)) expr (u64 (expr + len));
  Ok (Printk "cfa_expr ops (%ld):" [AInt (s64 len)] :: ops).

Definition dump_item (i : Z) (item : unwind_item) : C (list output) :=
  name ← get_where_name UNWIND_DEBUG (where_index (where_ item));
  body ← match where_ item with
         | Same | Nowhere => Ok [Printk "no state" []]
         | Memory => Ok [Printk "state.off=%ld" [AInt (item_off item)]]
         | Register => Ok [Printk "state.reg=%ld" [AInt (s64 (state_ item))]]
         | Value => Ok [Printk "cfa + state.off=%ld" [AInt (item_off item)]]
         | Expr | ValExpr => dump_expr (state_ item)
         end;
  Ok (Printk "unwind_regs %d where=%s " [AInt i; AStr name] :: body ++ [Printk "\n" []]).

(** The loop of [dump_unwind_regs] at [i], with [n] registers to go. *)
Fixpoint dump_unwind_regs (regs : list unwind_item) (i : Z) (n : nat) : C (list output) :=
  match n with
  | O => Ok []
  | S n =>
    match regs !! Z.to_nat i with
    | None => Crash OutOfBounds
    | Some item => l ← dump_item i item; rest ← dump_unwind_regs regs (i + 1) n; Ok (l ++ rest)
    end
  end.

(** [show_regs_fn] is the static pointer, null until the symbol was found;
    [found] is what [kallsyms_lookup_name] returns. *)
Definition dump_unwind_frame (found : Z) (info : unwind_frame_info) (show_regs_fn : Z) : Z * list output :=
  let show_regs_fn := if show_regs_fn =? 0 then found else show_regs_fn in
  (show_regs_fn, if show_regs_fn =? 0 then [] else [ShowRegs show_regs_fn (fr_regs info) 0]).

Definition dump_reg_state (i : Z) (rs : unwind_reg_state) : C (list output) :=
  cfa ← if cfa_is_expr rs
        then l ← dump_expr (cfa_expr rs); Ok (l ++ [Printk "\n" []])
        else Ok [Printk "cfa reg=%ld, off=%lx\n" [AInt (s64 (cfa_reg rs)); AInt (u64 (cfa_off rs))]];
  items ← dump_unwind_regs (rs_regs rs) 0 (Z.to_nat NR_REGS);
  Ok (Printk "reg_state %d: cfa_is_expr=%d\n" [AInt i; AInt (Z.b2z (cfa_is_expr rs))] :: cfa ++ items).

(** The loop over the saved states, with [n] to go. *)
Fixpoint dump_states (states : list unwind_reg_state) (i : Z) (n : nat) : C (list output) :=
  match n with
  | O => Ok []
  | S n =>
    match states !! Z.to_nat i with
    | None => Crash OutOfBounds
    | Some rs => l ← dump_reg_state i rs; rest ← dump_states states (i + 1) n; Ok (l ++ rest)
    end
  end.

Definition dump_context (found : Z) (info : unwind_frame_info) (state : unwind_state) (show_regs_fn : Z)
    : C (Z * list output) :=
  let '(show_regs_fn, shown) := dump_unwind_frame found info show_regs_fn in
  let head := Printk "unwind_state loc=%lx codeAlign=%lx dataAlign=%lx stackDepth=%x\n"
    [AInt (loc state); AInt (u64 (codeAlign state)); AInt (u64 (dataAlign state)); AInt (Z.of_nat (stackDepth state))] in
  states ← dump_states (reg state) 0 (S (stackDepth state));
  Ok (show_regs_fn, shown ++ head :: states).

Definition dump_tdep_item (i : tdep_item) : list arg := [AInt (where_index (ti_where i)); AInt (ti_reg i); AInt (ti_off i)].
Definition dump_tdep_frame (f : tdep_frame) : list output :=
  dbug_unwind 3 "dump_tdep_frame" 1523
    ("pc=0x%lx cfa.where=%d cfa.reg=%x cfa.off=%ld rbp.where=%d rbp.reg=%x rbp.off=%ld " +:+
     "rsp.where=%d rsp.reg=%x rsp.off=%ld\n")
    (AInt (tf_pc f) :: dump_tdep_item (tf_cfa f) ++ dump_tdep_item (tf_rbp f) ++ dump_tdep_item (tf_rsp f)).
End dump.

(** ** The test of the frame cache *)

Section cache.
Context `{H : Hash}.
Variable DEBUG_UNWIND : Z.

Abbreviation dbug level func line fmt args := (dbug_unwind DEBUG_UNWIND level func line fmt args).

(** The RCU callback of the entry that has waited longest: the rest of the queue,
    the block that is freed, and the message. *)
Definition unw_cache_entry_rcu_free (c : unw_cache) : option (unw_cache * Z * list output) :=
  match rcu_pending c with
  | [] => None
  | a :: rest => Some (mk_cache (buckets c) rest, a, dbug 3 "unw_cache_entry_rcu_free" 24 "del cache_entry %p\n " [AInt a])
  end.

(** What [unw_cache_add_entry] prints. *)
Definition add_entry_messages (c : unw_cache) (frame : tdep_frame) (alloc : option Z) : list output :=
  match unw_cache_find_entry c (tf_pc frame), alloc with
  | Some _, _ => dbug 1 "unw_cache_add_entry" 52 "entry already in cache (pc=0x%lx)\n" [AInt (tf_pc frame)]
  | None, Some a => dbug 3 "unw_cache_add_entry" 61 "add cache_entry %p\n " [AInt a]
  | None, None => []
  end.

Definition unw_cache_dump (c : unw_cache) : list output :=
  flat_map (fun e => dbug 3 "unw_cache_dump" 101 "dump cache_entry %p\n " [AInt (ce_addr e)]) (entries_of (buckets c)).

Definition found_message (line : Z) (e : option unw_cache_entry) : list output :=
  dbug 3 "unw_cache_test" line "find_entry %p\n" [AInt (match e with Some e => ce_addr e | None => 0 end)].

Definition test_frame : tdep_frame :=
  mk_tdep_frame 0x1234 (mk_tdep_item Same 0 0) (mk_tdep_item Same 0 0) (mk_tdep_item Same 0 0) false.
Definition test_key : Z := tf_pc test_frame.

(** [a1], [a2] and [a3] are what [kzalloc] would return to the three insertions. *)
Definition unw_cache_test (c0 : unw_cache) (a1 a2 a3 : option Z) : unw_cache * list output :=
  let note line fmt := dbug 3 "unw_cache_test" line fmt [] in
  let c1 := unw_cache_add_entry c0 test_frame a1 in
  let e1 := unw_cache_find_entry c1 test_key in
  let c2 := unw_cache_clear c1 in
  let e2 := unw_cache_find_entry c2 test_key in
  let c3 := unw_cache_add_entry c2 test_frame a2 in
  let c4 := unw_cache_add_entry c3 test_frame a3 in
  let c5 := unw_cache_del_entry c4 test_key in
  (c5,
   note 117 "init\n" ++ unw_cache_dump c0 ++
   add_entry_messages c0 test_frame a1 ++ note 121 "after add\n" ++ unw_cache_dump c1 ++
   found_message 126 e1 ++
   note 130 "after clear\n" ++ unw_cache_dump c2 ++
   found_message 135 e2 ++
   note 138 "add and del\n" ++ add_entry_messages c2 test_frame a2 ++ add_entry_messages c3 test_frame a3 ++
   unw_cache_dump c4 ++ unw_cache_dump c5).
End cache.

(** ** Names of pointer encodings *)

Definition all_bytes : list Z := map Z.of_nat (seq 0 256).
Definition enc_name (t : Z) : string := match _stp_eh_enc_name t with Ok s => s | Crash _ => "" end.
Definition enc_name_fits (t : Z) : bool :=
  match _stp_eh_enc_name t with Ok s => (0 <? String.length s)%nat && (String.length s <? ENC_NAME_SIZE)%nat | Crash _ => false end.

Lemma byte_listed t : 0 <= t < 256 -> all_bytes !! Z.to_nat t = Some t.
Proof.
  intros Ht. unfold all_bytes. rewrite list_lookup_fmap, lookup_seq_lt by lia. simpl. f_equal. lia.
Qed.

Lemma enc_name_runs t : 0 <= t < 256 ->
  _stp_eh_enc_name t = Ok (enc_name t) /\ (0 < String.length (enc_name t) < ENC_NAME_SIZE)%nat.
Proof.
  intros Ht. assert (A : forallb enc_name_fits all_bytes = true) by (vm_compute; reflexivity).
  rewrite forallb_forall in A. specialize (A t (proj1 (list_elem_of_In _ _) (list_elem_of_lookup_2 _ _ _ (byte_listed t Ht)))).
  unfold enc_name_fits, enc_name in *. destruct (_stp_eh_enc_name t) as [s|]; [|discriminate].
  rewrite andb_true_iff, !Nat.ltb_lt in A. auto.
Qed.

Lemma enc_names_differ t u : 0 <= t < 256 -> 0 <= u < 256 -> enc_name t = enc_name u -> t = u.
Proof.
  intros Ht Hu E. assert (A : NoDup (map enc_name all_bytes)).
  { apply (bool_decide_eq_true_1 (NoDup (map enc_name all_bytes))). vm_compute. reflexivity. }
  assert (Z.to_nat t = Z.to_nat u); [|lia].
  apply (NoDup_lookup (map enc_name all_bytes) _ _ (enc_name t) A); rewrite list_lookup_fmap, byte_listed by assumption;
    [reflexivity|simpl; congruence].
Qed.

(** ** Dumps *)

Definition expr_messages (b : list Z) : list output :=
  Printk "cfa_expr ops (%ld):" [AInt (s64 (Z.of_nat (length b)))] :: map (fun op => Printk " %x" [AInt op]) b.

Section dumps.
Context `{K : Kernel}.

(** An expression as the call frame instructions hold it: its length and its
    operations. *)
Definition expr_at (a : Z) (b : list Z) : Prop := bytes_at a (block_bytes b) /\ a + Z.of_nat (length (block_bytes b)) < 2 ^ 64.

Lemma dump_ops_block b : forall fuel p, bytes_at p b -> p + Z.of_nat (length b) < 2 ^ 64 -> (length b < fuel)%nat ->
  dump_ops fuel p (p + Z.of_nat (length b)) = Ok (map (fun op => Printk " %x" [AInt op]) b).
Proof.
  induction b as [|x b IH]; intros fuel p B Hp Hf; (destruct fuel as [|fuel]; [simpl in Hf; lia|]); cbn [length] in *; cbn [dump_ops].
  - destruct (Z.ltb_spec p (p + Z.of_nat 0)); [lia|reflexivity].
  - apply bytes_at_cons in B as (Ex & Hr & B). destruct (Z.ltb_spec p (p + Z.of_nat (S (length b)))); [|lia].
    rewrite Ex. cbn [C_bind mbind]. rewrite u64_small by lia.
    replace (p + Z.of_nat (S (length b))) with (p + 1 + Z.of_nat (length b)) by lia.
    rewrite IH by (assumption || lia). reflexivity.
Qed.

(** The dump of an expression prints its operations and stops behind them. *)
Lemma dump_expr_block a b : expr_at a b -> dump_expr a = Ok (expr_messages b).
Proof.
  unfold expr_at, block_bytes. rewrite length_app. intros [[B1 B2]%bytes_at_app Ha].
  pose proof (proj1 B1). unfold dump_expr.
  rewrite (get_uleb128_encode a (2 ^ 64 - 1) (Z.of_nat (length b))); [|lia|exact B1|lia|lia].
  cbn [C_bind mbind]. rewrite Nat2Z.id, u64_small by lia.
  rewrite dump_ops_block by (assumption || lia). reflexivity.
Qed.

Variable UNWIND_DEBUG : bool.

Definition item_printable (i : unwind_item) : Prop :=
  match where_ i with Expr | ValExpr => exists b, expr_at (state_ i) b | _ => True end.
Definition reg_state_printable (rs : unwind_reg_state) : Prop :=
  Forall item_printable (rs_regs rs) /\ (cfa_is_expr rs = true -> exists b, expr_at (cfa_expr rs) b).

Lemma where_named w : runs (get_where_name UNWIND_DEBUG (where_index w)).
Proof. unfold get_where_name. destruct UNWIND_DEBUG; [destruct w|]; eexists; reflexivity. Qed.

Lemma dump_item_runs i item : item_printable item -> runs (dump_item UNWIND_DEBUG i item).
Proof.
  intros P. unfold dump_item. apply runs_bind; [apply where_named|]. intros name _.
  apply runs_bind; [|intros; eexists; reflexivity].
  unfold item_printable in P. destruct (where_ item); try (eexists; reflexivity);
    destruct P as [b B]; rewrite (dump_expr_block _ _ B); eexists; reflexivity.
Qed.

Lemma dump_regs_run regs n : forall i, 0 <= i -> (Z.to_nat i + n <= length regs)%nat -> Forall item_printable regs ->
  runs (dump_unwind_regs UNWIND_DEBUG regs i n).
Proof.
  induction n as [|n IH]; intros i Hi Hn P; [eexists; reflexivity|]. cbn [dump_unwind_regs].
  destruct (lookup_lt_is_Some_2 regs (Z.to_nat i)) as [item E]; [lia|]. rewrite E.
  apply runs_bind; [apply dump_item_runs, (Forall_lookup_1 _ _ _ _ P E)|]. intros l _.
  apply runs_bind; [apply IH; (lia || exact P)|]. intros; eexists; reflexivity.
Qed.

Lemma dump_reg_state_runs i rs : wf_reg_state rs -> reg_state_printable rs -> runs (dump_reg_state UNWIND_DEBUG i rs).
Proof.
  intros (_ & _ & Hl & _) [P C]. unfold dump_reg_state. apply runs_bind.
  - destruct (cfa_is_expr rs); [|eexists; reflexivity]. destruct (C eq_refl) as [b B].
    rewrite (dump_expr_block _ _ B). eexists; reflexivity.
  - intros cfa _. apply runs_bind; [apply dump_regs_run; [lia|rewrite Hl; unfold NR_REGS; simpl; lia|exact P]|].
    intros; eexists; reflexivity.
Qed.

Lemma dump_states_run states n : forall i, 0 <= i -> (Z.to_nat i + n <= length states)%nat ->
  Forall wf_reg_state states -> Forall reg_state_printable (take (Z.to_nat i + n) states) -> runs (dump_states UNWIND_DEBUG states i n).
Proof.
  induction n as [|n IH]; intros i Hi Hn W P; [eexists; reflexivity|]. cbn [dump_states].
  destruct (lookup_lt_is_Some_2 states (Z.to_nat i)) as [rs E]; [lia|]. rewrite E.
  apply runs_bind.
  - apply dump_reg_state_runs; [exact (Forall_lookup_1 _ _ _ _ W E)|]. apply (Forall_lookup_1 _ _ (Z.to_nat i) _ P).
    rewrite lookup_take_lt by lia. exact E.
  - intros l _. apply runs_bind; [|intros; eexists; reflexivity].
    apply IH; [lia|lia|exact W|]. replace (Z.to_nat (i + 1) + n)%nat with (Z.to_nat i + S n)%nat by lia. exact P.
Qed.

(** The dump of a context whose saved rows have their expressions in memory. *)
Lemma dump_context_runs found info st fn : wf_state st ->
  Forall reg_state_printable (take (S (stackDepth st)) (reg st)) -> runs (dump_context UNWIND_DEBUG found info st fn).
Proof.
  intros W P. unfold dump_context. destruct (dump_unwind_frame found info fn) as [fn' shown].
  apply runs_bind; [|intros; eexists; reflexivity].
  pose proof (wf_depth _ W). pose proof (wf_reg_len _ W).
  apply dump_states_run; [lia|lia|exact (wf_reg _ W)|exact P].
Qed.

(** The dump at the start of a step, before any instruction ran. *)
Lemma dump_at_start found info fn :
  runs (dump_context UNWIND_DEBUG found info (set_no_state_rule UNW_NR_REAL_REGS Nowhere zero_state) fn).
Proof.
  apply dump_context_runs.
  - apply wf_set_no_state_rule, wf_zero_state.
  - apply Forall_cons; split; [|apply Forall_nil_2].
    split; [|discriminate]. repeat (apply Forall_cons; split; [exact Logic.I|]). apply Forall_nil_2.
Qed.
End dumps.

(** With the names compiled in, a rule for a register that the table does not have
    is printed with a name from outside the table. *)
Lemma get_reg_name_outside n : s32 n < 0 \/ NR_REGS <= s32 n -> get_reg_name true n = Crash OutOfBounds.
Proof.
  intros Hn. unfold get_reg_name, string_at. destruct (Z.ltb_spec (s32 n) 0); [reflexivity|].
  rewrite lookup_ge_None_2; [reflexivity|]. unfold NR_REGS in Hn. simpl length. lia.
Qed.

(** ** The test of the cache *)

Section test.
Context `{H : Hash}.

Lemma entries_none {A} (t : list (list A)) : concat t = [] -> t = replicate (length t) [].
Proof. induction t as [|l t IH]; [reflexivity|]. simpl. intros [-> E]%app_eq_nil. f_equal. apply IH, E. Qed.

(** A table in which nothing can be found is empty. *)
Lemma found_none c : wf_cache c -> (forall pc, lookup_pc c pc = None) -> buckets c = ht_empty HASH_SIZE.
Proof.
  intros W N. unfold ht_empty. rewrite <- (wt_size _ _ _ _ W). apply entries_none.
  destruct (concat (buckets c)) as [|e l] eqn:E; [reflexivity|exfalso].
  assert (Hin : e ∈ concat (buckets c)) by (rewrite E; left). apply list_elem_of_In, in_concat in Hin as (b & Hb & He).
  apply list_elem_of_In, list_elem_of_lookup in Hb as [i Hi]. apply list_elem_of_In in He.
  specialize (N (entry_pc e)). unfold lookup_pc, unw_cache_find_entry, ht_find, ht_bucket in N.
  rewrite (wt_home _ _ _ _ W i b e Hi He), nth_lookup, Hi in N. simpl in N.
  destruct (List.find _ b) eqn:Ef; [discriminate|].
  apply list_elem_of_In, (find_none _ _ Ef) in He. unfold has_key in He. lia.
Qed.

(** The blocks that the test allocates: the first insertion only when the key is
    new, the third only when the second had no memory. *)
Definition opt_block (a : option Z) : list Z := match a with Some a => [a] | None => [] end.
Definition test_blocks (c : unw_cache) (a1 a2 a3 : option Z) : list Z :=
  (match lookup_pc c test_key with Some _ => [] | None => opt_block a1 end) ++
  match a2 with Some a => [a] | None => opt_block a3 end.

Lemma owned_add_test c a : wf_cache c ->
  owned (unw_cache_add_entry c test_frame a) ≡ₚ
    (match lookup_pc c test_key with Some _ => [] | None => opt_block a end) ++ owned c.
Proof. intros W. rewrite (owned_add c test_frame a W). change (tf_pc test_frame) with test_key. destruct (lookup_pc c test_key), a; reflexivity. Qed.

Lemma cache_test_at d c a1 a2 a3 : wf_cache c ->
  let c' := fst (unw_cache_test d c a1 a2 a3) in
  buckets c' = buckets empty_cache /\ rcu_pending c' ≡ₚ test_blocks c a1 a2 a3 ++ owned c.
Proof.
  intros W c'. subst c'. unfold unw_cache_test. cbv zeta. cbn [fst].
  set (c1 := unw_cache_add_entry c test_frame a1). set (c2 := unw_cache_clear c1).
  set (c3 := unw_cache_add_entry c2 test_frame a2). set (c4 := unw_cache_add_entry c3 test_frame a3).
  assert (W1 : wf_cache c1) by (apply wf_add, W). assert (W2 : wf_cache c2) by (apply wf_clear, W1).
  assert (W3 : wf_cache c3) by (apply wf_add, W2). assert (W4 : wf_cache c4) by (apply wf_add, W3).
  assert (W5 : wf_cache (unw_cache_del_entry c4 test_key)) by (apply wf_del, W4).
  assert (B : buckets (unw_cache_del_entry c4 test_key) = buckets empty_cache).
  { apply found_none; [exact W5|]. intros pc. rewrite lookup_del by exact W4.
    destruct (decide (pc = test_key)) as [|Hne]; [reflexivity|].
    unfold c4, c3. rewrite !lookup_add by assumption. unfold c2. rewrite lookup_clear.
    change (tf_pc test_frame) with test_key. rewrite !decide_False by exact Hne. reflexivity. }
  split; [exact B|].
  assert (O : owned (unw_cache_del_entry c4 test_key) ≡ₚ test_blocks c a1 a2 a3 ++ owned c).
  { rewrite owned_del by exact W4. unfold c4. rewrite owned_add_test by exact W3. unfold c3 at 2.
    rewrite owned_add_test by exact W2. unfold c3. rewrite lookup_add by exact W2. unfold c2 at 1 2. rewrite lookup_clear.
    change (tf_pc test_frame) with test_key. rewrite decide_True by reflexivity.
    unfold c2. rewrite owned_clear. unfold c1. rewrite owned_add_test by exact W.
    unfold test_blocks. destruct a2; simpl; rewrite ?app_nil_r;
      (destruct (lookup_pc c test_key), a1, a3; simpl; solve_Permutation || reflexivity). }
  rewrite <- O. unfold owned, live. rewrite B. reflexivity.
Qed.

(** The addresses that the messages of the two searches show. *)
Definition find_shown (o : output) : option Z :=
  match o with
  | Printk fmt [AInt a] => if decide (fmt = "find_entry %p\n") then Some a else None
  | _ => None
  end.
Definition finds_shown (log : list output) : list Z := omap find_shown log.

Lemma finds_dbug d level func line fmt args : fmt <> "find_entry %p\n" -> finds_shown (dbug_unwind d level func line fmt args) = [].
Proof.
  intros Hf. unfold dbug_unwind, finds_shown. destruct (level <=? d); [|reflexivity].
  cbn [omap list_omap]. unfold find_shown. destruct args as [|[z|s] [|? ?]]; try reflexivity.
  rewrite decide_False by exact Hf. reflexivity.
Qed.

Lemma finds_found d line e : 3 <= d -> finds_shown (found_message d line e) = [match e with Some e => ce_addr e | None => 0 end].
Proof. intros Hd. unfold found_message, dbug_unwind. destruct (Z.leb_spec 3 d); [reflexivity|lia]. Qed.

Lemma finds_dump d c : finds_shown (unw_cache_dump d c) = [].
Proof.
  unfold unw_cache_dump. induction (entries_of (buckets c)) as [|e l IH]; [reflexivity|]. cbn [flat_map].
  unfold finds_shown in *. rewrite omap_app, IH. fold (finds_shown (dbug_unwind d 3 "unw_cache_dump" 101 "dump cache_entry %p\n " [AInt (ce_addr e)])).
  rewrite finds_dbug by discriminate. reflexivity.
Qed.

Lemma finds_add d c f a : finds_shown (add_entry_messages d c f a) = [].
Proof. unfold add_entry_messages. destruct (unw_cache_find_entry c (tf_pc f)), a; try apply finds_dbug; (discriminate || reflexivity). Qed.

Lemma find_added c a : wf_cache c -> lookup_pc c test_key = None ->
  unw_cache_find_entry (unw_cache_add_entry c test_frame a) test_key = match a with Some a => Some (mk_entry a test_frame) | None => None end.
Proof.
  intros W N. unfold lookup_pc in N. apply fmap_None in N. unfold unw_cache_add_entry. change (tf_pc test_frame) with test_key.
  rewrite N. destruct a as [a|]; [|exact N]. unfold unw_cache_find_entry. cbn [buckets].
  rewrite (ht_find_add _ _ HASH_SIZE) by auto using bucket_of_range. rewrite decide_True by reflexivity. reflexivity.
Qed.

Lemma cache_test_finds d c a1 a2 a3 : wf_cache c -> lookup_pc c test_key = None -> 3 <= d ->
  finds_shown (snd (unw_cache_test d c a1 a2 a3)) = [match a1 with Some a => a | None => 0 end; 0].
Proof.
  intros W N Hd. unfold unw_cache_test. cbv zeta. cbn [snd]. unfold finds_shown. rewrite !omap_app.
  repeat match goal with |- context [omap find_shown ?l] => change (omap find_shown l) with (finds_shown l) end.
  rewrite !finds_dump, !finds_add, !finds_found, !finds_dbug by (exact Hd || discriminate).
  rewrite find_added by assumption.
  assert (N2 : unw_cache_find_entry (unw_cache_clear (unw_cache_add_entry c test_frame a1)) test_key = None)
    by (apply (fmap_None ce_frame), lookup_clear).
  rewrite N2. destruct a1; reflexivity.
Qed.

(** C40: The test that a debug build runs when the proc file is opened, whichever of its
    three allocations fail: its first search finds the entry it has inserted, its
    second, after the clear, finds none; it leaves the table as a build without it
    has it, empty, and every entry it has allocated, or found in the table, is queued
    exactly once for freeing. *)
Theorem unw_cache_test_restores d c a1 a2 a3 : wf_cache c ->
  let '(c', log) := unw_cache_test d c a1 a2 a3 in
  buckets c' = buckets empty_cache /\ rcu_pending c' ≡ₚ test_blocks c a1 a2 a3 ++ owned c /\
  (lookup_pc c test_key = None -> 3 <= d -> finds_shown log = [match a1 with Some a => a | None => 0 end; 0]).
Proof.
  intros W. pose proof (cache_test_at d c a1 a2 a3 W) as [B O]. pose proof (cache_test_finds d c a1 a2 a3 W) as F.
  destruct (unw_cache_test d c a1 a2 a3) as [c' log]. auto.
Qed.
End test.

(** The file is opened and the first allocation fails. *)
Definition test_hash : Hash := {| hash_bucket := fun pc => pc |}.

Lemma unw_cache_test_restores_witness :
  let '(c', log) := unw_cache_test (H := test_hash) 3 empty_cache None (Some 0xE000) (Some 0xE100) in
  buckets c' = buckets empty_cache /\ rcu_pending c' ≡ₚ [0xE000] /\ finds_shown log = [0; 0].
Proof.
  destruct (unw_cache_test_restores (H := test_hash) 3 empty_cache None (Some 0xE000) (Some 0xE100) wf_empty_cache)
    as (B & O & F).
  split; [exact B|]. split; [exact O|]. apply F; [apply lookup_pc_empty|lia].
Defined.
