(* ===== verification/StepSpec.v ===== *)
(** * What a step of the unwinder computes

    The caller's registers as the DWARF rules define them, and the two paths of
    [__unwind_frame] against that definition: the standard frame and the general
    one. *)
From S2P Require Import Prelude Machine Leb128 EncodedPtr Regs Rules Cfi CfiSpec Expr KModule.
From S2P Require Import FdeCie EhFrameHdr EhFrameHdrSpec Cache Step.

Section caller.
Context `{K : Kernel}.
Variable compat : bool.

(** A word of the unwound stack; a 32-bit task keeps its low half. *)
Definition read_user (a : Z) : option Z :=
  v ← _stp_read_address 8 8 a USER_DS; Some (if compat then Z.land v 0xFFFFFFFF else v).

(** The caller's value of register [r]. *)
Definition caller_value (f : unwind_frame_info) (cfa r : Z) (ru : rule) : option Z :=
  match ru with
  | RSame => match FRAME_REG f r with Ok v => Some v | Crash _ => None end
  | ROffset o => read_user (u64 (cfa + o))
  | RValOffset o => Some (u64 (cfa + o))
  | RRegister r' => match FRAME_REG f r' with Ok v => Some v | Crash _ => None end
  | RUndefined | RExpr _ | RValExpr _ => None
  end.

Definition rule_of (rw : row) (r : Z) : rule := nth (Z.to_nat r) (row_rules rw) RSame.

Definition caller_cfa (rw : row) (f : unwind_frame_info) : option Z :=
  match row_cfa rw with
  | CfaReg r o => match FRAME_REG f r with Ok v => Some (u64 (v + o)) | Crash _ => None end
  | CfaExpr _ => None
  end.

(** Program counter, stack pointer and frame pointer of the caller. The stack
    pointer is the CFA unless a rule says where it is saved; an undefined frame
    pointer keeps its value. *)
Definition caller_frame (rw : row) (f : unwind_frame_info) : option (Z * Z * Z) :=
  cfa ← caller_cfa rw f;
  pc ← caller_value f cfa UNW_PC_IDX (rule_of rw UNW_PC_IDX);
  sp ← match rule_of rw RSP with
       | RSame | RUndefined => Some cfa
       | ru => caller_value f cfa RSP ru
       end;
  bp ← match rule_of rw RBP with
       | RUndefined => Some (UNW_BP f)
       | ru => caller_value f cfa RBP ru
       end;
  Some (pc, sp, bp).

(** [f'] is [f] with new program counter, stack pointer and frame pointer. *)
Definition frame_becomes (f f' : unwind_frame_info) (pc sp bp : Z) : Prop :=
  UNW_PC f' = pc /\ UNW_SP f' = sp /\ UNW_BP f' = bp /\ call_frame f' = call_frame f /\
  wf_frame f' /\
  forall o, o <> PT_IP -> o <> PT_SP -> o <> PT_BP -> word f' o = word f o.

(** A row the fast path handles. *)
Definition standard_row (rw : row) : Prop :=
  (exists r o, row_cfa rw = CfaReg r o /\ (r = RBP \/ r = RSP)) /\
  rule_of rw UNW_PC_IDX = ROffset (-8) /\
  (forall r, r = RSP \/ r = RBP ->
     rule_of rw r = RUndefined \/ rule_of rw r = RSame \/ exists o, rule_of rw r = ROffset o).

Lemma rule_of_abs st r :
  wf_state st -> 0 <= r < NR_REGS -> rule_of (abs_row (REG_STATE st)) r = abs_item (reg_item st r).
Proof.
  unfold NR_REGS. intros W Hr. unfold rule_of, reg_item. simpl. rewrite !nth_lookup, list_lookup_fmap.
  destruct (wf_REG_STATE st W) as (_ & _ & Hl & _).
  destruct (lookup_lt_is_Some_2 (rs_regs (REG_STATE st)) (Z.to_nat r)) as [i ->]; [lia|]. reflexivity.
Qed.

Lemma simple_where_rule i :
  simple_where (where_ i) = true ->
  abs_item i = RUndefined \/ abs_item i = RSame \/ exists o, abs_item i = ROffset o.
Proof. unfold abs_item. destruct (where_ i); try discriminate; eauto. Qed.

Lemma check_standard_frame_row st :
  wf_state st -> check_standard_frame st = true -> standard_row (abs_row (REG_STATE st)).
Proof.
  intros W E. unfold check_standard_frame in E. rewrite !andb_true_iff in E.
  destruct E as [[[[[E1 E2] E3] E4] E5] E6]. apply bool_decide_eq_true in E3.
  split; [|split].
  - exists (cfa_reg (REG_STATE st)), (s64 (cfa_off (REG_STATE st))). simpl. unfold abs_cfa.
    destruct (cfa_is_expr _); [discriminate|]. split; [reflexivity|]. lia.
  - rewrite rule_of_abs by (exact W || unfold UNW_PC_IDX, NR_REGS; lia).
    unfold abs_item. rewrite E3. f_equal. lia.
  - intros r [-> | ->]; (rewrite rule_of_abs by (exact W || unfold RSP, RBP, NR_REGS; lia));
      apply simple_where_rule; assumption.
Qed.

(** ** The fast path *)

Lemma read_user_range a v : read_user a = Some v -> is_u64 v.
Proof.
  unfold read_user, _stp_read_address, is_u64. destruct (access_ok _ _ _); [|discriminate].
  destruct (get_user _ _) as [w|]; [|discriminate]. cbn [mbind option_bind]. intros [= <-].
  pose proof (Z.mod_pos_bound w (2 ^ (8 * 8)) ltac:(lia)). simpl in *.
  destruct compat; [|lia]. change 0xFFFFFFFF with (Z.ones 32). rewrite Z.land_ones by lia.
  pose proof (Z.mod_pos_bound (w mod 2 ^ (8 * 8)) (2 ^ 32) ltac:(lia)). simpl in *. lia.
Qed.

Lemma read_or_range (c : bool) a d v :
  is_u64 d -> (if c then read_user a else Some d) = Some v -> is_u64 v.
Proof. intros Hd. destruct c; [apply read_user_range|intros [= <-]; exact Hd]. Qed.

(** [restore_reg_from_memory] on a register of the table. *)
Lemma restore_reg_read f r a o :
  reg_info_at r = Some (o, 8) ->
  restore_reg_from_memory f r a compat true =
    Ok (match read_user a with Some v => (set_word f o v, true) | None => (f, false) end).
Proof.
  intros Er. unfold restore_reg_from_memory, read_user, set_FRAME_REG. rewrite Er.
  destruct (_stp_read_address 8 8 a USER_DS); reflexivity.
Qed.

Lemma frame_reg_cfa f r : r = RBP \/ r = RSP -> FRAME_REG f r = Ok (word f (if r =? RBP then PT_BP else PT_SP)).
Proof. intros [-> | ->]; reflexivity. Qed.

Lemma word_length f o v : length (fr_regs (set_word f o v)) = length (fr_regs f).
Proof. apply length_insert. Qed.

Ltac words :=
  unfold UNW_PC, UNW_SP, UNW_BP, PT_IP, PT_SP, PT_BP in *;
  repeat first
    [ rewrite word_set_eq by (rewrite ?word_length; lia)
    | rewrite word_set_ne by (discriminate || lia) ].

Lemma frame_becomes_set f pc sp bp :
  wf_frame f -> is_u64 pc -> is_u64 sp -> is_u64 bp ->
  frame_becomes f (set_word (set_word (set_word f PT_BP bp) PT_SP sp) PT_IP pc) pc sp bp.
Proof.
  intros W Hp Hs Hb. assert (L : length (fr_regs f) = 21%nat) by apply W.
  split_and!; try reflexivity.
  - words. reflexivity.
  - words. reflexivity.
  - words. reflexivity.
  - auto using wf_set_word.
  - intros o H1 H2 H3. unfold PT_IP, PT_SP, PT_BP in *. rewrite !word_set_ne by congruence. reflexivity.
Qed.

(** Restoring a register that keeps its value changes nothing. *)
Lemma set_word_same f o : (o < length (fr_regs f))%nat -> set_word f o (word f o) = f.
Proof.
  intros Ho. destruct f as [l c]. unfold set_word, word. simpl in *. f_equal.
  apply list_insert_id. rewrite nth_lookup.
  destruct (lookup_lt_is_Some_2 l o Ho) as [v ->]. reflexivity.
Qed.

Lemma item_offset_add cfa i : u64 (cfa + s64 (state_ i)) = u64 (cfa + item_off i).
Proof. reflexivity. Qed.

(** What the fast path reads from its two items, against the rules. *)
Lemma caller_bp_item f cfa i :
  simple_where (where_ i) = true ->
  match abs_item i with RUndefined => Some (UNW_BP f) | ru => caller_value f cfa RBP ru end =
  if bool_decide (where_ i = Memory) then read_user (u64 (cfa + s64 (state_ i)))
  else Some (UNW_BP f).
Proof. unfold abs_item. destruct (where_ i); intros [=]; reflexivity. Qed.

Lemma caller_sp_item f cfa i :
  simple_where (where_ i) = true ->
  match abs_item i with RSame | RUndefined => Some cfa | ru => caller_value f cfa RSP ru end =
  if bool_decide (where_ i = Memory) then read_user (u64 (cfa + s64 (state_ i))) else Some cfa.
Proof. unfold abs_item. destruct (where_ i); intros [=]; reflexivity. Qed.

(** Each of the two conditional restores writes the value of the rule. *)
Lemma restore_item f r o cfa i (other : Z) (m : C (unwind_frame_info * bool)) :
  reg_info_at r = Some (o, 8) -> m = Ok (set_word f o other, true) ->
  (if bool_decide (ti_where (save_tdep_frame i) = Memory)
   then restore_tdep f r cfa (save_tdep_frame i) compat true else m) =
  Ok (match (if bool_decide (where_ i = Memory) then read_user (u64 (cfa + s64 (state_ i)))
             else Some other) with
      | Some v => (set_word f o v, true)
      | None => (f, false)
      end).
Proof.
  intros Er ->. simpl. destruct (bool_decide (where_ i = Memory)); [|reflexivity].
  unfold restore_tdep. rewrite (restore_reg_read f r _ o Er). reflexivity.
Qed.

Lemma standard_cfa st f :
  wf_frame f -> cfa_is_expr (REG_STATE st) = false ->
  cfa_reg (REG_STATE st) = RBP \/ cfa_reg (REG_STATE st) = RSP ->
  exists base cfa, FRAME_REG f (s32 (cfa_reg (REG_STATE st))) = Ok base /\
    u64 (base + s64 (cfa_off (REG_STATE st))) = cfa /\
    caller_cfa (abs_row (REG_STATE st)) f = Some cfa.
Proof.
  intros W Ex Hr. unfold caller_cfa. simpl. unfold abs_cfa. rewrite Ex.
  destruct Hr as [-> | ->]; eexists _, _; (split; [reflexivity|split; reflexivity]).
Qed.

Lemma apply_standard_entry st f pc0 ra :
  wf_state st -> wf_frame f -> check_standard_frame st = true ->
  match caller_frame (abs_row (REG_STATE st)) f with
  | Some (pc, sp, bp) =>
      apply_tdep_state f (standard_entry pc0 st ra) compat true =
        Ok (set_word (set_word (set_word f PT_BP bp) PT_SP sp) PT_IP pc, true) /\
      is_u64 pc /\ is_u64 sp /\ is_u64 bp
  | None => exists f', apply_tdep_state f (standard_entry pc0 st ra) compat true = Ok (f', false)
  end.
Proof.
  intros Ws Wf E. pose proof E as Erow. apply check_standard_frame_row in Erow; [|exact Ws].
  destruct Erow as (_ & Hpc & _).
  unfold check_standard_frame in E. rewrite !andb_true_iff in E.
  destruct E as [[[[[E1 E2] E3] E4] E5] E6].
  clear E3 E4.
  destruct (standard_cfa st f Wf) as (base & cfa & Eb & Ec & Ecfa);
    [apply negb_true_iff; exact E1|lia|].
  unfold caller_frame. rewrite Ecfa, Hpc. cbn [mbind option_bind].
  change (caller_value f cfa UNW_PC_IDX (ROffset (-8))) with (read_user (u64 (cfa - 8))).
  assert (R : forall r, 0 <= r < NR_REGS ->
    rule_of (abs_row (REG_STATE st)) r = abs_item (reg_item st r)) by (intros; apply rule_of_abs; assumption).
  rewrite (R RSP), (R RBP) by (unfold RSP, RBP, NR_REGS; lia). clear R.
  unfold apply_tdep_state. unfold standard_entry at 1 2. simpl (ti_reg _). simpl (ti_off _).
  rewrite Eb. cbn [mbind C_bind]. rewrite Ec. simpl tf_rbp. simpl tf_rsp.
  assert (Hsame : Ok (f, true) = Ok (set_word f PT_BP (UNW_BP f), true)).
  { unfold UNW_BP. rewrite set_word_same; [reflexivity|]. destruct Wf as [-> _]. unfold PT_BP, PT_WORDS. lia. }
  rewrite (restore_item f RBP PT_BP cfa (reg_item st RBP) (UNW_BP f) _ eq_refl Hsame). clear Hsame.
  rewrite (caller_bp_item f cfa _ E6), (caller_sp_item f cfa _ E5).
  assert (Hc : is_u64 cfa) by (rewrite <- Ec; apply is_u64_u64).
  pose proof (fun b => read_or_range (bool_decide (where_ (reg_item st RBP) = Memory))
    (u64 (cfa + s64 (state_ (reg_item st RBP)))) (UNW_BP f) b (word_range f PT_BP Wf)) as Hb.
  pose proof (fun s => read_or_range (bool_decide (where_ (reg_item st RSP) = Memory))
    (u64 (cfa + s64 (state_ (reg_item st RSP)))) cfa s Hc) as Hs.
  set (mb := if bool_decide (where_ (reg_item st RBP) = Memory) then _ else _) in *.
  set (ms := if bool_decide (where_ (reg_item st RSP) = Memory) then _ else _) in *.
  destruct mb as [bp|]; cbn [mbind C_bind option_bind negb];
    [|destruct (read_user (u64 (cfa - 8))); [destruct ms|]; cbn [mbind option_bind]; eauto].
  match goal with |- context [if bool_decide _ then restore_tdep ?g _ _ _ _ _ else ?m] =>
    rewrite (restore_item g RSP PT_SP cfa (reg_item st RSP) cfa m eq_refl eq_refl) end. fold ms.
  destruct ms as [sp|]; cbn [mbind C_bind option_bind negb];
    [|destruct (read_user (u64 (cfa - 8))); cbn [mbind option_bind]; eauto].
  rewrite (restore_reg_read _ UNW_PC_IDX _ PT_IP eq_refl).
  destruct (read_user (u64 (cfa - 8))) as [pc|] eqn:Ep; cbn [mbind option_bind]; [|eauto].
  apply read_user_range in Ep. split_and!; auto.
Qed.

(** C16: When the rules found for a frame are standard, applying them to it gives
    exactly what DWARF describes of the caller in these three: its program counter, its stack pointer
    and its frame pointer, every other word unchanged; and it fails exactly when
    one of these values cannot be read from the stack. *)
Theorem fast_path_caller st f pc0 ra :
  wf_state st -> wf_frame f -> check_standard_frame st = true ->
  match caller_frame (abs_row (REG_STATE st)) f with
  | Some (pc, sp, bp) =>
      exists f', apply_tdep_state f (standard_entry pc0 st ra) compat true = Ok (f', true) /\
        frame_becomes f f' pc sp bp
  | None => exists f', apply_tdep_state f (standard_entry pc0 st ra) compat true = Ok (f', false)
  end.
Proof.
  intros Ws Wf E. pose proof (apply_standard_entry st f pc0 ra Ws Wf E) as A.
  destruct (caller_frame _ f) as [[[pc sp] bp]|]; [|exact A].
  destruct A as (A & Hp & Hs & Hb). eexists. split; [exact A|]. apply frame_becomes_set; assumption.
Qed.

End caller.

(** ** The call-frame bit does not matter to the registers *)

Lemma set_FRAME_REG_call f c r v :
  set_FRAME_REG (set_call_frame f c) r v =
    (f' ← set_FRAME_REG f r v; Ok (set_call_frame f' c)).
Proof. unfold set_FRAME_REG. destruct (reg_info_at r) as [[o w]|]; reflexivity. Qed.

(** The same result on a frame that differs in that bit. *)
Definition with_call (c : Z) (m : C (unwind_frame_info * bool)) : C (unwind_frame_info * bool) :=
  '(f, ok) ← m; Ok (set_call_frame f c, ok).

Section call_frame.
Context `{K : Kernel}.

Lemma restore_reg_call f c r a compat user :
  restore_reg_from_memory (set_call_frame f c) r a compat user =
    with_call c (restore_reg_from_memory f r a compat user).
Proof.
  unfold restore_reg_from_memory, with_call. destruct (_stp_read_address _ _ _ _); [|reflexivity].
  rewrite set_FRAME_REG_call. destruct (set_FRAME_REG f r _); reflexivity.
Qed.

Lemma apply_tdep_call f c e compat user :
  apply_tdep_state (set_call_frame f c) e compat user = with_call c (apply_tdep_state f e compat user).
Proof.
  unfold apply_tdep_state, restore_tdep.
  change (FRAME_REG (set_call_frame f c)) with (FRAME_REG f).
  destruct (FRAME_REG f _) as [base|]; [|reflexivity]. cbn [mbind C_bind].
  assert (R : forall g r a (b : bool),
    (if b then restore_reg_from_memory (set_call_frame g c) r a compat user
     else Ok (set_call_frame g c, true)) =
    with_call c (if b then restore_reg_from_memory g r a compat user else Ok (g, true))).
  { intros g r a []; [apply restore_reg_call|reflexivity]. }
  rewrite R. clear R.
  destruct (if bool_decide (ti_where (tf_rbp e) = Memory) then _ else _) as [[g ok]|]; [|reflexivity].
  cbn [with_call mbind C_bind]. destruct ok; [|reflexivity]. cbn [negb].
  rewrite set_FRAME_REG_call, restore_reg_call.
  assert (R : forall (b : bool) (m : C (unwind_frame_info * bool)) (n : C unwind_frame_info),
    (if b then with_call c m else f' ← (f' ← n; Ok (set_call_frame f' c)); Ok (f', true)) =
    with_call c (if b then m else f' ← n; Ok (f', true))).
  { intros [] m n; [reflexivity|]. destruct n; reflexivity. }
  rewrite R. clear R.
  destruct (if bool_decide (ti_where (tf_rsp e) = Memory) then _ else _) as [[h ok]|]; [|reflexivity].
  cbn [with_call mbind C_bind]. destruct ok; [|reflexivity]. cbn [negb]. apply restore_reg_call.
Qed.
End call_frame.

(** ** A second visit of the same program counter *)

Section cached.
Context `{K : Kernel} {T : Type} `{FC : !FrameCache T}.

Definition frame_pc (cx : unwind_context) : Z := u64 (UNW_PC (cx_info cx) - call_frame (cx_info cx)).

(** The stack words a cached entry restores a frame from: the return address, and
    the saved frame and stack pointers. *)
Definition entry_slot (f : unwind_frame_info) (e : tdep_frame) (a : Z) : Prop :=
  exists base, FRAME_REG f (ti_reg (tf_cfa e)) = Ok base /\
    let cfa := u64 (base + ti_off (tf_cfa e)) in
    a = u64 (cfa - 8) \/
    (ti_where (tf_rbp e) = Memory /\ a = u64 (cfa + ti_off (tf_rbp e))) \/
    (ti_where (tf_rsp e) = Memory /\ a = u64 (cfa + ti_off (tf_rsp e))).

(** Applying an entry fails only where one of them cannot be read. *)
Lemma apply_tdep_unread f e compat g : apply_tdep_state f e compat true = Ok (g, false) ->
  exists a, entry_slot f e a /\ _stp_read_address 8 8 a USER_DS = None.
Proof.
  unfold apply_tdep_state, restore_tdep, entry_slot. intros E. apply bind_Ok in E as (base & Eb & E). rewrite Eb.
  assert (R : forall h r o b k, reg_info_at r = Some (o, 8) ->
    restore_reg_from_memory h r b compat true = Ok (k, false) -> _stp_read_address 8 8 b USER_DS = None).
  { intros h r o b k Er Ek. rewrite (restore_reg_read compat h r b o Er) in Ek. unfold read_user in Ek.
    destruct (_stp_read_address 8 8 b USER_DS); [discriminate|reflexivity]. }
  cbv zeta in E |- *. set (cfa := u64 (base + _)) in *. apply bind_Ok in E as ([h ok] & Eh & E). destruct ok.
  - cbn [negb] in E. apply bind_Ok in E as ([k ok] & Ek & E). destruct ok.
    + cbn [negb] in E. exists (u64 (cfa - 8)). split; [eauto|]. exact (R _ UNW_PC_IDX PT_IP _ _ eq_refl E).
    + destruct (bool_decide_reflect (ti_where (tf_rsp e) = Memory)) as [Hw|]; [|apply bind_Ok in Ek as (? & _ & Ek); discriminate Ek].
      exists (u64 (cfa + ti_off (tf_rsp e))). split; [eauto 8|]. exact (R _ RSP PT_SP _ _ eq_refl Ek).
  - destruct (bool_decide_reflect (ti_where (tf_rbp e) = Memory)) as [Hw|]; [|discriminate Eh].
    exists (u64 (cfa + ti_off (tf_rbp e))). split; [eauto 8|]. exact (R _ RBP PT_BP _ _ eq_refl Eh).
Qed.

(** A step that changes the cache went through the standard frame. *)
Lemma step_stored cx (mods : kunwind_proc_modules) m compat alloc r f mods' :
  fc_inv (mods_cache mods) ->
  __unwind_frame cx mods m compat alloc = Ok (r, f, mods') ->
  fc_find (mods_cache mods) (frame_pc cx) = None ->
  fc_find (mods_cache mods') (frame_pc cx) <> None ->
  ((sec_size (ehf m) =? 0) || flag (sec_size (ehf m)) 3) = false /\
  exists entry c, fc_find (mods_cache mods') (frame_pc cx) = Some entry /\
    (apply_tdep_state (set_call_frame (cx_info cx) c) entry compat true = Ok (f, true) /\
       r = entry_result entry \/
     exists g, apply_tdep_state (set_call_frame (cx_info cx) c) entry compat true = Ok (g, false)).
Proof.
  intros Hinv E Hnone Hsome. unfold __unwind_frame in E. fold (frame_pc cx) in E.
  destruct (_ || _); [injection E as <- <- <-; congruence|]. split; [reflexivity|].
  rewrite Hnone in E. apply bind_Ok in E as (l & _ & E).
  destruct l as [ret|p sl el]; [injection E as <- <- <-; congruence|].
  apply bind_Ok in E as ([st|] & _ & E); [|injection E as <- <- <-; congruence].
  destruct (check_standard_frame st).
  2: { apply bind_Ok in E as ([r' f'] & _ & E). injection E as <- <- <-. congruence. }
  set (entry := standard_entry (frame_pc cx) st (p_retAddrReg p)) in *.
  assert (Ef : fc_find (mods_cache (set_cache mods (fc_add (mods_cache mods) entry alloc)))
    (frame_pc cx) =
    match alloc with Some _ => Some entry | None => None end).
  { simpl. rewrite fc_find_add, Hnone by exact Hinv. rewrite decide_True by reflexivity. reflexivity. }
  apply bind_Ok in E as ([g ok] & Ea & E). destruct ok.
  - injection E as <- <- <-. rewrite Ef in *. destruct alloc; [|congruence]. eauto 8.
  - apply bind_Ok in E as ([r' f'] & _ & E). injection E as <- <- <-.
    rewrite Ef in *. destruct alloc; [|congruence]. eauto 8.
Qed.

(** C19: A frame found in the cache is unwound as it was when its rules were computed
    from the debug information: the same result and the same registers; only the
    call-frame bit is not set again. The exception is a frame of whose saved words
    one cannot be read: the cached rules then give [-EIO] at once, where the first
    visit went on to the general path. *)
Theorem cached_step_agrees cx (mods : kunwind_proc_modules) m compat alloc r f mods' stub alloc' :
  fc_inv (mods_cache mods) ->
  __unwind_frame cx mods m compat alloc = Ok (r, f, mods') ->
  fc_find (mods_cache mods) (frame_pc cx) = None ->
  fc_find (mods_cache mods') (frame_pc cx) <> None ->
  exists entry r' f', fc_find (mods_cache mods') (frame_pc cx) = Some entry /\
    __unwind_frame (mk_context (cx_info cx) stub) mods' m compat alloc' = Ok (r', f', mods') /\
    (r' = r /\ fr_regs f' = fr_regs f /\ call_frame f' = call_frame (cx_info cx) \/
     r' = - EIO /\ exists a, entry_slot (cx_info cx) entry a /\ _stp_read_address 8 8 a USER_DS = None).
Proof.
  intros Hinv E Hnone Hsome.
  destruct (step_stored cx mods m compat alloc r f mods' Hinv E Hnone Hsome)
    as (Hg & entry & c & Hfind & Ha). exists entry.
  unfold __unwind_frame. simpl cx_info. fold (frame_pc cx). rewrite Hg, Hfind.
  rewrite apply_tdep_call in Ha.
  pose proof (apply_tdep_call (cx_info cx) (call_frame (cx_info cx)) entry compat true) as Hc.
  replace (set_call_frame (cx_info cx) (call_frame (cx_info cx))) with (cx_info cx) in Hc
    by (destruct (cx_info cx); reflexivity).
  destruct (apply_tdep_state (cx_info cx) entry compat true) as [[g ok]|crash] eqn:Eg.
  - injection Hc as Hc. eexists _, _. split; [reflexivity|]. split; [reflexivity|].
    destruct Ha as [[[= <- ->] ->]|(h & [= <- ->])]; [left; rewrite Hc; auto|right].
    split; [reflexivity|]. eapply apply_tdep_unread, Eg.
  - destruct Ha as [[Ha _]|[h Ha]]; discriminate.
Qed.
End cached.

(** ** A stack under the loaded module

    The demo module stopped in its first function, after the frame pointer has
    been pushed: two words of user stack at 0x7ff0, the saved %rbp and the return
    address, and the frame of the second function above them. *)

Definition lib_stack : list Z :=
  le_bytes 8 0x8100 ++ le_bytes 8 0x401060 ++ repeat 0 24 ++ le_bytes 8 0x401080.
Definition lib_run : Kernel := image_kernel lib_images [(0x7ff0, lib_stack)].
Definition lib_frame : unwind_frame_info :=
  set_word (set_word (set_word (mk_frame (repeat 0 PT_WORDS) 1) PT_IP 0x401011) PT_SP 0x7ff0)
    PT_BP 0x9000.
Definition lib_context : unwind_context := mk_context lib_frame lib_frame.
#[export] Instance lib_hash : Hash := {| hash_bucket := fun pc => pc |}.
Definition lib_mods : kunwind_proc_modules := mk_mods [lib_module] empty_cache 0.

Lemma wf_frame_dec f :
  (length (fr_regs f) =? PT_WORDS)%nat && forallb (fun v => (0 <=? v) && (v <? 2 ^ 64)) (fr_regs f) &&
  (0 <=? call_frame f) && (call_frame f <=? 1) = true -> wf_frame f.
Proof.
  rewrite !andb_true_iff. intros [[[H1 H2] H3] H4]. apply Nat.eqb_eq in H1.
  rewrite forallb_forall in H2. split; [exact H1|]. split; [|lia].
  apply Forall_forall. intros v Hv. apply list_elem_of_In in Hv. specialize (H2 v Hv). lia.
Qed.

(** The row of the demo program counter: CFA = %rsp + 16, %rip at -8, %rbp at -16. *)
Definition lib_row_state : unwind_state :=
  update_item (update_item (set_cfa_off (set_cfa_reg zero_state RSP) 16)
    UNW_PC_IDX (mk_item Memory (u64 (-8)))) RBP (mk_item Memory (u64 (-16))).

Lemma wf_lib_row_state : wf_state lib_row_state.
Proof.
  unfold lib_row_state. repeat first [apply wf_update_item | apply wf_set_cfa_off
    | apply wf_set_cfa_reg | apply wf_zero_state | apply u64_range | unfold RSP, is_u64; lia].
Qed.

Lemma fast_path_caller_witness :
  exists f', apply_tdep_state (K := lib_run) lib_frame (standard_entry 0x401010 lib_row_state 16)
      false true = Ok (f', true) /\
    frame_becomes lib_frame f' 0x401060 0x8000 0x8100.
Proof.
  apply (fast_path_caller (K := lib_run) false lib_row_state lib_frame 0x401010 16).
  - apply wf_lib_row_state.
  - apply wf_frame_dec. reflexivity.
  - reflexivity.
Defined.

Lemma cached_step_agrees_witness :
  exists r f mods', __unwind_frame (K := lib_run) lib_context lib_mods lib_module false (Some 1) =
      Ok (r, f, mods') /\
    exists entry r' f', fc_find (mods_cache mods') (frame_pc lib_context) = Some entry /\
      __unwind_frame (K := lib_run) (mk_context lib_frame lib_frame) mods' lib_module false None = Ok (r', f', mods') /\
    (r' = r /\ fr_regs f' = fr_regs f /\ call_frame f' = 1 \/
     r' = - EIO /\ exists a, entry_slot lib_frame entry a /\ _stp_read_address (K := lib_run) 8 8 a USER_DS = None).
Proof.
  destruct (__unwind_frame (K := lib_run) lib_context lib_mods lib_module false (Some 1))
    as [[[r f] mods']|] eqn:E; [|exfalso; vm_compute in E; discriminate].
  exists r, f, mods'. split; [reflexivity|].
  apply (cached_step_agrees (K := lib_run) lib_context lib_mods lib_module false (Some 1) r f mods'
    lib_frame None).
  - apply wf_empty_cache.
  - exact E.
  - vm_compute. reflexivity.
  - assert (E' : match __unwind_frame (K := lib_run) lib_context lib_mods lib_module false (Some 1) with
      | Ok (_, _, m) => bool_decide (fc_find (mods_cache m) (frame_pc lib_context) = None)
      | Crash _ => true end = false) by (vm_compute; reflexivity).
    rewrite E in E'. apply bool_decide_eq_false in E'. exact E'.
Defined.
