(* ===== verification/SlowPathSpec.v ===== *)
(** * The general path

    What the part of [__unwind_frame] after the label [slow_path] does to a
    frame whose rules are not expressions, where it agrees with the fast path,
    and when it accepts the frame it has built. *)
From S2P Require Import Prelude Machine Leb128 EncodedPtr Regs Rules Cfi CfiSpec Expr KModule.
From S2P Require Import FdeCie EhFrameHdr EhFrameHdrSpec Cache Step StepSpec.

(** The value of a DWARF register of a frame. *)
Definition regval (f : unwind_frame_info) (r : Z) : Z :=
  match FRAME_REG f r with Ok v => v | Crash _ => 0 end.

Lemma FRAME_REG_regval f r : 0 <= r < NR_REGS -> FRAME_REG f r = Ok (regval f r).
Proof. intros Hr. unfold regval. destruct (FRAME_REG_valid f r Hr) as [v ->]. reflexivity. Qed.

Lemma regval_range f r : wf_frame f -> is_u64 (regval f r).
Proof.
  intros W. unfold regval. destruct (FRAME_REG f r) eqn:E; [eapply FRAME_REG_range; eassumption|].
  unfold is_u64. lia.
Qed.

(** Assignment to a register of the table. *)
Lemma set_reg_valid f r v :
  0 <= r < NR_REGS -> wf_frame f -> is_u64 v ->
  exists f', set_FRAME_REG f r v = Ok f' /\ wf_frame f' /\ call_frame f' = call_frame f /\
    forall r', regval f' r' = if r' =? r then v else regval f r'.
Proof.
  intros Hr W Hv. destruct (reg_info_at_valid r Hr) as [o Eo].
  assert (E : set_FRAME_REG f r v = Ok (set_word f o v)) by (unfold set_FRAME_REG; rewrite Eo; reflexivity).
  eexists. split; [exact E|]. split; [apply wf_set_word; assumption|]. split; [reflexivity|].
  intros r'. unfold regval. rewrite (FRAME_REG_set f r r' v _ W E). destruct (_ =? _); reflexivity.
Qed.

Lemma u64_add_s64_r a b : u64 (a + s64 b) = u64 (a + b).
Proof. rewrite <- u64_add_r, u64_s64, u64_add_r. reflexivity. Qed.

Section slow.
Context `{K : Kernel}.
Variable compat : bool.

(** ** The values the path assigns *)

(** The stack pointer is the CFA whatever its rule; a register that is not
    saved becomes 0; one whose slot cannot be read keeps its value. *)
Definition slow_value (f : unwind_frame_info) (cfa r : Z) (ru : rule) : Z :=
  if r =? RSP then cfa
  else match ru with
  | RSame | RExpr _ | RValExpr _ => regval f r
  | RUndefined => 0
  | ROffset o => match read_user compat (u64 (cfa + o)) with Some v => v | None => regval f r end
  | RValOffset o => u64 (cfa + o)
  | RRegister r' => regval f r'
  end.

(** A rule without an expression, whose register is one of the table. *)
Definition plain_rule (ru : rule) : Prop :=
  match ru with
  | RExpr _ | RValExpr _ => False
  | RRegister r => 0 <= r < NR_REGS
  | _ => True
  end.

Definition plain_row (rw : row) : Prop :=
  (exists r o, row_cfa rw = CfaReg r o /\ 0 <= r < NR_REGS /\ o mod 4 = 0) /\
  forall r, 0 <= r < NR_REGS -> plain_rule (rule_of rw r).

Lemma REG_INVALID_valid r : 0 <= r < NR_REGS -> REG_INVALID r = Ok false /\ reg_width r = Ok 8.
Proof.
  intros Hr. unfold REG_INVALID, reg_width. destruct (reg_info_at_valid r Hr) as [o ->]. auto.
Qed.

Lemma compute_cfa_plain st f :
  wf_state st -> plain_row (abs_row (REG_STATE st)) ->
  exists cfa, compute_cfa st f true compat = Ok (Some cfa) /\ is_u64 cfa /\
    caller_cfa (abs_row (REG_STATE st)) f = Some cfa.
Proof.
  intros W ((r & o & Ec & Hr & Ho) & _). simpl in Ec. unfold abs_cfa in Ec.
  destruct (cfa_is_expr (REG_STATE st)) eqn:Ex; [discriminate|]. injection Ec as <- Eo.
  unfold compute_cfa, caller_cfa. simpl row_cfa. unfold abs_cfa. rewrite Ex.
  destruct (Z.leb_spec NR_REGS (cfa_reg (REG_STATE st))); [lia|].
  destruct (REG_INVALID_valid _ Hr) as [_ ->]. cbn [mbind C_bind].
  assert (Hm : cfa_off (REG_STATE st) mod 4 = 0).
  { rewrite <- Eo in Ho. destruct (wf_REG_STATE st W) as (_ & Hu & _). unfold is_u64 in Hu. word_lia. }
  rewrite Hm. cbn [negb orb Z.eqb]. rewrite (FRAME_REG_regval f _ Hr). cbn [mbind C_bind].
  eexists. split; [reflexivity|]. split; [apply is_u64_u64|]. rewrite u64_add_s64_r. reflexivity.
Qed.

(** ** The first loop *)

Definition fetched (f : unwind_frame_info) (i : unwind_item) : unwind_item :=
  match where_ i with Register => mk_item Register (regval f (state_ i)) | _ => i end.

Lemma fetch_register_plain f st i :
  wf_state st -> wf_frame f -> 0 <= i < NR_REGS -> plain_rule (abs_item (reg_item st i)) ->
  exists st', fetch_register f i st = Ok (Some st') /\ wf_state st' /\
    forall r, 0 <= r -> reg_item st' r = if r =? i then fetched f (reg_item st i) else reg_item st r.
Proof.
  intros W Wf Hi Hp. unfold fetch_register. destruct (REG_INVALID_valid i Hi) as [-> ->].
  cbn [mbind C_bind]. unfold fetched, abs_item in *.
  destruct (where_ (reg_item st i)) eqn:Ew; try (exists st; split; [reflexivity|]; split; [exact W|];
    intros r Hr; destruct (Z.eqb_spec r i) as [->|]; reflexivity).
  simpl in Hp. destruct (Z.leb_spec NR_REGS (state_ (reg_item st i))); [lia|].
  destruct (REG_INVALID_valid _ Hp) as [-> ->]. cbn [mbind C_bind orb].
  rewrite (FRAME_REG_regval f _ Hp). cbn [mbind C_bind]. eexists. split; [reflexivity|]. split.
  - apply wf_update_item; [exact W|]. apply regval_range, Wf.
  - intros r Hr. rewrite reg_item_update by assumption. reflexivity.
Qed.

Lemma fetch_registers_plain f n : forall i st,
  wf_state st -> wf_frame f -> 0 <= i -> i + Z.of_nat n = NR_REGS ->
  (forall r, i <= r < NR_REGS -> plain_rule (abs_item (reg_item st r))) ->
  exists st', fetch_registers f n i st = Ok (Some st') /\ wf_state st' /\
    forall r, 0 <= r -> reg_item st' r =
      if (i <=? r) && (r <? NR_REGS) then fetched f (reg_item st r) else reg_item st r.
Proof.
  induction n as [|n IH]; intros i st W Wf Hi Hn Hp; cbn [fetch_registers].
  - exists st. split; [reflexivity|]. split; [exact W|]. intros r Hr.
    destruct (Z.leb_spec i r), (Z.ltb_spec r NR_REGS); try reflexivity. lia.
  - destruct (fetch_register_plain f st i W Wf ltac:(lia) (Hp i ltac:(lia))) as (s1 & -> & W1 & R1).
    cbn [mbind C_bind].
    destruct (IH (i + 1) s1 W1 Wf ltac:(lia) ltac:(lia)) as (s2 & E2 & W2 & R2).
    { intros r Hr. rewrite R1 by lia. destruct (Z.eqb_spec r i); [lia|]. apply Hp. lia. }
    exists s2. split; [exact E2|]. split; [exact W2|]. intros r Hr. rewrite R2, R1 by exact Hr.
    destruct (Z.leb_spec (i + 1) r), (Z.leb_spec i r), (Z.ltb_spec r NR_REGS), (Z.eqb_spec r i);
      subst; try reflexivity; lia.
Qed.

(** ** The second loop *)

(** [g'] is [g] with register [i] set to [v]. *)
Definition sets (g g' : unwind_frame_info) (i v : Z) : Prop :=
  wf_frame g' /\ call_frame g' = call_frame g /\
  forall r, regval g' r = if r =? i then v else regval g r.

Lemma sets_same g i v : wf_frame g -> regval g i = v -> sets g g i v.
Proof.
  intros W <-. split_and!; [exact W|reflexivity|]. intros r.
  destruct (Z.eqb_spec r i) as [->|]; reflexivity.
Qed.

Lemma restore_from_memory_sets g i a v :
  0 <= i < NR_REGS -> wf_frame g -> regval g i = v ->
  exists g' b, restore_reg_from_memory g i a compat true = Ok (g', b) /\
    sets g g' i (match read_user compat a with Some w => w | None => v end).
Proof.
  intros Hi W Hv. destruct (reg_info_at_valid i Hi) as [o Eo].
  rewrite (restore_reg_read compat g i a o Eo). destruct (read_user compat a) as [w|] eqn:Er.
  - destruct (set_reg_valid g i w Hi W (read_user_range compat a w Er)) as (g' & E & W' & Hc & R).
    unfold set_FRAME_REG in E. rewrite Eo in E. injection E as <-.
    eexists _, _. split; [reflexivity|]. split_and!; assumption.
  - eexists _, _. split; [reflexivity|]. apply sets_same; assumption.
Qed.

Lemma restore_register_plain st f g cfa i it val :
  0 <= i < NR_REGS -> wf_frame f -> wf_frame g -> wf_item it -> is_u64 cfa ->
  plain_rule (abs_item it) -> reg_item st i = fetched f it -> regval g i = regval f i ->
  exists g' val', restore_register st cfa true compat i g val = Ok (Some (g', val')) /\
    sets g g' i (slow_value f cfa i (abs_item it)).
Proof.
  intros Hi Wf Wg Wi Hc Hp Eit Hg. unfold restore_register, slow_value.
  destruct (REG_INVALID_valid i Hi) as [-> ->]. cbn [mbind C_bind andb UNW_SP_FROM_CFA].
  change UNW_SP_IDX with RSP. destruct (Z.eqb_spec i RSP) as [->|Hne].
  { destruct (set_reg_valid g RSP cfa Hi Wg Hc) as (g' & E & H). injection E as <-. eauto. }
  assert (S : forall v, is_u64 v -> exists g', set_FRAME_REG g i v = Ok g' /\ sets g g' i v)
    by (intros v Hv; exact (set_reg_valid g i v Hi Wg Hv)).
  rewrite Eit. unfold fetched, abs_item in *. destruct (where_ it) eqn:Ew; try contradiction; rewrite ?Ew.
  - exists g, val. split; [reflexivity|]. apply sets_same; assumption.
  - destruct (S 0) as (g' & -> & H); [unfold is_u64; lia|]. cbn [mbind C_bind]. eauto.
  - destruct (restore_from_memory_sets g i (u64 (cfa + item_off it)) _ Hi Wg Hg) as (g' & b & -> & H).
    cbn [mbind C_bind]. eauto.
  - destruct (S (regval f (state_ it))) as (g' & E & H); [apply regval_range, Wf|]. simpl where_.
    cbn [state_]. rewrite E. cbn [mbind C_bind]. eauto.
  - destruct (S (u64 (cfa + item_off it))) as (g' & -> & H); [apply is_u64_u64|].
    cbn [negb Z.eqb Pos.eqb mbind C_bind]. eauto.
Qed.

Lemma restore_registers_plain st st0 f cfa n : forall i g val,
  wf_frame f -> wf_frame g -> wf_state st0 -> is_u64 cfa -> 0 <= i -> i + Z.of_nat n = NR_REGS ->
  (forall r, i <= r < NR_REGS -> plain_rule (abs_item (reg_item st0 r)) /\
     reg_item st r = fetched f (reg_item st0 r) /\ regval g r = regval f r) ->
  exists g', restore_registers st cfa true compat n i g val = Ok (g', true) /\
    wf_frame g' /\ call_frame g' = call_frame g /\
    (forall r, i <= r < NR_REGS -> regval g' r = slow_value f cfa r (abs_item (reg_item st0 r))) /\
    (forall r, r < i -> regval g' r = regval g r).
Proof.
  induction n as [|n IH]; intros i g val Wf Wg W0 Hc Hi Hn H; cbn [restore_registers].
  - exists g. split_and!; try reflexivity; try assumption. lia.
  - destruct (H i ltac:(lia)) as (Hp & Eit & Hv).
    destruct (restore_register_plain st f g cfa i (reg_item st0 i) val) as (g1 & v1 & -> & W1 & C1 & R1);
      try assumption; [lia|apply wf_reg_item, W0|].
    cbn [mbind C_bind].
    destruct (IH (i + 1) g1 v1 Wf W1 W0 Hc ltac:(lia) ltac:(lia)) as (g2 & E2 & W2 & C2 & R2 & R2').
    { intros r Hr. destruct (H r ltac:(lia)) as (? & ? & ?). rewrite R1.
      destruct (Z.eqb_spec r i); [lia|]. auto. }
    exists g2. split_and!; [exact E2|exact W2|congruence| |].
    + intros r Hr. destruct (Z.eq_dec r i) as [->|]; [|apply R2; lia].
      rewrite R2', R1, Z.eqb_refl by lia. reflexivity.
    + intros r Hr. rewrite R2', R1 by lia. destruct (Z.eqb_spec r i); [lia|]. reflexivity.
Qed.

(** ** The path as a whole *)

(** The last test of the path: program counter, stack pointer and frame pointer
    against those of the other frame of the context. *)
Definition same_point (f g : unwind_frame_info) : bool :=
  (UNW_PC f =? UNW_PC g) && (UNW_SP f =? UNW_SP g) && (UNW_BP f =? UNW_BP g).

Lemma slow_path_plain st ra f stub :
  wf_state st -> wf_frame f -> 0 <= ra < NR_REGS -> plain_row (abs_row (REG_STATE st)) ->
  rule_of (abs_row (REG_STATE st)) ra <> RUndefined ->
  exists f' cfa, slow_path st ra f stub true compat =
      Ok (if same_point f' stub then 0 else - EIO, f') /\
    caller_cfa (abs_row (REG_STATE st)) f = Some cfa /\
    wf_frame f' /\ call_frame f' = call_frame f /\
    forall r, 0 <= r < NR_REGS ->
      regval f' r = slow_value f cfa r (rule_of (abs_row (REG_STATE st)) r).
Proof.
  intros Ws Wf Hra Hrow Hnu. rewrite (rule_of_abs st ra Ws Hra) in Hnu. unfold slow_path.
  rewrite bool_decide_eq_false_2 by (intros E; apply Hnu; unfold abs_item; rewrite E; reflexivity).
  destruct (compute_cfa_plain st f Ws Hrow) as (cfa & -> & Hc & Ecfa). cbn [mbind C_bind].
  assert (Hp : forall r, 0 <= r < NR_REGS -> plain_rule (abs_item (reg_item st r))).
  { intros r Hr. rewrite <- (rule_of_abs st r Ws Hr). apply Hrow, Hr. }
  destruct (fetch_registers_plain f 17 0 st Ws Wf ltac:(lia) eq_refl Hp) as (st' & -> & Ws' & R).
  cbn [mbind C_bind].
  destruct (restore_registers_plain st' st f cfa 17 0 f None Wf Wf Ws Hc ltac:(lia) eq_refl)
    as (f' & -> & Wf' & Cf' & R' & _).
  { intros r Hr. split_and!; [apply Hp, Hr| |reflexivity]. rewrite R by lia.
    destruct (Z.leb_spec 0 r), (Z.ltb_spec r NR_REGS); try lia. reflexivity. }
  cbn [mbind C_bind negb]. exists f', cfa. split_and!; try assumption.
  - unfold same_point. destruct (_ =? _), (_ =? _), (_ =? _); reflexivity.
  - intros r Hr. rewrite (rule_of_abs st r Ws Hr). apply R', Hr.
Qed.

(** C17: For rules without expressions, a CFA at a multiple of 4 from a register, and a
    return address that is defined, the path gives the stack pointer the CFA,
    whatever its rule, and every other register of the table the value its rule
    defines, all of them computed from the frame it started with; a register that is
    undefined becomes 0, and one whose slot cannot be read keeps its value. It reports success exactly when the caller it has built
    is the other frame of the context. *)
Theorem slow_path_restores st ra f stub :
  wf_state st -> wf_frame f -> 0 <= ra < NR_REGS -> plain_row (abs_row (REG_STATE st)) ->
  rule_of (abs_row (REG_STATE st)) ra <> RUndefined ->
  exists f' cfa, slow_path st ra f stub true compat =
      Ok (if same_point f' stub then 0 else - EIO, f') /\
    caller_cfa (abs_row (REG_STATE st)) f = Some cfa /\
    wf_frame f' /\ call_frame f' = call_frame f /\
    forall r, 0 <= r < NR_REGS ->
      regval f' r = slow_value f cfa r (rule_of (abs_row (REG_STATE st)) r).
Proof. apply slow_path_plain. Qed.

(** C18: Where both paths apply they agree on the caller's program counter, on its
    stack pointer when that is the CFA, and on its frame pointer unless it is
    undefined, in which case only the general path clears it. *)
Theorem paths_agree st pc0 ra f stub pc sp bp :
  wf_state st -> wf_frame f -> 0 <= ra < NR_REGS -> plain_row (abs_row (REG_STATE st)) ->
  rule_of (abs_row (REG_STATE st)) ra <> RUndefined ->
  check_standard_frame st = true ->
  caller_frame compat (abs_row (REG_STATE st)) f = Some (pc, sp, bp) ->
  exists f1 r f2, apply_tdep_state f (standard_entry pc0 st ra) compat true = Ok (f1, true) /\
    slow_path st ra f stub true compat = Ok (r, f2) /\
    UNW_PC f2 = UNW_PC f1 /\
    (match rule_of (abs_row (REG_STATE st)) RSP with ROffset _ => True | _ => UNW_SP f2 = UNW_SP f1 end) /\
    UNW_BP f2 = match rule_of (abs_row (REG_STATE st)) RBP with RUndefined => 0 | _ => UNW_BP f1 end.
Proof.
  intros Ws Wf Hra Hrow Hnu Hst Hcall.
  pose proof (apply_standard_entry compat st f pc0 ra Ws Wf Hst) as A. rewrite Hcall in A.
  destruct A as (A & Hp & Hs & Hb).
  destruct (frame_becomes_set f pc sp bp Wf Hp Hs Hb) as (E1 & E2 & E3 & _).
  destruct (slow_path_plain st ra f stub Ws Wf Hra Hrow Hnu) as (f2 & cfa & S & Ec & _ & _ & R).
  eexists _, _, f2. split; [exact A|]. split; [exact S|]. rewrite E1, E2, E3.
  pose proof (check_standard_frame_row st Ws Hst) as (_ & Hpc & Hrule).
  change (UNW_PC f2) with (regval f2 UNW_PC_IDX). change (UNW_SP f2) with (regval f2 RSP).
  change (UNW_BP f2) with (regval f2 RBP).
  rewrite !R by (unfold UNW_PC_IDX, RSP, RBP, NR_REGS; lia).
  unfold caller_frame in Hcall. rewrite Ec, Hpc in Hcall. rewrite Hpc.
  cbn [mbind option_bind] in Hcall.
  change (caller_value compat f cfa UNW_PC_IDX (ROffset (-8)))
    with (read_user compat (u64 (cfa + -8))) in Hcall.
  unfold slow_value. change (UNW_PC_IDX =? RSP) with false. change (RBP =? RSP) with false.
  change (RSP =? RSP) with true. cbv iota.
  destruct (read_user compat (u64 (cfa + -8))) as [v|]; [|discriminate].
  cbn [mbind option_bind] in Hcall. revert Hcall.
  destruct (Hrule RSP ltac:(auto)) as [-> | [-> | [o ->]]],
    (Hrule RBP ltac:(auto)) as [-> | [-> | [o' ->]]];
    try change (caller_value compat f cfa RBP RSame) with (Some (UNW_BP f));
    cbn [caller_value];
    try (destruct (read_user compat (u64 (cfa + o))) as [w|]; cbn [mbind option_bind]; [|discriminate]);
    try (destruct (read_user compat (u64 (cfa + o'))) as [w'|]; cbn [mbind option_bind]; [|discriminate]);
    intros [= <- <- <-]; auto.
Qed.
End slow.

(** Whatever the rules, the path has three results: 2, the frame untouched, when
    the return address is undefined; 0 only for the frame it compares with; and
    -EIO. *)
Theorem slow_path_result `{K : Kernel} st ra f stub user compat r f' :
  slow_path st ra f stub user compat = Ok (r, f') ->
  if bool_decide (where_ (reg_item st ra) = Nowhere) then r = 2 /\ f' = f
  else r = 0 /\ UNW_PC f' = UNW_PC stub /\ UNW_SP f' = UNW_SP stub /\ UNW_BP f' = UNW_BP stub \/
    r = - EIO.
Proof.
  unfold slow_path. intros E. destruct (bool_decide _); [injection E as <- <-; auto|].
  apply bind_Ok in E as ([cfa|] & _ & E); [|injection E as <- _; auto].
  apply bind_Ok in E as ([s|] & _ & E); [|injection E as <- _; auto].
  apply bind_Ok in E as ([g ok] & _ & E). destruct (negb ok); [injection E as <- _; auto|].
  destruct (Z.eqb_spec (UNW_PC g) (UNW_PC stub)); [|injection E as <- _; auto].
  destruct (Z.eqb_spec (UNW_SP g) (UNW_SP stub)); [|injection E as <- _; auto].
  destruct (Z.eqb_spec (UNW_BP g) (UNW_BP stub)); [|injection E as <- _; auto].
  injection E as <- <-. auto.
Qed.

(** ** Witnesses *)

(** Besides the rules of [lib_row_state], %rbx in %rax and %r12 at CFA + 8. *)
Definition slow_state : unwind_state :=
  update_item (update_item lib_row_state 3 (mk_item Register 0)) 12 (mk_item Value 8).
Definition slow_frame : unwind_frame_info := set_word lib_frame PT_AX 77.

Lemma wf_slow_state : wf_state slow_state.
Proof.
  apply wf_update_item; [apply wf_update_item; [apply wf_lib_row_state|]|];
    unfold wf_item, is_u64; simpl; lia.
Qed.

Lemma slow_state_plain : plain_row (abs_row (REG_STATE slow_state)).
Proof.
  split; [exists 7, 16; vm_compute; repeat split; discriminate|].
  unfold NR_REGS. intros r Hr. replace r with (Z.of_nat (Z.to_nat r)) by lia.
  assert (H : (Z.to_nat r < 17)%nat) by lia. revert H. generalize (Z.to_nat r). intros n H.
  do 17 (destruct n as [|n]; [vm_compute; repeat split; discriminate|]). lia.
Qed.

Lemma slow_path_restores_witness :
  exists f' cfa, slow_path (K := lib_run) slow_state 16 slow_frame lib_frame true false =
      Ok (if same_point f' lib_frame then 0 else - EIO, f') /\
    caller_cfa (abs_row (REG_STATE slow_state)) slow_frame = Some cfa /\
    wf_frame f' /\ call_frame f' = call_frame slow_frame /\
    forall r, 0 <= r < NR_REGS -> regval f' r =
      slow_value (K := lib_run) false slow_frame cfa r (rule_of (abs_row (REG_STATE slow_state)) r).
Proof.
  apply (slow_path_restores (K := lib_run) false slow_state 16 slow_frame lib_frame).
  - apply wf_slow_state.
  - apply wf_frame_dec. reflexivity.
  - unfold NR_REGS. lia.
  - apply slow_state_plain.
  - vm_compute. discriminate.
Defined.

Lemma paths_agree_witness :
  exists f1 r f2, apply_tdep_state (K := lib_run) slow_frame (standard_entry 0x401010 slow_state 16)
      false true = Ok (f1, true) /\
    slow_path (K := lib_run) slow_state 16 slow_frame lib_frame true false = Ok (r, f2) /\
    UNW_PC f2 = UNW_PC f1 /\ UNW_SP f2 = UNW_SP f1 /\ UNW_BP f2 = UNW_BP f1.
Proof.
  apply (paths_agree (K := lib_run) false slow_state 0x401010 16 slow_frame lib_frame
    0x401060 0x8000 0x8100).
  - apply wf_slow_state.
  - apply wf_frame_dec. reflexivity.
  - unfold NR_REGS. lia.
  - apply slow_state_plain.
  - vm_compute. discriminate.
  - reflexivity.
  - vm_compute. reflexivity.
Defined.

(** The frame the rules describe, given as the other frame of the context. *)
Definition slow_stub : unwind_frame_info :=
  set_word (set_word (set_word lib_frame PT_IP 0x401060) PT_SP 0x8000) PT_BP 0x8100.

Lemma slow_path_result_witness :
  exists f', slow_path (K := lib_run) slow_state 16 slow_frame slow_stub true false = Ok (0, f') /\
    (0 = 0 /\ UNW_PC f' = UNW_PC slow_stub /\ UNW_SP f' = UNW_SP slow_stub /\
       UNW_BP f' = UNW_BP slow_stub \/ 0 = - EIO).
Proof.
  eexists. split; [vm_compute; reflexivity|].
  apply (slow_path_result (K := lib_run) slow_state 16 slow_frame slow_stub true false).
  vm_compute. reflexivity.
Defined.
