(* ===== verification/StepWf.v ===== *)
(** * Frames stay well formed

    Every word the unwinder writes into a frame is a 64-bit value, the call-frame
    bit is a bit, the cache keeps its invariant, and the results are those the
    callers know. *)
From S2P Require Import Prelude Machine Leb128 EncodedPtr Regs Rules Cfi CfiSpec Expr KModule.
From S2P Require Import FdeCie EhFrameHdr EhFrameHdrSpec Cache Step StepSpec.

(** ** Expressions *)

Section expression.
Context `{K : Kernel}.
Variables (frame : unwind_frame_info) (user compat_task : bool) (end_ : Z).

Definition wf_slot (o : option Z) : Prop := match o with Some v => is_u64 v | None => True end.
Definition wf_stack (s : estack) : Prop := Forall wf_slot (slots s).

(** What an operation leaves on the stack. *)
Definition words_op (r : op_result) : Prop := forall e s, r = Ok (Some (e, s)) -> wf_stack s.

Lemma words_stop : words_op (Ok None).
Proof. intros e s [=]. Qed.

Lemma words_crash c : words_op (Crash c).
Proof. intros e s [=]. Qed.

Lemma words_go e s : wf_stack s -> words_op (Ok (Some (e, s))).
Proof. intros W e' s' [= _ <-]. exact W. Qed.

Lemma words_bind {A} (m : C A) f : (forall a, m = Ok a -> words_op (f a)) -> words_op (m ≫= f).
Proof. intros H. destruct m; [apply H; reflexivity|apply words_crash]. Qed.

Lemma wf_PUSH v s s' : wf_stack s -> PUSH v s = Some s' -> wf_stack s'.
Proof.
  unfold PUSH. intros W. destruct (_ =? _)%nat; [discriminate|]. intros [= <-].
  apply Forall_insert; [exact W|apply u64_range].
Qed.

Lemma words_push v e s : wf_stack s -> words_op (push_next v e s).
Proof.
  intros W. unfold push_next. destruct (PUSH v s) eqn:E; [|apply words_stop].
  apply words_go. eapply wf_PUSH; eassumption.
Qed.

Lemma wf_POP s v s' : wf_stack s -> POP s = Some (v, s') ->
  wf_stack s' /\ forall w, v = Ok w -> is_u64 w.
Proof.
  unfold POP. intros W. destruct (sp s) as [|n]; [discriminate|]. intros [= <- <-].
  split; [exact W|]. rewrite nth_lookup. destruct (slots s !! n) as [o|] eqn:E; [|discriminate].
  simpl. pose proof (Forall_lookup_1 _ _ _ _ W E) as Ho. destruct o; [|discriminate].
  intros w [= <-]. exact Ho.
Qed.

Lemma words_with_pop s k :
  wf_stack s -> (forall v s', wf_stack s' -> words_op (k v s')) -> words_op (with_pop s k).
Proof.
  intros W H. unfold with_pop. destruct (POP s) as [[v s']|] eqn:E; [|apply words_stop].
  destruct (wf_POP s v s' W E) as [W' _]. apply words_bind. intros a _. apply H, W'.
Qed.

#[local] Create HintDb wst.
Hint Resolve words_stop words_crash words_go words_push wf_PUSH : wst.

Ltac walk_words :=
  repeat first
    [ solve [eauto with wst]
    | apply words_with_pop; [assumption|intros]
    | apply words_bind; intros
    | case_match ].

Lemma expr_op_words op e s : wf_stack s -> words_op (expr_op frame user compat_task end_ op e s).
Proof.
  intros W. unfold expr_op. cbv zeta.
  repeat match goal with |- words_op (if ?b then _ else _) => destruct b end;
    try solve [eauto with wst];
    unfold op_bra, op_skip, op_dup, op_drop, op_swap, op_over, op_pick, op_pick_at, op_constant,
      op_constu, op_consts, op_plus_uconst, push_of_pop, op_binop, op_mod, op_div, op_shr, op_abs,
      op_bregx, op_breg, op_deref_size, op_deref_at, op_skip; cbv zeta; walk_words.
Qed.

Lemma expr_loop_words fuel : forall e s v,
  wf_stack s -> expr_loop frame user compat_task end_ fuel e s = Ok (Some v) -> is_u64 v.
Proof.
  induction fuel as [|fuel IH]; simpl; intros e s v W E; [discriminate|]. destruct (e <? end_).
  - apply bind_Ok in E as (op & _ & E). apply bind_Ok in E as ([[e' s']|] & Eo & E); [|discriminate].
    eapply IH; [|exact E]. eapply expr_op_words; eassumption.
  - destruct (POP s) as [[w s']|] eqn:Ep; [|discriminate].
    apply bind_Ok in E as (x & -> & E). injection E as <-. eapply wf_POP; [exact W|exact Ep|reflexivity].
Qed.
End expression.

Lemma compute_expr_words `{K : Kernel} e f user compat v :
  compute_expr e f user compat = Ok (Some v) -> is_u64 v.
Proof.
  unfold compute_expr. intros E. apply bind_Ok in E as ([len c] & _ & E).
  eapply expr_loop_words; [|exact E]. apply Forall_replicate. exact I.
Qed.

(** ** Restoring registers *)

Section restore.
Context `{K : Kernel}.

Lemma land_low_range v b : is_u64 v -> is_u64 (if (b : bool) then Z.land v 0xFFFFFFFF else v).
Proof.
  intros Hv. destruct b; [|exact Hv]. change 0xFFFFFFFF with (Z.ones 32).
  rewrite Z.land_ones by lia. pose proof (Z.mod_pos_bound v (2 ^ 32)). unfold is_u64. lia.
Qed.

Lemma set_FRAME_REG_keeps f r v f' :
  wf_frame f -> is_u64 v -> set_FRAME_REG f r v = Ok f' ->
  wf_frame f' /\ call_frame f' = call_frame f.
Proof.
  intros W Hv E. split; [eapply set_FRAME_REG_wf; eassumption|].
  unfold set_FRAME_REG in E. destruct (reg_info_at r) as [[o w]|]; [|discriminate].
  injection E as <-. reflexivity.
Qed.

Lemma set_FRAME_REG_length f r v f' : set_FRAME_REG f r v = Ok f' -> length (fr_regs f') = length (fr_regs f).
Proof.
  unfold set_FRAME_REG. destruct (reg_info_at r) as [[o w]|]; [|discriminate]. intros [= <-]. apply length_insert.
Qed.

Lemma restore_reg_keeps f r a compat user f' ok :
  wf_frame f -> restore_reg_from_memory f r a compat user = Ok (f', ok) ->
  wf_frame f' /\ call_frame f' = call_frame f.
Proof.
  unfold restore_reg_from_memory, _stp_read_address. intros W E.
  destruct (access_ok _ _ _); [|injection E as <- _; auto].
  destruct (get_user _ _) as [v|]; [|injection E as <- _; auto].
  apply bind_Ok in E as (g & Eg & E). injection E as <- _.
  eapply set_FRAME_REG_keeps; [exact W| |exact Eg]. apply land_low_range.
  apply (Z.mod_pos_bound v (2 ^ 64)). lia.
Qed.

Lemma apply_tdep_keeps f e compat user f' ok :
  wf_frame f -> apply_tdep_state f e compat user = Ok (f', ok) ->
  wf_frame f' /\ call_frame f' = call_frame f.
Proof.
  unfold apply_tdep_state, restore_tdep. intros W E.
  apply bind_Ok in E as (base & _ & E). apply bind_Ok in E as ([g1 ok1] & E1 & E).
  assert (H1 : wf_frame g1 /\ call_frame g1 = call_frame f).
  { destruct (bool_decide (ti_where (tf_rbp e) = Memory)); [eapply restore_reg_keeps; eassumption|]. injection E1 as <- _. auto. }
  destruct H1 as [W1 C1]. destruct (negb ok1); [injection E as <- _; auto|].
  apply bind_Ok in E as ([g2 ok2] & E2 & E).
  assert (H2 : wf_frame g2 /\ call_frame g2 = call_frame g1).
  { destruct (bool_decide (ti_where (tf_rsp e) = Memory)); [eapply restore_reg_keeps; [exact W1|exact E2]|].
    apply bind_Ok in E2 as (h & Eh & E2). injection E2 as <- _.
    eapply set_FRAME_REG_keeps; [exact W1| |exact Eh]. apply is_u64_u64. }
  destruct H2 as [W2 C2]. destruct (negb ok2); [injection E as <- _; split; [auto|congruence]|].
  apply restore_reg_keeps in E as [W3 C3]; [|exact W2]. split; [exact W3|congruence].
Qed.

Lemma compute_cfa_words st f user compat cfa :
  compute_cfa st f user compat = Ok (Some cfa) -> is_u64 cfa.
Proof.
  unfold compute_cfa. destruct (cfa_is_expr _); [apply compute_expr_words|].
  destruct (_ <=? _); [discriminate|]. intros E. apply bind_Ok in E as (w & _ & E).
  destruct (_ || _); [discriminate|]. apply bind_Ok in E as (v & _ & E). injection E as <-.
  apply is_u64_u64.
Qed.

Lemma fetch_register_wf f i st st' :
  wf_frame f -> wf_state st -> fetch_register f i st = Ok (Some st') -> wf_state st'.
Proof.
  unfold fetch_register. intros Wf W E. apply bind_Ok in E as (inv & _ & E). destruct inv.
  { destruct (bool_decide _); [|discriminate]. injection E as <-. exact W. }
  destruct (where_ (reg_item st i)); try (injection E as <-; exact W).
  destruct (_ <=? _); [discriminate|]. apply bind_Ok in E as (bad & _ & E).
  apply bind_Ok in E as (wi & _ & E). apply bind_Ok in E as (wr & _ & E).
  destruct (_ || _); [discriminate|]. apply bind_Ok in E as (v & Ev & E). injection E as <-.
  apply wf_update_item; [exact W|]. eapply FRAME_REG_range; eassumption.
Qed.

Lemma fetch_registers_wf f n : forall i st st',
  wf_frame f -> wf_state st -> fetch_registers f n i st = Ok (Some st') -> wf_state st'.
Proof.
  induction n as [|n IH]; simpl; intros i st st' Wf W E; [injection E as <-; exact W|].
  apply bind_Ok in E as ([s|] & Es & E); [|discriminate].
  eapply IH; [exact Wf| |exact E]. eapply fetch_register_wf; eassumption.
Qed.

Definition wf_val (val : option Z) : Prop := match val with Some v => is_u64 v | None => True end.

Lemma restore_register_keeps st cfa user compat i f val f' val' :
  wf_state st -> is_u64 cfa -> wf_frame f -> wf_val val ->
  restore_register st cfa user compat i f val = Ok (Some (f', val')) ->
  wf_frame f' /\ call_frame f' = call_frame f /\ wf_val val'.
Proof.
  intros Ws Hc Wf Hv E. unfold restore_register in E. apply bind_Ok in E as (inv & _ & E).
  destruct inv; [injection E as <- <-; auto|].
  destruct (_ && _). { injection E as <- <-. split; [apply wf_set_word; assumption|auto]. }
  assert (S : forall v g, is_u64 v -> set_FRAME_REG f i v = Ok g ->
    wf_frame g /\ call_frame g = call_frame f) by (intros; eapply set_FRAME_REG_keeps; eassumption).
  destruct (where_ (reg_item st i)).
  - injection E as <- <-. auto.
  - apply bind_Ok in E as (g & Eg & E). injection E as <- <-.
    apply S in Eg as [? ?]; [auto|unfold is_u64; lia].
  - apply bind_Ok in E as ([g ok] & Eg & E). injection E as <- <-.
    apply restore_reg_keeps in Eg as [? ?]; auto.
  - apply bind_Ok in E as (g & Eg & E). injection E as <- <-.
    apply S in Eg as [? ?]; [auto|apply wf_reg_item, Ws].
  - apply bind_Ok in E as (w & _ & E). destruct (negb _); [discriminate|].
    apply bind_Ok in E as (g & Eg & E). injection E as <- <-.
    apply S in Eg as [? ?]; [|apply is_u64_u64]. split_and!; auto. apply is_u64_u64.
  - apply bind_Ok in E as ([a|] & _ & E); [|discriminate].
    apply bind_Ok in E as ([g ok] & Eg & E). injection E as <- <-.
    apply restore_reg_keeps in Eg as [? ?]; auto.
  - apply bind_Ok in E as ([a|] & _ & E); [|discriminate]. destruct val as [v|]; [|discriminate].
    apply bind_Ok in E as (g & Eg & E). injection E as <- <-. apply S in Eg as [? ?]; auto.
Qed.

Lemma restore_registers_keeps st cfa user compat n : forall i f val f' ok,
  wf_state st -> is_u64 cfa -> wf_frame f -> wf_val val ->
  restore_registers st cfa user compat n i f val = Ok (f', ok) ->
  wf_frame f' /\ call_frame f' = call_frame f.
Proof.
  induction n as [|n IH]; simpl; intros i f val f' ok Ws Hc Wf Hv E; [injection E as <- _; auto|].
  apply bind_Ok in E as ([[g v]|] & Eg & E); [|injection E as <- _; auto].
  destruct (restore_register_keeps _ _ _ _ _ _ _ _ _ Ws Hc Wf Hv Eg) as (Wg & Cg & Hv').
  apply IH in E as [W' C']; try assumption. split; [exact W'|congruence].
Qed.

(** The general path only succeeds at the program counter, the stack pointer and
    the frame pointer of the other frame. *)
Lemma slow_path_zero st ra f stub user compat f' :
  slow_path st ra f stub user compat = Ok (0, f') ->
  UNW_PC f' = UNW_PC stub /\ UNW_SP f' = UNW_SP stub /\ UNW_BP f' = UNW_BP stub.
Proof.
  unfold slow_path. intros E. destruct (bool_decide _); [discriminate|].
  apply bind_Ok in E as ([cfa|] & _ & E); [|discriminate].
  apply bind_Ok in E as ([s|] & _ & E); [|discriminate].
  apply bind_Ok in E as ([g ok] & _ & E). destruct ok; [|discriminate]. cbn [negb] in E.
  destruct (_ || _) eqn:D; [discriminate|]. injection E as <-.
  rewrite !orb_false_iff, !negb_false_iff, !Z.eqb_eq in D. tauto.
Qed.

Lemma slow_path_keeps st ra f stub user compat r f' :
  wf_state st -> wf_frame f -> slow_path st ra f stub user compat = Ok (r, f') ->
  wf_frame f' /\ call_frame f' = call_frame f /\ (r = 0 \/ r = 2 \/ r = - EIO).
Proof.
  unfold slow_path. intros Ws Wf E. destruct (bool_decide _); [injection E as <- <-; auto|].
  apply bind_Ok in E as ([cfa|] & Ec & E); [|injection E as <- <-; auto].
  apply compute_cfa_words in Ec.
  apply bind_Ok in E as ([s|] & Es & E); [|injection E as <- <-; auto].
  pose proof (fetch_registers_wf _ _ _ _ _ Wf Ws Es) as Ws'.
  apply bind_Ok in E as ([g ok] & Eg & E).
  apply restore_registers_keeps in Eg as [Wg Cg]; try assumption; [|exact I].
  destruct (negb ok); [injection E as <- <-; auto|].
  destruct (_ || _); injection E as <- <-; auto.
Qed.
End restore.

(** ** The parsed entry and the state it leads to *)

Section parsed.
Context `{K : Kernel}.

Lemma get_sleb128_range cur end_ v c : get_sleb128 cur end_ = Ok (v, c) -> - 2 ^ 63 <= v < 2 ^ 63.
Proof.
  unfold get_sleb128. intros E. apply bind_Ok in E as ([w d] & _ & E). injection E as <- _.
  apply s64_range.
Qed.

Lemma cie_factors_words compat p end_ version code data ra q :
  is_u64 p -> cie_factors compat p end_ version = Ok (Some (code, data, ra, q)) ->
  is_u64 code /\ - 2 ^ 63 <= data < 2 ^ 63.
Proof.
  unfold cie_factors. intros Hp E. apply bind_Ok in E as ([c p1] & E1 & E).
  apply get_uleb128_words in E1 as [Hc Hp1]; [|exact Hp].
  apply bind_Ok in E as ([d p2] & E2 & E). apply get_sleb128_range in E2.
  destruct (_ || _); [discriminate|]. apply bind_Ok in E as ([r p3] & _ & E).
  injection E as <- <- _ _. auto.
Qed.

Lemma aug_char_call user compat cs c a a' :
  0 <= a_call a <= 1 -> aug_char user compat cs c a = Ok (Some a') -> 0 <= a_call a' <= 1.
Proof.
  unfold aug_char. intros Ha E.
  destruct (c =? AUG_z); [injection E as <-; exact Ha|].
  destruct (c =? AUG_L); [injection E as <-; exact Ha|].
  destruct (c =? AUG_P).
  { apply bind_Ok in E as (b & _ & E). apply bind_Ok in E as ([v p] & _ & E).
    destruct (v =? 0); [discriminate|]. injection E as <-. exact Ha. }
  destruct (c =? AUG_R); [apply bind_Ok in E as (b & _ & E); injection E as <-; exact Ha|].
  destruct (c =? AUG_S); [injection E as <-; simpl; lia|discriminate].
Qed.

Lemma aug_loop_call user compat cs fuel : forall aug a a',
  0 <= a_call a <= 1 -> aug_loop user compat fuel aug cs a = Ok (Some a') -> 0 <= a_call a' <= 1.
Proof.
  induction fuel as [|fuel IH]; simpl; intros aug a a' Ha E; [discriminate|].
  apply bind_Ok in E as (c & _ & E). destruct (c =? 0); [injection E as <-; exact Ha|].
  destruct (_ <? _); [discriminate|]. apply bind_Ok in E as ([b|] & Eb & E); [|discriminate].
  eapply IH; [|exact E]. eapply aug_char_call; eassumption.
Qed.

(** The fields of a parsed entry fit their C types. *)
Definition wf_parsed (p : parsed) : Prop :=
  is_u64 (p_codeAlign p) /\ - 2 ^ 63 <= p_dataAlign p < 2 ^ 63 /\
  is_u64 (p_cieStart p) /\ is_u64 (p_fdeStart p) /\ 0 <= p_call_frame p <= 1 /\
  is_u64 (p_startLoc p).

Lemma parse_fde_start user compat fde fdeEnd t n s l fs :
  parse_fde user compat fde fdeEnd t n = Ok (Some (s, l, fs)) -> is_u64 s /\ is_u64 fs.
Proof.
  unfold parse_fde. intros E. apply bind_Ok in E as ([a p1] & E1 & E).
  apply read_ptr_sect_words in E1 as [Hs _]; [|apply is_u64_u64].
  apply bind_Ok in E as ([b p2] & _ & E). destruct (n =? 0).
  - injection E as <- _ <-. auto with kunwind.
  - apply bind_Ok in E as ([[m p3]|] & _ & E); [|discriminate]. injection E as <- _ <-. auto with kunwind.
Qed.

Lemma adjust_start_loc_words s t eh m : is_u64 s -> is_u64 (adjust_start_loc s t eh m).
Proof.
  intros Hs. unfold adjust_start_loc. destruct (_ || _); [unfold is_u64; lia|].
  destruct (is_dynamic m); [apply is_u64_u64|]. destruct (_ =? _); [apply is_u64_u64|exact Hs].
Qed.

Lemma cie_augmentation_call user compat cie aug nul p end_ n cs a :
  cie_augmentation user compat cie aug nul p end_ = Ok (Some (n, cs, a)) ->
  is_u64 cs /\ 0 <= a_call a <= 1.
Proof.
  unfold cie_augmentation. intros E. apply bind_Ok in E as (c & _ & E).
  apply bind_Ok in E as ([[m q]|] & _ & E); [|discriminate].
  apply bind_Ok in E as ([b|] & Eb & E); [|discriminate].
  apply aug_loop_call in Eb; [|simpl; lia]. destruct (_ =? _); [|discriminate].
  injection E as _ <- <-. split; [apply is_u64_u64|exact Eb].
Qed.

Lemma parse_fde_cie_words user compat fde cie p :
  parse_fde_cie user compat fde cie = Ok (Some p) -> wf_parsed p.
Proof.
  unfold parse_fde_cie. intros E. apply bind_Ok in E as (version & _ & E).
  apply bind_Ok in E as (cl & _ & E). apply bind_Ok in E as (fl & _ & E).
  apply bind_Ok in E as ([nul|] & _ & E); [|discriminate].
  apply bind_Ok in E as ([[[[code data] ra] q]|] & E1 & E); [|discriminate].
  apply bind_Ok in E as ([[[n cs] a]|] & E2 & E); [|discriminate].
  apply bind_Ok in E as ([[[s l] fs]|] & E3 & E); [|discriminate].
  injection E as <-. apply cie_factors_words in E1 as [Hc Hd]; [|apply is_u64_u64].
  apply cie_augmentation_call in E2 as [Hs Ha]. apply parse_fde_start in E3.
  destruct E3. split_and!; simpl; lia || assumption.
Qed.

Lemma locate_fde_words pc m compat l :
  locate_fde pc m compat = Ok l ->
  match l with
  | Decided r => r = 1 \/ r = - EIO
  | Located p startLoc endLoc => wf_parsed p /\ is_u64 startLoc
  end.
Proof.
  unfold locate_fde. intros E. apply bind_Ok in E as (fde & _ & E).
  destruct (fde =? 0); [injection E as <-; auto|].
  apply bind_Ok in E as ([cie|] & _ & E); [|injection E as <-; auto].
  apply bind_Ok in E as ([p|] & Ep & E); [|injection E as <-; auto].
  apply parse_fde_cie_words in Ep. set (startLoc := adjust_start_loc _ _ _ _) in *.
  destruct (startLoc =? 0) eqn:Ez; [injection E as <-; auto|].
  destruct (_ <? _); [injection E as <-; auto|].
  apply bind_Ok in E as ([] & _ & E); injection E as <-; auto. split; [exact Ep|].
  apply adjust_start_loc_words, Ep.
Qed.

(** ** The CFI programs *)

Lemma run_cfi_loop_result end_ target pt user compat fuel : forall ptr st r st',
  wf_state st -> is_u64 ptr ->
  run_cfi_loop end_ target pt user compat fuel ptr st = Ok (r, st') -> r = 0 \/ r = 1.
Proof.
  induction fuel as [|fuel IH]; simpl; intros ptr st r st' W Hp E; [discriminate|].
  destruct (ptr <? end_); [|injection E as <- _; destruct (_ =? _); auto].
  apply bind_Ok in E as (c & Ec & E). apply cfi_instruction_wf in Ec; [|exact W|exact Hp].
  destruct c as [v s|res p s]; simpl in Ec; [injection E as <- _; auto|]. destruct Ec as [W' Hp'].
  destruct (_ && _); [injection E as <- _; auto|].
  destruct (if end_ <? p then false else res); [eapply IH; eassumption|injection E as <- _; auto].
Qed.

Lemma run_program_wf end_ target pt user compat start st r st' :
  wf_state st -> is_u64 start -> r <> 0 ->
  run_cfi_program end_ target pt user compat CFI_FUEL start st = Ok (r, st') -> wf_state st'.
Proof.
  unfold run_cfi_program. intros W Hs Hr E. destruct (_ <? _); [injection E as <- _; contradiction|].
  pose proof (run_cfi_loop_result _ _ _ _ _ _ _ _ _ _ W Hs E) as [-> | ->]; [contradiction|].
  eapply run_cfi_loop_wf; eassumption.
Qed.

Lemma wf_initial_state p startLoc : wf_parsed p -> is_u64 startLoc -> wf_state (initial_state p startLoc).
Proof.
  intros (Hc & Hd & _) Hs. unfold initial_state.
  pose proof (wf_set_no_state_rule UNW_NR_REAL_REGS Nowhere _ wf_zero_state) as W.
  apply wf_set_cfa_off, wf_set_cfa_reg; [|vm_compute; split; congruence].
  destruct W. constructor; simpl; try assumption.
Qed.

Lemma wf_save_cie_regs st : wf_state st -> wf_state (save_cie_regs st).
Proof. intros W. destruct (wf_REG_STATE st W) as (_ & _ & R). destruct W. constructor; assumption. Qed.

Lemma run_cie_fde_wf pc p startLoc endLoc compat st :
  wf_parsed p -> is_u64 startLoc -> run_cie_fde pc p startLoc endLoc compat = Ok (Some st) -> wf_state st.
Proof.
  intros Hp Hs E. unfold run_cie_fde in E. apply bind_Ok in E as ([r1 s1] & E1 & E).
  destruct (Z.eqb_spec r1 0); [discriminate|].
  apply run_program_wf in E1; [|apply wf_initial_state; assumption|apply Hp|assumption].
  apply bind_Ok in E as ([r2 s2] & E2 & E). destruct (Z.eqb_spec r2 0); [discriminate|].
  apply run_program_wf in E2; [|apply wf_save_cie_regs; assumption|apply Hp|assumption].
  destruct (_ || _) in E; [discriminate|]. injection E as <-. exact E2.
Qed.
End parsed.

(** ** A step *)

Section step.
Context `{K : Kernel} {T : Type} `{FC : !FrameCache T}.

Lemma wf_set_call_frame f c : wf_frame f -> 0 <= c <= 1 -> wf_frame (set_call_frame f c).
Proof. intros (H1 & H2 & _) Hc. split; [exact H1|split; [exact H2|exact Hc]]. Qed.

(** What a step keeps of the modules: the list, and whatever the cache held. *)
Definition mods_grow (mods mods' : kunwind_proc_modules) : Prop :=
  stp_modules mods' = stp_modules mods /\ mods_compat mods' = mods_compat mods /\
  fc_inv (mods_cache mods') /\
  forall pc e, fc_find (mods_cache mods) pc = Some e -> fc_find (mods_cache mods') pc = Some e.

Lemma mods_grow_refl mods : fc_inv (mods_cache mods) -> mods_grow mods mods.
Proof. intros H. split_and!; auto. Qed.

Lemma mods_grow_add mods e alloc :
  fc_inv (mods_cache mods) -> mods_grow mods (set_cache mods (fc_add (mods_cache mods) e alloc)).
Proof.
  intros H. split_and!; try reflexivity; simpl.
  - apply fc_add_inv, H.
  - intros pc x Hx. rewrite fc_find_add, Hx by exact H. reflexivity.
Qed.

Lemma __unwind_frame_frame cx (mods : kunwind_proc_modules) m compat alloc r f mods' :
  wf_frame (cx_info cx) ->
  __unwind_frame cx mods m compat alloc = Ok (r, f, mods') ->
  wf_frame f /\ (r = 0 \/ r = 1 \/ r = 2 \/ r = - EIO).
Proof.
  intros W E. unfold __unwind_frame in E.
  destruct (_ || _) in E; [injection E as <- <- <-; auto 10|].
  destruct (fc_find (mods_cache mods) _) as [entry|].
  { apply bind_Ok in E as ([g ok] & Ea & E). apply apply_tdep_keeps in Ea as [Wg _]; [|exact W].
    injection E as <- <- <-. unfold entry_result. destruct ok, (tf_last entry); auto 10. }
  apply bind_Ok in E as (l & El & E). apply locate_fde_words in El.
  destruct l as [ret|p sl el]; [injection E as <- <- <-; destruct El; auto 10|]. destruct El as [Hp Hs].
  pose proof (wf_set_call_frame (cx_info cx) (p_call_frame p) W ltac:(apply Hp)) as Wf.
  apply bind_Ok in E as ([st|] & Est & E); [|injection E as <- <- <-; auto 10].
  apply run_cie_fde_wf in Est; [|exact Hp|exact Hs].
  destruct (check_standard_frame st).
  - apply bind_Ok in E as ([g ok] & Ea & E). apply apply_tdep_keeps in Ea as [Wg _]; [|exact Wf].
    destruct ok.
    + injection E as <- <- <-. unfold entry_result. destruct (tf_last _); auto 10.
    + apply bind_Ok in E as ([r' f'] & Es & E). injection E as <- <- <-.
      apply slow_path_keeps in Es as (W' & _ & R); [|exact Est|exact Wg].
      split; [exact W'|destruct R as [|[|]]; auto 10].
  - apply bind_Ok in E as ([r' f'] & Es & E). injection E as <- <- <-.
    apply slow_path_keeps in Es as (W' & _ & R); [|exact Est|exact Wf].
    split; [exact W'|destruct R as [|[|]]; auto 10].
Qed.

(** A step changes the cache by at most one insertion. *)
Lemma __unwind_frame_cache cx (mods : kunwind_proc_modules) m compat alloc r f mods' :
  __unwind_frame cx mods m compat alloc = Ok (r, f, mods') ->
  mods' = mods \/ exists e, mods' = set_cache mods (fc_add (mods_cache mods) e alloc).
Proof.
  unfold __unwind_frame. cbv zeta. intros E.
  repeat first [progress c_inv | case_match | discriminate | progress simplify_eq]; eauto.
Qed.

Lemma __unwind_frame_keeps cx (mods : kunwind_proc_modules) m compat alloc r f mods' :
  wf_frame (cx_info cx) -> fc_inv (mods_cache mods) ->
  __unwind_frame cx mods m compat alloc = Ok (r, f, mods') ->
  wf_frame f /\ mods_grow mods mods' /\ (r = 0 \/ r = 1 \/ r = 2 \/ r = - EIO).
Proof.
  intros W Hinv E. destruct (__unwind_frame_frame _ _ _ _ _ _ _ _ W E) as [Wf R]. split; [exact Wf|]. split; [|exact R].
  apply __unwind_frame_cache in E as [-> |[e ->]]; [apply mods_grow_refl|apply mods_grow_add]; exact Hinv.
Qed.

Lemma unwind_frame_frame cx user (proc : kunwind_proc_modules) compat alloc r f proc' :
  wf_frame (cx_info cx) -> unwind_frame cx user proc compat alloc = Ok (r, f, proc') -> wf_frame f.
Proof.
  intros W E. unfold unwind_frame in E. destruct (_ || _) in E; [injection E as _ <- _; exact W|].
  destruct (kunw_mod_lookup _ _); [|injection E as _ <- _; exact W].
  exact (proj1 (__unwind_frame_frame _ _ _ _ _ _ _ _ W E)).
Qed.

Lemma unwind_frame_keeps cx user (proc : kunwind_proc_modules) compat alloc r f proc' :
  wf_frame (cx_info cx) -> fc_inv (mods_cache proc) ->
  unwind_frame cx user proc compat alloc = Ok (r, f, proc') ->
  wf_frame f /\ mods_grow proc proc' /\ r ∈ [0; 1; 2; - EIO; - EINVAL].
Proof.
  intros W Hinv E. unfold unwind_frame in E.
  rewrite !elem_of_cons. pose proof (mods_grow_refl proc Hinv).
  destruct (_ || _) in E; [injection E as <- <- <-; auto 10|].
  destruct (kunw_mod_lookup _ _); [|injection E as <- <- <-; auto 10].
  apply __unwind_frame_keeps in E as (Wf & G & R); [|exact W|exact Hinv].
  split_and!; [exact Wf|exact G|]. tauto.
Qed.
End step.

(** C21: A step leaves a frame of 64-bit words with a call-frame bit, changes neither
    the modules nor the task kind, keeps the invariant of the cache and every
    entry it had, and returns one of the five results its callers know. *)
Theorem unwind_frame_wf `{K : Kernel} {T : Type} `{FC : !FrameCache T} cx user
    (proc : kunwind_proc_modules) compat alloc r f proc' :
  wf_frame (cx_info cx) -> fc_inv (mods_cache proc) ->
  unwind_frame cx user proc compat alloc = Ok (r, f, proc') ->
  wf_frame f /\ mods_grow proc proc' /\ r ∈ [0; 1; 2; - EIO; - EINVAL].
Proof. apply unwind_frame_keeps. Qed.

Lemma unwind_frame_wf_witness :
  exists r f proc', unwind_frame (K := lib_run) lib_context true lib_mods false (Some 1) =
      Ok (r, f, proc') /\
    wf_frame f /\ mods_grow lib_mods proc' /\ r ∈ [0; 1; 2; - EIO; - EINVAL].
Proof.
  destruct (unwind_frame (K := lib_run) lib_context true lib_mods false (Some 1))
    as [[[r f] proc']|] eqn:E; [|exfalso; vm_compute in E; discriminate].
  exists r, f, proc'. split; [reflexivity|].
  apply (unwind_frame_wf (K := lib_run) lib_context true lib_mods false (Some 1) r f proc').
  - apply wf_frame_dec. reflexivity.
  - apply wf_empty_cache.
  - exact E.
Defined.
