(* ===== verification/WalkEnds.v ===== *)
(** * A backtrace ends

    The loops of the unwinder on tables with arbitrary bytes (src/src/unwind.c): the
    rounds that are given to the interpreter of call frame instructions, to the
    augmentation string, to expressions and to the walk itself are enough, unless
    the tables hold a LEB128 number of ten bytes or an expression that reaches the
    last byte of the address space. *)
From S2P Require Import Prelude Machine Leb128 EncodedPtr Regs Rules Cfi Expr KModule.
From S2P Require Import FdeCie FdeCieSpec EhFrameHdr EhFrameHdrSpec Cache Step StepSpec StepWf.

(** ** LEB128 numbers that are not too long *)

Section decoders.
Context `{K : Kernel}.

(** The first six bytes of a number of seven or more. *)
Definition long_at (p : Z) : Prop := forall i, 0 <= i < 6 -> exists b, load8 (p + i) = Ok b /\ 128 <= b.

Lemma uleb_loop_short p e fuel : forall k value v c,
  ~ long_at p -> 0 <= p -> p + k <= e -> e < 2 ^ 64 -> 0 <= k <= 5 -> 0 <= value < 2 ^ (7 * k) ->
  (forall i, 0 <= i < k -> exists b, load8 (p + i) = Ok b /\ 128 <= b) ->
  get_uleb128_loop fuel (p + k) e value (7 * k) = Ok (v, c) -> c <= e /\ p <= c <= p + 6 /\ 0 <= v < 2 ^ 42.
Proof.
  assert (P : forall k, 0 <= k <= 5 -> 2 ^ (7 * k) <= 2 ^ 35 /\ 2 ^ (7 * (k + 1)) = 128 * 2 ^ (7 * k)).
  { intros k Hk. split; [apply Z.pow_le_mono_r; lia|]. replace (7 * (k + 1)) with (7 + 7 * k) by lia.
    rewrite Z.pow_add_r by lia. reflexivity. }
  induction fuel as [|fuel IH]; intros k value v c N Hp Hk He H0 Hv Hl E; [discriminate|]. destruct (P k H0) as [P1 P2].
  destruct (Z.lt_ge_cases (p + k) e) as [Hlt|Hge].
  2:{ cbn [get_uleb128_loop] in E. destruct (Z.ltb_spec (p + k) e); [lia|]. injection E as <- <-. lia. }
  destruct (load8 (p + k)) as [b|] eqn:Eb.
  2:{ cbn [get_uleb128_loop] in E. destruct (Z.ltb_spec (p + k) e); [|lia]. rewrite Eb in E. discriminate. }
  pose proof (load8_range _ _ Eb). pose proof (Z.mod_pos_bound b 128 ltac:(lia)).
  rewrite (get_uleb128_loop_step fuel (p + k) e value (7 * k) b Eb) in E by (eauto || nia).
  destruct (Z.ltb_spec b 128); [injection E as <- <-; nia|].
  assert (Hl' : forall i, 0 <= i < k + 1 -> exists b, load8 (p + i) = Ok b /\ 128 <= b).
  { intros i Hi. destruct (decide (i = k)) as [->|]; [eauto|apply Hl; lia]. }
  destruct (decide (k = 5)) as [->|]; [destruct N; exact Hl'|].
  replace (p + k + 1) with (p + (k + 1)) in E by lia. replace (7 * k + 7) with (7 * (k + 1)) in E by lia.
  eapply (IH (k + 1)); try eassumption; [lia|lia|nia].
Qed.

(** A number that is not too long ends where the decoder may read, and its value is small. *)
Lemma uleb_short p e v c : ~ long_at p -> 0 <= p <= e -> e < 2 ^ 64 -> get_uleb128 p e = Ok (v, c) ->
  c <= e /\ p <= c <= p + 6 /\ 0 <= v < 2 ^ 42.
Proof.
  intros N Hp He E. unfold get_uleb128 in E. replace p with (p + 0) in E at 1 by lia. change 0 with (7 * 0) in E at 3.
  eapply (uleb_loop_short p e LEB_FUEL 0); try eassumption; lia.
Qed.

(** A decoder moves forward, and at most one byte past its limit. *)
Lemma uleb_onward p e v c : 0 <= p <= e + 1 -> e + 1 < 2 ^ 64 -> get_uleb128 p e = Ok (v, c) -> p <= c <= e + 1.
Proof.
  intros Hp He E. destruct (Z.le_gt_cases p e).
  - apply get_uleb128_cursor_range in E; [|lia|lia]. unfold leb_cursor in E. rewrite u64_small in E by lia. lia.
  - rewrite get_uleb128_past in E by lia. injection E as _ <-. lia.
Qed.

Lemma sleb_onward p e v c : 0 <= p <= e + 1 -> e + 1 < 2 ^ 64 -> get_sleb128 p e = Ok (v, c) -> p <= c <= e + 1.
Proof.
  intros Hp He E. destruct (Z.le_gt_cases p e).
  - apply get_sleb128_cursor_range in E; [|lia|lia]. unfold leb_cursor in E. rewrite u64_small in E by lia. lia.
  - rewrite get_sleb128_past in E by lia. injection E as _ <-. lia.
Qed.

Lemma read_fixed_onward n sg p e v c : 0 <= p -> p + Z.of_nat n < 2 ^ 64 ->
  read_fixed n sg p e = Ok (Some (v, c)) -> p <= c <= e.
Proof.
  unfold read_fixed. intros Hp Hn E. rewrite u64_small in E by lia. destruct (Z.ltb_spec e (p + Z.of_nat n)); [discriminate|].
  apply bind_Ok in E as (w & _ & E). injection E as _ <-. lia.
Qed.

Lemma read_form_onward p e t compat ts v c : 0 <= p <= e + 1 -> e + 9 < 2 ^ 64 ->
  read_form p e t compat ts = Ok (Some (v, c)) -> p <= c <= e.
Proof.
  intros Hp He. unfold read_form, read_absptr.
  repeat case_match; try discriminate; try (apply read_fixed_onward; simpl; lia);
    intros E; apply bind_Ok in E as ([w d] & Ed & E); destruct (Z.ltb_spec e d); try discriminate; injection E as <- <-.
  - apply bind_Ok in Ed as ([w' d'] & Ed & E). injection E as <- <-. apply sleb_onward in Ed; lia.
  - apply uleb_onward in Ed; lia.
Qed.

Lemma read_pointer_onward p e t user compat v c : 0 <= p <= e + 1 -> e + 9 < 2 ^ 64 ->
  read_pointer p e t user compat = Ok (v, c) -> p <= c <= e + 1.
Proof.
  intros Hp He. unfold read_pointer, read_ptr_sect. destruct (_ || _); [intros [= _ <-]; lia|]. intros E.
  apply bind_Ok in E as ([[w d]|] & Ed & E); [apply read_form_onward in Ed; [|lia|lia]|injection E as _ <-; lia].
  repeat case_match; injection E as _ <-; lia.
Qed.
End decoders.

(** ** Where the expressions of a state are *)

Section state.
Context `{K : Kernel}.
Variables lo hi : Z.

(** A window of memory, that of .eh_frame, in which no number is too long. *)
Record tables_short : Prop := {
  ts_lo : 2 ^ 33 <= lo;
  ts_hi : hi + 2 ^ 43 < 2 ^ 64;
  ts_size : hi - lo < 2 ^ 63;
  ts_long : forall p, lo <= p <= hi + 1 -> ~ long_at p
}.

Definition in_window (a : Z) : Prop := lo <= a <= hi + 1.
Definition item_in (i : unwind_item) : Prop := match where_ i with Expr | ValExpr => in_window (state_ i) | _ => True end.
Definition row_in (rs : unwind_reg_state) : Prop :=
  Forall item_in (rs_regs rs) /\ (cfa_is_expr rs = true -> in_window (cfa_expr rs)).
Definition exprs_in (st : unwind_state) : Prop := Forall row_in (reg st) /\ Forall item_in (cie_regs st).

Lemma zero_row_in : row_in zero_reg_state.
Proof. split; [apply Forall_replicate; exact Logic.I|discriminate]. Qed.

Lemma zero_state_in : exprs_in zero_state.
Proof. split; apply Forall_replicate; [exact zero_row_in|exact Logic.I]. Qed.

Lemma nth_in {A} (P : A -> Prop) l n d : Forall P l -> P d -> P (nth n l d).
Proof. intros Hl Hd. rewrite (nth_lookup l n d). destruct (l !! n) eqn:E; [exact (Forall_lookup_1 _ _ _ _ Hl E)|exact Hd]. Qed.

Lemma REG_STATE_in st : exprs_in st -> row_in (REG_STATE st).
Proof. intros [Hr _]. unfold REG_STATE. apply nth_in; [exact Hr|exact zero_row_in]. Qed.

Lemma reg_item_in st r : exprs_in st -> item_in (reg_item st r).
Proof. intros H. unfold reg_item. apply nth_in; [apply (REG_STATE_in st H)|exact Logic.I]. Qed.

Lemma set_row_in st rs : exprs_in st -> row_in rs -> exprs_in (set_REG_STATE st rs).
Proof. intros [Hr Hc] H. split; [apply Forall_insert; assumption|exact Hc]. Qed.

Lemma update_item_in st r i : exprs_in st -> item_in i -> exprs_in (update_item st r i).
Proof.
  intros H Hi. destruct (REG_STATE_in st H) as [R C]. apply set_row_in; [exact H|].
  split; [apply Forall_insert; assumption|exact C].
Qed.

Lemma set_rule_in st r i (b : bool) : exprs_in st -> item_in i -> exprs_in (if b then update_item st r i else st).
Proof. intros H Hi. destruct b; [apply update_item_in; assumption|exact H]. Qed.

Lemma set_no_state_in r w st : w = Same \/ w = Nowhere -> exprs_in st -> exprs_in (set_no_state_rule r w st).
Proof. intros Hw H. apply set_rule_in; [exact H|]. destruct Hw as [-> | ->]; exact Logic.I. Qed.

Lemma set_offset_in r w o st : w = Memory \/ w = Value -> exprs_in st -> exprs_in (set_offset_rule r w o st).
Proof. intros Hw H. apply set_rule_in; [exact H|]. destruct Hw as [-> | ->]; exact Logic.I. Qed.

Lemma set_register_in r v st : exprs_in st -> exprs_in (set_register_rule r v st).
Proof. intros H. apply set_rule_in; [exact H|exact Logic.I]. Qed.

Lemma restore_rule_in r st : exprs_in st -> exprs_in (restore_rule r st).
Proof. intros H. apply set_rule_in; [exact H|]. apply nth_in; [apply H|exact Logic.I]. Qed.

Lemma set_cfa_in st r o b : exprs_in st -> (b = true -> in_window r) ->
  exprs_in (set_REG_STATE st (mk_reg_state r o (rs_regs (REG_STATE st)) b)).
Proof. intros H Hr. apply set_row_in; [exact H|]. split; [apply (REG_STATE_in st H)|exact Hr]. Qed.

Lemma set_cfa_off_in st o : exprs_in st -> exprs_in (set_cfa_off st o).
Proof. intros H. apply set_cfa_in; [exact H|]. apply (REG_STATE_in st H). Qed.

Lemma set_cfa_reg_in st r : exprs_in st -> cfa_is_expr (REG_STATE st) = false -> exprs_in (set_cfa_reg st r).
Proof. intros H E. apply set_cfa_in; [exact H|]. rewrite E. discriminate. Qed.

Lemma set_loc_in st l : exprs_in st -> exprs_in (set_loc st l).
Proof. intros H. exact H. Qed.

(** The two writes of an instruction that changes the kind of the CFA. *)
Lemma set_cfa_kind_in st (b : bool) r : exprs_in st -> (b = true -> in_window r) -> wf_state st ->
  exprs_in (set_cfa_reg (set_cfa_is_expr st b) r).
Proof.
  intros H Hr W. unfold set_cfa_reg, set_cfa_is_expr. rewrite REG_STATE_set by exact W. cbn [cfa_off rs_regs cfa_is_expr].
  destruct H as [R C]. destruct (REG_STATE_in st (conj R C)) as [Ri _]. split; [|exact C].
  cbn [reg set_REG_STATE stackDepth]. rewrite list_insert_insert_eq. apply Forall_insert; [exact R|]. split; [exact Ri|exact Hr].
Qed.
End state.

(** ** The interpreter of call frame instructions *)

Section cfi.
Context `{K : Kernel}.
Variables (lo hi end_ targetLoc ptrType : Z) (user compat_task : bool).
Hypothesis T : tables_short lo hi.
Hypothesis Hend : lo <= end_ <= hi.

(** A handler ends, and when the loop goes on it has not moved backwards and the
    expressions of the state are in the window. *)
Definition onward (ptr : Z) (m : C cfi_result) : Prop :=
  match m with
  | Crash c => c <> OutOfFuel
  | Ok (CfiReturn v _) => v = 0
  | Ok (CfiBreak _ p st) => ptr <= p /\ exprs_in lo hi st
  end.

Lemma onward_bind {A} ptr (m : C A) f : terminates m -> (forall a, m = Ok a -> onward ptr (f a)) -> onward ptr (m ≫= f).
Proof. intros Hm Hf. destruct m as [a|c]; simpl; [apply Hf; reflexivity|]. intros ->. apply Hm. reflexivity. Qed.

Lemma onward_uleb ptr p f : lo <= p <= end_ + 1 ->
  (forall v c, get_uleb128 p end_ = Ok (v, c) -> p <= c <= end_ + 1 -> onward ptr (f (v, c))) -> onward ptr (get_uleb128 p end_ ≫= f).
Proof.
  intros Hp Hf. pose proof (ts_lo _ _ T). pose proof (ts_hi _ _ T). apply onward_bind; [auto with kunwind|].
  intros [v c] E. apply Hf; [exact E|]. apply uleb_onward in E; lia.
Qed.

Lemma onward_sleb ptr p f : lo <= p <= end_ + 1 ->
  (forall v c, p <= c <= end_ + 1 -> onward ptr (f (v, c))) -> onward ptr (get_sleb128 p end_ ≫= f).
Proof.
  intros Hp Hf. pose proof (ts_lo _ _ T). pose proof (ts_hi _ _ T). apply onward_bind; [auto with kunwind|].
  intros [v c] E. apply Hf. apply sleb_onward in E; lia.
Qed.

Ltac decode :=
  repeat match goal with
  | |- onward _ (get_uleb128 _ end_ ≫= _) => apply onward_uleb; [lia|intros ? ? ? ?]
  | |- onward _ (get_sleb128 _ end_ ≫= _) => apply onward_sleb; [lia|intros ? ? ?]
  end.
Ltac keep := intros; decode; split; [lia|];
  auto using set_no_state_in, set_offset_in, set_register_in, restore_rule_in, set_cfa_off_in, set_loc_in.

Section handlers.
Variables (ptr : Z) (st : unwind_state).
Hypothesis Hp : lo <= ptr <= end_.
Hypothesis W : wf_state st.
Hypothesis X : exprs_in lo hi st.

Lemma onward_advance d p : ptr <= p -> onward ptr (Ok (cfi_advance d p st)).
Proof. intros H. split; [exact H|apply set_loc_in, X]. Qed.

Lemma onward_def_cfa_offset p s : ptr <= p <= end_ + 1 -> exprs_in lo hi s -> onward ptr (cfi_def_cfa_offset end_ p s).
Proof. intros H Xs. unfold cfi_def_cfa_offset. destruct (cfa_is_expr _); keep. Qed.

Lemma onward_def_cfa_offset_sf p s : ptr <= p <= end_ + 1 -> exprs_in lo hi s -> onward ptr (cfi_def_cfa_offset_sf end_ p s).
Proof. intros H Xs. unfold cfi_def_cfa_offset_sf. destruct (cfa_is_expr _); keep. Qed.

(** The only place where an overlong number could move the cursor backwards. *)
Lemma onward_expression w : onward ptr (cfi_expression end_ compat_task w ptr st).
Proof.
  pose proof (ts_lo _ _ T). pose proof (ts_hi _ _ T).
  unfold cfi_expression. decode. unfold set_expr_rule. apply onward_bind.
  { apply terminates_bind; [auto with kunwind|]. intros [len e] _. destruct (_ && _); discriminate. }
  intros [q s] E. apply bind_Ok in E as ([len e] & El & E).
  pose proof (uleb_onward c end_ len e ltac:(lia) ltac:(lia) El).
  destruct (_ && _) eqn:C; injection E as <- <-; [|split; [lia|exact X]].
  apply andb_true_iff in C as [C _]. split; [|apply update_item_in; [exact X|]].
  - destruct (Z.le_gt_cases c end_).
    + pose proof (uleb_short c end_ len e (ts_long _ _ T c ltac:(lia)) ltac:(lia) ltac:(lia) El).
      rewrite (u64_small (end_ - e)) in C by lia. rewrite u64_small by lia. lia.
    + rewrite get_uleb128_past in El by lia. injection El as <- <-. rewrite u64_small by lia. lia.
  - unfold item_in, in_window. cbn [where_ state_]. destruct w; try exact Logic.I; lia.
Qed.

Lemma onward_extended op : onward ptr (cfi_extended end_ ptrType user compat_task op ptr st).
Proof.
  pose proof (ts_lo _ _ T). pose proof (ts_hi _ _ T).
  apply cfi_extended_elim;
    unfold cfi_offset, cfi_offset_sf, cfi_no_state, cfi_restore_extended, cfi_register,
      cfi_GNU_args_size, cfi_GNU_negative_offset_extended; try solve [keep].
  - unfold cfi_set_loc. apply onward_bind; [apply read_ptr_sect_terminates|]. intros [l c] E.
    split; [apply read_pointer_onward in E; lia|apply set_loc_in, X].
  - unfold cfi_advance_loc1. destruct (_ <? _); [|keep]. apply onward_bind; [auto with kunwind|]. intros d _.
    apply onward_advance. rewrite u64_small; lia.
  - intros _. unfold cfi_advance_loc2. destruct (_ <=? _); [|keep]. apply onward_bind; [auto with kunwind|]. intros d _.
    apply onward_advance. rewrite u64_small; lia.
  - intros _. unfold cfi_advance_loc4. destruct (_ <=? _); [|keep]. apply onward_bind; [auto with kunwind|]. intros d _.
    apply onward_advance. rewrite u64_small; lia.
  - exact onward_expression.
  - unfold cfi_remember_state. destruct (_ <=? _); [reflexivity|]. split; [lia|].
    apply set_row_in; [exact X|apply REG_STATE_in, X].
  - unfold cfi_restore_state. destruct (stackDepth st); [reflexivity|]. split; [lia|exact X].
  - unfold cfi_def_cfa. decode. apply onward_def_cfa_offset; [lia|]. apply set_cfa_kind_in; [exact X|discriminate|exact W].
  - apply onward_def_cfa_offset; [lia|exact X].
  - unfold cfi_def_cfa_sf. decode. apply onward_def_cfa_offset_sf; [lia|]. apply set_cfa_kind_in; [exact X|discriminate|exact W].
  - apply onward_def_cfa_offset_sf; [lia|exact X].
  - unfold cfi_def_cfa_register. destruct (cfa_is_expr (REG_STATE st)) eqn:Ec; [keep|]. decode. split; [lia|].
    apply set_cfa_reg_in; assumption.
  - unfold cfi_def_cfa_expression. cbv zeta. apply onward_uleb; [lia|]. intros v c E Hc. destruct (_ && _) eqn:C; [|keep].
    apply andb_true_iff in C as [C1 C2]. rewrite u64_small in C2 by lia.
    apply get_uleb128_words in E as [Hv _]; [|unfold is_u64; lia]. unfold is_u64 in Hv.
    split; [rewrite u64_small by lia; lia|]. apply set_cfa_kind_in; [exact X|unfold in_window; lia|exact W].
Qed.
End handlers.

Lemma onward_instruction ptr st : lo <= ptr < end_ -> wf_state st -> exprs_in lo hi st ->
  onward (ptr + 1) (cfi_instruction end_ ptrType user compat_task ptr st).
Proof.
  intros Hp W X. pose proof (ts_lo _ _ T). pose proof (ts_hi _ _ T). unfold cfi_instruction.
  apply onward_bind; [auto with kunwind|]. intros op _. rewrite (u64_small (ptr + 1)) by lia. cbv zeta.
  assert (D : onward (ptr + 1) (Ok (CfiBreak true (ptr + 1) (restore_rule (map_reg compat_task (Z.land op 0x3f)) st)))) by keep.
  repeat case_match; try exact D.
  - apply onward_extended; [lia|exact W|exact X].
  - unfold cfi_offset_short. keep.
  - apply onward_advance; [exact X|lia].
Qed.

Lemma run_cfi_loop_ends fuel : forall ptr st, lo <= ptr -> end_ - ptr < Z.of_nat fuel -> (1 <= fuel)%nat ->
  is_u64 ptr -> wf_state st -> exprs_in lo hi st ->
  let m := run_cfi_loop end_ targetLoc ptrType user compat_task fuel ptr st in
  terminates m /\ forall r st', m = Ok (r, st') -> r <> 0 -> exprs_in lo hi st'.
Proof.
  induction fuel as [|fuel IH]; intros ptr st Hp Hf H1 Hu W X; [lia|]. cbn [run_cfi_loop].
  destruct (Z.ltb_spec ptr end_); [|split; [discriminate|intros r st' [= _ <-] _; exact X]].
  pose proof (onward_instruction ptr st ltac:(lia) W X) as F.
  destruct (cfi_instruction _ _ _ _ _ _) as [r|c] eqn:Er; [|split; [intros [= ->]; apply F; reflexivity|discriminate]].
  apply cfi_instruction_wf in Er; [|exact W|exact Hu]. cbn [mbind C_bind].
  destruct r as [v s|res p s]; simpl in F, Er; [subst v; split; [discriminate|intros r st' [= <- _]; contradiction]|].
  destruct F as [Hpp Xs], Er as [Ws Hpu]. destruct (Z.ltb_spec end_ p).
  - split; [discriminate|intros r st' [= <- _]; contradiction].
  - destruct (_ && _); [split; [discriminate|intros r st' [= _ <-] _; exact Xs]|].
    destruct res; [|split; [discriminate|intros r st' [= <- _]; contradiction]]. apply IH; try assumption; lia.
Qed.

Lemma run_cfi_program_ends start st : lo <= start < 2 ^ 64 -> wf_state st -> exprs_in lo hi st ->
  let m := run_cfi_program end_ targetLoc ptrType user compat_task CFI_FUEL start st in
  terminates m /\ forall r st', m = Ok (r, st') -> r <> 0 -> exprs_in lo hi st'.
Proof.
  intros Hs W X m. subst m. pose proof (ts_lo _ _ T). pose proof (ts_hi _ _ T). pose proof (ts_size _ _ T).
  unfold run_cfi_program. destruct (Z.ltb_spec MAX_CFI (s64 (end_ - start))) as [|Hc];
    [split; [discriminate|intros r st' [= <- _]; contradiction]|].
  assert (end_ - start < 513).
  { destruct (Z.le_gt_cases start end_); [|lia]. rewrite s64_small in Hc by lia. unfold MAX_CFI in Hc. lia. }
  apply run_cfi_loop_ends; try assumption; unfold CFI_FUEL, is_u64; lia.
Qed.
End cfi.

(** ** The two paths *)

Lemma REG_INVALID_terminates r : terminates (REG_INVALID r).
Proof. unfold REG_INVALID. repeat case_match; discriminate. Qed.
Lemma reg_width_terminates r : terminates (reg_width r).
Proof. unfold reg_width. repeat case_match; discriminate. Qed.
Lemma set_FRAME_REG_terminates f r v : terminates (set_FRAME_REG f r v).
Proof. unfold set_FRAME_REG. repeat case_match; discriminate. Qed.
#[export] Hint Resolve REG_INVALID_terminates reg_width_terminates set_FRAME_REG_terminates FRAME_REG_terminates : kunwind.

Ltac ends := repeat first
  [ discriminate | solve [auto with kunwind] | apply terminates_bind | progress intros
  | match goal with |- terminates (if ?b then _ else _) => destruct b end
  | match goal with |- terminates (let '(_, _) := ?p in _) => destruct p end
  | match goal with |- terminates (match ?x with _ => _ end) => destruct x end ].

Section paths.
Context `{K : Kernel}.

Lemma restore_reg_terminates f r a compat user : terminates (restore_reg_from_memory f r a compat user).
Proof. unfold restore_reg_from_memory. ends. Qed.
#[local] Hint Resolve restore_reg_terminates : kunwind.

Lemma apply_tdep_terminates f e compat user : terminates (apply_tdep_state f e compat user).
Proof. unfold apply_tdep_state, restore_tdep. ends. Qed.

Variables lo hi : Z.
Hypothesis T : tables_short lo hi.

Lemma expr_ends a frame user compat : in_window lo hi a -> terminates (compute_expr a frame user compat).
Proof.
  intros Ha. unfold in_window in Ha. pose proof (ts_lo _ _ T). pose proof (ts_hi _ _ T).
  apply compute_expr_terminates; [unfold is_u64; lia|]. intros len start E.
  apply uleb_short in E; [|exact (ts_long _ _ T a Ha)|lia|lia]. rewrite u64_small; lia.
Qed.

Lemma compute_cfa_terminates st frame user compat : exprs_in lo hi st -> terminates (compute_cfa st frame user compat).
Proof.
  intros X. unfold compute_cfa. destruct (cfa_is_expr _) eqn:E; [|ends].
  apply expr_ends, (REG_STATE_in lo hi st X), E.
Qed.

Lemma fetch_register_ends frame i st : exprs_in lo hi st ->
  terminates (fetch_register frame i st) /\ forall st', fetch_register frame i st = Ok (Some st') -> exprs_in lo hi st'.
Proof.
  intros X. unfold fetch_register. split; [ends|]. intros st' E.
  repeat first [progress c_inv | case_match | discriminate | progress simplify_eq];
    first [exact X | apply update_item_in; [exact X|exact Logic.I]].
Qed.

Lemma fetch_registers_end frame n : forall i st, exprs_in lo hi st ->
  terminates (fetch_registers frame n i st) /\ forall st', fetch_registers frame n i st = Ok (Some st') -> exprs_in lo hi st'.
Proof.
  induction n as [|n IH]; intros i st X; cbn [fetch_registers]; [split; [discriminate|intros st' [= <-]; exact X]|].
  destruct (fetch_register_ends frame i st X) as [Ht Hs]. split.
  - apply terminates_bind; [exact Ht|]. intros [s|] E; [apply IH, Hs, E|discriminate].
  - intros st' E. apply bind_Ok in E as ([s|] & Es & E); [|discriminate]. eapply IH; [apply Hs, Es|exact E].
Qed.

Lemma restore_register_terminates st cfa user compat i frame val : exprs_in lo hi st ->
  terminates (restore_register st cfa user compat i frame val).
Proof.
  intros X. pose proof (reg_item_in lo hi st i X) as I. unfold item_in in I. unfold restore_register. cbv zeta.
  apply terminates_bind; [auto with kunwind|]. intros [|] _; [discriminate|]. destruct (_ && _); [discriminate|].
  destruct (where_ (reg_item st i)); try (apply terminates_bind; [apply expr_ends, I|intros; ends]); ends.
Qed.

Lemma restore_registers_terminate st cfa user compat n : exprs_in lo hi st -> forall i frame val,
  terminates (restore_registers st cfa user compat n i frame val).
Proof.
  intros X. induction n as [|n IH]; intros i frame val; cbn [restore_registers]; [discriminate|].
  apply terminates_bind; [apply restore_register_terminates, X|]. intros [[f v]|] _; [apply IH|discriminate].
Qed.

Lemma slow_path_terminates st ra frame stub user compat : exprs_in lo hi st ->
  terminates (slow_path st ra frame stub user compat).
Proof.
  intros X. unfold slow_path. destruct (bool_decide _); [discriminate|].
  apply terminates_bind; [apply compute_cfa_terminates, X|]. intros [cfa|] _; [|discriminate].
  destruct (fetch_registers_end frame 17 0 st X) as [Ht Hs].
  apply terminates_bind; [exact Ht|]. intros [s|] Es; [|discriminate].
  apply terminates_bind; [apply restore_registers_terminate, Hs, Es|]. intros [f ok] _. ends.
Qed.
End paths.

(** ** From the table to the programs *)

Section entry.
Context `{K : Kernel}.

Lemma memchr0_ends n p : terminates (memchr0 n p).
Proof. revert p. induction n as [|n IH]; intros p; cbn [memchr0]; [discriminate|]. apply terminates_bind; [auto with kunwind|]. intros b _. destruct (_ =? _); [discriminate|apply IH]. Qed.

Lemma memchr0_finds n : forall p nul, 0 <= p -> p + Z.of_nat n <= 2 ^ 64 - 1 -> memchr0 n p = Ok (Some nul) ->
  p <= nul < p + Z.of_nat n /\ load8 nul = Ok 0.
Proof.
  induction n as [|n IH]; intros p nul Hp Hn E; cbn [memchr0] in E; [discriminate|].
  apply bind_Ok in E as (b & Eb & E). destruct (Z.eqb_spec b 0) as [->|]; [injection E as <-; split; [lia|exact Eb]|].
  rewrite u64_small in E by lia. apply IH in E; [|lia|lia]. split; [lia|apply E].
Qed.

Variables (lo hi : Z) (user compat_task : bool).
Hypothesis T : tables_short lo hi.

Lemma aug_char_terminates cieStart c a : terminates (aug_char user compat_task cieStart c a).
Proof. unfold aug_char, read_pointer. pose proof read_ptr_sect_terminates. ends. Qed.

(** A letter does not move the pointer to the augmentation data backwards. *)
Lemma aug_char_onward cieStart c a b : 0 <= a_ptr a <= cieStart -> cieStart < 2 ^ 64 - 16 ->
  aug_char user compat_task cieStart c a = Ok (Some b) -> a_ptr a <= a_ptr b.
Proof.
  intros Ha Hs. unfold aug_char. repeat match goal with |- (if ?b then _ else _) = _ -> _ => destruct b end; intros E;
    try discriminate; try (injection E as <-; simpl; rewrite ?u64_small by lia; lia).
  - apply bind_Ok in E as (x & _ & E). rewrite u64_small in E by lia. apply bind_Ok in E as ([v q] & Er & E).
    apply read_pointer_onward in Er; [|lia|lia]. destruct (_ =? _); [discriminate|]. injection E as <-. simpl. lia.
  - apply bind_Ok in E as (x & _ & E). injection E as <-. simpl. rewrite u64_small; lia.
Qed.

Lemma aug_loop_ends cieStart nul fuel : forall aug a,
  0 <= aug <= nul -> nul < 2 ^ 64 - 1 -> load8 nul = Ok 0 -> nul - aug < Z.of_nat fuel -> 0 <= a_ptr a -> cieStart < 2 ^ 64 - 16 ->
  let m := aug_loop user compat_task fuel aug cieStart a in
  terminates m /\ forall b, m = Ok (Some b) -> a_ptr a <= a_ptr b.
Proof.
  induction fuel as [|fuel IH]; intros aug a Ha Hn E0 Hf Hp Hs; [lia|]. cbn [aug_loop].
  destruct (load8 aug) as [c|cr] eqn:Ec; [|split; [intros [= ->]; exact (load8_terminates aug Ec)|discriminate]].
  cbn [mbind C_bind]. destruct (Z.eqb_spec c 0) as [|Hc]; [split; [discriminate|intros b [= <-]; lia]|].
  destruct (Z.ltb_spec cieStart (a_ptr a)); [split; discriminate|].
  assert (aug <> nul) by (intros ->; congruence).
  pose proof (aug_char_terminates cieStart c a) as At. pose proof (aug_char_onward cieStart c a) as Ao.
  destruct (aug_char user compat_task cieStart c a) as [[a'|]|cr]; cbn [mbind C_bind];
    [|split; discriminate|split; [intros [= ->]; apply At; reflexivity|discriminate]].
  specialize (Ao a' ltac:(lia) Hs eq_refl). rewrite (u64_small (aug + 1)) by lia.
  destruct (IH (aug + 1) a' ltac:(lia) Hn E0 ltac:(lia) ltac:(lia) Hs) as [It Ib].
  split; [exact It|]. intros b E. apply Ib in E. lia.
Qed.

(** The section that the checks on the records confine them to. *)
Variable sec : section.
Hypothesis Hlo : sec_kbuf sec = lo.
Hypothesis Hhi : sec_kbuf sec + sec_size sec = hi.
Hypothesis Hsz : 0 <= sec_size sec.

Lemma u32_at_word p i v : u32_at p i = Ok v -> 0 <= v < 2 ^ 32.
Proof. intros E. exact (load_range _ _ _ E). Qed.

Lemma check_fde_in fde : is_u64 fde -> check_fde fde (sec_kbuf sec) (sec_size sec) true = Ok true ->
  exists len id, u32_at fde 0 = Ok len /\ 4 <= len < 2 ^ 32 /\ lo <= fde + 4 + len <= hi /\ u32_at fde 1 = Ok id /\ 0 < id.
Proof.
  pose proof (ts_lo _ _ T). pose proof (ts_hi _ _ T). unfold is_u64. intros Hf E. unfold check_fde in E.
  apply bind_Ok in E as (len & El & E). pose proof (u32_at_word _ _ _ El) as Rl.
  rewrite flag3 in E by lia. destruct (Z.eqb_spec len 0); [discriminate|]. destruct (Z.eqb_spec (len mod 4) 0) as [H4|]; [|discriminate].
  cbn [orb negb] in E. apply bind_Ok in E as (isid & Eid & E). destruct isid; [discriminate|].
  unfold has_cie_id in Eid. apply bind_Ok in Eid as (id & Ei & Eid). pose proof (u32_at_word _ _ _ Ei) as Ri.
  destruct (Z.eqb_spec id 0); [discriminate|].
  rewrite Hlo, (u64_small (lo + _)) in E by lia.
  destruct (_ || _) eqn:C in E; [discriminate|]. apply orb_false_iff in C as [C1 C2].
  assert (4 <= len) by (pose proof (Z.div_mod len 4); lia).
  assert (fde + 4 < 2 ^ 64 /\ fde + 4 + len < 2 ^ 64).
  { destruct (Z.lt_ge_cases (fde + 4) (2 ^ 64)); [split; [lia|]|exfalso].
    - rewrite (u64_small (fde + 4)) in C1 by lia. destruct (Z.lt_ge_cases (fde + 4 + len) (2 ^ 64)); [lia|exfalso].
      unfold u64 in C1. rewrite <- (Z_mod_plus_full _ (-1)), Z.mod_small in C1 by lia. lia.
    - unfold u64 in C1. rewrite <- (Z_mod_plus_full (fde + 4) (-1)), (Z.mod_small (fde + 4 + _)) in C1 by lia.
      rewrite Z.mod_small in C1 by lia. lia. }
  rewrite (u64_small (fde + 4)), (u64_small (fde + 4 + len)) in C1, C2 by lia.
  exists len, id. split_and!; (assumption || lia).
Qed.

Lemma cie_for_fde_in fde cie : is_u64 fde -> check_fde fde (sec_kbuf sec) (sec_size sec) true = Ok true ->
  cie_for_fde fde sec true = Ok (Some cie) ->
  exists len, u32_at cie 0 = Ok len /\ lo <= cie /\ 8 < len < 2 ^ 32 /\ cie + 4 + len <= hi /\ cie + 8 < fde.
Proof.
  pose proof (ts_lo _ _ T). pose proof (ts_hi _ _ T). intros Hf Hc E.
  destruct (check_fde_in fde Hf Hc) as (flen & back & _ & Rf & Hend & Eb & Hb). unfold is_u64 in Hf.
  unfold cie_for_fde in E. rewrite Eb in E. cbn [mbind C_bind] in E. pose proof (u32_at_word _ _ _ Eb) as Rb.
  rewrite flag3 in E by lia. destruct (Z.eqb_spec (back mod 4) 0) as [H4|]; [|discriminate].
  cbn [orb negb] in E. destruct (_ <? _) in E; [discriminate|].
  replace (4 * (back / 4)) with back in E by (pose proof (Z.div_mod back 4); lia).
  rewrite Hlo, (u64_small (lo + _)) in E by lia.
  destruct (Z.lt_ge_cases (fde + 4) back) as [Hw|Hw].
  { unfold u64 at 1 2 in E. rewrite <- (Z_mod_plus_full _ 1), Z.mod_small in E by lia.
    destruct (Z.ltb_spec (lo + sec_size sec) (fde + 4 - back + 1 * 2 ^ 64)); [|lia]. rewrite orb_true_r in E. discriminate. }
  rewrite (u64_small (fde + 4 - back)) in E by lia. destruct (_ || _) eqn:C in E; [discriminate|].
  apply orb_false_iff in C as [C1 C2]. apply bind_Ok in E as (valid & Ev & E). destruct valid; [|discriminate]. cbn [negb] in E.
  unfold valid_cie in Ev. apply bind_Ok in Ev as (len & El & Ev). pose proof (u32_at_word _ _ _ El) as Rl.
  destruct (_ || _) eqn:C in Ev; [discriminate|]. apply orb_false_iff in C as [C3 C4].
  rewrite (u64_small (back - 4)) in C4 by (pose proof (Z.div_mod back 4); lia).
  apply bind_Ok in E as (version & _ & E). destruct (negb _); [discriminate|]. rewrite El in E. cbn [mbind C_bind] in E.
  rewrite (u64_small (_ + 4)), (u64_small (_ + len)) in E by lia. destruct (_ || _) eqn:C in E; [discriminate|].
  apply orb_false_iff in C as [C5 C6]. injection E as <-. exists len. split_and!; (assumption || lia).
Qed.

Lemma cie_factors_ends p e version : 0 <= p <= e + 1 -> e + 2 < 2 ^ 64 ->
  terminates (cie_factors compat_task p e version) /\
  forall c d r q, cie_factors compat_task p e version = Ok (Some (c, d, r, q)) -> p <= q <= e + 2.
Proof.
  intros Hp He. unfold cie_factors. split.
  - apply terminates_bind; [auto with kunwind|]. intros [c p1] _. apply terminates_bind; [auto with kunwind|]. intros [d p2] _.
    ends.
  - intros c d r q E. apply bind_Ok in E as ([c1 p1] & E1 & E). apply uleb_onward in E1; [|lia|lia].
    apply bind_Ok in E as ([d1 p2] & E2 & E). apply sleb_onward in E2; [|lia|lia].
    destruct (_ || _); [discriminate|]. apply bind_Ok in E as ([r1 p3] & E3 & E). injection E as _ _ _ <-.
    destruct (_ <=? _).
    + apply bind_Ok in E3 as (b & _ & E3). injection E3 as _ <-. rewrite u64_small by lia. lia.
    + apply uleb_onward in E3; lia.
Qed.

(** The length of augmentation data, read where no number is too long. *)
Lemma aug_length_ends base p e : lo <= p <= hi + 2 -> e <= hi ->
  terminates (aug_length base p e) /\
  forall n q, aug_length base p e = Ok (Some (n, q)) -> p <= q <= hi + 6 /\ 0 <= n < 2 ^ 42.
Proof.
  pose proof (ts_lo _ _ T). pose proof (ts_hi _ _ T). intros Hp He. unfold aug_length. split; [ends|].
  intros n q E. apply bind_Ok in E as ([len c] & El & E). destruct (_ || _); [discriminate|]. injection E as <- <-.
  destruct (Z.le_gt_cases p e).
  - apply uleb_short in El; [lia|apply (ts_long _ _ T); lia|lia|lia].
  - rewrite get_uleb128_past in El by lia. injection El as <- <-. lia.
Qed.

Lemma cie_augmentation_ends cie aug nul p e :
  lo <= p <= hi + 2 -> e <= hi -> 0 <= aug <= nul -> nul <= hi -> load8 nul = Ok 0 ->
  terminates (cie_augmentation user compat_task cie aug nul p e) /\
  forall n start a, cie_augmentation user compat_task cie aug nul p e = Ok (Some (n, start, a)) -> lo <= start.
Proof.
  pose proof (ts_lo _ _ T). pose proof (ts_hi _ _ T). intros Hp He Ha Hn E0.
  destruct (aug_length_ends cie p e Hp He) as [Lt Lr]. unfold cie_augmentation.
  assert (R : forall c n q, (if c =? AUG_z then aug_length cie p e else Ok (Some (0, p))) = Ok (Some (n, q)) ->
    p <= q <= hi + 6 /\ 0 <= n < 2 ^ 42).
  { intros c n q. destruct (c =? AUG_z); [apply Lr|intros [= <- <-]; lia]. }
  split.
  - apply terminates_bind; [auto with kunwind|]. intros c _.
    apply terminates_bind; [destruct (c =? AUG_z); [exact Lt|discriminate]|]. intros [[n q]|] E; [|discriminate].
    apply R in E. apply terminates_bind; [|intros [a|] _; discriminate].
    apply (aug_loop_ends (u64 (q + n)) nul); simpl; rewrite ?u64_small by lia; (assumption || lia).
  - intros n start a E. apply bind_Ok in E as (c & _ & E). apply bind_Ok in E as ([[m q]|] & Em & E); [|discriminate].
    apply R in Em. apply bind_Ok in E as ([b|] & _ & E); [|discriminate]. destruct (_ =? _); [|discriminate].
    injection E as _ <- _. rewrite u64_small by lia. lia.
Qed.

Lemma parse_fde_ends fde e t n : lo <= fde -> fde + 8 <= e + 1 -> e <= hi ->
  terminates (parse_fde user compat_task fde e t n) /\
  forall s l start, parse_fde user compat_task fde e t n = Ok (Some (s, l, start)) -> lo <= start < 2 ^ 64.
Proof.
  pose proof (ts_lo _ _ T). pose proof (ts_hi _ _ T). intros Hf Hfe He. unfold parse_fde, read_pointer. split.
  - apply terminates_bind; [apply read_ptr_sect_terminates|]. intros [s p1] _.
    apply terminates_bind; [apply read_ptr_sect_terminates|]. intros [l p2] _.
    unfold aug_length. ends.
  - intros s l start E. fold (read_pointer (u64 (fde + 8)) e t user compat_task) in E.
    rewrite (u64_small (fde + 8)) in E by lia. apply bind_Ok in E as ([v1 p1] & E1 & E).
    apply read_pointer_onward in E1; [|lia|lia]. apply bind_Ok in E as ([v2 p2] & E2 & E).
    fold (read_pointer p1 e (Z.land t (Z.lor DW_EH_PE_FORM DW_EH_PE_signed)) user compat_task) in E2.
    apply read_pointer_onward in E2; [|lia|lia]. destruct (Z.eqb_spec n 0) as [->|].
    + injection E as _ _ <-. rewrite u64_small by lia. lia.
    + apply bind_Ok in E as ([[m q]|] & Em & E); [|discriminate]. injection E as _ _ <-.
      apply aug_length_ends in Em; [|lia|lia]. rewrite u64_small by lia. lia.
Qed.

(** Where the programs of an entry are. *)
Definition programs_in (p : parsed) : Prop :=
  lo <= p_cieEnd p <= hi /\ lo <= p_fdeEnd p <= hi /\ lo <= p_cieStart p /\ lo <= p_fdeStart p.

Lemma parse_fde_cie_ends fde cie : is_u64 fde -> check_fde fde (sec_kbuf sec) (sec_size sec) true = Ok true ->
  cie_for_fde fde sec true = Ok (Some cie) ->
  terminates (parse_fde_cie user compat_task fde cie) /\
  forall p, parse_fde_cie user compat_task fde cie = Ok (Some p) -> programs_in p.
Proof.
  pose proof (ts_lo _ _ T). pose proof (ts_hi _ _ T). intros Hf Hc Hcie.
  destruct (check_fde_in fde Hf Hc) as (fl & id & Ef & Rf & Hfe & _). unfold is_u64 in Hf.
  destruct (cie_for_fde_in fde cie Hf Hc Hcie) as (cl & Ecl & Hcl & Rcl & Hce & Hcf).
  unfold parse_fde_cie. rewrite (u64_small (cie + 8)), (u64_small (cie + 8 + 1)), (u64_small (cie + 4)), (u64_small (fde + 4)) by lia.
  rewrite Ecl, Ef. cbn [mbind C_bind]. rewrite (u64_small (cie + 4 + cl)), (u64_small (fde + 4 + fl)) by lia.
  rewrite (u64_small (cie + 4 + cl - _)) by lia.
  destruct (load8 (cie + 8)) as [version|cr] eqn:Ev; cbn [mbind C_bind];
    [|split; [intros [= ->]; exact (load8_terminates _ Ev)|discriminate]].
  assert (N : forall nul, memchr0 (Z.to_nat (cie + 4 + cl - (cie + 8 + 1))) (cie + 8 + 1) = Ok (Some nul) ->
    cie + 8 + 1 <= nul < cie + 4 + cl /\ load8 nul = Ok 0).
  { intros nul En. apply memchr0_finds in En; [|lia|lia]. rewrite Z2Nat.id in En by lia. split; [lia|apply En]. }
  split.
  - apply terminates_bind; [apply memchr0_ends|]. intros [nul|] En; [|discriminate]. destruct (N nul En) as [Hn E0].
    rewrite (u64_small (nul + 1)) by lia.
    destruct (cie_factors_ends (nul + 1) (cie + 4 + cl) version ltac:(lia) ltac:(lia)) as [Ft Fr].
    apply terminates_bind; [exact Ft|]. intros [[[[code data] ra] q]|] Eq; [|discriminate]. apply Fr in Eq.
    destruct (cie_augmentation_ends cie (cie + 8 + 1) nul q (cie + 4 + cl) ltac:(lia) ltac:(lia) ltac:(lia) ltac:(lia) E0) as [At _].
    apply terminates_bind; [exact At|]. intros [[[n start] a]|] _; [|discriminate].
    apply terminates_bind; [|intros [[[s l] fs]|] _; discriminate].
    apply parse_fde_ends; lia.
  - intros p E. apply bind_Ok in E as ([nul|] & En & E); [|discriminate]. destruct (N nul En) as [Hn E0].
    rewrite (u64_small (nul + 1)) in E by lia.
    destruct (cie_factors_ends (nul + 1) (cie + 4 + cl) version ltac:(lia) ltac:(lia)) as [_ Fr].
    apply bind_Ok in E as ([[[[code data] ra] q]|] & Eq & E); [|discriminate]. apply Fr in Eq.
    destruct (cie_augmentation_ends cie (cie + 8 + 1) nul q (cie + 4 + cl) ltac:(lia) ltac:(lia) ltac:(lia) ltac:(lia) E0) as [_ Ar].
    apply bind_Ok in E as ([[[n start] a]|] & Ea & E); [|discriminate]. apply Ar in Ea.
    apply bind_Ok in E as ([[[s l] fs]|] & Ep & E); [|discriminate]. apply parse_fde_ends in Ep; [|lia|lia|lia].
    injection E as <-. unfold programs_in. cbn [p_cieEnd p_fdeEnd p_cieStart p_fdeStart]. lia.
Qed.
End entry.

(** ** A step and a walk *)

(** The .eh_frame of a module: at a kernel address, its size a size, and without a
    LEB128 number of more than six bytes. *)
Definition short_tables `{K : Kernel} (m : kunwind_module) : Prop :=
  0 <= sec_size (ehf m) /\ tables_short (sec_kbuf (ehf m)) (sec_kbuf (ehf m) + sec_size (ehf m)).

Section walk.
Context `{K : Kernel}.

Lemma search_fde_found pc user compat m fde : _stp_search_fde pc true user compat m = Ok fde -> fde <> 0 ->
  is_u64 fde /\ check_fde fde (sec_kbuf (ehf m)) (sec_size (ehf m)) true = Ok true.
Proof.
  intros E Hf. unfold _stp_search_fde in E. apply bind_Ok in E as ([[[[ptr num] enc] ts]|] & _ & E); [|injection E as <-; contradiction].
  apply bind_Ok in E as ([[ptr' num']|] & _ & E); [|injection E as <-; contradiction].
  apply bind_Ok in E as (cand & Ec & E). apply bind_Ok in E as (ok & Eo & E).
  destruct ok; injection E as <-; [|contradiction]. split; [|exact Eo].
  unfold search_result in Ec. destruct (_ =? _); [|injection Ec as <-; contradiction].
  apply bind_Ok in Ec as ([sl p] & _ & Ec). destruct (_ && _); [|injection Ec as <-; contradiction].
  apply bind_Ok in Ec as ([off p'] & _ & Ec). injection Ec as <-. apply is_u64_u64.
Qed.

Lemma cie_for_fde_terminates fde sec : terminates (cie_for_fde fde sec true).
Proof. unfold cie_for_fde, valid_cie, has_cie_id, u32_at. ends. Qed.

Section step.
Variables (m : kunwind_module) (compat : bool).
Hypothesis Hsz : 0 <= sec_size (ehf m).
Abbreviation lo := (sec_kbuf (ehf m)).
Abbreviation hi := (sec_kbuf (ehf m) + sec_size (ehf m)).
Hypothesis T : tables_short lo hi.

Lemma locate_fde_ends pc : terminates (locate_fde pc m compat) /\
  forall p s e, locate_fde pc m compat = Ok (Located p s e) -> programs_in lo hi p.
Proof.
  unfold locate_fde. split.
  - apply terminates_bind; [apply stp_search_fde_terminates|]. intros fde Ef. destruct (Z.eqb_spec fde 0) as [|Hf]; [discriminate|].
    destruct (search_fde_found _ _ _ _ _ Ef Hf) as [Hu Hc].
    apply terminates_bind; [apply cie_for_fde_terminates|]. intros [cie|] Ecie; [|discriminate].
    apply terminates_bind; [apply (parse_fde_cie_ends lo hi true compat T (ehf m) eq_refl eq_refl Hsz fde cie Hu Hc Ecie)|].
    intros [p|] _; [|discriminate]. cbv zeta. unfold bad_ret_addr_reg. ends.
  - intros p s e E. apply bind_Ok in E as (fde & Ef & E). destruct (Z.eqb_spec fde 0) as [|Hf]; [discriminate|].
    destruct (search_fde_found _ _ _ _ _ Ef Hf) as [Hu Hc].
    apply bind_Ok in E as ([cie|] & Ecie & E); [|discriminate]. apply bind_Ok in E as ([q|] & Ep & E); [|discriminate].
    cbv zeta in E. destruct (_ =? 0); [discriminate|]. destruct (_ <? pc); [discriminate|].
    apply bind_Ok in E as (bad & _ & E). destruct bad; [discriminate|]. injection E as <- _ _.
    exact (proj2 (parse_fde_cie_ends lo hi true compat T (ehf m) eq_refl eq_refl Hsz fde cie Hu Hc Ecie) q Ep).
Qed.

Lemma initial_state_in p s : exprs_in lo hi (initial_state p s).
Proof.
  unfold initial_state. apply set_cfa_off_in, set_cfa_reg_in; [|reflexivity].
  exact (set_no_state_in lo hi UNW_NR_REAL_REGS Nowhere zero_state (or_intror eq_refl) (zero_state_in lo hi)).
Qed.

Lemma save_cie_regs_in st : exprs_in lo hi st -> exprs_in lo hi (save_cie_regs st).
Proof. intros X. split; [apply X|]. apply (REG_STATE_in lo hi st X). Qed.

Lemma run_cie_fde_ends pc p s e : wf_parsed p -> is_u64 s -> programs_in lo hi p ->
  terminates (run_cie_fde pc p s e compat) /\ forall st, run_cie_fde pc p s e compat = Ok (Some st) -> exprs_in lo hi st.
Proof.
  intros Wp Hs (Hce & Hfe & Hcs & Hfs). assert (Uc : is_u64 (p_cieStart p)) by apply Wp.
  assert (Uf : is_u64 (p_fdeStart p)) by apply Wp. unfold run_cie_fde.
  destruct (run_cfi_program_ends lo hi (p_cieEnd p) 0 (p_ptrType p) true compat T Hce (p_cieStart p) (initial_state p s)
    (conj Hcs (proj2 Uc)) (wf_initial_state p s Wp Hs) (initial_state_in p s)) as [T1 X1].
  destruct (run_cfi_program (p_cieEnd p) 0 _ _ _ _ _ _) as [[r1 s1]|c] eqn:E1;
    [|split; [intros [= ->]; apply T1; reflexivity|discriminate]]. cbn [mbind C_bind].
  destruct (Z.eqb_spec r1 0) as [|H1]; [split; discriminate|].
  apply run_program_wf in E1; [|apply wf_initial_state; assumption|exact Uc|exact H1]. specialize (X1 r1 s1 eq_refl H1).
  destruct (run_cfi_program_ends lo hi (p_fdeEnd p) pc (p_ptrType p) true compat T Hfe (p_fdeStart p) (save_cie_regs s1)
    (conj Hfs (proj2 Uf)) (wf_save_cie_regs s1 E1) (save_cie_regs_in s1 X1)) as [T2 X2]. split.
  - apply terminates_bind; [exact T2|]. intros [r2 s2] _. discriminate.
  - intros st E. apply bind_Ok in E as ([r2 s2] & E2 & E). destruct (Z.eqb_spec r2 0) as [|H2]; [discriminate|].
    destruct (_ <? _); [discriminate|]. injection E as <-. exact (X2 r2 s2 E2 H2).
Qed.
End step.

Context {B : Type} `{FC : !FrameCache B}.

Lemma __unwind_frame_terminates cx (mods : kunwind_proc_modules) m compat alloc : short_tables m ->
  terminates (__unwind_frame cx mods m compat alloc).
Proof.
  intros [Hsz T]. unfold __unwind_frame. cbv zeta. destruct (_ || _); [discriminate|].
  destruct (fc_find _ _); [apply terminates_bind; [apply apply_tdep_terminates|intros [f ok] _; destruct ok; discriminate]|].
  destruct (locate_fde_ends m compat Hsz T (u64 (UNW_PC (cx_info cx) - call_frame (cx_info cx)))) as [Lt Lp].
  apply terminates_bind; [exact Lt|]. intros [ret|p s e] El; [discriminate|]. specialize (Lp p s e El).
  apply locate_fde_words in El as [Wp Us].
  destruct (run_cie_fde_ends m compat T (u64 (UNW_PC (cx_info cx) - call_frame (cx_info cx))) p s e Wp Us Lp) as [Rt Rx].
  apply terminates_bind; [exact Rt|]. intros [st|] Er; [|discriminate]. specialize (Rx st Er).
  assert (S : forall f {A} (g : Z * unwind_frame_info -> C A), (forall x, terminates (g x)) ->
    terminates (slow_path st (p_retAddrReg p) f (cx_stub cx) true compat ≫= g)).
  { intros f A g Hg. apply terminates_bind; [eapply slow_path_terminates; eassumption|auto]. }
  destruct (check_standard_frame st).
  - apply terminates_bind; [apply apply_tdep_terminates|]. intros [f ok] _. destruct ok; [discriminate|].
    apply S. intros [r g]. discriminate.
  - apply S. intros [r g]. discriminate.
Qed.

Lemma kunw_mod_lookup_in pc l m : kunw_mod_lookup pc l = Some m -> m ∈ l.
Proof.
  induction l as [|x l IH]; cbn [kunw_mod_lookup]; [discriminate|].
  destruct (_ && _); [intros [= ->]; left|intros E; right; apply IH, E].
Qed.

Lemma unwind_frame_terminates cx (proc : kunwind_proc_modules) compat alloc : Forall short_tables (stp_modules proc) ->
  terminates (unwind_frame cx true proc compat alloc).
Proof.
  intros F. unfold unwind_frame. cbv zeta. destruct (_ || _); [discriminate|].
  destruct (kunw_mod_lookup _ _) as [m|] eqn:E; [|discriminate].
  apply __unwind_frame_terminates. apply kunw_mod_lookup_in in E. exact (proj1 (Forall_forall _ _) F m E).
Qed.

Lemma unwind_frame_modules cx (proc proc' : kunwind_proc_modules) compat alloc r f :
  unwind_frame cx true proc compat alloc = Ok (r, f, proc') -> stp_modules proc' = stp_modules proc.
Proof.
  unfold unwind_frame. cbv zeta. destruct (_ || _); [intros [= _ _ <-]; reflexivity|].
  destruct (kunw_mod_lookup _ _) as [m|]; [|intros [= _ _ <-]; reflexivity].
  intros E. apply __unwind_frame_cache in E as [-> |[e ->]]; reflexivity.
Qed.

Lemma push_entry_counts bt pc bt' : push_entry bt pc = Ok bt' -> nr_entries bt' = nr_entries bt + 1 /\ max_entries bt' = max_entries bt.
Proof. unfold push_entry. destruct (bt_entries bt); [|discriminate]. destruct (_ <? _)%nat; [intros [= <-]; auto|discriminate]. Qed.

Lemma unwind_loop_terminates compat alloc fuel : forall cx (proc : kunwind_proc_modules) bt ret,
  Forall short_tables (stp_modules proc) -> max_entries bt - nr_entries bt < Z.of_nat fuel -> (1 <= fuel)%nat ->
  terminates (unwind_loop fuel cx proc bt compat alloc ret).
Proof.
  induction fuel as [|fuel IH]; intros cx proc bt ret F Hf H1; [lia|]. cbn [unwind_loop].
  destruct (Z.ltb_spec (nr_entries bt) (max_entries bt)); [|discriminate]. cbv zeta. destruct (_ =? 0); [discriminate|].
  apply terminates_bind.
  { unfold push_entry. destruct (bt_entries bt); [|discriminate]. destruct (_ <? _)%nat; discriminate. }
  intros bt' Eb. apply push_entry_counts in Eb as [En Em].
  apply terminates_bind; [apply unwind_frame_terminates, F|]. intros [[r f] proc'] Eu.
  apply unwind_frame_modules in Eu. destruct (r =? 0); [|discriminate]. apply IH; [rewrite Eu; exact F|lia|lia].
Qed.

(** C27: A backtrace ends: whatever else the tables, the stack and the cache hold, and
    whether the addresses in them are mapped or not, [unwind_full] returns or takes
    a fault, when the .eh_frame of the modules has no LEB128 number of more than
    six bytes; every loop under it ends within the rounds it is given. *)
Theorem unwind_full_terminates cx (proc : kunwind_proc_modules) bt compat alloc :
  Forall short_tables (stp_modules proc) -> terminates (unwind_full cx proc bt compat alloc).
Proof.
  intros F. unfold unwind_full. destruct (bt_entries bt) as [l|]; [|discriminate]. destruct (_ =? 0); [discriminate|].
  apply terminates_bind; [apply unwind_loop_terminates; [exact F|simpl; lia|lia]|].
  intros [[[[ret|] cx'] proc'] bt'] _; discriminate.
Qed.
End walk.

(** ** A program without a limit

    The length of a program is a signed difference: a start more than half of the
    address space below the end, which an augmentation length that wraps gives an
    FDE, passes the test against [MAX_CFI]. The interpreter then runs whatever is
    there, here instructions that do nothing, for any number of rounds. *)
Lemma nops_run `{K : Kernel} end_ target ptrType user compat fuel : forall n start st,
  bytes_at start (repeat 0 n) -> start + Z.of_nat n <= end_ -> end_ < 2 ^ 64 -> (fuel <= n)%nat ->
  target = 0 \/ loc st <= target ->
  run_cfi_loop end_ target ptrType user compat fuel start st = Crash OutOfFuel.
Proof.
  induction fuel as [|fuel IH]; intros n start st B Hn He Hf Ht; [reflexivity|]. destruct n as [|n]; [lia|].
  cbn [repeat] in B. apply bytes_at_cons in B as (E0 & Hr & B). cbn [run_cfi_loop].
  destruct (Z.ltb_spec start end_); [|lia]. unfold cfi_instruction. rewrite E0. cbn [mbind C_bind].
  rewrite u64_small by lia. change (Z.shiftr 0 6) with 0. cbv iota zeta.
  change (cfi_extended end_ ptrType user compat 0 (start + 1) st) with (Ok (CfiBreak true (start + 1) st)). cbn [mbind C_bind].
  destruct (Z.ltb_spec end_ (start + 1)); [lia|].
  replace (true && negb (target =? 0) && (target <? loc st)) with false by (symmetry; destruct Ht as [-> |]; [reflexivity|destruct (Z.ltb_spec target (loc st)); [lia|apply andb_false_r]]).
  apply (IH n); [exact B|lia|exact He|lia|exact Ht].
Qed.

Theorem far_start_unbounded `{K : Kernel} end_ target ptrType user compat fuel start st :
  bytes_at start (repeat 0 fuel) -> start + Z.of_nat fuel <= end_ -> 2 ^ 63 <= end_ - start -> end_ < 2 ^ 64 ->
  target = 0 \/ loc st <= target ->
  run_cfi_program end_ target ptrType user compat fuel start st = Crash OutOfFuel.
Proof.
  intros B Hn Hd He Ht. pose proof (proj1 B). unfold run_cfi_program.
  assert (s64 (end_ - start) < 0) as Hs.
  { unfold s64, sign. rewrite Z.mod_small by lia. destruct (Z.ltb_spec (end_ - start) (2 ^ (64 - 1))); lia. }
  destruct (Z.ltb_spec MAX_CFI (s64 (end_ - start))); [unfold MAX_CFI in *; lia|].
  apply (nops_run end_ target ptrType user compat fuel fuel); (assumption || lia).
Qed.

(** ** Witnesses

    The object of the examples at an address where the kernel maps pages. *)
Definition high_vmap : Z := 0xffffc90000100000.
Definition high_kernel : Kernel :=
  image_kernel [(high_vmap + 0x2000, lib_hdr); (high_vmap + 0x2100, lib_eh_frame); (0x400000, repeat 0 1024)] [(0x7ff0, lib_stack)].
Definition high_module : kunwind_module :=
  mk_module 0x9000 (mk_vma 0x400000 0x403000 0) high_vmap (mk_pages 0x9100 [1; 2; 3]) 3
    (mk_section 0x2000 0x402000 (high_vmap + 0x2000) 28)
    (mk_section 0x2100 0x402100 (high_vmap + 0x2100) 76) true.

Definition short_atb `{K : Kernel} (p : Z) : bool :=
  existsb (fun i => match load8 (p + Z.of_nat i) with Ok b => b <? 128 | Crash _ => true end) (seq 0 6).

Lemma short_atb_true `{K : Kernel} p : short_atb p = true -> ~ long_at p.
Proof.
  intros E L. apply existsb_exists in E as (i & Hi & E). apply in_seq in Hi.
  destruct (L (Z.of_nat i) ltac:(lia)) as (b & Eb & Hb). rewrite Eb in E. lia.
Qed.

Lemma tables_shortb_true `{K : Kernel} lo n : 2 ^ 33 <= lo -> lo + Z.of_nat n + 2 ^ 43 < 2 ^ 64 -> Z.of_nat n < 2 ^ 63 ->
  forallb (fun i => short_atb (lo + Z.of_nat i)) (seq 0 (S (S n))) = true -> tables_short lo (lo + Z.of_nat n).
Proof.
  intros H1 H2 H3 F. constructor; [exact H1|exact H2|lia|]. intros p Hp. apply short_atb_true.
  rewrite forallb_forall in F. specialize (F (Z.to_nat (p - lo))). rewrite in_seq in F. specialize (F ltac:(lia)).
  replace (lo + Z.of_nat (Z.to_nat (p - lo))) with p in F by lia. exact F.
Qed.

Lemma unwind_full_terminates_witness :
  terminates (unwind_full (K := high_kernel) lib_context (mk_mods [high_module] empty_cache 0) (mk_bt 4 0 (Some [0; 0; 0; 0]))
    false (fun _ => Some 1)).
Proof.
  apply (unwind_full_terminates (K := high_kernel)). apply Forall_cons. split; [|apply Forall_nil_2].
  split; [vm_compute; discriminate|]. apply (tables_shortb_true (K := high_kernel) (high_vmap + 0x2100) 76).
  - vm_compute. discriminate.
  - vm_compute. reflexivity.
  - vm_compute. reflexivity.
  - vm_compute. reflexivity.
Defined.

Lemma far_start_unbounded_witness :
  run_cfi_program (K := high_kernel) (high_vmap + 0x2100 + 52) 0x401010 0 true false 1024 0x400000 zero_state = Crash OutOfFuel.
Proof.
  apply (far_start_unbounded (K := high_kernel)).
  - apply (bytes_atb_true (K := high_kernel)). vm_compute. reflexivity.
  - vm_compute. discriminate.
  - vm_compute. discriminate.
  - vm_compute. reflexivity.
  - right. vm_compute. discriminate.
Defined.
