(* ===== verification/BacktraceSpec.v ===== *)
(** * What a backtrace holds

    [unwind_full] of src/src/unwind.c against the sequence of steps it makes:
    which program counters it stores, where it stops, what it returns and when
    it does not return. *)
From S2P Require Import Prelude Machine Regs Rules KModule EhFrameHdrSpec Cache Step StepSpec.
From S2P Require Import FdeCie StepWf.

Section walk.
Context `{K : Kernel} {T : Type} `{FC : !FrameCache T}.
Variables (compat : bool) (alloc : Z -> option Z).

(** [rounds k cx proc pcs cx' proc']: from the round of entry [k] on, steps that
    all succeed visit the program counters [pcs] and lead to [cx'] and
    [proc']. *)
Inductive rounds : Z -> unwind_context -> kunwind_proc_modules -> list Z ->
    unwind_context -> kunwind_proc_modules -> Prop :=
  | rounds_nil k cx proc : rounds k cx proc [] cx proc
  | rounds_cons k cx proc f proc1 pcs cx2 proc2 :
      get_pc (cx_info cx) <> 0 ->
      unwind_frame cx true proc compat (alloc k) = Ok (0, f, proc1) ->
      rounds (k + 1) (set_info cx f) proc1 pcs cx2 proc2 ->
      rounds k cx proc (get_pc (cx_info cx) :: pcs) cx2 proc2.

(** How the walk ends after [n] entries: nothing more to store, or a last entry
    whose step does not return 0. *)
Definition stops (max n : Z) (cx1 : unwind_context) (proc1 : kunwind_proc_modules)
    (tail : list Z) (ret : option Z) (cx' : unwind_context) (proc' : kunwind_proc_modules)
    (before : option Z) : Prop :=
  (tail = [] /\ cx' = cx1 /\ proc' = proc1 /\ ret = before /\
     (n = max \/ get_pc (cx_info cx1) = 0)) \/
  (tail = [get_pc (cx_info cx1)] /\ get_pc (cx_info cx1) <> 0 /\ n < max /\
     exists r f, r <> 0 /\ ret = Some r /\
       unwind_frame cx1 true proc1 compat (alloc n) = Ok (r, f, proc') /\ cx' = set_info cx1 f).

Lemma push_entry_at max done x rest pc :
  push_entry (mk_bt max (Z.of_nat (length done)) (Some (done ++ x :: rest))) pc =
    Ok (mk_bt max (Z.of_nat (length (done ++ [pc]))) (Some ((done ++ [pc]) ++ rest))).
Proof.
  unfold push_entry. simpl bt_entries. simpl nr_entries. simpl max_entries.
  rewrite Nat2Z.id, !length_app. simpl length.
  destruct (Nat.ltb_spec (length done) (length done + S (length rest))); [|lia].
  rewrite insert_app_r_alt, Nat.sub_diag, <- app_assoc by lia. simpl.
  do 2 f_equal. lia.
Qed.

Lemma unwind_loop_walk max fuel : forall cx proc done rest ret,
  Z.of_nat (length done) <= max -> max - Z.of_nat (length done) <= Z.of_nat (length rest) ->
  max - Z.of_nat (length done) < Z.of_nat fuel ->
  exists pcs cx1 proc1, rounds (Z.of_nat (length done)) cx proc pcs cx1 proc1 /\
    Z.of_nat (length done + length pcs) <= max /\
    match unwind_loop fuel cx proc (mk_bt max (Z.of_nat (length done)) (Some (done ++ rest)))
            compat alloc ret with
    | Ok (ret', cx', proc', bt') =>
        exists tail,
          bt' = mk_bt max (Z.of_nat (length (done ++ pcs ++ tail)))
                  (Some ((done ++ pcs ++ tail) ++ drop (length (pcs ++ tail)) rest)) /\
          stops max (Z.of_nat (length done + length pcs)) cx1 proc1 tail ret' cx' proc'
            (match pcs with [] => ret | _ => Some 0 end)
    | Crash c =>
        unwind_frame cx1 true proc1 compat (alloc (Z.of_nat (length done + length pcs))) = Crash c /\
        get_pc (cx_info cx1) <> 0 /\ Z.of_nat (length done + length pcs) < max
    end.
Proof.
  induction fuel as [|fuel IH]; intros cx proc done rest ret Hd Hr Hf; [lia|]. cbn [unwind_loop].
  simpl nr_entries. simpl max_entries.
  destruct (Z.ltb_spec (Z.of_nat (length done)) max) as [Hlt|Hge].
  2: { exists [], cx, proc. rewrite Nat.add_0_r. split; [constructor|]. split; [lia|].
       exists []. rewrite app_nil_r. split; [reflexivity|]. left. split_and!; auto. left. lia. }
  destruct (Z.eqb_spec (get_pc (cx_info cx)) 0) as [Hz|Hnz].
  { exists [], cx, proc. rewrite Nat.add_0_r. split; [constructor|]. split; [lia|].
    exists []. rewrite app_nil_r. split; [reflexivity|]. left. split_and!; auto. }
  destruct rest as [|x rest]; [simpl in Hr; lia|]. rewrite push_entry_at. cbn [mbind C_bind].
  destruct (unwind_frame cx true proc compat (alloc (Z.of_nat (length done)))) as [[[r f] proc']|c] eqn:E.
  2: { cbn [mbind C_bind]. exists [], cx, proc. rewrite Nat.add_0_r. split; [constructor|].
       split; [lia|]. auto. }
  cbn [mbind C_bind]. destruct (Z.eqb_spec r 0) as [->|Hr0].
  - destruct (IH (set_info cx f) proc' (done ++ [get_pc (cx_info cx)]) rest (Some 0))
      as (pcs & cx1 & proc1 & HR & Hl & HW); rewrite ?length_app in *; simpl length in *; try lia.
    exists (get_pc (cx_info cx) :: pcs), cx1, proc1. split.
    { econstructor; [exact Hnz|exact E|].
      replace (Z.of_nat (length done) + 1) with (Z.of_nat (length done + 1)) by lia. exact HR. }
    simpl length. replace (length done + S (length pcs))%nat with (length done + 1 + length pcs)%nat by lia.
    split; [exact Hl|].
    destruct (unwind_loop _ _ _ _ _ _ _) as [[[[ret' cx'] proc2] bt']|c]; [|exact HW].
    destruct HW as (tail & -> & HS). exists tail. rewrite <- !app_assoc. split; [reflexivity|].
    destruct pcs; exact HS.
  - exists [], cx, proc. rewrite Nat.add_0_r. split; [constructor|]. split; [lia|].
    exists [get_pc (cx_info cx)]. split; [reflexivity|]. right. split_and!; auto. eauto 10.
Qed.

Lemma full_walk_at cx (proc : kunwind_proc_modules) bt l :
  bt_entries bt = Some l -> 0 < max_entries bt <= Z.of_nat (length l) ->
  exists pcs cx1 proc1, rounds 0 cx proc pcs cx1 proc1 /\
    match unwind_full cx proc bt compat alloc with
    | Ok (r, cx', proc', bt') =>
        exists tail ret,
          bt' = mk_bt (max_entries bt) (Z.of_nat (length (pcs ++ tail)))
                  (Some ((pcs ++ tail) ++ drop (length (pcs ++ tail)) l)) /\
          Z.of_nat (length (pcs ++ tail)) <= max_entries bt /\
          stops (max_entries bt) (Z.of_nat (length pcs)) cx1 proc1 tail (Some ret) cx' proc'
            (match pcs with [] => None | _ => Some 0 end) /\
          r = (if ret =? 2 then 0 else ret)
    | Crash c =>
        c = Uninitialised /\ get_pc (cx_info cx) = 0 \/
        unwind_frame cx1 true proc1 compat (alloc (Z.of_nat (length pcs))) = Crash c
    end.
Proof.
  intros Hl Hmax. unfold unwind_full. rewrite Hl. destruct (Z.eqb_spec (max_entries bt) 0); [lia|].
  destruct (unwind_loop_walk (max_entries bt) (S (Z.to_nat (max_entries bt))) cx proc [] l None)
    as (pcs & cx1 & proc1 & HR & Hn & HW); simpl length in *; try lia.
  exists pcs, cx1, proc1. split; [exact HR|]. change (Z.of_nat 0) with 0 in *. simpl app in *.
  simpl Nat.add in *.
  destruct (unwind_loop _ _ _ _ _ _ _) as [[[[ret cx'] proc'] bt']|c]; cbn [mbind C_bind].
  2: { right. apply HW. }
  destruct HW as (tail & -> & HS). destruct ret as [ret|].
  - exists tail, ret. split; [reflexivity|]. split; [|split; [exact HS|reflexivity]].
    rewrite length_app. destruct HS as [(-> & _)|(-> & _ & Hlt & _)]; simpl; lia.
  - left. split; [reflexivity|]. destruct HS as [(-> & -> & _ & Eb & Hend)|(_ & _ & _ & r & f & _ & E & _)];
      [|discriminate]. destruct pcs; [|discriminate]. simpl in *. inversion HR; subst.
    destruct Hend; [lia|assumption].
Qed.

(** C8: [unwind_full] stores the program counters its successful steps visit, in
    order and from the start of the array, and the one whose step ends the walk;
    it never stores more than [max_entries], leaves the rest of the array as it
    was, and turns the result 2 into 0. It crashes only where a step crashes, or
    when the first program counter is already 0: then it returns a variable that
    was never assigned. *)
Theorem unwind_full_walk cx (proc : kunwind_proc_modules) bt l :
  bt_entries bt = Some l -> 0 < max_entries bt <= Z.of_nat (length l) ->
  exists pcs cx1 proc1, rounds 0 cx proc pcs cx1 proc1 /\
    match unwind_full cx proc bt compat alloc with
    | Ok (r, cx', proc', bt') =>
        exists tail ret,
          bt' = mk_bt (max_entries bt) (Z.of_nat (length (pcs ++ tail)))
                  (Some ((pcs ++ tail) ++ drop (length (pcs ++ tail)) l)) /\
          Z.of_nat (length (pcs ++ tail)) <= max_entries bt /\
          stops (max_entries bt) (Z.of_nat (length pcs)) cx1 proc1 tail (Some ret) cx' proc'
            (match pcs with [] => None | _ => Some 0 end) /\
          r = (if ret =? 2 then 0 else ret)
    | Crash c =>
        c = Uninitialised /\ get_pc (cx_info cx) = 0 \/
        unwind_frame cx1 true proc1 compat (alloc (Z.of_nat (length pcs))) = Crash c
    end.
Proof. apply full_walk_at. Qed.

(** ** What a backtrace keeps *)

Lemma mods_grow_trans (a b c : kunwind_proc_modules) : mods_grow a b -> mods_grow b c -> mods_grow a c.
Proof.
  intros (A1 & A2 & A3 & A4) (B1 & B2 & B3 & B4). split_and!; [congruence|congruence|exact B3|auto].
Qed.

Lemma unwind_loop_keeps fuel : forall cx (proc : kunwind_proc_modules) bt ret r cx' proc' bt',
  wf_frame (cx_info cx) -> fc_inv (mods_cache proc) -> ret ∈ [None; Some 0] ->
  unwind_loop fuel cx proc bt compat alloc ret = Ok (r, cx', proc', bt') ->
  wf_frame (cx_info cx') /\ cx_stub cx' = cx_stub cx /\ mods_grow proc proc' /\
  r ∈ [None; Some 0; Some 1; Some 2; Some (- EIO); Some (- EINVAL)].
Proof.
  induction fuel as [|fuel IH]; simpl; intros cx proc bt ret r cx' proc' bt' W Hi Hr E; [discriminate|].
  assert (Stop : r = ret -> r ∈ [None; Some 0; Some 1; Some 2; Some (- EIO); Some (- EINVAL)]).
  { intros ->. rewrite !elem_of_cons in *. destruct Hr as [|[|[]%elem_of_nil]]; auto. }
  destruct (_ <? _); [|injection E as <- <- <- <-; split_and!; auto using mods_grow_refl].
  destruct (_ =? 0); [injection E as <- <- <- <-; split_and!; auto using mods_grow_refl|].
  apply bind_Ok in E as (bt1 & _ & E). apply bind_Ok in E as ([[r1 f] proc1] & Ef & E).
  apply unwind_frame_keeps in Ef as (Wf & G & R); [|exact W|exact Hi].
  destruct (Z.eqb_spec r1 0) as [->|].
  - apply IH in E as (W' & S' & G' & R'); [|exact Wf|apply G|rewrite !elem_of_cons; auto].
    split_and!; [exact W'|exact S'|eapply mods_grow_trans; eassumption|exact R'].
  - injection E as <- <- <- <-. split_and!; [exact Wf|reflexivity|exact G|]. clear -R.
    rewrite !elem_of_cons, elem_of_nil in R. rewrite !elem_of_cons, elem_of_nil.
    destruct R as [-> | [-> | [-> | [-> | [-> | []]]]]]; auto 10.
Qed.

Lemma unwind_full_grows cx (proc : kunwind_proc_modules) bt r cx' proc' bt' :
  wf_frame (cx_info cx) -> fc_inv (mods_cache proc) ->
  unwind_full cx proc bt compat alloc = Ok (r, cx', proc', bt') ->
  wf_frame (cx_info cx') /\ cx_stub cx' = cx_stub cx /\ mods_grow proc proc' /\
  r ∈ [0; 1; - EIO; - EINVAL].
Proof.
  intros W Hi E. unfold unwind_full in E.
  assert (Inv : - EINVAL ∈ [0; 1; - EIO; - EINVAL]) by (rewrite !elem_of_cons; auto 10).
  destruct (bt_entries bt); [|injection E as <- <- <- <-; split_and!; auto using mods_grow_refl].
  destruct (_ =? 0); [injection E as <- <- <- <-; split_and!; auto using mods_grow_refl|].
  apply bind_Ok in E as ([[[ret cx1] proc1] bt1] & El & E).
  apply unwind_loop_keeps in El as (W' & S' & G & R); [|exact W|exact Hi|rewrite !elem_of_cons; auto].
  destruct ret as [ret|]; [|discriminate]. injection E as <- <- <- <-.
  split_and!; [exact W'|exact S'|exact G|]. clear -R. rewrite !elem_of_cons, elem_of_nil in R. rewrite !elem_of_cons, elem_of_nil.
  destruct R as [[=]|[[= ->]|[[= ->]|[[= ->]|[[= ->]|[[= ->]|[]]]]]]]; simpl; auto 10.
Qed.

(** After a backtrace the frame reached is well formed, the other frame of the
    context is the one given, the modules are the same and the cache has only
    grown; the result 2 of the last step never gets out. *)
Theorem unwind_full_keeps cx (proc : kunwind_proc_modules) bt r cx' proc' bt' :
  wf_frame (cx_info cx) -> fc_inv (mods_cache proc) ->
  unwind_full cx proc bt compat alloc = Ok (r, cx', proc', bt') ->
  wf_frame (cx_info cx') /\ cx_stub cx' = cx_stub cx /\ mods_grow proc proc' /\
  r ∈ [0; 1; - EIO; - EINVAL].
Proof. apply unwind_full_grows. Qed.

(** ** Where the reported values come from *)

(** A program counter of the frames the walk was started with, or a word of the
    memory of the process, read with its limit, of which a 32-bit process has the
    low half. *)
Definition user_word (cx : unwind_context) (v : Z) : Prop :=
  v = UNW_PC (cx_info cx) \/ v = UNW_PC (cx_stub cx) \/
  exists a w, _stp_read_address 8 8 a USER_DS = Some w /\ v = (if compat then Z.land w 0xFFFFFFFF else w).

(** Such a word, or the address before it. *)
Definition reported (cx : unwind_context) (pc : Z) : Prop := exists v c, user_word cx v /\ (c = 0 \/ c = 1) /\ pc = u64 (v - c).

Lemma restore_pc_word cx f a g : restore_reg_from_memory f UNW_PC_IDX a compat true = Ok (g, true) -> length (fr_regs f) = PT_WORDS ->
  user_word cx (UNW_PC g).
Proof.
  unfold restore_reg_from_memory. intros E Hl. destruct (_stp_read_address _ _ _ _) as [w|] eqn:Ew; [|discriminate].
  apply bind_Ok in E as (h & Eh & E). injection E as <-. right. right. exists a, w. split; [exact Ew|].
  unfold set_FRAME_REG in Eh. cbn in Eh. injection Eh as <-. unfold UNW_PC, word, set_word. cbn [fr_regs].
  rewrite nth_lookup, list_lookup_insert_eq by (rewrite Hl; unfold PT_IP, PT_WORDS; lia). reflexivity.
Qed.

Lemma restore_reg_length f r a user g ok : restore_reg_from_memory f r a compat user = Ok (g, ok) ->
  length (fr_regs g) = length (fr_regs f).
Proof.
  unfold restore_reg_from_memory. destruct (_stp_read_address _ _ _ _); [|intros [= <- _]; reflexivity].
  intros E. apply bind_Ok in E as (h & Eh & E). injection E as <- _. exact (set_FRAME_REG_length _ _ _ _ Eh).
Qed.

Lemma apply_tdep_word cx f e g : wf_frame f -> apply_tdep_state f e compat true = Ok (g, true) -> user_word cx (UNW_PC g).
Proof.
  intros [Hl _] E. unfold apply_tdep_state, restore_tdep in E. apply bind_Ok in E as (base & _ & E).
  apply bind_Ok in E as ([f1 ok1] & E1 & E). assert (L1 : length (fr_regs f1) = length (fr_regs f)).
  { destruct (bool_decide (ti_where (tf_rbp e) = Memory)); [apply restore_reg_length in E1; exact E1|injection E1 as <- _; reflexivity]. }
  destruct ok1; [|discriminate]. cbn [negb] in E. apply bind_Ok in E as ([f2 ok2] & E2 & E).
  assert (L2 : length (fr_regs f2) = length (fr_regs f1)).
  { destruct (bool_decide (ti_where (tf_rsp e) = Memory)); [apply restore_reg_length in E2; exact E2|].
    apply bind_Ok in E2 as (h & Eh & E2). injection E2 as <- _. exact (set_FRAME_REG_length _ _ _ _ Eh). }
  destruct ok2; [|discriminate]. eapply restore_pc_word; [exact E|congruence].
Qed.

(** A step that succeeds goes to a word of the process or to the other frame. *)
Lemma step_word cx cx0 (proc : kunwind_proc_modules) a f proc' : wf_frame (cx_info cx) -> cx_stub cx = cx_stub cx0 ->
  unwind_frame cx true proc compat a = Ok (0, f, proc') -> user_word cx0 (UNW_PC f).
Proof.
  intros W Hs E. unfold unwind_frame in E. destruct (_ || _); [discriminate|].
  destruct (kunw_mod_lookup _ _) as [m|]; [|discriminate]. unfold __unwind_frame in E. cbv zeta in E.
  destruct (_ || _); [discriminate|].
  assert (Slow : forall st ra g r h, slow_path st ra g (cx_stub cx) true compat = Ok (r, h) -> r = 0 -> user_word cx0 (UNW_PC h)).
  { intros st ra g r h Eh ->. right. left. rewrite <- Hs. exact (proj1 (slow_path_zero _ _ _ _ _ _ _ Eh)). }
  destruct (fc_find _ _) as [e|].
  { apply bind_Ok in E as ([g ok] & Eg & E). destruct ok; injection E as E' <- _; [|discriminate].
    exact (apply_tdep_word _ _ _ _ W Eg). }
  apply bind_Ok in E as ([ret|p s e] & El & E); [injection E as -> _ _; apply locate_fde_words in El as [|]; discriminate|].
  apply locate_fde_words in El as [Wp _]. assert (W' : wf_frame (set_call_frame (cx_info cx) (p_call_frame p))).
  { destruct W as (Wl & Wr & _). split_and!; [exact Wl|exact Wr|apply Wp..]. }
  apply bind_Ok in E as ([st|] & _ & E); [|discriminate].
  destruct (check_standard_frame st).
  - apply bind_Ok in E as ([g ok] & Eg & E). destruct ok.
    + injection E as _ <- _. exact (apply_tdep_word _ _ _ _ W' Eg).
    + apply bind_Ok in E as ([r h] & Eh & E). injection E as -> <- _. exact (Slow _ _ _ _ _ Eh eq_refl).
  - apply bind_Ok in E as ([r h] & Eh & E). injection E as -> <- _. exact (Slow _ _ _ _ _ Eh eq_refl).
Qed.

Lemma reported_pc cx0 cx : wf_frame (cx_info cx) -> user_word cx0 (UNW_PC (cx_info cx)) -> reported cx0 (get_pc (cx_info cx)).
Proof. intros (_ & _ & Hc) U. exists (UNW_PC (cx_info cx)), (call_frame (cx_info cx)). split; [exact U|]. split; [lia|reflexivity]. Qed.

Lemma rounds_reported cx0 k cx (proc : kunwind_proc_modules) pcs cx2 proc2 : rounds k cx proc pcs cx2 proc2 ->
  wf_frame (cx_info cx) -> cx_stub cx = cx_stub cx0 -> user_word cx0 (UNW_PC (cx_info cx)) ->
  Forall (reported cx0) pcs /\ reported cx0 (get_pc (cx_info cx2)).
Proof.
  induction 1 as [k cx proc|k cx proc f proc1 pcs cx2 proc2 Hz E _ IH]; intros W Hs U.
  - split; [constructor|exact (reported_pc cx0 cx W U)].
  - pose proof (step_word cx cx0 proc (alloc k) f proc1 W Hs E) as Uf.
    apply unwind_frame_frame in E as Wf; [|exact W]. destruct (IH Wf Hs Uf) as [Fp Rc]. split; [|exact Rc]. constructor; [exact (reported_pc cx0 cx W U)|exact Fp].
Qed.

(** Whatever the tables and the cache
    hold, every program counter it stores is one the walk was started with or a
    word that was read from the memory of the process within its limit, or the
    address before it; the rest of the array is as it was. *)
Theorem backtrace_reports_user_words cx (proc : kunwind_proc_modules) bt l r cx' proc' bt' :
  wf_frame (cx_info cx) -> bt_entries bt = Some l -> 0 < max_entries bt <= Z.of_nat (length l) ->
  unwind_full cx proc bt compat alloc = Ok (r, cx', proc', bt') ->
  exists pcs, bt_entries bt' = Some (pcs ++ drop (length pcs) l) /\ nr_entries bt' = Z.of_nat (length pcs) /\
    Z.of_nat (length pcs) <= max_entries bt /\ Forall (reported cx) pcs.
Proof.
  intros W Hl Hm E. destruct (full_walk_at cx proc bt l Hl Hm) as (pcs & cx1 & proc1 & R & H). rewrite E in H.
  destruct H as (tail & ret & -> & Hn & S & _). exists (pcs ++ tail). do 3 (split; [reflexivity || exact Hn|]).
  destruct (rounds_reported cx 0 cx proc pcs cx1 proc1 R W eq_refl (or_introl eq_refl)) as [Fp Rc].
  apply Forall_app. split; [exact Fp|]. destruct S as [(-> & _)|(-> & _)]; [constructor|]. constructor; [exact Rc|constructor].
Qed.
End walk.

(** ** Witnesses *)

Definition lib_bt : kunwind_backtrace := mk_bt 4 0 (Some [0; 0; 0; 0]).

Definition lib_trace := unwind_full (K := lib_run) lib_context lib_mods lib_bt false (fun _ => Some 1).

(** Three frames: the interrupted function, its caller, and a third whose stack
    cannot be read. *)
Lemma lib_trace_entries :
  match lib_trace with
  | Ok (r, _, _, bt) =>
      r = - EIO /\ bt = mk_bt 4 3 (Some [0x401010; 0x40105f; 0x40107f; 0])
  | Crash _ => False
  end.
Proof. vm_compute. split; reflexivity. Qed.

Lemma unwind_full_walk_witness :
  exists pcs cx1 proc1,
    rounds (K := lib_run) false (fun _ => Some 1) 0 lib_context lib_mods pcs cx1 proc1 /\
    match lib_trace with
    | Ok (r, cx', proc', bt') =>
        exists tail ret,
          bt' = mk_bt 4 (Z.of_nat (length (pcs ++ tail)))
                  (Some ((pcs ++ tail) ++ drop (length (pcs ++ tail)) [0; 0; 0; 0])) /\
          Z.of_nat (length (pcs ++ tail)) <= 4 /\
          stops (K := lib_run) false (fun _ => Some 1) 4 (Z.of_nat (length pcs)) cx1 proc1 tail (Some ret)
            cx' proc' (match pcs with [] => None | _ => Some 0 end) /\
          r = (if ret =? 2 then 0 else ret)
    | Crash c =>
        c = Uninitialised /\ get_pc (cx_info lib_context) = 0 \/
        unwind_frame (K := lib_run) cx1 true proc1 false (Some 1) = Crash c
    end.
Proof.
  apply (unwind_full_walk (K := lib_run) false (fun _ => Some 1) lib_context lib_mods lib_bt [0; 0; 0; 0]).
  - reflexivity.
  - simpl. lia.
Defined.

Lemma unwind_full_keeps_witness :
  exists r cx' proc' bt', lib_trace = Ok (r, cx', proc', bt') /\
    wf_frame (cx_info cx') /\ cx_stub cx' = lib_frame /\ mods_grow lib_mods proc' /\
    r ∈ [0; 1; - EIO; - EINVAL].
Proof.
  pose proof lib_trace_entries as H. destruct lib_trace as [[[[r cx'] proc'] bt']|] eqn:E; [|destruct H].
  exists r, cx', proc', bt'. split; [reflexivity|].
  apply (unwind_full_keeps (K := lib_run) false (fun _ => Some 1) lib_context lib_mods lib_bt
    r cx' proc' bt').
  - apply wf_frame_dec. reflexivity.
  - apply wf_empty_cache.
  - exact E.
Defined.
