(* ===== verification/UnwindSpec.v ===== *)
(** * One step, from the bytes of the module to the caller's frame

    The composition of the whole development: for a module whose .eh_frame_hdr
    and .eh_frame have the layout of the format documents, a step of the
    unwinder leads to the frame the call frame instructions define. *)
From S2P Require Import Prelude Machine Leb128 EncodedPtr Regs Rules Cfi CfiSpec Expr KModule.
From S2P Require Import FdeCie FdeCieSpec EhFrameHdr EhFrameHdrSpec Cache Step StepSpec StepWf.

(** ** An entry of .eh_frame *)

(** A common information entry and a frame description that refers to it. *)
Record cfi_entry : Type := mk_cfi_entry {
  e_version : Z;
  e_augs : list aug_item;
  e_code : Z;
  e_data : Z;
  e_ra : Z;
  e_cprog : list insn;
  e_form : Z;
  e_signed : bool;
  e_adj : Z;
  e_start : Z;
  e_range : Z;
  e_augdata : list Z;
  e_fprog : list insn
}.

Definition prog_bytes (p : list insn) : list Z := concat (map encode p).

Definition e_cie (E : cfi_entry) : list Z :=
  cie_bytes (e_version E) (e_augs E) (e_code E) (e_data E) (e_ra E) (prog_bytes (e_cprog E)).
Definition e_fde (back : Z) (E : cfi_entry) : list Z :=
  fde_bytes back (e_form E) (e_start E) (e_range E) (e_augdata E) (prog_bytes (e_fprog E)).
Definition e_enc (E : cfi_entry) : Z := encoding (e_form E) (e_signed E) (e_adj E).
Definition e_effect (E : cfi_entry) : Z * Z := fold_left aug_effect (e_augs E) (DW_EH_PE_absptr, 1).

(** The entry in the mapped section of a module, the CIE before the FDE. *)
Record entry_loaded `{K : Kernel} (m : kunwind_module) (fde cie : Z) (E : cfi_entry) : Prop := {
  el_cie_ok : cie_operands_ok (e_version E) (e_code E) (e_data E) (e_ra E);
  el_fde_ok : fde_values_ok (e_form E) (e_signed E) (e_adj E) (e_start E) (e_range E);
  el_cie : bytes_at cie (e_cie E);
  el_fde : bytes_at fde (e_fde (fde + 4 - cie) E);
  el_order : cie + Z.of_nat (length (e_cie E)) <= fde;
  el_low : 0 < sec_kbuf (ehf m) <= cie;
  el_high : fde + Z.of_nat (length (e_fde (fde + 4 - cie) E)) <= sec_kbuf (ehf m) + sec_size (ehf m);
  el_limit : sec_kbuf (ehf m) + sec_size (ehf m) <= ptr_limit;
  el_size : 0 < sec_size (ehf m) < 2 ^ 31 /\ sec_size (ehf m) mod 4 = 0;
  el_align : (fde - cie) mod 4 = 0 /\
    Z.of_nat (length (e_fde (fde + 4 - cie) E)) mod 4 = 0;
  el_augs : augs_ok (cie + Z.of_nat (length (e_cie E)) - Z.of_nat (length (prog_bytes (e_cprog E))) -
    Z.of_nat (length (augs_data (e_augs E)))) (e_augs E);
  el_data : augs_data (e_augs E) <> [];
  el_enc : fst (e_effect E) = e_enc E;
  el_ra : 0 <= e_ra E < NR_REGS;
  el_insns : Forall insn_ok (e_cprog E) /\ Forall insn_ok (e_fprog E);
  el_max : Z.of_nat (length (prog_bytes (e_cprog E))) <= MAX_CFI /\
    Z.of_nat (length (prog_bytes (e_fprog E))) <= MAX_CFI
}.

(** The code range of the entry at run time. *)
Definition e_start_loc (m : kunwind_module) (fde : Z) (E : cfi_entry) : Z :=
  adjust_start_loc (u64 (e_start E + adjust_base (e_adj E) (fde + 8) 0 0)) (e_enc E) true m.
Definition e_end_loc (m : kunwind_module) (fde : Z) (E : cfi_entry) : Z :=
  u64 (e_start_loc m fde E + u64 (e_range E)).

(** ** The row DWARF defines for a program counter *)

(** Before any instruction: no CFA, every register unchanged, no return
    address. *)
Definition dwarf_start (E : cfi_entry) (startLoc : Z) : dwarf :=
  mk_dwarf startLoc (mk_row (CfaReg NR_REGS 1) (repeat RSame 16 ++ [RUndefined])) []
    (repeat RSame 17) (e_code E) (e_data E).

(** The rules the CIE leaves are the ones [DW_CFA_restore] goes back to. *)
Definition after_cie (d : dwarf) : dwarf :=
  mk_dwarf (d_loc d) (d_row d) (d_stack d) (row_rules (d_row d)) (d_code d) (d_data d).

Definition e_cie_start (cie : Z) (E : cfi_entry) : Z :=
  cie + Z.of_nat (length (e_cie E)) - Z.of_nat (length (prog_bytes (e_cprog E))).
Definition e_fde_start (fde cie : Z) (E : cfi_entry) : Z :=
  fde + Z.of_nat (length (e_fde (fde + 4 - cie) E)) - Z.of_nat (length (prog_bytes (e_fprog E))).

Definition dwarf_at (pc : Z) (m : kunwind_module) (fde cie : Z) (E : cfi_entry) : option dwarf :=
  d ← exec_program false 0 (e_cie_start cie E) (e_cprog E) (dwarf_start E (e_start_loc m fde E));
  exec_program false pc (e_fde_start fde cie E) (e_fprog E) (after_cie d).

(** ** Reading the entry *)

Section loaded.
Context `{K : Kernel}.
Variables (m : kunwind_module) (fde cie : Z) (E : cfi_entry).
Hypothesis L : entry_loaded m fde cie E.

Let kbuf : Z := sec_kbuf (ehf m).
Let size : Z := sec_size (ehf m).

(** The first two words of a record. *)
Lemma record_words p id body :
  bytes_at p (le_bytes 4 (4 + Z.of_nat (length body)) ++ le_bytes 4 id ++ body) ->
  0 <= id < 2 ^ 32 -> 4 + Z.of_nat (length body) < 2 ^ 32 -> p + 8 < 2 ^ 64 ->
  u32_at p 0 = Ok (4 + Z.of_nat (length body)) /\ u32_at p 1 = Ok id /\ bytes_at (p + 8) body.
Proof.
  intros H Hid Hb Hp. assert (0 <= p) by apply H.
  split; [eapply u32_at_le; [exact H|lia]|].
  apply bytes_at_app in H as [_ H]. apply bytes_at_app in H as [H1 H2].
  rewrite length_le_bytes in H1, H2. split.
  - unfold u32_at. rewrite u64_small by lia.
    replace (p + 4 * 1) with (p + Z.of_nat 4) by lia. rewrite (load_le_bytes 4 _ id H1).
    rewrite Z.mod_small by (simpl; lia). reflexivity.
  - replace (p + 8) with (p + Z.of_nat 4 + Z.of_nat 4) by lia. exact H2.
Qed.

Definition cbody : list Z :=
  cie_body (e_version E) (e_augs E) (e_code E) (e_data E) (e_ra E) (prog_bytes (e_cprog E)).
Definition fbody : list Z :=
  fde_body (e_form E) (e_start E) (e_range E) (e_augdata E) (prog_bytes (e_fprog E)).

Lemma length_e_cie : Z.of_nat (length (e_cie E)) = 8 + Z.of_nat (length cbody).
Proof. unfold e_cie, cie_bytes. rewrite !length_app, !length_le_bytes. fold cbody. lia. Qed.

Lemma length_e_fde back : Z.of_nat (length (e_fde back E)) = 8 + Z.of_nat (length fbody).
Proof. unfold e_fde, fde_bytes. rewrite !length_app, !length_le_bytes. fold fbody. lia. Qed.

Lemma length_cbody : 5 <= Z.of_nat (length cbody).
Proof.
  assert (0 < length (uleb_encode (e_code E)))%nat
    by (unfold uleb_encode; simpl; destruct (_ <? _); simpl; lia).
  assert (0 < length (sleb_enc 4 (e_data E)))%nat by (simpl; destruct (_ && _); simpl; lia).
  unfold cbody, cie_body, aug_string. rewrite !length_app. change (length [_; _]) with 2%nat.
  change (length [0]) with 1%nat. lia.
Qed.

(** The bounds of the two records, in one place. *)
Lemma entry_bounds :
  0 < kbuf <= cie /\ cie + 8 + Z.of_nat (length cbody) <= fde /\
  fde + 8 + Z.of_nat (length fbody) <= kbuf + size /\ kbuf + size <= 2 ^ 64 - 4096 /\
  0 < size < 2 ^ 31.
Proof.
  pose proof (el_order _ _ _ _ L) as Ho. rewrite length_e_cie in Ho.
  pose proof (el_high _ _ _ _ L) as Hh. rewrite length_e_fde in Hh.
  pose proof (el_low _ _ _ _ L). pose proof (el_limit _ _ _ _ L). pose proof (el_size _ _ _ _ L).
  unfold ptr_limit, kbuf, size in *. lia.
Qed.

Lemma cie_words : u32_at cie 0 = Ok (4 + Z.of_nat (length cbody)) /\ u32_at cie 1 = Ok 0 /\
  bytes_at (cie + 8) cbody.
Proof. pose proof entry_bounds. apply record_words; [apply (el_cie _ _ _ _ L)|lia..]. Qed.

Lemma fde_words : u32_at fde 0 = Ok (4 + Z.of_nat (length fbody)) /\
  u32_at fde 1 = Ok (fde + 4 - cie) /\ bytes_at (fde + 8) fbody.
Proof. pose proof entry_bounds. apply record_words; [apply (el_fde _ _ _ _ L)|lia..]. Qed.

Lemma check_fde_loaded : check_fde fde kbuf size true = Ok true.
Proof.
  pose proof entry_bounds. pose proof length_cbody. destruct fde_words as (E0 & E1 & _).
  destruct (el_align _ _ _ _ L) as [_ Ha]. rewrite length_e_fde in Ha.
  unfold check_fde. rewrite E0. cbn [mbind C_bind]. rewrite flag3 by lia.
  destruct (Z.eqb_spec (4 + Z.of_nat (length fbody)) 0); [lia|].
  destruct (Z.eqb_spec ((4 + Z.of_nat (length fbody)) mod 4) 0); [|Z.div_mod_to_equations; lia].
  unfold has_cie_id. rewrite E1. cbn [negb orb mbind C_bind andb].
  destruct (Z.eqb_spec (fde + 4 - cie) 0); [lia|].
  destruct (Z.eqb_spec (fde + 4 - cie) 0xffffffff); [lia|]. cbn [orb].
  rewrite (u64_small (fde + 4)), (u64_small (fde + 4 + _)), (u64_small (kbuf + size)) by lia.
  destruct (Z.ltb_spec (fde + 4 + (4 + Z.of_nat (length fbody))) kbuf); [lia|].
  destruct (Z.ltb_spec (kbuf + size) (fde + 4 + (4 + Z.of_nat (length fbody)))); [lia|]. reflexivity.
Qed.

Lemma cie_for_fde_loaded : cie_for_fde fde (ehf m) true = Ok (Some cie).
Proof.
  pose proof entry_bounds as B. pose proof length_cbody as Hb.
  destruct fde_words as (_ & E1 & _). destruct cie_words as (C0 & C1 & HC).
  destruct (el_align _ _ _ _ L) as [Ha _]. unfold cie_for_fde. fold kbuf size.
  rewrite E1. cbn [mbind C_bind]. rewrite flag3 by lia.
  destruct (Z.eqb_spec ((fde + 4 - cie) mod 4) 0) as [Hm|]; [|Z.div_mod_to_equations; lia].
  rewrite (u64_small (fde + 4)), (u64_small (fde + 4 - kbuf)) by lia.
  destruct (Z.ltb_spec (fde + 4 - kbuf) (fde + 4 - cie)); [lia|]. cbn [negb orb].
  replace (fde + 4 - 4 * ((fde + 4 - cie) / 4)) with cie by (Z.div_mod_to_equations; lia).
  rewrite (u64_small cie), (u64_small (kbuf + size)) by lia.
  destruct (Z.ltb_spec cie kbuf); [lia|]. destruct (Z.ltb_spec (kbuf + size) cie); [lia|]. cbn [orb].
  unfold valid_cie. rewrite C0. cbn [mbind C_bind].
  destruct (Z.leb_spec (4 + Z.of_nat (length cbody)) 8); [lia|].
  rewrite (u64_small (fde + 4 - cie - 4)) by lia.
  destruct (Z.leb_spec (fde + 4 - cie - 4) (4 + Z.of_nat (length cbody))); [lia|]. cbn [orb].
  unfold has_cie_id. rewrite C1. cbn [mbind C_bind andb Z.eqb orb negb].
  rewrite (u64_small (cie + 8)) by lia.
  assert (EV : load8 (cie + 8) = Ok (e_version E)) by (apply bytes_at_cons in HC as (HC & _); exact HC).
  rewrite EV. cbn [mbind C_bind].
  replace (negb ((e_version E =? 1) || (e_version E =? 3) || (e_version E =? 4))) with false
    by (destruct (el_cie_ok _ _ _ _ L) as ([[-> _]|[-> _]] & _); reflexivity).
  cbv iota. rewrite (u64_small (cie + 4)), (u64_small (cie + 4 + _)) by lia.
  destruct (Z.ltb_spec (cie + 4 + (4 + Z.of_nat (length cbody))) kbuf); [lia|].
  destruct (Z.ltb_spec (kbuf + size) (cie + 4 + (4 + Z.of_nat (length cbody)))); [lia|]. reflexivity.
Qed.

Definition e_parsed : parsed :=
  mk_parsed (e_enc E) (u64 (e_start E + adjust_base (e_adj E) (fde + 8) 0 0)) (u64 (e_range E))
    (e_fde_start fde cie E) (fde + Z.of_nat (length (e_fde (fde + 4 - cie) E)))
    (e_cie_start cie E) (cie + Z.of_nat (length (e_cie E)))
    (e_code E) (e_data E) (e_ra E) (snd (e_effect E)).

Lemma parse_loaded : parse_fde_cie true false fde cie = Ok (Some e_parsed).
Proof.
  pose proof entry_bounds as B. pose proof length_e_cie as LC. pose proof (length_e_fde (fde + 4 - cie)) as LF.
  unfold e_cie, e_fde in LC, LF.
  refine (parse_encoded true cie fde (e_version E) (e_augs E) (e_code E) (e_data E) (e_ra E)
    (prog_bytes (e_cprog E)) (fde + 4 - cie) (e_form E) (e_signed E) (e_adj E) (e_start E) (e_range E)
    (e_augdata E) (prog_bytes (e_fprog E)) (el_cie_ok _ _ _ _ L) (el_fde_ok _ _ _ _ L)
    (el_cie _ _ _ _ L) (el_fde _ _ _ _ L) _ _ _ _ (el_augs _ _ _ _ L) (el_data _ _ _ _ L)
    (el_enc _ _ _ _ L)); unfold ptr_limit; lia.
Qed.

Lemma locate_loaded pc :
  _stp_search_fde pc true true false m = Ok fde ->
  e_start_loc m fde E <> 0 -> pc <= e_end_loc m fde E ->
  locate_fde pc m false = Ok (Located e_parsed (e_start_loc m fde E) (e_end_loc m fde E)).
Proof.
  intros Hs Hnz Hpc. pose proof entry_bounds. unfold locate_fde. rewrite Hs. cbn [mbind C_bind].
  destruct (Z.eqb_spec fde 0); [lia|]. rewrite cie_for_fde_loaded. cbn [mbind C_bind].
  rewrite parse_loaded. cbn [mbind C_bind]. change (p_startLoc e_parsed) with
    (u64 (e_start E + adjust_base (e_adj E) (fde + 8) 0 0)).
  change (p_ptrType e_parsed) with (e_enc E). fold (e_start_loc m fde E).
  destruct (Z.eqb_spec (e_start_loc m fde E) 0); [contradiction|].
  change (p_locRange e_parsed) with (u64 (e_range E)). fold (e_end_loc m fde E).
  destruct (Z.ltb_spec (e_end_loc m fde E) pc); [lia|].
  unfold bad_ret_addr_reg. change (p_retAddrReg e_parsed) with (e_ra E).
  pose proof (el_ra _ _ _ _ L) as Hra. destruct (Z.leb_spec NR_REGS (e_ra E)); [lia|].
  destruct (reg_info_at_valid _ Hra) as [o Eo].
  unfold REG_INVALID, reg_width. rewrite Eo. reflexivity.
Qed.

Lemma wf_e_parsed : wf_parsed e_parsed.
Proof. eapply parse_fde_cie_words, parse_loaded. Qed.

Lemma wf_e_start_loc : is_u64 (e_start_loc m fde E).
Proof. apply adjust_start_loc_words, is_u64_u64. Qed.

Lemma abs_initial startLoc : abs (initial_state e_parsed startLoc) = dwarf_start E startLoc.
Proof. reflexivity. Qed.

(** A program of the entry is read where its section ends. *)
Lemma prog_at p l insns :
  bytes_at p l -> (exists l0, l = l0 ++ insns) ->
  bytes_at (p + Z.of_nat (length l) - Z.of_nat (length insns)) insns.
Proof.
  intros H [l0 ->]. apply bytes_at_app in H as [_ H]. rewrite length_app.
  replace (p + Z.of_nat (length l0 + length insns) - Z.of_nat (length insns))
    with (p + Z.of_nat (length l0)) by lia. exact H.
Qed.

Lemma cie_prog_at : bytes_at (e_cie_start cie E) (prog_bytes (e_cprog E)).
Proof.
  apply prog_at; [apply (el_cie _ _ _ _ L)|]. unfold e_cie, cie_bytes, cie_body.
  rewrite !app_assoc. eexists. reflexivity.
Qed.

Lemma fde_prog_at : bytes_at (e_fde_start fde cie E) (prog_bytes (e_fprog E)).
Proof.
  apply prog_at; [apply (el_fde _ _ _ _ L)|]. unfold e_fde, fde_bytes, fde_body.
  rewrite !app_assoc. eexists. reflexivity.
Qed.

(** Both interpretations lead to the row DWARF defines. *)
Lemma run_cie_fde_loaded pc d :
  dwarf_at pc m fde cie E = Some d -> d_loc d <= e_end_loc m fde E ->
  exists st, run_cie_fde pc e_parsed (e_start_loc m fde E) (e_end_loc m fde E) false = Ok (Some st) /\
    abs st = d /\ wf_state st.
Proof.
  intros Hd Hend. pose proof entry_bounds as B. pose proof length_e_cie as LC.
  pose proof (length_e_fde (fde + 4 - cie)) as LF. unfold dwarf_at in Hd.
  destruct (exec_program _ _ _ _ _) as [d1|] eqn:E1; [cbn [mbind option_bind] in Hd|discriminate].
  destruct (el_insns _ _ _ _ L) as [O1 O2]. destruct (el_max _ _ _ _ L) as [M1 M2].
  pose proof (wf_initial_state _ _ wf_e_parsed wf_e_start_loc) as W0.
  rewrite <- abs_initial in E1. unfold run_cie_fde.
  destruct (run_program_refines (e_cie_start cie E) (p_cieEnd e_parsed) 0 (p_ptrType e_parsed) true false
    (e_cprog E) (initial_state e_parsed (e_start_loc m fde E)) d1 W0 O1 cie_prog_at)
    as (s1 & R1 & A1 & W1); try assumption.
  { change (p_cieEnd e_parsed) with (cie + Z.of_nat (length (e_cie E))). unfold e_cie_start, prog_bytes. lia. }
  { change (p_cieEnd e_parsed) with (cie + Z.of_nat (length (e_cie E))). unfold ptr_limit. lia. }
  change (p_cieStart e_parsed) with (e_cie_start cie E). rewrite R1. cbn [mbind C_bind Z.eqb].
  subst d1. change (after_cie (abs s1)) with (abs (save_cie_regs s1)) in Hd.
  destruct (run_program_refines (e_fde_start fde cie E) (p_fdeEnd e_parsed) pc (p_ptrType e_parsed) true false
    (e_fprog E) (save_cie_regs s1) d (wf_save_cie_regs s1 W1) O2 fde_prog_at)
    as (s2 & R2 & A2 & W2); try assumption.
  { change (p_fdeEnd e_parsed) with (fde + Z.of_nat (length (e_fde (fde + 4 - cie) E))). unfold e_fde_start, prog_bytes. lia. }
  { change (p_fdeEnd e_parsed) with (fde + Z.of_nat (length (e_fde (fde + 4 - cie) E))). unfold ptr_limit. lia. }
  change (p_fdeStart e_parsed) with (e_fde_start fde cie E). rewrite R2. cbn [mbind C_bind Z.eqb orb].
  subst d. simpl d_loc in Hend. destruct (Z.ltb_spec (e_end_loc m fde E) (loc s2)); [lia|].
  eauto.
Qed.
End loaded.

(** ** From the row to the frame *)

Lemma abs_item_simple i :
  abs_item i = RUndefined \/ abs_item i = RSame \/ (exists o, abs_item i = ROffset o) ->
  simple_where (where_ i) = true.
Proof.
  unfold abs_item. intros H. destruct (where_ i); try reflexivity;
    destruct H as [H|[H|[o H]]]; discriminate.
Qed.

(** The test for a standard frame accepts every standard row. *)
Lemma standard_row_check st :
  wf_state st -> standard_row (abs_row (REG_STATE st)) -> check_standard_frame st = true.
Proof.
  intros W ((r & o & Ec & Hr) & Hpc & Hrule). unfold check_standard_frame.
  simpl in Ec. unfold abs_cfa in Ec. destruct (cfa_is_expr (REG_STATE st)); [discriminate|].
  injection Ec as -> _. rewrite rule_of_abs in Hpc by (exact W || unfold UNW_PC_IDX, NR_REGS; lia).
  rewrite (abs_item_simple (reg_item st RSP)), (abs_item_simple (reg_item st RBP))
    by (rewrite <- rule_of_abs by (exact W || unfold RSP, RBP, NR_REGS; lia); apply Hrule; auto).
  unfold abs_item in Hpc.
  destruct (where_ (reg_item st UNW_PC_IDX)); try discriminate. injection Hpc as ->.
  destruct Hr as [-> | ->]; reflexivity.
Qed.

Definition undefined_rule (ru : rule) : bool := match ru with RUndefined => true | _ => false end.

Lemma undefined_where i : undefined_rule (abs_item i) = bool_decide (where_ i = Nowhere).
Proof. unfold abs_item. destruct (where_ i); reflexivity. Qed.

(** A module with its table: the entry of the table that covers [pc]. *)
Definition covers (m : kunwind_module) (entries : list entry) (pc : Z) (e : entry) : Prop :=
  exists i, entries !! i = Some e /\ start_of m e <= pc /\
    forall e', entries !! S i = Some e' -> pc < start_of m e'.

(** C6: A step of a 64-bit task at a program counter that is in a module, is not
    cached and lies in the range of an entry that does not start at address 0, whose
    instructions the abstract machine runs to a standard row with readable values: the step finds the entry in the
    table, runs its instructions, and gives the program counter, the stack pointer
    and the frame pointer the values the row defines for the caller, and the entry's
    call-frame bit to the frame; every other register keeps its value. The result is
    2 when the return address is undefined, else 0; and the rules are cached under
    the program counter when there is memory for them. *)
Theorem unwind_frame_caller `{K : Kernel} {T : Type} `{FC : !FrameCache T}
    cx (proc : kunwind_proc_modules) m eh_rel entries e cie E alloc d pc' sp bp :
  let pc := get_pc (cx_info cx) in
  let fde := fde_of m e in
  wf_frame (cx_info cx) -> fc_inv (mods_cache proc) -> pc <> 0 ->
  kunw_mod_lookup pc (stp_modules proc) = Some m -> fc_find (mods_cache proc) pc = None ->
  hdr_loaded m eh_rel entries -> covers m entries pc e -> entry_loaded m fde cie E ->
  e_start_loc m fde E <> 0 -> pc <= e_end_loc m fde E ->
  dwarf_at pc m fde cie E = Some d -> d_loc d <= e_end_loc m fde E -> standard_row (d_row d) ->
  caller_frame false (d_row d) (cx_info cx) = Some (pc', sp, bp) ->
  exists f' proc', unwind_frame cx true proc false alloc =
      Ok (if undefined_rule (rule_of (d_row d) (e_ra E)) then 2 else 0, f', proc') /\
    frame_becomes (set_call_frame (cx_info cx) (snd (e_effect E))) f' pc' sp bp /\
    mods_grow proc proc' /\
    (alloc <> None -> fc_find (mods_cache proc') pc <> None).
Proof.
  intros pc fde Wf Hinv Hpc Hmod Hmiss LH (i & Ei & Hle & Hnext) L Hnz Hend Hd Hloc Hrow Hcall.
  destruct (run_cie_fde_loaded m fde cie E L pc d Hd Hloc) as (st & Est & Ad & Ws).
  assert (Hs : _stp_search_fde pc true true false m = Ok fde).
  { destruct (search_candidate m eh_rel entries true LH pc) as (x & -> & Hx & _).
    rewrite (Hx i e Ei Hle Hnext). fold fde. rewrite (check_fde_loaded m fde cie E L). reflexivity. }
  pose proof (locate_loaded m fde cie E L pc Hs Hnz Hend) as Hl.
  subst d. change (d_row (abs st)) with (abs_row (REG_STATE st)) in *.
  pose proof (standard_row_check st Ws Hrow) as Hst.
  set (f := set_call_frame (cx_info cx) (snd (e_effect E))).
  assert (Wc : wf_frame f) by (apply wf_set_call_frame; [exact Wf|apply (wf_e_parsed m fde cie E L)]).
  pose proof (apply_standard_entry false st f pc (e_ra E) Ws Wc Hst) as A.
  change (caller_frame false (abs_row (REG_STATE st)) f)
    with (caller_frame false (abs_row (REG_STATE st)) (cx_info cx)) in A.
  rewrite Hcall in A. destruct A as (A & Hp & Hsp & Hb).
  eexists _, _. split; [|split; [apply frame_becomes_set; assumption|]].
  - unfold unwind_frame. fold pc. destruct (Z.eqb_spec pc 0); [contradiction|]. cbn [negb orb].
    rewrite Hmod. unfold __unwind_frame. change (u64 (UNW_PC (cx_info cx) - call_frame (cx_info cx))) with pc.
    destruct (el_size _ _ _ _ L) as [Hsz Hm4]. rewrite flag3 by lia. rewrite Hm4.
    destruct (Z.eqb_spec (sec_size (ehf m)) 0); [lia|]. cbn [negb orb Z.eqb].
    rewrite Hmiss, Hl. cbn [mbind C_bind]. rewrite Est. cbn [mbind C_bind]. rewrite Hst.
    change (p_retAddrReg (e_parsed fde cie E)) with (e_ra E).
    change (p_call_frame (e_parsed fde cie E)) with (snd (e_effect E)). fold f.
    rewrite A. cbn [mbind C_bind]. unfold entry_result. simpl tf_last.
    rewrite rule_of_abs by (exact Ws || apply (el_ra _ _ _ _ L)).
    rewrite undefined_where. reflexivity.
  - split; [apply mods_grow_add, Hinv|]. intros Ha. simpl.
    rewrite fc_find_add, Hmiss by exact Hinv. rewrite decide_True by reflexivity.
    destruct alloc; [discriminate|contradiction].
Qed.

(** ** The demo module *)

Definition lib_entry : cfi_entry :=
  mk_cfi_entry 1 [AugR 0x1b] 1 (-8) 16 [IDefCfa 7 8; IOffset 16 1; INop; INop]
    DW_EH_PE_data4 true DW_EH_PE_pcrel (-0x1120) 0x40 []
    [IAdvance 1; IDefCfaOffset 16; IOffset 6 2; INop; INop].

Lemma lib_run_loaded : hdr_loaded (K := lib_run) lib_module 0xfc lib_entries.
Proof.
  destruct lib_loaded. constructor; assumption.
Qed.

Lemma lib_entry_loaded :
  entry_loaded (K := lib_run) lib_module (lib_vmap + 0x2118) (lib_vmap + 0x2100) lib_entry.
Proof.
  constructor.
  - unfold cie_operands_ok. simpl. lia.
  - unfold fde_values_ok, plain_form, plain_adjust. split_and!; try (vm_compute; reflexivity); try tauto.
    discriminate.
  - apply (bytes_atb_true (K := lib_run)). vm_compute. reflexivity.
  - apply (bytes_atb_true (K := lib_run)). vm_compute. reflexivity.
  - vm_compute. discriminate.
  - vm_compute. split; congruence.
  - vm_compute. discriminate.
  - vm_compute. discriminate.
  - vm_compute. repeat split.
  - vm_compute. split; reflexivity.
  - simpl. auto.
  - discriminate.
  - reflexivity.
  - vm_compute. split; congruence.
  - split; repeat constructor; simpl; unfold uleb_range; lia.
  - vm_compute. split; discriminate.
Qed.

(** The row of 0x401010. *)
Definition lib_dwarf : dwarf :=
  match dwarf_at 0x401010 lib_module (lib_vmap + 0x2118) (lib_vmap + 0x2100) lib_entry with
  | Some d => d
  | None => dwarf_start lib_entry 0
  end.

Lemma unwind_frame_caller_witness :
  exists f' proc', unwind_frame (K := lib_run) lib_context true lib_mods false (Some 1) =
      Ok (0, f', proc') /\
    frame_becomes (set_call_frame lib_frame 1) f' 0x401060 0x8000 0x8100 /\
    mods_grow lib_mods proc' /\ (Some 1 <> None -> fc_find (mods_cache proc') 0x401010 <> None).
Proof.
  apply (unwind_frame_caller (K := lib_run) lib_context lib_mods lib_module 0xfc lib_entries
    (-0x1000, 0x118) (lib_vmap + 0x2100) lib_entry (Some 1) lib_dwarf 0x401060 0x8000 0x8100).
  - apply wf_frame_dec. reflexivity.
  - apply wf_empty_cache.
  - vm_compute. discriminate.
  - reflexivity.
  - vm_compute. reflexivity.
  - apply lib_run_loaded.
  - exists 0%nat. split; [reflexivity|]. split; [vm_compute; discriminate|].
    intros e' [= <-]. vm_compute. reflexivity.
  - apply lib_entry_loaded.
  - vm_compute. discriminate.
  - vm_compute. discriminate.
  - vm_compute. reflexivity.
  - vm_compute. discriminate.
  - split; [exists 7, 16; split; [vm_compute; reflexivity|right; reflexivity]|].
    split; [vm_compute; reflexivity|].
    intros r [-> | ->]; [right; left; vm_compute; reflexivity|].
    right; right. exists (-16). vm_compute. reflexivity.
  - vm_compute. reflexivity.
Defined.
