(* ===== verification/Modules.v ===== *)
(** * Loading the modules of a process

    [init_kunwind_stp_module], [close_kunwind_stp_module], [add_module] and the
    functions above them (src/src/modules.c), with [iterate_phdr]
    (src/src/iterate_phdr.c): the sections of a process are pinned, mapped into
    the kernel, described by a list of modules, and given back. *)
From S2P Require Import Prelude Machine Regs Rules KModule EhFrameHdr Cache Step.

(** ** Kernel resources

    What the loader acquires and must give back: heap blocks, pinned pages and
    kernel mappings. *)
Inductive resource : Type := Block (a : Z) | Page (p : Z) | Mapping (a : Z).

#[export] Instance resource_eq_dec : EqDecision resource.
Proof. solve_decision. Defined.

(** The resources held, newest first, and the number of kernel calls made. *)
Record ldstate : Type := mk_ld { held : list resource; clock : nat }.

(** A loader step ends, crashes, or gives back something that is not held. *)
Inductive ld_result (A : Type) : Type :=
  | Done (a : A) (s : ldstate)
  | Faults (c : crash)
  | BadFree (r : resource).
Arguments Done {A}.
Arguments Faults {A}.
Arguments BadFree {A}.

Definition L (A : Type) : Type := ldstate -> ld_result A.
#[export] Instance L_ret : MRet L := fun A a s => Done a s.
#[export] Instance L_bind : MBind L := fun A B f m s =>
  match m s with Done a s => f a s | Faults c => Faults c | BadFree r => BadFree r end.

Definition lift {A} (m : C A) : L A :=
  fun s => match m with Ok a => Done a s | Crash c => Faults c end.
Definition fault {A} (c : crash) : L A := fun _ => Faults c.

Fixpoint remove_one (r : resource) (l : list resource) : list resource :=
  match l with
  | [] => []
  | x :: l => if decide (x = r) then l else x :: remove_one r l
  end.

Definition release (r : resource) : L unit := fun s =>
  if decide (r ∈ held s) then Done tt (mk_ld (remove_one r (held s)) (S (clock s))) else BadFree r.

(** ** The memory manager

    The kernel functions the loader calls. Each answer may depend on the number
    of calls made before, and a new block on what is held. The laws: a block is
    neither at the null address nor one that is held, and the result of pinning is an int, an error or the number of entries filled, at most [n]. *)
Class Mm : Type := {
  mm_mmap : option (list vm_area);                 (* task->mm and its areas in order *)
  find_vma : Z -> option vm_area;
  vma_pages : vm_area -> Z;
  kmalloc_at : ldstate -> Z -> option Z;           (* None is NULL *)
  stale : Z -> kunwind_module;                     (* what a new block holds, as a module *)
  gup_at : nat -> Z -> Z -> Z * list Z;            (* __get_user_pages_unlocked *)
  vmap_at : nat -> list Z -> Z;                    (* 0 is NULL *)
  kmalloc_fresh : forall s n a, kmalloc_at s n = Some a -> a <> 0 /\ Block a ∉ held s;
  gup_result : forall t start n r ps, gup_at t start n = (r, ps) ->
    - 2 ^ 31 <= r < 2 ^ 31 /\ (0 <= r -> r <= n /\ length ps = Z.to_nat r)
}.

Section loader.
Context `{K : Kernel} `{MM : Mm}.

Definition kmalloc (size : Z) : L (option Z) := fun s =>
  match kmalloc_at s size with
  | Some a => Done (Some a) (mk_ld (Block a :: held s) (S (clock s)))
  | None => Done None (mk_ld (held s) (S (clock s)))
  end.
(** [kfree] and [vunmap] accept a null pointer. *)
Definition kfree (a : Z) : L unit := if a =? 0 then mret tt else release (Block a).

Definition get_user_pages (start n : Z) : L (Z * list Z) := fun s =>
  let '(r, ps) := gup_at (clock s) start n in
  Done (r, ps) (mk_ld ((if 0 <=? r then map Page ps else []) ++ held s) (S (clock s))).

Definition vmap (ps : list Z) : L Z := fun s =>
  let a := vmap_at (clock s) ps in
  Done a (mk_ld ((if a =? 0 then [] else [Mapping a]) ++ held s) (S (clock s))).
Definition vunmap (a : Z) : L unit := if a =? 0 then mret tt else release (Mapping a).

(** [for (i = 0; i < npages; ++i) put_page(pages[i]);] *)
Fixpoint put_pages (n : nat) (ps : list Z) : L unit :=
  match n with
  | O => mret tt
  | S n =>
    match ps with
    | [] => fault OutOfBounds
    | p :: ps => _ ← release (Page p); put_pages n ps
    end
  end.

(** ** One module *)

(** [struct load_info] (src/include/proc_info.h). *)
Record load_info : Type := mk_load_info {
  obj_addr : Z;
  eh_frame_hdr_ubuf : Z;
  eh_frame_hdr_size : Z;
  eh_frame_addr : Z;
  eh_frame_size : Z;
  dynamic : bool
}.

Variable walk_fuel : nat.

(** The two sections as seen through the mapping at [base]. *)
Definition hdr_section (linfo : load_info) (vma : vm_area) (base : Z) : section :=
  let off := u64 (eh_frame_hdr_ubuf linfo - vm_start vma) in
  mk_section off (eh_frame_hdr_ubuf linfo) (u64 (base + off)) (u32 (eh_frame_hdr_size linfo)).

Definition given_section (linfo : load_info) (vma : vm_area) (base : Z) : section :=
  let off := u64 (eh_frame_addr linfo - vm_start vma) in
  mk_section off (eh_frame_addr linfo) (u64 (base + off)) (u32 (eh_frame_size linfo)).

(** The .eh_frame section: given, or found through the header. [None] is
    [-EINVAL]. *)
Definition find_eh_frame (linfo : load_info) (vma : vm_area) (base : Z) (compat : bool)
    (hdr : section) : C (option section) :=
  if negb (eh_frame_addr linfo =? 0) && negb (eh_frame_size linfo =? 0)
  then Ok (Some (given_section linfo vma base))
  else eh_frame_from_hdr walk_fuel base (vm_start vma) (vm_end vma) compat hdr.

(** The comparison of a word of user memory with its image in the mapping:
    [None] when the user word cannot be read. *)
Definition same_word (ubuf kbuf : Z) : C (option bool) :=
  match _stp_read_address 8 8 ubuf USER_DS with
  | None => Ok None
  | Some test => w ← load 8 kbuf; Ok (Some (test =? w))
  end.

(** The labels [out_put_pages] and [out_free_pages]. *)
Definition undo_pages (res npages : Z) (pages : page_array) : L Z :=
  _ ← put_pages (Z.to_nat npages) (pa_pages pages);
  _ ← kfree (pa_addr pages);
  mret res.

(** The label [out_vunmap]. *)
Definition undo (res base npages : Z) (pages : page_array) : L Z :=
  _ ← vunmap base; undo_pages res npages pages.

(** Assignments to the fields of a module. *)
Definition set_elf_vma (m : kunwind_module) (v : vm_area) : kunwind_module :=
  mk_module (mod_addr m) v (elf_vmap m) (mod_pages m) (mod_npages m) (ehf_hdr m) (ehf m) (is_dynamic m).
Definition set_elf_vmap (m : kunwind_module) (a : Z) : kunwind_module :=
  mk_module (mod_addr m) (elf_vma m) a (mod_pages m) (mod_npages m) (ehf_hdr m) (ehf m) (is_dynamic m).
Definition set_pages (m : kunwind_module) (ps : page_array) (n : Z) : kunwind_module :=
  mk_module (mod_addr m) (elf_vma m) (elf_vmap m) ps n (ehf_hdr m) (ehf m) (is_dynamic m).
Definition set_ehf_hdr (m : kunwind_module) (s : section) (dyn : bool) : kunwind_module :=
  mk_module (mod_addr m) (elf_vma m) (elf_vmap m) (mod_pages m) (mod_npages m) s (ehf m) dyn.
Definition set_ehf (m : kunwind_module) (s : section) : kunwind_module :=
  mk_module (mod_addr m) (elf_vma m) (elf_vmap m) (mod_pages m) (mod_npages m) (ehf_hdr m) s (is_dynamic m).

(** [init_kunwind_stp_module] on the structure [m]: the C result and the
    structure. *)
Definition init_kunwind_stp_module (linfo : load_info) (m : kunwind_module) (compat : bool)
    : L (Z * kunwind_module) :=
  match find_vma (eh_frame_hdr_ubuf linfo) with
  | None => fault (PageFault 0)
  | Some vma =>
    let m := set_elf_vma m vma in
    let npages := vma_pages vma in
    block ← kmalloc (u64 (8 * npages));
    match block with
    | None => mret (- ENOMEM, m)
    | Some pa =>
      '(res, ps) ← get_user_pages (vm_start vma) npages;
      let pages := mk_pages pa ps in
      if res <? 0 then _ ← kfree pa; mret (res, m)
      else
        let npages := res in
        base ← vmap ps;
        let m := set_elf_vmap m base in
        if base =? 0 then r ← undo_pages res npages pages; mret (r, m)
        else
          let hdr := hdr_section linfo vma base in
          let m := set_ehf_hdr (set_pages m pages npages) hdr (dynamic linfo) in
          eh ← lift (find_eh_frame linfo vma base compat hdr);
          match eh with
          | None => r ← undo (- EINVAL) base npages pages; mret (r, m)
          | Some eh =>
            let m := set_ehf m eh in
            same ← lift (same_word (eh_frame_hdr_ubuf linfo) (sec_kbuf hdr));
            match same with
            | None => r ← undo (- EFAULT) base npages pages; mret (r, m)
            | Some false => r ← undo 0 base npages pages; mret (r, m)
            | Some true => mret (0, m)
            end
          end
    end
  end.

Definition close_kunwind_stp_module (m : kunwind_module) : L kunwind_module :=
  _ ← vunmap (elf_vmap m);
  _ ← put_pages (Z.to_nat (mod_npages m)) (pa_pages (mod_pages m));
  _ ← kfree (pa_addr (mod_pages m));
  mret (set_pages (set_elf_vmap m 0) (mk_pages 0 []) 0).

(** ** The modules of a process *)

Context {T : Type} `{FC : !FrameCache T}.

(** [list_add_tail(&mod->list, &mods->stp_modules)] *)
Definition add_tail (mods : kunwind_proc_modules (T := T)) (m : kunwind_module) : kunwind_proc_modules (T := T) :=
  mk_mods (stp_modules mods ++ [m]) (mods_cache mods) (mods_compat mods).

(** [kmalloc(sizeof(struct kunwind_module), GFP_KERNEL)]: the members are
    whatever the block held. *)
Definition KUNWIND_MODULE_SIZE : Z := 120.
Definition fresh_module (addr : Z) : kunwind_module :=
  let m := stale addr in
  mk_module addr (elf_vma m) (elf_vmap m) (mod_pages m) (mod_npages m) (ehf_hdr m) (ehf m) (is_dynamic m).

(** [struct phdr_info] (src/src/iterate_phdr.h), less the name. *)
Record phdr_info : Type := mk_phdr_info { pi_addr : Z; pi_phdr : Z; pi_phnum : Z }.

(** Fields of an [Elf64_Phdr] and its size, from the ELF specification. *)
Definition PHDR_SIZE : Z := 56.
Definition p_type (p : Z) : C Z := load 4 p.
Definition p_vaddr (p : Z) : C Z := load 8 (u64 (p + 16)).
Definition p_memsz (p : Z) : C Z := load 8 (u64 (p + 40)).
Definition PT_DYNAMIC : Z := 2.
Definition PT_GNU_EH_FRAME : Z := 0x6474e550.

(** The loop over the program headers from [p]: the header of .eh_frame_hdr, if
    any, and whether the object is dynamic. *)
Fixpoint scan_phdrs (n : nat) (p : Z) (eh_phdr : option Z) (dyn : bool) : C (option Z * bool) :=
  match n with
  | O => Ok (eh_phdr, dyn)
  | S n =>
    t ← p_type p;
    let '(eh_phdr, dyn) :=
      if t =? PT_GNU_EH_FRAME then (Some p, dyn)
      else if t =? PT_DYNAMIC then (eh_phdr, true) else (eh_phdr, dyn) in
    if match eh_phdr with Some _ => dyn | None => false end then Ok (eh_phdr, dyn)
    else scan_phdrs n (u64 (p + PHDR_SIZE)) eh_phdr dyn
  end.

Definition add_module (info : phdr_info) (mods : kunwind_proc_modules (T := T)) : L (Z * kunwind_proc_modules (T := T)) :=
  '(eh_phdr, dyn) ← lift (scan_phdrs (Z.to_nat (pi_phnum info)) (pi_phdr info) None false);
  match eh_phdr with
  | None => mret (0, mods)
  | Some p =>
    vaddr ← lift (p_vaddr p);
    memsz ← lift (p_memsz p);
    let linfo := mk_load_info (pi_addr info) (u64 (pi_addr info + vaddr)) memsz 0 0 dyn in
    block ← kmalloc KUNWIND_MODULE_SIZE;
    match block with
    | None => mret (- ENOMEM, mods)
    | Some a =>
      '(err, m) ← init_kunwind_stp_module linfo (fresh_module a) (negb (mods_compat mods =? 0));
      if negb (err =? 0) then _ ← kfree a; mret (0, mods)
      else mret (0, add_tail mods m)
    end
  end.

(** The four magic bytes of an ELF header at [ehdr]. *)
Definition elf_magic (ehdr : Z) : C bool :=
  b0 ← load8 ehdr; b1 ← load8 (u64 (ehdr + 1)); b2 ← load8 (u64 (ehdr + 2)); b3 ← load8 (u64 (ehdr + 3));
  Ok ((b0 =? 0x7f) && (b1 =? 0x45) && (b2 =? 0x4c) && (b3 =? 0x46)).

(** The body of the loop on a mapped first page: [None] when it is not ELF. *)
Definition read_ehdr (ehdr addr : Z) : C (option phdr_info) :=
  ok ← elf_magic ehdr;
  if (ok : bool) then
    phoff ← load 8 (u64 (ehdr + 32));
    phnum ← load 2 (u64 (ehdr + 56));
    Ok (Some (mk_phdr_info addr (u64 (ehdr + phoff)) phnum))
  else Ok None.

Section iterate.
Context {D : Type} (cb : phdr_info -> D -> L (Z * D)).

(** The loop of [iterate_phdr]; [res] and [first] are its variables. *)
Fixpoint iterate_vmas (vmas : list vm_area) (res : Z) (first : bool) (data : D) : L (Z * D) :=
  match vmas with
  | [] => mret (res, data)
  | vma :: vmas =>
    if negb (vm_pgoff vma =? 0) then iterate_vmas vmas res first data
    else
      '(err, ps) ← get_user_pages (vm_start vma) 1;
      if err <? 0 then iterate_vmas vmas res first data
      else if bool_decide (ps = []) then fault Uninitialised
      else
        ehdr ← vmap ps;
        '(res, data) ←
          (if ehdr =? 0 then mret (res, data)
           else
             info ← lift (read_ehdr ehdr (if (first : bool) then 0 else vm_start vma));
             '(res, data) ←
               match info with
               | None => mret (res, data)
               | Some info => cb info data
               end;
             _ ← vunmap ehdr; mret (res, data));
        _ ← put_pages 1 ps;
        if negb (res =? 0) then mret (res, data) else iterate_vmas vmas res false data
  end.

Definition iterate_phdr (data : D) : L (Z * D) :=
  match mm_mmap with
  | None => mret (- EINVAL, data)
  | Some vmas => iterate_vmas vmas 0 true data
  end.
End iterate.

Definition init_modules_from_task (mods : kunwind_proc_modules (T := T)) : L (Z * kunwind_proc_modules (T := T)) :=
  iterate_phdr add_module mods.

(** [struct proc_info]: the number it announces and the entries its copy in the
    kernel holds. *)
Record proc_info : Type := mk_proc_info { nr_load_segments : Z; load_segments : list load_info }.

(** The loop over the announced entries. A [kmalloc] that fails is not noticed:
    the module is written through a null pointer, where its [elf_vma] is. *)
Fixpoint init_segments (n : nat) (segs : list load_info) (mods : kunwind_proc_modules (T := T))
    : L (Z * kunwind_proc_modules (T := T)) :=
  match n with
  | O => mret (0, mods)
  | S n =>
    block ← kmalloc KUNWIND_MODULE_SIZE;
    match segs, block with
    | [], _ => fault OutOfBounds
    | _, None => fault (PageFault 16)
    | linfo :: segs, Some a =>
      '(err, m) ← init_kunwind_stp_module linfo (fresh_module a) (negb (mods_compat mods =? 0));
      if negb (err =? 0) then _ ← kfree a; mret (err, mods)
      else init_segments n segs (add_tail mods m)
    end
  end.

Definition init_modules_from_proc_info (pinfo : proc_info) (mods : kunwind_proc_modules (T := T))
    : L (Z * kunwind_proc_modules (T := T)) :=
  init_segments (Z.to_nat (nr_load_segments pinfo)) (load_segments pinfo) mods.

(** [list_for_each_entry_safe] with [list_del] and [kfree]. *)
Fixpoint close_modules (l : list kunwind_module) : L unit :=
  match l with
  | [] => mret tt
  | m :: l => _ ← close_kunwind_stp_module m; _ ← kfree (mod_addr m); close_modules l
  end.
End loader.

(** ** Life cycle of the structure itself, with the real cache *)

Section lifecycle.
Context `{K : Kernel} `{MM : Mm} `{H : Hash}.

(** [init_proc_unwind_info(mods, compat)] on the structure at [mods], 0 for
    NULL. *)
Definition init_proc_unwind_info (mods : Z) (compat : Z) : Z * option (kunwind_proc_modules (T := unw_cache)) :=
  if mods =? 0 then (- EINVAL, None) else (0, Some (mk_mods [] empty_cache compat)).

(** [release_unwind_info] on the structure at [addr]: the entries still in the
    cache go to RCU. *)
Definition release_unwind_info (addr : Z) (mods : kunwind_proc_modules) : L unw_cache :=
  _ ← close_modules (stp_modules mods);
  let cache := unw_cache_clear (mods_cache mods) in
  _ ← kfree addr; mret cache.

(** [do_current_unwind(bt, mods)]: [regs] are the saved user registers. *)
Definition do_current_unwind (regs : list Z) (mods : kunwind_proc_modules) (bt : kunwind_backtrace)
    (compat_task : bool) (alloc : Z -> option Z)
    : C (Z * unwind_context * kunwind_proc_modules * kunwind_backtrace) :=
  let zero := mk_frame (repeat 0 PT_WORDS) 0 in
  let context := mk_context (arch_unw_init_frame_info zero regs false false)
                            (arch_unw_init_frame_info zero regs false false) in
  unwind_full context mods bt compat_task alloc.
End lifecycle.
