(* ===== verification/DemoProcess.v ===== *)
(** * ELF headers, and a process to run the examples on

    The layout of the two ELF structures the loader reads, from the ELF
    specification. Then the address space of a program with one area, the shared object of
    [lib_module], and a memory manager for it: the concrete instance on which the
    examples of the loader and of the proc file evaluate. *)
From S2P Require Import Prelude Machine Regs Rules KModule EhFrameHdr EhFrameHdrSpec Cache Step.
From S2P Require Import StepSpec Modules.

(** ** ELF *)

(** [Elf64_Phdr] *)
Record elf_phdr : Type := mk_phdr {
  ph_type : Z; ph_flags : Z; ph_offset : Z; ph_vaddr : Z; ph_paddr : Z;
  ph_filesz : Z; ph_memsz : Z; ph_align : Z
}.
Definition phdr_bytes (ph : elf_phdr) : list Z :=
  le_bytes 4 (ph_type ph) ++ le_bytes 4 (ph_flags ph) ++ le_bytes 8 (ph_offset ph) ++
  le_bytes 8 (ph_vaddr ph) ++ le_bytes 8 (ph_paddr ph) ++ le_bytes 8 (ph_filesz ph) ++
  le_bytes 8 (ph_memsz ph) ++ le_bytes 8 (ph_align ph).
Definition phdr_table (l : list elf_phdr) : list Z := concat (map phdr_bytes l).

(** The first bytes of an [Elf64_Ehdr]: the magic, [rest] of the identification
    padded to 16 bytes, and the two members that lead to the program headers. *)
Definition ehdr_bytes (rest : list Z) (phoff phnum : Z) : list Z :=
  [0x7f; 0x45; 0x4c; 0x46] ++ (rest ++ repeat 0 (28 - length rest)) ++ le_bytes 8 phoff ++
  repeat 0 16 ++ le_bytes 2 phnum.

Lemma length_phdr_bytes ph : length (phdr_bytes ph) = 56%nat.
Proof. unfold phdr_bytes. rewrite !length_app, !length_le_bytes. reflexivity. Qed.

Lemma length_phdr_table l : length (phdr_table l) = (56 * length l)%nat.
Proof.
  induction l as [|ph l IH]; [reflexivity|]. change (phdr_table (ph :: l)) with (phdr_bytes ph ++ phdr_table l).
  rewrite length_app, IH, length_phdr_bytes. simpl. lia.
Qed.

(** ** The process *)

Definition demo_vma : vm_area := mk_vma 0x400000 0x403000 0.

(** The first page: an ELF header and two program headers, the dynamic section
    and .eh_frame_hdr. *)
Definition demo_phdrs : list elf_phdr :=
  [mk_phdr PT_DYNAMIC 6 0x2200 0x402200 0x402200 16 16 8;
   mk_phdr PT_GNU_EH_FRAME 4 0x2000 0x402000 0x402000 28 28 4].
Definition demo_page : list Z :=
  ehdr_bytes [2; 1; 1] 64 2 ++ repeat 0 6 ++ phdr_table demo_phdrs.

(** Where the kernel maps the first page alone. *)
Definition demo_page_vmap : Z := 0x200000.

(** The structure of a backtrace request: room for two entries at 0x7100. *)
Definition demo_uback : list Z := le_bytes 4 2 ++ le_bytes 4 0 ++ le_bytes 8 0x7100.

(** What the process sees of its memory, [hdr] being its view of the header. *)
Definition demo_user (hdr : list Z) : list (Z * list Z) :=
  [(0x402000, hdr); (0x7ff0, lib_stack); (0x7000, demo_uback)].
Definition demo_images : list (Z * list Z) :=
  (demo_page_vmap, demo_page) :: (0x7000, demo_uback) :: lib_images.

Definition process_kernel : Kernel := image_kernel demo_images (demo_user lib_hdr).

(** The same process with another header in its own view: what a writable mapping
    of the header can make the loader see. *)
Definition process_kernel_changed : Kernel := image_kernel demo_images (demo_user (repeat 0 28)).

Definition demo_gup (start n : Z) : Z * list Z :=
  if (start =? 0x400000) && (0 <=? n) && (n <? 2 ^ 31) then (n, map Z.of_nat (seq 1 (Z.to_nat n)))
  else (- EFAULT, []).

Lemma demo_gup_result (t : nat) start n r ps : demo_gup start n = (r, ps) ->
  - 2 ^ 31 <= r < 2 ^ 31 /\ (0 <= r -> r <= n /\ length ps = Z.to_nat r).
Proof.
  unfold demo_gup. destruct (_ && _) eqn:E; intros [= <- <-].
  - rewrite length_map, length_seq. lia.
  - unfold EFAULT. lia.
Qed.

Definition demo_mm : Mm.
Proof.
  refine {|
    mm_mmap := Some [demo_vma];
    find_vma := fun a => if a <? vm_end demo_vma then Some demo_vma else None;
    vma_pages := fun v => (vm_end v - vm_start v) / 4096;
    kmalloc_at := fun s _ =>
      let a := 0xA000 + 0x100 * Z.of_nat (clock s) in if decide (Block a ∈ held s) then None else Some a;
    stale := fun a => mk_module a (mk_vma 0 0 0) 0 (mk_pages 0 []) 0 (mk_section 0 0 0 0) (mk_section 0 0 0 0) false;
    gup_at := fun _ => demo_gup;
    vmap_at := fun _ ps => if (length ps <? 2)%nat then demo_page_vmap else lib_vmap;
    gup_result := demo_gup_result
  |}.
  intros s _ a. cbv zeta. destruct (decide _) as [|Hn]; [discriminate|]. intros [= <-]. split; [lia|exact Hn].
Defined.

(** The run that loads the modules of the process: the module of the examples
    above, at the addresses this run gives it. *)
Definition demo_module : kunwind_module :=
  mk_module 0xA200 demo_vma lib_vmap (mk_pages 0xA300 [1; 2; 3]) 3
    (mk_section 0x2000 0x402000 (lib_vmap + 0x2000) 28)
    (mk_section 0x2100 0x402100 (lib_vmap + 0x2100) 76) true.
Definition demo_mods : kunwind_proc_modules (T := unw_cache) := mk_mods [] empty_cache 0.

Example demo_load :
  init_modules_from_task (K := process_kernel) (MM := demo_mm) 10 demo_mods (mk_ld [Block 0x9000] 0) =
  Done (0, mk_mods [demo_module] empty_cache 0)
    (mk_ld ([Mapping lib_vmap; Page 2; Page 3] ++
            [Block 0xA300; Block 0xA200; Page 1; Block 0x9000]) 8).
Proof. vm_compute. reflexivity. Qed.
