(* ===== verification/ModulesSpec.v ===== *)
(** * What the loader holds and gives back

    A small program logic for the resources of the loader, and the life cycle of
    the modules of a process in it: what [init_kunwind_stp_module] acquires is
    what its module owns, and [release_unwind_info] gives all of it back. *)
From S2P Require Import Prelude Machine Regs Rules KModule EhFrameHdr EhFrameHdrSpec Cache Step.
From S2P Require Import StepSpec Modules DemoProcess.

(** ** The logic

    [uses h m Q]: started with the resources [h], [m] never gives back anything
    it does not hold, and when it completes with [a] and the resources [h'],
    [Q a h'] holds. The order of the resources does not matter; a crash satisfies
    every [Q]. *)
Definition uses {A} (h : list resource) (m : L A) (Q : A -> list resource -> Prop) : Prop :=
  forall s, held s ≡ₚ h ->
    match m s with
    | Done a s' => exists h', held s' ≡ₚ h' /\ Q a h'
    | Faults _ => True
    | BadFree _ => False
    end.

#[export] Instance uses_proper A : Proper ((≡ₚ) ==> (=) ==> (=) ==> iff) (@uses A).
Proof.
  intros h1 h2 E m ? <- Q ? <-. split; intros H s Hs; apply H; rewrite Hs; [symmetry|]; exact E.
Qed.

Lemma uses_ret {A} h (a : A) (Q : A -> list resource -> Prop) : Q a h -> uses h (mret a) Q.
Proof. intros H s Hs. exists h. auto. Qed.

Lemma uses_bind {A B} h (m : L A) (f : A -> L B) (R : A -> list resource -> Prop) Q :
  uses h m R -> (forall a h', R a h' -> uses h' (f a) Q) -> uses h (m ≫= f) Q.
Proof.
  intros Hm Hf s Hs. specialize (Hm s Hs). unfold mbind, L_bind.
  destruct (m s) as [a s'|c|r]; [|exact I|exact Hm].
  destruct Hm as (h' & Hh & HR). exact (Hf a h' HR s' Hh).
Qed.

Lemma uses_mono {A} h (m : L A) (R Q : A -> list resource -> Prop) :
  uses h m R -> (forall a h', R a h' -> Q a h') -> uses h m Q.
Proof.
  intros Hm HQ s Hs. specialize (Hm s Hs). destruct (m s) as [a s'|c|r]; auto.
  destruct Hm as (h' & Hh & HR). eauto.
Qed.

Lemma uses_lift {A} h (m : C A) (Q : A -> list resource -> Prop) :
  (forall a, m = Ok a -> Q a h) -> uses h (lift m) Q.
Proof. intros H s Hs. unfold lift. destruct m as [a|c]; [eauto|exact I]. Qed.

(** What a pure step computes, with the resources untouched. *)
Lemma uses_pure {A} h (m : C A) : uses h (lift m) (fun a h' => m = Ok a /\ h' = h).
Proof. apply uses_lift. auto. Qed.

Lemma uses_fault {A} h c (Q : A -> list resource -> Prop) : uses h (fault c) Q.
Proof. intros s _. exact I. Qed.

Lemma remove_one_perm r l : r ∈ l -> l ≡ₚ r :: remove_one r l.
Proof.
  induction l as [|x l IH]; intros H; [inversion H|]. simpl. destruct (decide (x = r)) as [->|Hx]; [reflexivity|].
  apply elem_of_cons in H as [H|H]; [congruence|]. rewrite (IH H) at 1. apply perm_swap.
Qed.

Lemma uses_release r h : uses (r :: h) (release r) (fun _ h' => h' = h).
Proof.
  intros s Hs. unfold release. rewrite decide_True by (rewrite Hs; left). exists h. split; [|reflexivity].
  apply (Permutation_cons_inv (a := r)). simpl. rewrite <- remove_one_perm; [exact Hs|].
  rewrite Hs. left.
Qed.

(** One step of a computation: a bind whose first part has the given rule. *)
Tactic Notation "uses_step" uconstr(H) := eapply uses_bind; [apply H|cbn beta].

Section resources.
Context `{K : Kernel} `{MM : Mm}.

(** A null pointer owns nothing. *)
Definition block (a : Z) : list resource := if a =? 0 then [] else [Block a].
Definition mapping (a : Z) : list resource := if a =? 0 then [] else [Mapping a].

Lemma uses_kfree a h : uses (block a ++ h) (kfree a) (fun _ h' => h' = h).
Proof.
  unfold block, kfree. destruct (a =? 0); [apply uses_ret; reflexivity|apply uses_release].
Qed.

Lemma uses_vunmap a h : uses (mapping a ++ h) (vunmap a) (fun _ h' => h' = h).
Proof.
  unfold mapping, vunmap. destruct (a =? 0); [apply uses_ret; reflexivity|apply uses_release].
Qed.

Lemma uses_kmalloc size h :
  uses h (kmalloc size) (fun b h' => match b with
    | Some a => h' = block a ++ h /\ a <> 0 /\ Block a ∉ h
    | None => h' = h
    end).
Proof.
  intros s Hs. unfold kmalloc. destruct (kmalloc_at s size) eqn:E.
  - apply kmalloc_fresh in E as [Hz Hf]. rewrite Hs in Hf.
    eexists. split; [simpl; rewrite Hs; reflexivity|]. split; [|auto]. unfold block. destruct (Z.eqb_spec z 0); [contradiction|reflexivity].
  - exists h. auto.
Qed.

Lemma uses_get_user_pages start n h :
  uses h (get_user_pages start n) (fun a h' => exists t, gup_at t start n = a /\
    h' = (if 0 <=? fst a then map Page (snd a) else []) ++ h).
Proof.
  intros s Hs. unfold get_user_pages. destruct (gup_at (clock s) start n) as [r ps] eqn:E.
  eexists. split; [simpl; rewrite Hs; reflexivity|]. eauto.
Qed.

Lemma uses_vmap ps h :
  uses h (vmap ps) (fun a h' => (exists t, vmap_at t ps = a) /\ h' = mapping a ++ h).
Proof. intros s Hs. unfold vmap. eexists. split; [simpl; rewrite Hs; reflexivity|]. eauto. Qed.

Lemma uses_put_pages ps h : uses (map Page ps ++ h) (put_pages (length ps) ps) (fun _ h' => h' = h).
Proof.
  induction ps as [|p ps IH]; [apply uses_ret; reflexivity|]. simpl.
  uses_step uses_release. intros _ h' ->. exact IH.
Qed.

(** ** One module *)

(** What a loaded module owns, besides its own structure. *)
Definition mod_resources (m : kunwind_module) : list resource :=
  mapping (elf_vmap m) ++ map Page (pa_pages (mod_pages m)) ++ block (pa_addr (mod_pages m)).

Definition counted (m : kunwind_module) : Prop :=
  mod_npages m = Z.of_nat (length (pa_pages (mod_pages m))).

Lemma uses_undo_pages res npages pages h :
  npages = Z.of_nat (length (pa_pages pages)) ->
  uses (map Page (pa_pages pages) ++ block (pa_addr pages) ++ h) (undo_pages res npages pages)
    (fun r h' => r = res /\ h' = h).
Proof.
  intros ->. unfold undo_pages. rewrite Nat2Z.id. uses_step uses_put_pages. intros _ h' ->.
  uses_step uses_kfree. intros _ h' ->. apply uses_ret. auto.
Qed.

Lemma uses_undo res base npages pages h :
  npages = Z.of_nat (length (pa_pages pages)) ->
  uses (mapping base ++ map Page (pa_pages pages) ++ block (pa_addr pages) ++ h)
    (undo res base npages pages) (fun r h' => r = res /\ h' = h).
Proof.
  intros E. unfold undo. uses_step uses_vunmap. intros _ h' ->. apply uses_undo_pages, E.
Qed.

Lemma uses_close m h :
  counted m ->
  uses (mod_resources m ++ h) (close_kunwind_stp_module m) (fun m' h' =>
    h' = h /\ mod_addr m' = mod_addr m /\ elf_vmap m' = 0 /\ mod_npages m' = 0).
Proof.
  intros E. unfold mod_resources, close_kunwind_stp_module. rewrite <- !app_assoc, E, Nat2Z.id.
  uses_step uses_vunmap. intros _ h' ->. uses_step uses_put_pages. intros _ h' ->.
  uses_step uses_kfree. intros _ h' ->. apply uses_ret. auto.
Qed.

(** The pinned and mapped area behind a module, and its two sections. *)
Record mapped_module (walk_fuel : nat) (linfo : load_info) (compat : bool) (m : kunwind_module)
    : Prop := {
  mm_vma : find_vma (eh_frame_hdr_ubuf linfo) = Some (elf_vma m);
  mm_pinned : exists t, gup_at t (vm_start (elf_vma m)) (vma_pages (elf_vma m)) =
    (mod_npages m, pa_pages (mod_pages m));
  mm_mapping : exists t, vmap_at t (pa_pages (mod_pages m)) = elf_vmap m;
  mm_base : elf_vmap m <> 0;
  mm_counted : counted m;
  mm_hdr : ehf_hdr m = hdr_section linfo (elf_vma m) (elf_vmap m);
  mm_ehf : find_eh_frame walk_fuel linfo (elf_vma m) (elf_vmap m) compat (ehf_hdr m) = Ok (Some (ehf m));
  mm_dynamic : is_dynamic m = dynamic linfo
}.

(** The outcomes of [init_kunwind_stp_module] and what each leaves held: the
    errors hold nothing, success holds what the module owns, and two outcomes
    return 0 as well but hold nothing. *)
Inductive init_outcome (walk_fuel : nat) (linfo : load_info) (compat : bool) (m : kunwind_module)
    : Z -> kunwind_module -> list resource -> Prop :=
  | InitFailed r m' : r <> 0 -> mod_addr m' = mod_addr m ->
      init_outcome walk_fuel linfo compat m r m' []
  | InitLoaded m' : mapped_module walk_fuel linfo compat m' -> mod_addr m' = mod_addr m ->
      same_word (eh_frame_hdr_ubuf linfo) (sec_kbuf (ehf_hdr m')) = Ok (Some true) ->
      init_outcome walk_fuel linfo compat m 0 m' (mod_resources m')
  | InitMismatch m' : mapped_module walk_fuel linfo compat m' -> mod_addr m' = mod_addr m ->
      same_word (eh_frame_hdr_ubuf linfo) (sec_kbuf (ehf_hdr m')) = Ok (Some false) ->
      init_outcome walk_fuel linfo compat m 0 m' []
  | InitNoPages m' vma t : find_vma (eh_frame_hdr_ubuf linfo) = Some vma ->
      gup_at t (vm_start vma) (vma_pages vma) = (0, []) -> mod_addr m' = mod_addr m -> elf_vmap m' = 0 -> init_outcome walk_fuel linfo compat m 0 m' [].

Lemma uses_init fuel linfo m compat h :
  uses h (init_kunwind_stp_module fuel linfo m compat) (fun a h' =>
    exists o, init_outcome fuel linfo compat m (fst a) (snd a) o /\ h' = o ++ h).
Proof.
  assert (F : forall r (m' : kunwind_module), r <> 0 -> mod_addr m' = mod_addr m -> forall h' : list resource, h' = h ->
    exists o, init_outcome fuel linfo compat m r m' o /\ h' = o ++ h)
    by (intros r m' Hr Ha h' ->; exists []; split; [apply InitFailed; assumption|reflexivity]).
  unfold init_kunwind_stp_module. destruct (find_vma _) as [vma|] eqn:Ev; [|apply uses_fault].
  uses_step uses_kmalloc. intros [pa|] h'; [intros (-> & Hpa & _)|intros ->];
    [|apply uses_ret, F; [discriminate|reflexivity|reflexivity]].
  uses_step uses_get_user_pages. intros [res ps] h' (t & Eg & ->).
  pose proof (gup_result _ _ _ _ _ Eg) as [Hres Hlen]. cbn [fst snd].
  destruct (Z.ltb_spec res 0).
  { destruct (Z.leb_spec 0 res); [lia|]. uses_step uses_kfree. intros _ h' ->.
    apply uses_ret, F; [simpl; lia|reflexivity|reflexivity]. }
  destruct (Z.leb_spec 0 res); [|lia]. destruct (Hlen ltac:(assumption)) as [_ Hlen'].
  assert (Hn : res = Z.of_nat (length (pa_pages (mk_pages pa ps)))) by (simpl; lia).
  uses_step uses_vmap. intros base h' [[t' Em] ->].
  destruct (Z.eqb_spec base 0) as [->|Hb].
  { change (mapping 0) with (@nil resource). cbn [app].
    eapply uses_bind; [apply (uses_undo_pages res res (mk_pages pa ps)), Hn|].
    intros r h' [-> ->]. apply uses_ret. destruct (Z.eqb_spec res 0) as [->|Hr].
    - exists []. split; [|reflexivity]. destruct ps; [|simpl in Hn; lia].
      eapply InitNoPages; [exact Ev|exact Eg|reflexivity|reflexivity].
    - apply F; [exact Hr|reflexivity|reflexivity]. }
  uses_step uses_pure. intros [eh|] h' [Eh ->].
  2: { eapply uses_bind; [apply (uses_undo _ base res (mk_pages pa ps)), Hn|].
       intros r h' [-> ->]. apply uses_ret, F; [discriminate|reflexivity|reflexivity]. }
  set (m' := set_ehf _ eh).
  assert (M : mapped_module fuel linfo compat m') by (constructor; simpl; eauto).
  uses_step uses_pure. intros [[]|] h' [Es ->].
  - apply uses_ret. exists (mod_resources m'). split; [apply InitLoaded; auto|].
    unfold mod_resources. simpl. rewrite <- !app_assoc. reflexivity.
  - eapply uses_bind; [apply (uses_undo 0 base res (mk_pages pa ps)), Hn|].
    intros r h' [-> ->]. apply uses_ret. exists []. split; [|reflexivity]. apply InitMismatch; auto.
  - eapply uses_bind; [apply (uses_undo _ base res (mk_pages pa ps)), Hn|].
    intros r h' [-> ->]. apply uses_ret, F; [discriminate|reflexivity|reflexivity].
Qed.

(** ** The modules of a process

    A module of the list is live when its mapping exists and shows the word the
    process sees; the others were given back when they were loaded. *)
Definition mod_live (m : kunwind_module) : bool :=
  negb (elf_vmap m =? 0) &&
  match same_word (sec_ubuf (ehf_hdr m)) (sec_kbuf (ehf_hdr m)) with
  | Ok (Some b) => b
  | _ => false
  end.

(** [live] says whether the module was live when it was loaded. *)
Definition mod_owned (live : bool) (m : kunwind_module) : list resource :=
  (if live then mod_resources m else []) ++ block (mod_addr m).
Fixpoint all_owned (live : list bool) (l : list kunwind_module) : list resource :=
  match live, l with
  | b :: live, m :: l => mod_owned b m ++ all_owned live l
  | _, _ => []
  end.
Definition wf_modules : list bool -> list kunwind_module -> Prop := Forall2 (fun b m => b = true -> counted m).

(** The flags of a list of which the modules behind those of [old] are new. *)
Definition lives (old : list bool) (l : list kunwind_module) : list bool :=
  old ++ map mod_live (drop (length old) l).

Lemma all_owned_snoc live b l m :
  length live = length l -> all_owned (live ++ [b]) (l ++ [m]) = all_owned live l ++ mod_owned b m.
Proof.
  revert l. induction live as [|c live IH]; intros [|x l] E; try discriminate; simpl; [apply app_nil_r|].
  injection E as E. rewrite IH, app_assoc by exact E. reflexivity.
Qed.

Lemma lives_snoc old l m :
  (length old <= length l)%nat -> lives old (l ++ [m]) = lives old l ++ [mod_live m].
Proof. intros E. unfold lives. rewrite drop_app_le, map_app, app_assoc by exact E. reflexivity. Qed.

Lemma lives_full old l : length old = length l -> lives old l = old.
Proof. intros E. unfold lives. rewrite E, drop_all. apply app_nil_r. Qed.

Lemma wf_lives_length old l : wf_modules (lives old l) l -> (length old <= length l)%nat.
Proof. intros W. apply Forall2_length in W. unfold lives in W. rewrite length_app in W. lia. Qed.

(** An outcome of 0 makes a module that holds what it owns. *)
Lemma outcome_owned fuel linfo compat m m' o :
  init_outcome fuel linfo compat m 0 m' o ->
  mod_owned (mod_live m') m' = o ++ block (mod_addr m) /\ (mod_live m' = true -> counted m').
Proof.
  intros H. inversion H as [r ? Hr|? M Ha Hs|? M Ha Hs|? ? ? Ev Hg Ha Hv]; subst.
  - contradiction.
  - assert (mod_live m' = true) as E.
    { unfold mod_live. rewrite (mm_hdr _ _ _ _ M) in *. simpl sec_ubuf. rewrite Hs.
      destruct (Z.eqb_spec (elf_vmap m') 0) as [Hv|]; [destruct (mm_base _ _ _ _ M Hv)|reflexivity]. }
    unfold mod_owned. rewrite E, Ha. split; [reflexivity|]. intros _. apply M.
  - assert (mod_live m' = false) as E.
    { unfold mod_live. rewrite (mm_hdr _ _ _ _ M) in *. simpl sec_ubuf. rewrite Hs. apply andb_false_r. }
    unfold mod_owned. rewrite E, Ha. split; [reflexivity|discriminate].
  - assert (mod_live m' = false) as E by (unfold mod_live; rewrite Hv; reflexivity).
    unfold mod_owned. rewrite E, Ha. split; [reflexivity|discriminate].
Qed.

Context {T : Type} `{FC : !FrameCache T}.
Abbreviation modules := (kunwind_proc_modules (T := T)).
Variable walk_fuel : nat.

(** [mods'] is [mods] with modules added at the end. *)
Record extends (mods mods' : modules) : Prop := {
  ex_modules : exists l, stp_modules mods' = stp_modules mods ++ l;
  ex_cache : mods_cache mods' = mods_cache mods;
  ex_compat : mods_compat mods' = mods_compat mods
}.

#[export] Instance extends_preorder : PreOrder extends.
Proof.
  split.
  - intros x. constructor; [exists []; rewrite app_nil_r|..]; reflexivity.
  - intros x y z [[l E] Ec Em] [[l' E'] Ec' Em']. constructor; [|congruence|congruence].
    exists (l ++ l'). rewrite E', E, app_assoc. reflexivity.
Qed.

Lemma extends_add_tail mods m : extends mods (add_tail mods m).
Proof. constructor; [exists [m]|..]; reflexivity. Qed.

(** The list is well formed and the process holds what its modules own; [old] are
    the flags of the modules that were there before. *)
Definition holds (old : list bool) (h : list resource) (mods : modules) (h' : list resource) : Prop :=
  let live := lives old (stp_modules mods) in
  wf_modules live (stp_modules mods) /\ h' ≡ₚ all_owned live (stp_modules mods) ++ h.

Lemma holds_add_tail old h mods m m' fuel linfo compat o h0 h' :
  init_outcome fuel linfo compat m 0 m' o -> h' = o ++ block (mod_addr m) ++ h0 ->
  holds old h mods h0 -> holds old h (add_tail mods m') h'.
Proof.
  intros O -> [W P]. apply outcome_owned in O as [E Wm]. pose proof (wf_lives_length _ _ W) as Hl.
  pose proof (Forall2_length _ _ _ W) as Hn.
  unfold holds. cbn [add_tail stp_modules]. rewrite lives_snoc by exact Hl. split.
  - apply Forall2_app; [exact W|]. constructor; [exact Wm|constructor].
  - rewrite all_owned_snoc, E, P by exact Hn.
    rewrite <- !app_assoc, (Permutation_app_swap_app (all_owned _ _)).
    apply Permutation_app_head, Permutation_app_swap_app.
Qed.

(** The part [init_modules_from_task] and [init_modules_from_proc_info] share:
    a module is allocated and set up; when that fails it is freed. *)
Lemma uses_new_module {A} old h mods linfo (a : Z) h0 (f : Z * kunwind_module -> L (A * modules)) (Q : A * modules -> list resource -> Prop) :
  holds old h mods h0 ->
  (forall r m', r <> 0 -> uses (block a ++ h0) (f (r, m')) Q) ->
  (forall m' h' o, init_outcome walk_fuel linfo (negb (mods_compat mods =? 0)) (fresh_module a) 0 m' o ->
     holds old h (add_tail mods m') h' -> uses h' (f (0, m')) Q) ->
  uses (block a ++ h0)
    (x ← init_kunwind_stp_module walk_fuel linfo (fresh_module a) (negb (mods_compat mods =? 0)); f x) Q.
Proof.
  intros Hh Hfail Hok. uses_step uses_init. intros [r m'] h' (o & O & ->). simpl fst in O. simpl snd in O.
  destruct (decide (r = 0)) as [->|Hr].
  - eapply Hok; [exact O|]. exact (holds_add_tail old h mods (fresh_module a) m' _ _ _ o h0 _ O eq_refl Hh).
  - inversion O as [? ? ? Ha| | |]; subst; try contradiction. simpl. apply Hfail, Hr.
Qed.

Lemma uses_add_module old h info mods h0 :
  holds old h mods h0 ->
  uses h0 (add_module walk_fuel info mods) (fun a h' => holds old h (snd a) h' /\ extends mods (snd a)).
Proof.
  intros H. unfold add_module. uses_step uses_pure. intros [[p|] dyn] ? [_ ->]; [|apply uses_ret; split; [exact H|reflexivity]].
  uses_step uses_pure. intros vaddr ? [_ ->]. uses_step uses_pure. intros memsz ? [_ ->].
  uses_step uses_kmalloc. intros [a|] h'; [intros (-> & Ha & _)|intros ->; apply uses_ret; split; [exact H|reflexivity]].
  apply (uses_new_module old h); [exact H| |].
  - intros r m' Hr. destruct (Z.eqb_spec r 0); [contradiction|]. simpl.
    uses_step uses_kfree. intros _ h' ->. apply uses_ret. split; [exact H|reflexivity].
  - intros m' h' o _ Hh. apply uses_ret. split; [exact Hh|apply extends_add_tail].
Qed.

(** [P] holds of the module that a [Good] description makes. *)
Lemma uses_init_segments (Good : load_info -> Prop) (P : kunwind_module -> Prop) old h segs : forall n mods h0,
  (forall linfo c m m' o, Good linfo -> init_outcome walk_fuel linfo c m 0 m' o -> P m') ->
  Forall Good segs -> Forall P (stp_modules mods) -> holds old h mods h0 ->
  uses h0 (init_segments walk_fuel n segs mods) (fun a h' =>
    holds old h (snd a) h' /\ extends mods (snd a) /\ Forall P (stp_modules (snd a))).
Proof.
  induction segs as [|linfo segs IH]; intros [|n] mods h0 HG Hs HP H; simpl;
    try (apply uses_ret; split_and!; [exact H|reflexivity|exact HP]).
  - uses_step uses_kmalloc. intros a h' _. apply uses_fault.
  - inversion Hs as [|? ? Hl Hs']. subst.
    uses_step uses_kmalloc. intros [a|] h'; [intros (-> & Ha & _)|intros _; apply uses_fault].
    apply (uses_new_module old h); [exact H| |].
    + intros r m' Hr. destruct (Z.eqb_spec r 0); [contradiction|]. simpl.
      uses_step uses_kfree. intros _ h' ->. apply uses_ret. split_and!; [exact H|reflexivity|exact HP].
    + intros m' h' o O Hh. simpl. eapply uses_mono.
      { apply IH; [exact HG|exact Hs'| |exact Hh]. apply Forall_app_2; [exact HP|].
        constructor; [eapply HG; eassumption|constructor]. }
      simpl. intros a' h'' (H' & E & HP'). split_and!; [exact H'| |exact HP'].
      etransitivity; [apply extends_add_tail|exact E].
Qed.

(** ** Walking the areas of the process *)

Section walk.
Context {D : Type} (cb : phdr_info -> D -> L (Z * D)).
(** What the data of the callback owns, and its invariant. *)
Variables (own : D -> list resource) (I : D -> Prop) (R : D -> D -> Prop).
Context `{!PreOrder R}.
Definition owning (h : list resource) (d : D) (h' : list resource) : Prop := I d /\ h' ≡ₚ own d ++ h.
Hypothesis Hcb : forall info h d h0, owning h d h0 ->
  uses h0 (cb info d) (fun a h' => owning h (snd a) h' /\ R d (snd a)).

Lemma owning_frame fr h d h0 : owning (fr ++ h) d h0 <-> exists h1, h0 ≡ₚ fr ++ h1 /\ owning h d h1.
Proof.
  unfold owning. split.
  - intros [HI P]. exists (own d ++ h). rewrite P. split; [apply Permutation_app_swap_app|auto].
  - intros (h1 & P & HI & P1). split; [exact HI|]. rewrite P, P1. apply Permutation_app_swap_app.
Qed.

Lemma owning_add fr h d h0 : owning h d h0 -> owning (fr ++ h) d (fr ++ h0).
Proof. intros H. apply owning_frame. exists h0. auto. Qed.

(** Whatever the areas hold, the walk gives back the page and the mapping of
    every area it visits. *)
Lemma uses_iterate_vmas h vmas : forall res first d h0,
  owning h d h0 ->
  uses h0 (iterate_vmas cb vmas res first d) (fun a h' => owning h (snd a) h' /\ R d (snd a)).
Proof.
  induction vmas as [|vma vmas IH]; intros res first d h0 H; [apply uses_ret; split; [exact H|reflexivity]|].
  cbn [iterate_vmas]. destruct (negb _); [apply IH, H|].
  uses_step uses_get_user_pages. intros [err ps] h' (t & Eg & ->). cbn [fst snd].
  destruct (Z.leb_spec 0 err), (Z.ltb_spec err 0); try lia; [|apply IH, H].
  pose proof (gup_result _ _ _ _ _ Eg) as [_ Hlen]. destruct (Hlen ltac:(assumption)) as [Hone Hlen'].
  clear Hlen. rename Hlen' into Hlen.
  destruct (bool_decide_reflect (ps = [])) as [|Hne]; [apply uses_fault|].
  uses_step uses_vmap. intros ehdr h' [_ ->].
  apply uses_bind with (R := fun a h' => owning (map Page ps ++ h) (snd a) h' /\ R d (snd a)).
  { unfold mapping. destruct (Z.eqb_spec ehdr 0).
    { cbn [app]. apply uses_ret. split; [apply owning_add, H|reflexivity]. }
    uses_step uses_pure. intros info h' [_ ->].
    apply uses_bind with (R := fun a h' => owning ([Mapping ehdr] ++ map Page ps ++ h) (snd a) h' /\ R d (snd a)).
    { pose proof (owning_add [Mapping ehdr] _ _ _ (owning_add (map Page ps) _ _ _ H)) as Hd.
      destruct info; [apply Hcb, Hd|apply uses_ret; split; [exact Hd|reflexivity]]. }
    intros [r d'] h' [Hd HR]. apply owning_frame in Hd as (h1 & P & Hd). rewrite P.
    replace [Mapping ehdr] with (mapping ehdr) by (unfold mapping; destruct (Z.eqb_spec ehdr 0); [contradiction|reflexivity]).
    uses_step uses_vunmap. intros _ ? ->. apply uses_ret. auto. }
  intros [r d'] h' [Hd HR]. apply owning_frame in Hd as (h1 & P & Hd). rewrite P. simpl in Hd, HR.
  destruct ps as [|p ps]; [contradiction|].
  assert (ps = []) as -> by (destruct ps; [reflexivity|simpl in Hlen; lia]).
  eapply uses_bind; [apply (uses_put_pages [p])|]. intros _ ? ->.
  destruct (negb _); [apply uses_ret; auto|].
  eapply uses_mono; [apply IH, Hd|]. simpl. intros a h'' [Hd' HR']. split; [exact Hd'|].
  etransitivity; eassumption.
Qed.

Lemma uses_iterate_phdr h d h0 :
  owning h d h0 ->
  uses h0 (iterate_phdr cb d) (fun a h' => owning h (snd a) h' /\ R d (snd a)).
Proof.
  intros H. unfold iterate_phdr. destruct mm_mmap; [apply uses_iterate_vmas, H|].
  apply uses_ret. split; [exact H|reflexivity].
Qed.
End walk.

Lemma uses_init_from_task old h mods h0 :
  holds old h mods h0 ->
  uses h0 (init_modules_from_task walk_fuel mods) (fun a h' => holds old h (snd a) h' /\ extends mods (snd a)).
Proof.
  apply (uses_iterate_phdr (add_module walk_fuel)
    (fun mods => all_owned (lives old (stp_modules mods)) (stp_modules mods))
    (fun mods => wf_modules (lives old (stp_modules mods)) (stp_modules mods)) extends).
  intros info h' d h1. apply (uses_add_module old).
Qed.

(** ** Giving everything back *)

Lemma uses_close_modules h live l : forall h0,
  wf_modules live l -> Forall (fun b => b = true) live -> h0 ≡ₚ all_owned live l ++ h ->
  uses h0 (close_modules l) (fun _ h' => h' ≡ₚ h).
Proof.
  intros h0 W. revert h0. induction W as [|b m live l Wm _ IH]; intros h0 V P; [apply uses_ret; exact P|].
  rewrite P. inversion V as [|? ? -> V']. subst. cbn [close_modules all_owned]. unfold mod_owned. rewrite <- !app_assoc.
  eapply uses_bind; [apply uses_close, Wm; reflexivity|]. intros m' ? (-> & _).
  uses_step uses_kfree. intros _ ? ->. apply IH; auto.
Qed.
End resources.

(** ** Life cycle *)

Section lifecycle.
Context `{K : Kernel} `{MM : Mm} `{H : Hash}.
Variable walk_fuel : nat.

Lemma uses_release_unwind_info old h addr (mods : kunwind_proc_modules (T := unw_cache)) h0 :
  holds old (block addr ++ h) mods h0 -> Forall (fun b => b = true) (lives old (stp_modules mods)) ->
  uses h0 (release_unwind_info addr mods) (fun c h' => h' ≡ₚ h /\ c = unw_cache_clear (mods_cache mods)).
Proof.
  intros [W P] V. unfold release_unwind_info.
  eapply uses_bind; [apply (uses_close_modules (block addr ++ h) (lives old (stp_modules mods))); assumption|].
  intros _ h' ->. uses_step uses_kfree. intros _ ? ->. apply uses_ret. auto.
Qed.

Lemma holds_new h addr (c : unw_cache) compat :
  holds [] (block addr ++ h) (mk_mods [] c compat) (block addr ++ h).
Proof. split; [constructor|reflexivity]. Qed.

Lemma lives_new l : Forall (fun m => mod_live m = true) l -> Forall (fun b => b = true) (lives [] l).
Proof. intros V. unfold lives. rewrite drop_0. apply Forall_map. exact V. Qed.

(** C23: The life of a process structure whose modules come from its address space:
    whatever the process has mapped and whichever kernel call fails, loading the
    modules and releasing them again gives back every block, page and mapping,
    when every module of the list is live. *)
Theorem task_lifecycle h addr c compat :
  uses (block addr ++ h)
    (x ← init_modules_from_task walk_fuel (mk_mods [] c compat);
     if forallb mod_live (stp_modules (snd x)) then _ ← release_unwind_info addr (snd x); mret true
     else mret false)
    (fun released h' => released = true -> h' ≡ₚ h).
Proof.
  eapply uses_bind; [apply (uses_init_from_task walk_fuel [] (block addr ++ h)), holds_new|].
  intros [r mods] h' [Hh _]. simpl in *. destruct (forallb mod_live _) eqn:E; [|apply uses_ret; discriminate].
  eapply uses_bind; [apply (uses_release_unwind_info []); [exact Hh|]|].
  - apply lives_new, Forall_forall. intros m Hm. rewrite forallb_forall in E. apply E, list_elem_of_In, Hm.
  - intros x h'' [P _]. apply uses_ret. auto.
Qed.

(** Documented behaviour of pinning and mapping: at the offset of a pinned user
    address the mapping shows the word the process sees. *)
Definition coherent : Prop := forall t t' vma n ps ubuf v w,
  gup_at t (vm_start vma) (vma_pages vma) = (n, ps) -> vmap_at t' ps <> 0 ->
  vm_start vma <= ubuf -> ubuf + 8 <= vm_start vma + 4096 * n ->
  _stp_read_address 8 8 ubuf USER_DS = Some v ->
  load 8 (u64 (vmap_at t' ps + u64 (ubuf - vm_start vma))) = Ok w -> w = v.

(** The header lies in its area, in the pages that pinning the area gives. *)
Definition in_area (linfo : load_info) : Prop := forall vma,
  find_vma (eh_frame_hdr_ubuf linfo) = Some vma ->
  vm_start vma <= eh_frame_hdr_ubuf linfo /\
  forall t n ps, gup_at t (vm_start vma) (vma_pages vma) = (n, ps) -> 0 <= n ->
    eh_frame_hdr_ubuf linfo + 8 <= vm_start vma + 4096 * n.

Lemma same_word_coherent linfo m :
  coherent -> in_area linfo -> forall compat, mapped_module walk_fuel linfo compat m ->
  same_word (eh_frame_hdr_ubuf linfo) (sec_kbuf (ehf_hdr m)) <> Ok (Some false).
Proof.
  intros Hc Ha compat M. destruct (Ha _ (mm_vma _ _ _ _ M)) as [Hlo Hhi].
  destruct (mm_pinned _ _ _ _ M) as [t Eg], (mm_mapping _ _ _ _ M) as [t' Em].
  pose proof (mm_counted _ _ _ _ M) as Hn. unfold counted in Hn.
  specialize (Hhi _ _ _ Eg ltac:(lia)). rewrite (mm_hdr _ _ _ _ M). unfold same_word. simpl sec_kbuf.
  destruct (_stp_read_address _ _ _ _) as [v|] eqn:Ev; [|discriminate].
  destruct (load 8 _) as [w|] eqn:Ew; cbn [mbind C_bind]; [|discriminate]. rewrite <- Em in Ew.
  assert (w = v) as ->.
  { eapply Hc; [exact Eg| |exact Hlo|exact Hhi|exact Ev|exact Ew]. rewrite Em. apply M. }
  rewrite Z.eqb_refl. discriminate.
Qed.

Lemma outcome_live linfo compat m m' o :
  coherent -> in_area linfo ->
  init_outcome walk_fuel linfo compat m 0 m' o -> mod_live m' = true.
Proof.
  intros Hc Ha O. inversion O as [? ? Hr|? M Em Hs|? M Em Hs|? ? ? Ev Hg]; subst.
  - contradiction.
  - unfold mod_live. rewrite (mm_hdr _ _ _ _ M) in *. simpl sec_ubuf. rewrite Hs.
    destruct (Z.eqb_spec (elf_vmap m') 0) as [Hv|]; [destruct (mm_base _ _ _ _ M Hv)|reflexivity].
  - exfalso. exact (same_word_coherent linfo m' Hc Ha compat M Hs).
  - destruct (Ha _ Ev) as [Hlo Hhi]. specialize (Hhi _ _ _ Hg ltac:(lia)). lia.
Qed.

(** C24: The life of a process structure whose modules the process describes itself:
    whatever the descriptions say and whichever kernel call fails, nothing is given
    back that is not held, and the release gives back every block, page and mapping
    when every module of the list is live; and every module is live, on the error
    paths too, when the mappings show the pinned pages and every header lies in the
    pages that pinning its area gives. *)
Theorem proc_info_lifecycle h addr c compat pinfo :
  uses (block addr ++ h)
    (x ← init_modules_from_proc_info walk_fuel pinfo (mk_mods [] c compat);
     if forallb mod_live (stp_modules (snd x)) then _ ← release_unwind_info addr (snd x); mret true
     else mret false)
    (fun released h' => (released = true -> h' ≡ₚ h) /\
       (coherent -> Forall in_area (load_segments pinfo) -> released = true)).
Proof.
  set (G := coherent /\ Forall in_area (load_segments pinfo)).
  eapply uses_bind; [apply (uses_init_segments walk_fuel (fun linfo => G -> in_area linfo) (fun m => G -> mod_live m = true)
    [] (block addr ++ h))|].
  - intros linfo co m m' o Hl O HG. exact (outcome_live linfo co m m' o (proj1 HG) (Hl HG) O).
  - apply Forall_forall. intros linfo Hin HG. destruct HG as [_ Hs]. rewrite Forall_forall in Hs. exact (Hs linfo Hin).
  - constructor.
  - apply holds_new.
  - intros [r mods] h' (Hh & _ & V). simpl in *.
    destruct (forallb mod_live (stp_modules mods)) eqn:E.
    + eapply uses_bind; [apply (uses_release_unwind_info []); [exact Hh|]|].
      * apply lives_new, Forall_forall. intros m Hm. rewrite forallb_forall in E. apply E, list_elem_of_In, Hm.
      * intros x h'' [P _]. apply uses_ret. auto.
    + apply uses_ret. split; [discriminate|]. intros Hc Hs. rewrite <- E. apply forallb_forall. intros m Hm.
      rewrite Forall_forall in V. apply V; [apply list_elem_of_In, Hm|split; assumption].
Qed.

(** When the word of the process differs from its image in the mapping,
    [init_kunwind_stp_module] gives everything back and still returns 0, so the
    module is kept; closing it gives its mapping back a second time. *)
Theorem mismatch_freed_twice s linfo m compat s' m' :
  init_kunwind_stp_module walk_fuel linfo m compat s = Done (0, m') s' ->
  mod_live m' = false -> elf_vmap m' <> 0 -> Mapping (elf_vmap m') ∉ held s ->
  held s' ≡ₚ held s /\ close_kunwind_stp_module m' s' = BadFree (Mapping (elf_vmap m')).
Proof.
  intros E V Hv Hn. pose proof (uses_init walk_fuel linfo m compat (held s) s ltac:(reflexivity)) as U.
  rewrite E in U. destruct U as (h' & P & o & O & ->). simpl in O.
  assert (o = []) as ->.
  { inversion O as [| ? M Em Hs | |]; subst; try reflexivity. exfalso. revert V. unfold mod_live.
    rewrite (mm_hdr _ _ _ _ M) in *. simpl sec_ubuf. rewrite Hs.
    destruct (Z.eqb_spec (elf_vmap m') 0); [contradiction|discriminate]. }
  simpl in P. split; [exact P|].
  unfold close_kunwind_stp_module, vunmap. destruct (Z.eqb_spec (elf_vmap m') 0); [contradiction|].
  unfold mbind, L_bind, release. rewrite decide_False by (rewrite P; exact Hn). reflexivity.
Qed.
End lifecycle.

(** ** The demo process *)

Lemma image_get_mapped maps n a v :
  image_get maps n a = Some v ->
  forall i, (i < n)%nat -> exists b, image_read maps (a + Z.of_nat i) = Some b.
Proof.
  revert a v. induction n as [|n IH]; intros a v E i Hi; [lia|]. simpl in E.
  destruct (image_read maps a) as [b|] eqn:Eb; [|discriminate]. simpl in E.
  destruct (image_get maps n (a + 1)) eqn:En; [|discriminate]. destruct i as [|i].
  - rewrite Z.add_0_r. eauto.
  - replace (a + Z.of_nat (S i)) with (a + 1 + Z.of_nat i) by lia. eapply IH; [exact En|lia].
Qed.

Lemma image_read_range maps a b : image_read maps a = Some b ->
  exists base bytes, (base, bytes) ∈ maps /\ base <= a < base + Z.of_nat (length bytes).
Proof.
  induction maps as [|[base bytes] maps IH]; simpl; [discriminate|]. destruct (_ && _) eqn:E.
  - intros _. exists base, bytes. split; [left|lia].
  - intros H. destruct (IH H) as (c & l & Hin & Hr). exists c, l. split; [right; exact Hin|exact Hr].
Qed.

(** The header of the demo process seen by the process and in the mapping. *)
Definition demo_same (i : Z) : bool :=
  match _stp_read_address (K := process_kernel) 8 8 (0x402000 + i) USER_DS,
        load (K := process_kernel) 8 (lib_vmap + 0x2000 + i) with
  | Some v, Ok w => w =? v
  | _, _ => true
  end.

Lemma demo_coherent : coherent (K := process_kernel) (MM := demo_mm).
Proof.
  intros t t' vma n ps ubuf v w Eg Hv Hlo Hhi Ev Ew. cbn [gup_at vmap_at vma_pages demo_mm] in *.
  unfold demo_gup in Eg. destruct (Z.eqb_spec (vm_start vma) 0x400000) as [Es|]; cbn [andb] in Eg;
    [|injection Eg as <- <-; unfold EFAULT in Hhi; lia].
  destruct (_ && _) eqn:En in Eg; [|injection Eg as <- <-; unfold EFAULT in Hhi; lia].
  injection Eg as <- <-. rewrite Es in *.
  assert (Hu : 0x402000 <= ubuf /\ ubuf + 8 <= 0x402000 + 28).
  { unfold _stp_read_address in Ev. destruct (access_ok _ _ _); [|discriminate].
    destruct (get_user 8 ubuf) eqn:Eu; [|discriminate].
    assert (R : forall i, (i < 8)%nat -> 0x402000 <= ubuf + Z.of_nat i < 0x402000 + 28).
    { intros i Hi. destruct (image_get_mapped _ _ _ _ Eu i Hi) as [b Eb].
      apply image_read_range in Eb as (base & bytes & Hin & Hr).
      unfold demo_user in Hin. rewrite !elem_of_cons, elem_of_nil in Hin.
      destruct Hin as [[= -> ->] | [[= -> ->] | [[= -> ->] | []]]]; cbn in Hr; lia. }
    pose proof (R 0%nat ltac:(lia)). pose proof (R 7%nat ltac:(lia)). lia. }
  rewrite length_map, length_seq in Ew.
  set (k := (vm_end vma - 4194304) / 4096) in *. assert (2 <= k) by lia.
  destruct (Nat.ltb_spec (Z.to_nat k) 2); [lia|].
  pose proof (below_forall demo_same 21 ltac:(vm_compute; reflexivity) (ubuf - 0x402000) ltac:(lia)) as S.
  unfold demo_same in S. replace (0x402000 + (ubuf - 0x402000)) with ubuf in S by lia. rewrite Ev in S.
  unfold lib_vmap in *. rewrite (u64_small (ubuf - _)), u64_small in Ew by lia.
  replace (0x100000 + 0x2000 + (ubuf - 0x402000)) with (0x100000 + (ubuf - 0x400000)) in S by lia.
  rewrite Ew in S. apply Z.eqb_eq, S.
Qed.

Definition demo_linfo : load_info := mk_load_info 0 0x402000 28 0 0 true.

Lemma demo_in_area : in_area (MM := demo_mm) demo_linfo.
Proof.
  intros vma [= <-]. cbn [eh_frame_hdr_ubuf demo_linfo vm_start demo_vma]. split; [lia|].
  intros t n ps E _. vm_compute in E. injection E as <- _. lia.
Qed.

(** The runs the two life cycles stand for complete. *)
Lemma task_lifecycle_witness :
  exists s', (x ← init_modules_from_task (K := process_kernel) (MM := demo_mm) 10 (mk_mods [] empty_cache 0);
     if forallb (mod_live (K := process_kernel)) (stp_modules (snd x))
     then _ ← release_unwind_info 0x9000 (snd x); mret true
     else mret false) (mk_ld [Block 0x9000] 0) = Done true s' /\ held s' ≡ₚ [].
Proof.
  pose proof (task_lifecycle (K := process_kernel) (MM := demo_mm) 10 [] 0x9000 empty_cache 0
    (mk_ld [Block 0x9000] 0) ltac:(reflexivity)) as U.
  match type of U with match ?run with _ => _ end => destruct run as [b s'|c|r] eqn:E end.
  - destruct U as (h' & P & Q). exists s'. assert (b = true) as ->.
    { apply (f_equal (fun x => match x with Done b _ => b | _ => true end)) in E. vm_compute in E. auto. }
    split; [reflexivity|]. rewrite P. auto.
  - apply (f_equal (fun x => match x with Faults _ => false | _ => true end)) in E. vm_compute in E. discriminate.
  - destruct U.
Defined.

Lemma proc_info_lifecycle_witness :
  exists s', (x ← init_modules_from_proc_info (K := process_kernel) (MM := demo_mm) 10
       (mk_proc_info 2 [demo_linfo; demo_linfo]) (mk_mods [] empty_cache 0);
     if forallb (mod_live (K := process_kernel)) (stp_modules (snd x))
     then _ ← release_unwind_info 0x9000 (snd x); mret true
     else mret false) (mk_ld [Block 0x9000] 0) = Done true s' /\ held s' ≡ₚ [].
Proof.
  pose proof (proc_info_lifecycle (K := process_kernel) (MM := demo_mm) 10 [] 0x9000 empty_cache 0
    (mk_proc_info 2 [demo_linfo; demo_linfo]) (mk_ld [Block 0x9000] 0) ltac:(reflexivity)) as U.
  match type of U with match ?run with _ => _ end => destruct run as [b s'|c|r] eqn:E end.
  - destruct U as (h' & P & Q & L). exists s'. assert (b = true) as ->.
    { apply L; [exact demo_coherent|]. apply Forall_cons; split; [exact demo_in_area|].
      apply Forall_cons; split; [exact demo_in_area|]. apply Forall_nil_2. }
    split; [reflexivity|]. rewrite P. auto.
  - apply (f_equal (fun x => match x with Faults _ => false | _ => true end)) in E. vm_compute in E. discriminate.
  - destruct U.
Defined.

Lemma mismatch_freed_twice_witness :
  exists m' s', init_kunwind_stp_module (K := process_kernel_changed) (MM := demo_mm) 10 demo_linfo
      (fresh_module (MM := demo_mm) 0x9100) false (mk_ld [Block 0x9100] 0) = Done (0, m') s' /\
    held s' ≡ₚ [Block 0x9100] /\ close_kunwind_stp_module m' s' = BadFree (Mapping lib_vmap).
Proof.
  destruct (init_kunwind_stp_module (K := process_kernel_changed) (MM := demo_mm) 10 demo_linfo
      (fresh_module (MM := demo_mm) 0x9100) false (mk_ld [Block 0x9100] 0)) as [[r m'] s'|c|r] eqn:E;
    [|vm_compute in E; discriminate|vm_compute in E; discriminate].
  assert (r = 0 /\ mod_live (K := process_kernel_changed) m' = false /\ elf_vmap m' = lib_vmap) as (-> & V & B).
  { vm_compute in E. injection E as <- <- <-. vm_compute. auto. }
  exists m', s'. split; [reflexivity|]. rewrite <- B.
  apply (mismatch_freed_twice (K := process_kernel_changed) (MM := demo_mm) 10 (mk_ld [Block 0x9100] 0)
    demo_linfo (fresh_module (MM := demo_mm) 0x9100) false); [exact E|exact V|rewrite B; discriminate|].
  simpl. rewrite elem_of_cons, elem_of_nil. intros [H | []]. discriminate.
Defined.
