(* ===== verification/LoaderSpec.v ===== *)
(** * Loading a file the linkers made

    From the program headers of an object to a module the unwinder can use: which
    program header [add_module] picks, which objects [iterate_phdr] shows it, and
    that [init_kunwind_stp_module] turns a header and an .eh_frame with the layout
    of the format documents into a module with [hdr_loaded]. *)
From S2P Require Import Prelude Machine Leb128 EncodedPtr Regs Rules KModule EhFrameHdr EhFrameHdrSpec.
From S2P Require Import Cache Step StepSpec Modules DemoProcess ModulesSpec.

(** Skips the pieces of a layout before a field. *)
Ltac field_at :=
  repeat (rewrite field_skip by (rewrite ?length_le_bytes; simpl; lia); rewrite ?length_le_bytes; simpl Nat.sub);
  rewrite field_here, Z.mod_small by (simpl; lia); reflexivity.

(** ** The module of a well-formed object *)

Section ready.
Context `{K : Kernel} `{MM : Mm}.
Variables (linfo : load_info) (vma : vm_area) (pa n base eh_rel : Z) (ps : list Z).
Variables (entries : list entry) (bodies : list (list Z)) (fuel : nat).

Let off : Z := eh_frame_hdr_ubuf linfo - vm_start vma.
Let hdr : Z := base + off.
Let eh : Z := hdr + 4 + eh_rel.
Let len : Z := Z.of_nat (length (eh_chain bodies)).

(** The module of the area as it is mapped at [base]. *)
Definition ready_module (addr : Z) : kunwind_module :=
  mk_module addr vma base (mk_pages pa ps) n
    (mk_section off (eh_frame_hdr_ubuf linfo) hdr (12 + 8 * Z.of_nat (length entries)))
    (mk_section (off + 4 + eh_rel) (eh_frame_hdr_ubuf linfo + 4 + eh_rel) eh len)
    (dynamic linfo).

(** The object: the header and the chain of records it points to lie in the
    mapping of the area, and the process has not said where .eh_frame is. *)
Record object_mapped : Prop := {
  om_ubuf : 0 <= vm_start vma <= eh_frame_hdr_ubuf linfo /\ vm_end vma < 2 ^ 64;
  om_base : 0 < base;
  om_given : eh_frame_addr linfo = 0 \/ eh_frame_size linfo = 0;
  om_size : eh_frame_hdr_size linfo = Z.of_nat (length (hdr_bytes eh_rel entries));
  om_hdr : bytes_at hdr (hdr_bytes eh_rel entries);
  om_limit : hdr + (12 + 8 * Z.of_nat (length entries)) <= ptr_limit;
  om_count : 0 < Z.of_nat (length entries) < 2 ^ 28;
  om_rel : - 2 ^ 31 <= eh_rel < 2 ^ 31 /\ 0 <= off + 4 + eh_rel;
  om_bodies : Forall (fun b => 0 < Z.of_nat (length b) < 2 ^ 32 - 1) bodies;
  om_eh : bytes_at eh (eh_chain bodies) /\ eh + len <= ptr_limit /\ len < 2 ^ 32;
  om_inside : eh_frame_hdr_ubuf linfo + len <= vm_end vma /\ off + 4 + eh_rel + len <= vm_end vma - vm_start vma;
  om_fuel : (length bodies < fuel)%nat
}.

Hypothesis O : object_mapped.

Lemma length_hdr : Z.of_nat (length (hdr_bytes eh_rel entries)) = 12 + 8 * Z.of_nat (length entries).
Proof. unfold hdr_bytes. rewrite !length_app, !length_le_bytes, length_table_bytes. simpl. lia. Qed.

Lemma hdr_section_ready : hdr_section linfo vma base = ehf_hdr (ready_module 0).
Proof.
  destruct O. unfold hdr_section, ptr_limit in *. unfold off, hdr in *. simpl.
  rewrite om_size0, length_hdr. unfold u32.
  rewrite (u64_small (_ - _)), u64_small, Z.mod_small by lia. reflexivity.
Qed.

Lemma find_eh_frame_ready :
  find_eh_frame fuel linfo vma base false (hdr_section linfo vma base) = Ok (Some (ehf (ready_module 0))).
Proof.
  pose proof length_hdr. rewrite hdr_section_ready. destruct O. unfold ptr_limit in *.
  unfold find_eh_frame.
  replace (negb (eh_frame_addr linfo =? 0) && negb (eh_frame_size linfo =? 0)) with false
    by (destruct om_given0 as [-> | ->]; [reflexivity|symmetry; apply andb_false_r]).
  pose proof om_hdr0 as B. unfold hdr_bytes in B. rewrite app_assoc in B. apply bytes_at_app in B as [B _].
  rewrite (eh_frame_extent fuel base (vm_start vma) (vm_end vma) (ehf_hdr (ready_module 0)) eh_rel bodies);
    cbn [ehf_hdr ready_module sec_kbuf sec_size sec_offset sec_ubuf]; fold eh len; unfold off, hdr, eh, len in *;
    try assumption; try (unfold ptr_limit; lia); try tauto.
  f_equal. f_equal. unfold ready_module. cbn [ehf].
  rewrite (u64_small (_ - base)) by lia. rewrite (u64_small (_ - _ + _)) by lia. f_equal; lia.
Qed.

(** The unwinder's requirements on a loaded module. *)
Lemma ready_loaded addr :
  Forall entry_ok entries ->
  (forall e, e ∈ entries -> start_of (ready_module addr) e <> 0) ->
  (forall i j ei ej, entries !! i = Some ei -> entries !! j = Some ej -> (i <= j)%nat ->
     start_of (ready_module addr) ei <= start_of (ready_module addr) ej) ->
  hdr_loaded (ready_module addr) eh_rel entries.
Proof.
  intros He Hs Ho. pose proof length_hdr. destruct O. unfold ptr_limit in *.
  constructor; cbn [ehf_hdr ehf ready_module sec_kbuf sec_size sec_offset]; try assumption.
  - lia.
  - unfold hdr, off in *. lia.
  - tauto.
  - unfold eh, hdr, off, len in *. rewrite u64_small by lia. lia.
Qed.

Lemma init_module_at s (m : kunwind_module) :
  find_vma (eh_frame_hdr_ubuf linfo) = Some vma ->
  kmalloc_at s (u64 (8 * vma_pages vma)) = Some pa ->
  gup_at (S (clock s)) (vm_start vma) (vma_pages vma) = (n, ps) -> 0 <= n ->
  vmap_at (S (S (clock s))) ps = base ->
  same_word (eh_frame_hdr_ubuf linfo) hdr = Ok (Some true) ->
  Forall entry_ok entries ->
  (forall e, e ∈ entries -> start_of (ready_module (mod_addr m)) e <> 0) ->
  (forall i j ei ej, entries !! i = Some ei -> entries !! j = Some ej -> (i <= j)%nat ->
     start_of (ready_module (mod_addr m)) ei <= start_of (ready_module (mod_addr m)) ej) ->
  init_kunwind_stp_module fuel linfo m false s =
    Done (0, ready_module (mod_addr m))
      (mk_ld (Mapping base :: map Page ps ++ Block pa :: held s) (S (S (S (clock s))))) /\
  hdr_loaded (ready_module (mod_addr m)) eh_rel entries.
Proof.
  intros Ev Ek Eg Hn Em Es He Hs Ho. split; [|apply ready_loaded; assumption].
  unfold init_kunwind_stp_module. rewrite Ev. unfold mbind, L_bind, kmalloc. rewrite Ek.
  unfold get_user_pages. cbn [clock held]. rewrite Eg. destruct (Z.ltb_spec n 0); [lia|].
  destruct (Z.leb_spec 0 n); [|lia]. unfold vmap. cbn [clock held]. rewrite Em.
  pose proof (om_base O). destruct (Z.eqb_spec base 0); [lia|]. cbv zeta.
  rewrite find_eh_frame_ready, hdr_section_ready. unfold lift.
  change (sec_kbuf (ehf_hdr (ready_module 0))) with hdr. rewrite Es. reflexivity.
Qed.

(** C12: The area is found, pinned and mapped, the process sees the same header, and
    the object in it is well formed: loading succeeds, the module holds one
    block, the pages and the mapping, and it has what the unwinder requires. *)
Theorem init_module_ready s (m : kunwind_module) :
  find_vma (eh_frame_hdr_ubuf linfo) = Some vma ->
  kmalloc_at s (u64 (8 * vma_pages vma)) = Some pa ->
  gup_at (S (clock s)) (vm_start vma) (vma_pages vma) = (n, ps) -> 0 <= n ->
  vmap_at (S (S (clock s))) ps = base ->
  same_word (eh_frame_hdr_ubuf linfo) hdr = Ok (Some true) ->
  Forall entry_ok entries ->
  (forall e, e ∈ entries -> start_of (ready_module (mod_addr m)) e <> 0) ->
  (forall i j ei ej, entries !! i = Some ei -> entries !! j = Some ej -> (i <= j)%nat ->
     start_of (ready_module (mod_addr m)) ei <= start_of (ready_module (mod_addr m)) ej) ->
  init_kunwind_stp_module fuel linfo m false s =
    Done (0, ready_module (mod_addr m))
      (mk_ld (Mapping base :: map Page ps ++ Block pa :: held s) (S (S (S (clock s))))) /\
  hdr_loaded (ready_module (mod_addr m)) eh_rel entries.
Proof. apply init_module_at. Qed.
End ready.

(** ** The program headers *)

Section phdrs.
Context `{K : Kernel}.

Definition is_eh (ph : elf_phdr) : bool := ph_type ph =? PT_GNU_EH_FRAME.
Definition is_dyn (ph : elf_phdr) : bool := ph_type ph =? PT_DYNAMIC.
Definition phdr_ok (ph : elf_phdr) : Prop :=
  0 <= ph_type ph < 2 ^ 32 /\ 0 <= ph_vaddr ph < 2 ^ 64 /\ 0 <= ph_memsz ph < 2 ^ 64.

Lemma phdr_field_values ph : phdr_ok ph ->
  field 4 0 (phdr_bytes ph) = ph_type ph /\ field 8 16 (phdr_bytes ph) = ph_vaddr ph /\
  field 8 40 (phdr_bytes ph) = ph_memsz ph.
Proof. intros (Ht & Hv & Hm). unfold phdr_bytes. split_and!; field_at. Qed.

Lemma phdr_fields p ph :
  bytes_at p (phdr_bytes ph) -> phdr_ok ph ->
  p_type p = Ok (ph_type ph) /\ p_vaddr p = Ok (ph_vaddr ph) /\ p_memsz p = Ok (ph_memsz ph).
Proof.
  intros B Hok. pose proof (length_phdr_bytes ph) as Hl. pose proof B as (Hp & Hp' & _). rewrite Hl in Hp'.
  destruct (phdr_field_values ph Hok) as (Et & Ev & Em). unfold p_type, p_vaddr, p_memsz.
  pose proof (load_field 4 0 p _ B ltac:(lia)) as E4. rewrite Z.add_0_r, u64_small in E4 by lia.
  change (p + 16) with (p + Z.of_nat 16). change (p + 40) with (p + Z.of_nat 40).
  rewrite E4, (load_field 8 16 p _ B), (load_field 8 40 p _ B), Et, Ev, Em by lia. auto.
Qed.

(** The address of the first program header that is for .eh_frame_hdr. *)
Fixpoint eh_address (p : Z) (l : list elf_phdr) : option Z :=
  match l with
  | [] => None
  | ph :: l => if is_eh ph then Some p else eh_address (p + 56) l
  end.

Lemma phdr_at l : forall p i ph,
  bytes_at p (phdr_table l) -> l !! i = Some ph -> bytes_at (p + 56 * Z.of_nat i) (phdr_bytes ph).
Proof.
  induction l as [|x l IH]; intros p i ph B Hi; [discriminate|].
  change (phdr_table (x :: l)) with (phdr_bytes x ++ phdr_table l) in B.
  apply bytes_at_app in B as [B1 B2]. rewrite length_phdr_bytes in B2.
  destruct i as [|i]; [injection Hi as <-; rewrite Z.add_0_r; exact B1|].
  replace (p + 56 * Z.of_nat (S i)) with (p + Z.of_nat 56 + 56 * Z.of_nat i) by lia. apply IH; assumption.
Qed.

Lemma eh_address_find p l a : eh_address p l = Some a ->
  exists i ph, l !! i = Some ph /\ List.find is_eh l = Some ph /\ a = p + 56 * Z.of_nat i.
Proof.
  revert p. induction l as [|ph l IH]; intros p H; [discriminate|]. simpl in *.
  destruct (is_eh ph) eqn:E.
  - injection H as <-. exists 0%nat, ph. split_and!; [reflexivity|reflexivity|lia].
  - apply IH in H as (i & ph' & Hi & Hp & ->). exists (S i), ph'. split_and!; [exact Hi|exact Hp|lia].
Qed.

Lemma eh_address_none p l : eh_address p l = None -> List.find is_eh l = None.
Proof.
  revert p. induction l as [|ph l IH]; intros p H; [reflexivity|]. simpl in *.
  destruct (is_eh ph); [discriminate|]. eapply IH, H.
Qed.

(** The scan of a table with at most one header for .eh_frame_hdr, from any
    state it can be in. *)
Lemma scan_table l : forall p (eh : option Z) dyn,
  bytes_at p (phdr_table l) -> p + 56 * Z.of_nat (length l) <= ptr_limit -> Forall phdr_ok l ->
  (length (List.filter is_eh l) + (if eh is Some _ then 1 else 0) <= 1)%nat ->
  match eh with Some _ => dyn = false | None => True end ->
  scan_phdrs (length l) p eh dyn =
    Ok (match eh with Some a => Some a | None => eh_address p l end, dyn || existsb is_dyn l).
Proof.
  induction l as [|ph l IH]; intros p eh dyn B Hl F Hone He.
  { simpl. rewrite orb_false_r. destruct eh; reflexivity. }
  change (phdr_table (ph :: l)) with (phdr_bytes ph ++ phdr_table l) in B.
  apply bytes_at_app in B as [B1 B2]. rewrite length_phdr_bytes in B2. change (Z.of_nat 56) with 56 in B2.
  inversion F as [|? ? Hph F']. subst. simpl length in *. unfold ptr_limit in *.
  pose proof (proj1 (phdr_fields p ph B1 Hph)) as Et. assert (0 <= p) by apply B1.
  cbn [scan_phdrs]. rewrite Et. cbn [mbind C_bind]. unfold PHDR_SIZE. rewrite (u64_small (p + 56)) by lia.
  cbn [existsb eh_address]. cbn [List.filter] in Hone. fold (is_eh ph) (is_dyn ph).
  destruct (is_eh ph) eqn:E.
  - simpl in Hone. destruct eh as [a|]; [lia|].
    replace (is_dyn ph) with false by (unfold is_eh, is_dyn in *; apply Z.eqb_eq in E; rewrite E; reflexivity).
    cbn [orb]. destruct dyn; [reflexivity|]. rewrite (IH _ (Some p)) by (assumption || reflexivity || (simpl; lia)). reflexivity.
  - destruct (is_dyn ph).
    + rewrite orb_true_r. destruct eh as [a|]; [reflexivity|]. rewrite (IH _ None) by (assumption || exact I || (simpl; lia)). reflexivity.
    + cbn [orb]. replace (match eh with Some _ => dyn | None => false end) with false by (destruct eh; auto).
      rewrite IH by (assumption || lia). destruct eh; reflexivity.
Qed.
End phdrs.

(** ** The objects of a process *)

Section objects.
Context `{K : Kernel} `{MM : Mm}.

(** What the memory manager answers, at any time: the page behind the start of an
    area, where a page is mapped, and the bytes of the page. *)
Variables (page_of : Z -> option Z) (base_of : Z -> Z) (contents : Z -> list Z).
Hypothesis Hgup : forall t start, gup_at t start 1 =
  match page_of start with Some p => (1, [p]) | None => (- EFAULT, []) end.
Hypothesis Hvmap : forall t p, vmap_at t [p] = base_of p.
Hypothesis Hpage : forall p, base_of p <> 0 ->
  bytes_at (base_of p) (contents p) /\ (64 <= length (contents p))%nat.

(** The program headers an ELF header leads to: their offset and number. *)
Definition elf_header (l : list Z) : option (Z * Z) :=
  if bool_decide (take 4 l = [0x7f; 0x45; 0x4c; 0x46]) then Some (field 8 32 l, field 2 56 l) else None.

(** The objects among the areas that start a file: [first] says that no such area
    has been looked at yet; its object has address 0, as a program linked to run
    at fixed addresses. *)
Fixpoint objects (vmas : list vm_area) (first : bool) : list phdr_info :=
  match vmas with
  | [] => []
  | vma :: vmas =>
    match (if vm_pgoff vma =? 0 then page_of (vm_start vma) else None) with
    | None => objects vmas first
    | Some p =>
      (if base_of p =? 0 then [] else
       match elf_header (contents p) with
       | Some (phoff, phnum) =>
         [mk_phdr_info (if first then 0 else vm_start vma) (u64 (base_of p + phoff)) phnum]
       | None => []
       end) ++ objects vmas false
    end
  end.

Lemma elf_magic_page p : base_of p <> 0 ->
  elf_magic (base_of p) = Ok (bool_decide (take 4 (contents p) = [0x7f; 0x45; 0x4c; 0x46])).
Proof.
  intros Hb. destruct (Hpage p Hb) as [(Hp & Hl & B) Hlen]. unfold elf_magic.
  destruct (contents p) as [|b0 [|b1 [|b2 [|b3 l]]]] eqn:E; simpl in Hlen; try lia. simpl in Hl.
  rewrite !(u64_small (_ + _)) by lia.
  pose proof (B 0%nat _ eq_refl) as B0. rewrite Z.add_0_r in B0.
  rewrite B0, (B 1%nat _ eq_refl : load8 (base_of p + 1) = _), (B 2%nat _ eq_refl : load8 (base_of p + 2) = _),
    (B 3%nat _ eq_refl : load8 (base_of p + 3) = _).
  cbn [mbind C_bind take firstn]. f_equal. symmetry.
  destruct (Z.eqb_spec b0 0x7f) as [->|]; [|apply bool_decide_eq_false_2; congruence].
  destruct (Z.eqb_spec b1 0x45) as [->|]; [|apply bool_decide_eq_false_2; congruence].
  destruct (Z.eqb_spec b2 0x4c) as [->|]; [|apply bool_decide_eq_false_2; congruence].
  destruct (Z.eqb_spec b3 0x46) as [->|]; [|apply bool_decide_eq_false_2; congruence].
  apply bool_decide_eq_true_2. rewrite take_0. reflexivity.
Qed.

Lemma read_ehdr_page p addr : base_of p <> 0 ->
  read_ehdr (base_of p) addr = Ok (match elf_header (contents p) with
    | Some (phoff, phnum) => Some (mk_phdr_info addr (u64 (base_of p + phoff)) phnum)
    | None => None
    end).
Proof.
  intros Hb. destruct (Hpage p Hb) as [B Hlen]. unfold read_ehdr, elf_header.
  rewrite (elf_magic_page p Hb). cbn [mbind C_bind]. case_bool_decide; [|reflexivity].
  change (base_of p + 32) with (base_of p + Z.of_nat 32). change (base_of p + 56) with (base_of p + Z.of_nat 56).
  rewrite (load_field 8 32 _ _ B), (load_field 2 56 _ _ B) by lia. reflexivity.
Qed.

(** What a callback that always succeeds does with the objects, one after
    another; it may keep resources. *)
Section callback.
Context {D : Type} (cb : phdr_info -> D -> L (Z * D)) (I : D -> Prop) (R : phdr_info -> D -> D -> list resource -> Prop).

(** The data after the objects, and the resources that were kept for them. *)
Inductive chain : list phdr_info -> D -> D -> list resource -> Prop :=
  | chain_nil d : chain [] d d []
  | chain_cons info infos d d1 d' h h' :
      R info d d1 h -> chain infos d1 d' h' -> chain (info :: infos) d d' (h' ++ h).

Definition succeeds (info : phdr_info) : Prop := forall d s, I d ->
  exists d' s' h, cb info d s = Done (0, d') s' /\ held s' ≡ₚ h ++ held s /\ R info d d' h /\ I d'.

Lemma release_held r s h : held s ≡ₚ r :: h -> exists s', release r s = Done tt s' /\ held s' ≡ₚ h.
Proof.
  intros P. unfold release. rewrite decide_True by (rewrite P; left). eexists. split; [reflexivity|]. cbn [held].
  apply (Permutation_cons_inv (a := r)). rewrite <- remove_one_perm; [exact P|]. rewrite P. left.
Qed.

Lemma L_bind_at {A B} (m : L A) (g : A -> L B) s a s' : m s = Done a s' -> (m ≫= g) s = g a s'.
Proof. intros E. unfold mbind, L_bind. rewrite E. reflexivity. Qed.

(** The end of a round: the mapping and the page are given back. *)
Lemma end_round p b s h : b <> 0 -> held s ≡ₚ Mapping b :: Page p :: h ->
  exists s1 s2, vunmap b s = Done tt s1 /\ put_pages 1 [p] s1 = Done tt s2 /\ held s2 ≡ₚ h.
Proof.
  intros Hb P. apply release_held in P as (s1 & E1 & P1). apply release_held in P1 as (s2 & E2 & P2).
  exists s1, s2. unfold vunmap. destruct (Z.eqb_spec b 0); [contradiction|]. split; [exact E1|]. split; [|exact P2].
  cbn [put_pages]. rewrite (L_bind_at _ _ _ _ _ E2). reflexivity.
Qed.

(** The body of a round, on a mapped page. *)
Lemma body_round p addr d s : base_of p <> 0 -> I d ->
  let infos := match elf_header (contents p) with
    | Some (phoff, phnum) => [mk_phdr_info addr (u64 (base_of p + phoff)) phnum]
    | None => []
    end in
  Forall succeeds infos ->
  exists d1 s1 h, (info ← lift (read_ehdr (base_of p) addr);
      '(res, data) ← match info with None => mret (0, d) | Some info => cb info d end;
      _ ← vunmap (base_of p); mret (res, data)) s = (_ ← vunmap (base_of p); mret (0, d1)) s1 /\
    held s1 ≡ₚ h ++ held s /\ I d1 /\
    forall infos' d' h', chain infos' d1 d' h' -> chain (infos ++ infos') d d' (h' ++ h).
Proof.
  intros Hb Hd infos F. unfold infos in *. unfold mbind at 1, L_bind at 1, lift. rewrite (read_ehdr_page p _ Hb).
  destruct (elf_header (contents p)) as [[phoff phnum]|].
  - inversion F as [|? ? Hs _]. subst. destruct (Hs d s Hd) as (d1 & s1 & h & E & P & HR & Hd1). exists d1, s1, h.
    rewrite (L_bind_at _ _ _ _ _ E). split; [reflexivity|]. split; [exact P|]. split; [exact Hd1|]. intros infos' d' h' C. eapply chain_cons; eassumption.
  - exists d, s, []. split_and!; [reflexivity|reflexivity|exact Hd|]. intros infos' d' h' C. rewrite app_nil_r. exact C.
Qed.

Lemma iterate_vmas_chain vmas : forall first d s, I d ->
  Forall succeeds (objects vmas first) ->
  exists d' s' h, iterate_vmas cb vmas 0 first d s = Done (0, d') s' /\ held s' ≡ₚ h ++ held s /\
    chain (objects vmas first) d d' h /\ I d'.
Proof.
  induction vmas as [|vma vmas IH]; intros first d s Hd F; [exists d, s, []; split_and!; [reflexivity..|constructor|exact Hd]|].
  cbn [iterate_vmas objects] in *. destruct (vm_pgoff vma =? 0); cbn [negb]; [|apply IH; assumption].
  unfold mbind at 1, L_bind at 1, get_user_pages. rewrite Hgup.
  destruct (page_of (vm_start vma)) as [p|]; [|apply (IH first d (mk_ld (held s) (S (clock s)))); assumption].
  cbn [Z.leb Z.ltb Z.compare app map]. rewrite bool_decide_eq_false_2 by discriminate.
  unfold mbind at 1, L_bind at 1, vmap at 1. cbn [clock held]. rewrite Hvmap.
  apply Forall_app in F as [F F']. destruct (Z.eqb_spec (base_of p) 0) as [Hb|Hb]; cbn [app].
  - rewrite (L_bind_at _ _ _ (0, d) _ eq_refl). cbv beta iota.
    destruct (release_held (Page p) (mk_ld (Page p :: held s) (S (S (clock s)))) (held s) ltac:(reflexivity)) as (s1 & E1 & P1).
    cbn [put_pages]. rewrite (L_bind_at _ _ _ tt s1) by (rewrite (L_bind_at _ _ _ _ _ E1); reflexivity).
    destruct (IH false d s1 Hd F') as (d' & s' & h & E & P & C). exists d', s', h. rewrite <- P1. auto.
  - set (s0 := mk_ld _ _).
    destruct (body_round p (if first then 0 else vm_start vma) d s0 Hb Hd F) as (d1 & s1 & h & E1 & P1 & Hd1 & C1).
    destruct (end_round p (base_of p) s1 (h ++ held s) Hb) as (s2 & s3 & E2 & E3 & P3).
    { rewrite P1. cbn [s0 held app]. rewrite <- !Permutation_middle. reflexivity. }
    rewrite (L_bind_at _ _ s0 (0, d1) s2) by (rewrite E1, (L_bind_at _ _ _ _ _ E2); reflexivity). cbv beta iota.
    rewrite (L_bind_at _ _ _ _ _ E3).
    destruct (IH false d1 s3 Hd1 F') as (d' & s' & h' & E & P & C & Hd'). exists d', s', (h' ++ h).
    split; [exact E|]. split; [rewrite P, P3, app_assoc; reflexivity|]. split; [apply C1, C|exact Hd'].
Qed.
End callback.

Lemma iterate_phdr_chain {D} (cb : phdr_info -> D -> L (Z * D)) I R vmas d s :
  mm_mmap = Some vmas -> I d -> Forall (succeeds cb I R) (objects vmas true) ->
  exists d' s' h, iterate_phdr cb d s = Done (0, d') s' /\ held s' ≡ₚ h ++ held s /\
    chain R (objects vmas true) d d' h /\ I d'.
Proof. intros E Hd F. unfold iterate_phdr. rewrite E. apply iterate_vmas_chain; assumption. Qed.

(** C32: [iterate_phdr] runs its callback, when that succeeds, on every object of the
    process once, in the order of the address space, the first with the address 0,
    which the code gives it, and the others with the start of their area; what is
    held afterwards is what the callback has kept. *)
Theorem iterate_phdr_visits {D} (cb : phdr_info -> D -> L (Z * D)) I R vmas d s :
  mm_mmap = Some vmas -> I d -> Forall (succeeds cb I R) (objects vmas true) ->
  exists d' s' h, iterate_phdr cb d s = Done (0, d') s' /\ held s' ≡ₚ h ++ held s /\
    chain R (objects vmas true) d d' h /\ I d'.
Proof. apply iterate_phdr_chain. Qed.
End objects.

(** ** One object *)

Section add.
Context `{K : Kernel} `{MM : Mm} {T : Type} `{FC : !FrameCache T}.

(** The description [add_module] makes of an object from its program headers. *)
Definition object_linfo (info : phdr_info) (ph : elf_phdr) (l : list elf_phdr) : load_info :=
  mk_load_info (pi_addr info) (u64 (pi_addr info + ph_vaddr ph)) (ph_memsz ph) 0 0 (existsb is_dyn l).

Lemma add_module_at fuel info (mods : kunwind_proc_modules (T := T)) l s :
  bytes_at (pi_phdr info) (phdr_table l) -> Forall phdr_ok l ->
  pi_phnum info = Z.of_nat (length l) -> pi_phdr info + 56 * Z.of_nat (length l) <= ptr_limit ->
  (length (List.filter is_eh l) <= 1)%nat ->
  add_module fuel info mods s =
    match List.find is_eh l with
    | None => Done (0, mods) s
    | Some ph =>
      (block ← kmalloc KUNWIND_MODULE_SIZE;
       match block with
       | None => mret (- ENOMEM, mods)
       | Some a =>
         '(err, m) ← init_kunwind_stp_module fuel (object_linfo info ph l) (fresh_module a)
                       (negb (mods_compat mods =? 0));
         if err =? 0 then mret (0, add_tail mods m) else _ ← kfree a; mret (0, mods)
       end) s
    end.
Proof.
  intros B F Hn Hl Hone. unfold add_module. rewrite Hn, Nat2Z.id.
  unfold mbind at 1, L_bind at 1, lift at 1.
  rewrite (scan_table l (pi_phdr info) None false B Hl F) by (assumption || exact I || lia). cbn [orb].
  destruct (eh_address (pi_phdr info) l) as [a|] eqn:E.
  - destruct (eh_address_find _ _ _ E) as (i & ph & Hi & -> & ->).
    destruct (phdr_fields _ _ (phdr_at l _ i ph B Hi) (Forall_lookup_1 _ _ _ _ F Hi)) as (_ & Ev & Em).
    unfold mbind, L_bind, lift. rewrite Ev, Em. unfold object_linfo.
    destruct (kmalloc _ s) as [[b|] s'|c|r]; try reflexivity.
    destruct (init_kunwind_stp_module _ _ _ _ s') as [[err m] s''|c|r]; try reflexivity.
    destruct (err =? 0); reflexivity.
  - rewrite (eh_address_none _ _ E). reflexivity.
Qed.

(** What [add_module] does with the module: it is added at the end when it could
    be set up; when not, or when there is no header, the list stays as it is and
    the walk goes on. *)
Theorem add_module_object fuel info (mods : kunwind_proc_modules (T := T)) l s :
  bytes_at (pi_phdr info) (phdr_table l) -> Forall phdr_ok l ->
  pi_phnum info = Z.of_nat (length l) -> pi_phdr info + 56 * Z.of_nat (length l) <= ptr_limit ->
  (length (List.filter is_eh l) <= 1)%nat ->
  add_module fuel info mods s =
    match List.find is_eh l with
    | None => Done (0, mods) s
    | Some ph =>
      (block ← kmalloc KUNWIND_MODULE_SIZE;
       match block with
       | None => mret (- ENOMEM, mods)
       | Some a =>
         '(err, m) ← init_kunwind_stp_module fuel (object_linfo info ph l) (fresh_module a)
                       (negb (mods_compat mods =? 0));
         if err =? 0 then mret (0, add_tail mods m) else _ ← kfree a; mret (0, mods)
       end) s
    end.
Proof. apply add_module_at. Qed.
End add.

(** ** The demo process *)

Definition demo_bodies : list (list Z) :=
  [drop 4 lib_cie; drop 4 (lib_fde 28 (-0x1120) [0x41; 0x0e; 16; 0x86; 2; 0; 0]);
   drop 4 (lib_fde 52 (-0x10f8) [0x44; 0x0e; 32; 0; 0; 0; 0])].

Lemma demo_object_mapped :
  object_mapped (K := process_kernel) demo_linfo demo_vma lib_vmap 0xfc lib_entries demo_bodies 10.
Proof.
  constructor.
  - simpl. lia.
  - vm_compute. reflexivity.
  - left; reflexivity.
  - reflexivity.
  - apply (bytes_atb_true (K := process_kernel)). vm_compute. reflexivity.
  - vm_compute. discriminate.
  - vm_compute. split; reflexivity.
  - simpl. lia.
  - repeat constructor.
  - split; [apply (bytes_atb_true (K := process_kernel)); vm_compute; reflexivity|].
    split; [vm_compute; discriminate|vm_compute; reflexivity].
  - split; vm_compute; discriminate.
  - simpl. lia.
Qed.

Lemma init_module_ready_witness :
  let m := ready_module demo_linfo demo_vma 0xA000 3 lib_vmap 0xfc [1; 2; 3] lib_entries demo_bodies 0x9100 in
  init_kunwind_stp_module (K := process_kernel) (MM := demo_mm) 10 demo_linfo
      (fresh_module (MM := demo_mm) 0x9100) false (mk_ld [Block 0x9100] 0) =
    Done (0, m) (mk_ld [Mapping lib_vmap; Page 1; Page 2; Page 3; Block 0xA000; Block 0x9100] 3) /\
  hdr_loaded (K := process_kernel) m 0xfc lib_entries.
Proof.
  apply (init_module_ready (K := process_kernel) (MM := demo_mm) demo_linfo demo_vma 0xA000 3 lib_vmap 0xfc
    [1; 2; 3] lib_entries demo_bodies 10 demo_object_mapped (mk_ld [Block 0x9100] 0)
    (fresh_module (MM := demo_mm) 0x9100)); try reflexivity.
  - lia.
  - repeat constructor; vm_compute; discriminate.
  - intros e He. unfold lib_entries in He. rewrite !elem_of_cons, elem_of_nil in He.
    destruct He as [-> | [-> | []]]; vm_compute; discriminate.
  - intros [|[|i]] [|[|j]] ei ej Ei Ej Hij; try (simpl in Ei, Ej; discriminate);
      simpl in Ei, Ej; try lia; injection Ei as <-; injection Ej as <-; vm_compute; discriminate.
Defined.

(** A callback that writes down the objects it is shown. *)
Definition record_object (info : phdr_info) (seen : list phdr_info) : L (Z * list phdr_info) :=
  mret (0, seen ++ [info]).
Definition recorded (info : phdr_info) (seen seen' : list phdr_info) (h : list resource) : Prop :=
  seen' = seen ++ [info] /\ h = [].

Lemma iterate_phdr_visits_witness :
  exists seen s' h, iterate_phdr (K := process_kernel) (MM := demo_mm) record_object [] (mk_ld [Block 0x9000] 0) =
      Done (0, seen) s' /\
    held s' ≡ₚ h ++ [Block 0x9000] /\ chain recorded [mk_phdr_info 0 (demo_page_vmap + 64) 2] [] seen h /\
    Forall (fun info => pi_phnum info < 65536) seen.
Proof.
  apply (iterate_phdr_visits (K := process_kernel) (MM := demo_mm)
    (fun start => if start =? 0x400000 then Some 1 else None) (fun _ => demo_page_vmap) (fun _ => demo_page))
    with (vmas := [demo_vma]) (I := Forall (fun info => pi_phnum info < 65536)).
  - intros t start. cbn [gup_at demo_mm]. unfold demo_gup. destruct (start =? 0x400000); reflexivity.
  - intros t p. reflexivity.
  - intros p _. split; [|vm_compute; lia]. apply (bytes_atb_true (K := process_kernel)). vm_compute. reflexivity.
  - reflexivity.
  - constructor.
  - apply Forall_cons. split; [|constructor]. intros seen s Hs. eexists _, s, []. split; [reflexivity|]. split; [reflexivity|].
    split; [split; reflexivity|]. apply Forall_app_2; [exact Hs|repeat constructor].
Defined.

Lemma add_module_object_witness :
  add_module (K := process_kernel) (MM := demo_mm) 10 (mk_phdr_info 0 (demo_page_vmap + 64) 2) demo_mods
    (mk_ld [Block 0x9000] 0) =
  (block ← kmalloc (MM := demo_mm) KUNWIND_MODULE_SIZE;
   match block with
   | None => mret (- ENOMEM, demo_mods)
   | Some a =>
     '(err, m) ← init_kunwind_stp_module (K := process_kernel) (MM := demo_mm) 10 demo_linfo
                   (fresh_module (MM := demo_mm) a) false;
     if err =? 0 then mret (0, add_tail demo_mods m) else _ ← kfree a; mret (0, demo_mods)
   end) (mk_ld [Block 0x9000] 0).
Proof.
  apply (add_module_object (K := process_kernel) (MM := demo_mm) 10 (mk_phdr_info 0 (demo_page_vmap + 64) 2)
    demo_mods demo_phdrs (mk_ld [Block 0x9000] 0)).
  - apply (bytes_atb_true (K := process_kernel)). vm_compute. reflexivity.
  - apply Forall_cons; split; [|apply Forall_cons; split; [|apply Forall_nil_2]];
      split_and!; vm_compute; first [reflexivity|discriminate].
  - reflexivity.
  - vm_compute. discriminate.
  - simpl. lia.
Defined.
