(* ===== verification/ProcFile.v ===== *)
(** * The proc file and the process table

    src/src/kunwind-debug.c: the table that maps a process to its modules, the
    operations of /proc/kunwind_debug, and [save_stack_trace_kunwind]. *)
From S2P Require Import Prelude Machine Regs Rules KModule EhFrameHdr HashTable Cache Step Modules.

(** [entries_limit] *)
Definition entries_limit : Z := 128.

(** ** State *)

(** [struct kunw_map_val]: its address, its process and the address of its
    modules. *)
Record kunw_map_val : Type := mk_val { val_addr : Z; val_tgid : Z; val_mods : Z }.

Abbreviation modules := (kunwind_proc_modules (T := unw_cache)).

(** The state of the driver: the resources held, the buckets of [kunw_map], the
    [struct kunwind_proc_modules] that are allocated, by address, the
    [private_data] of the open files, and what has been written to user memory,
    in order. *)
Record world : Type := mk_world {
  w_ld : ldstate;
  kunw_map : list (list kunw_map_val);
  procs : gmap Z modules;
  files : gmap Z Z;
  uwrites : list (Z * list Z)
}.

Definition KUNW_MAP_SIZE : nat := 8.
Definition boot (ld : ldstate) : world := mk_world ld (ht_empty KUNW_MAP_SIZE) ∅ ∅ [].

Definition with_map (w : world) (m : list (list kunw_map_val)) : world :=
  mk_world (w_ld w) m (procs w) (files w) (uwrites w).
Definition with_procs (w : world) (ps : gmap Z modules) : world :=
  mk_world (w_ld w) (kunw_map w) ps (files w) (uwrites w).
Definition with_files (w : world) (fs : gmap Z Z) : world :=
  mk_world (w_ld w) (kunw_map w) (procs w) fs (uwrites w).

(** An operation returns, crashes, gives back what it does not hold, or uses a
    structure that has been freed. *)
Inductive outcome (A : Type) : Type :=
  | Returns (a : A) (w : world)
  | Crashes (c : crash)
  | FreesTwice (r : resource)
  | UsesFreed (addr : Z).
Arguments Returns {A}.
Arguments Crashes {A}.
Arguments FreesTwice {A}.
Arguments UsesFreed {A}.

Definition P (A : Type) : Type := world -> outcome A.
#[export] Instance P_ret : MRet P := fun A a w => Returns a w.
#[export] Instance P_bind : MBind P := fun A B f m w =>
  match m w with
  | Returns a w => f a w
  | Crashes c => Crashes c
  | FreesTwice r => FreesTwice r
  | UsesFreed a => UsesFreed a
  end.

(** A step of the loader, and a computation on memory, as a step of the driver. *)
Definition by_loader {A} (m : L A) : P A := fun w =>
  match m (w_ld w) with
  | Done a ld => Returns a (mk_world ld (kunw_map w) (procs w) (files w) (uwrites w))
  | Faults c => Crashes c
  | BadFree r => FreesTwice r
  end.
Definition by_memory {A} (m : C A) : P A := fun w =>
  match m with Ok a => Returns a w | Crash c => Crashes c end.
Definition crashes {A} (c : crash) : P A := fun _ => Crashes c.

Definition get_world : P world := fun w => Returns w w.
Definition set_world (w : world) : P unit := fun _ => Returns tt w.

(** Access to [*mods]. *)
Definition read_mods (addr : Z) : P modules := fun w =>
  if addr =? 0 then Crashes (PageFault 0)
  else match procs w !! addr with Some mods => Returns mods w | None => UsesFreed addr end.
Definition write_mods (addr : Z) (mods : modules) : P unit := fun w =>
  Returns tt (with_procs w (<[addr := mods]> (procs w))).

(** ** Services of the kernel *)

Class Driver : Type := {
  tgid_hash : Z -> Z;                  (* hash_min(jhash(&key, sizeof(key), 0), 3) *)
  stale_word : Z -> Z -> Z;            (* what a new block holds, by word *)
  put_ok : Z -> Z -> bool;             (* writing [n] bytes of user memory succeeds *)
  copied : Z -> Z -> nat;              (* how many of the [n] a failing copy has written *)
  cache_alloc : nat -> Z -> option Z   (* kzalloc of a cache entry, by round *)
}.

Section driver.
Context `{K : Kernel} `{MM : Mm} `{H : Hash} `{DR : Driver}.
Variable walk_fuel : nat.

(** ** The process table *)

Definition tgid_bucket (tgid : Z) : nat := Z.to_nat (tgid_hash tgid mod 2 ^ 3).

Definition kunwind_process_find (m : list (list kunw_map_val)) (tgid : Z) : option kunw_map_val :=
  ht_find val_tgid tgid_bucket m tgid.

Definition KUNW_MAP_VAL_SIZE : Z := 48.

(** The result of [kzalloc] is written without a test. *)
Definition kunwind_process_register (mods tgid : Z) : P unit :=
  w ← get_world;
  match kunwind_process_find (kunw_map w) tgid with
  | Some _ => mret tt
  | None =>
    val ← by_loader (kmalloc KUNW_MAP_VAL_SIZE);
    match val with
    | None => crashes (PageFault 0)
    | Some a =>
      w ← get_world;
      set_world (with_map w (ht_add val_tgid tgid_bucket (kunw_map w) (mk_val a tgid mods)))
    end
  end.

(** The value itself is not freed. *)
Definition kunwind_process_unregister (tgid : Z) : P unit :=
  w ← get_world;
  match kunwind_process_find (kunw_map w) tgid with
  | None => mret tt
  | Some val =>
    _ ← set_world (with_map w (ht_del val_tgid tgid_bucket (kunw_map w) tgid));
    mods ← read_mods (val_mods val);
    _ ← by_loader (release_unwind_info (val_mods val) mods);
    w ← get_world;
    set_world (with_procs w (delete (val_mods val) (procs w)))
  end.

(** ** Open and release *)

Definition PROC_MODULES_SIZE : Z := 8216.

(** [kunwind_debug_open]; [file] names the open file, [pid] is [current->pid] and
    [compat_task] is [_stp_is_compat_task()]. *)
Definition kunwind_debug_open (file pid : Z) (compat_task : bool) : P Z :=
  w ← get_world;
  match kunwind_process_find (kunw_map w) pid with
  | Some _ => mret (- EBUSY)
  | None =>
    block ← by_loader (kmalloc PROC_MODULES_SIZE);
    match block with
    | None => mret (- ENOMEM)
    | Some mods =>
      match init_proc_unwind_info mods (Z.b2z compat_task) with
      | (ret, None) => _ ← by_loader (kfree mods); mret ret
      | (ret, Some init) =>
        _ ← write_mods mods init;
        _ ← kunwind_process_register mods pid;
        w ← get_world;
        _ ← set_world (with_files w (<[file := mods]> (files w)));
        mret ret
      end
    end
  end.

Definition kunwind_debug_release (file pid : Z) : P Z :=
  _ ← kunwind_process_unregister pid;
  w ← get_world;
  _ ← set_world (with_files w (delete file (files w)));
  mret 0.

(** [file->private_data] *)
Definition private_data (file : Z) : P Z :=
  w ← get_world; mret (match files w !! file with Some a => a | None => 0 end).

(** ** The ioctls *)

Definition kunwind_init_ioctl (file : Z) : P Z :=
  mods ← private_data file;
  m ← read_mods mods;
  '(res, m) ← by_loader (init_modules_from_task walk_fuel m);
  _ ← write_mods mods m;
  mret res.

(** [copy_from_user]: [None] when some byte cannot be read. *)
Fixpoint user_bytes (n : nat) (addr : Z) : option (list Z) :=
  match n with
  | O => Some []
  | S n => b ← get_user 1 addr; l ← user_bytes n (addr + 1); Some (b mod 256 :: l)
  end.
Definition copy_from_user (addr size : Z) : option (list Z) :=
  if access_ok USER_DS addr size then user_bytes (Z.to_nat size) addr else None.

(** The layout of [struct load_info]: 104 bytes, of which the code reads the first
    41; [dynamic] is the lowest bit of its byte. *)
Definition LOAD_INFO_SIZE : nat := 104.
Definition decode_load_info (l : list Z) : load_info :=
  mk_load_info (field 8 0 l) (field 8 8 l) (field 8 16 l) (field 8 24 l) (field 8 32 l)
    (Z.odd (field 1 40 l)).

(** The entries that lie in the copy. *)
Fixpoint decode_segments (fuel : nat) (l : list Z) : list load_info :=
  match fuel with
  | O => []
  | S fuel =>
    if (length l <? 41)%nat then []
    else decode_load_info l :: decode_segments fuel (drop LOAD_INFO_SIZE l)
  end.

(** [pinfo] as the code reads it through the members of the structure, in the layout
    gcc gives them: a copy too short for the count is read past its end. *)
Definition decode_proc_info (l : list Z) : C proc_info :=
  if (length l <? 8)%nat then Crash OutOfBounds
  else Ok (mk_proc_info (field 4 4 l) (decode_segments (length l) (drop 8 l))).

(** [kunwind_proc_info_ioctl(file, upinfo)]. *)
Definition kunwind_proc_info_ioctl (file upinfo : Z) : P Z :=
  if upinfo =? 0 then kunwind_init_ioctl file
  else
    mods ← private_data file;
    match _stp_read_address 4 4 upinfo USER_DS with
    | None => mret (- EFAULT)
    | Some size =>
      block ← by_loader (kmalloc size);
      match block with
      | None => mret (- ENOMEM)
      | Some pinfo =>
        match copy_from_user upinfo size with
        | None => _ ← by_loader (kfree pinfo); mret (- EFAULT)
        | Some bytes =>
          info ← by_memory (decode_proc_info bytes);
          m ← read_mods mods;
          '(res, m) ← by_loader (init_modules_from_proc_info walk_fuel info m);
          _ ← write_mods mods m;
          _ ← by_loader (kfree pinfo);
          mret res
        end
      end
    end.

Definition written (w : world) (addr : Z) (bytes : list Z) : world :=
  mk_world (w_ld w) (kunw_map w) (procs w) (files w) (uwrites w ++ [(addr, bytes)]).

(** [put_user] of one word, which is written or not, and [copy_to_user], which may
    have written the first bytes when it fails. *)
Definition put_user (addr : Z) (bytes : list Z) : P bool := fun w =>
  if put_ok addr (Z.of_nat (length bytes)) then Returns true (written w addr bytes) else Returns false w.
Definition copy_to_user (addr : Z) (bytes : list Z) : P bool := fun w =>
  let n := Z.of_nat (length bytes) in
  if put_ok addr n then Returns true (written w addr bytes)
  else Returns false (written w addr (take (copied addr n) bytes)).

(** A new array of entries. *)
Definition stale_entries (addr n : Z) : list Z :=
  map (fun i => stale_word addr (Z.of_nat i)) (seq 0 (Z.to_nat n)).

(** The tail of [kunwind_backtrace_ioctl] once the entries are there. The member
    [entries] of the user's structure is read without [get_user]. *)
Definition report_backtrace (uback : Z) (bt : kunwind_backtrace) : P Z :=
  ok ← put_user (u64 (uback + 4)) (le_bytes 4 (nr_entries bt));
  if negb ok then mret (- EFAULT)
  else
    dest ← by_memory (load 8 (u64 (uback + 8)));
    let words := match bt_entries bt with Some l => take (Z.to_nat (nr_entries bt)) l | None => [] end in
    ok ← copy_to_user dest (concat (map (le_bytes 8) words));
    mret (if (ok : bool) then 0 else - EFAULT).

(** [kunwind_backtrace_ioctl(file, uback)]; [regs] are [current_pt_regs()]. *)
Definition kunwind_backtrace_ioctl (file uback : Z) (regs : list Z) (compat_task : bool) : P Z :=
  mods ← private_data file;
  match _stp_read_address 4 4 uback USER_DS with
  | None => mret (- EFAULT)
  | Some max =>
    if max =? 0 then mret (- EINVAL)
    else
      let max := Z.min max entries_limit in
      block ← by_loader (kmalloc (8 * max));
      match block with
      | None => mret (- ENOMEM)
      | Some entries =>
        m ← read_mods mods;
        w ← get_world;
        '(ret, _, m, bt) ← by_memory (do_current_unwind regs m
            (mk_bt max 0 (Some (stale_entries entries max))) compat_task (cache_alloc (clock (w_ld w))));
        _ ← write_mods mods m;
        ret ← (if negb (ret =? 0) then mret (- EFAULT) else report_backtrace uback bt);
        _ ← by_loader (kfree entries);
        mret ret
      end
  end.

Definition KUNWIND_PROC_INFO_IOCTL : Z := 0xF691.
Definition KUNWIND_UNWIND_IOCTL : Z := 0xF692.
Definition ENOIOCTLCMD : Z := 515.

Definition kunwind_debug_ioctl (file cmd arg : Z) (regs : list Z) (compat_task : bool) : P Z :=
  if cmd =? KUNWIND_PROC_INFO_IOCTL then kunwind_proc_info_ioctl file arg
  else if cmd =? KUNWIND_UNWIND_IOCTL then kunwind_backtrace_ioctl file arg regs compat_task
  else mret (- ENOIOCTLCMD).

(** ** Stack traces for the rest of the kernel *)

(** [struct stack_trace] *)
Record stack_trace : Type := mk_trace { tr_max : Z; tr_nr : Z; tr_entries : option (list Z) }.

Definition save_stack_trace_kunwind (pid : Z) (trace : stack_trace) (regs : list Z) (compat_task : bool)
    : P stack_trace :=
  w ← get_world;
  match kunwind_process_find (kunw_map w) pid with
  | None => mret trace
  | Some val =>
    m ← read_mods (val_mods val);
    '(_, _, m, bt) ← by_memory (do_current_unwind regs m
        (mk_bt (tr_max trace) (tr_nr trace) (tr_entries trace)) compat_task (cache_alloc (clock (w_ld w))));
    _ ← write_mods (val_mods val) m;
    mret (mk_trace (tr_max trace) (nr_entries bt) (bt_entries bt))
  end.

(** ** The file operations

    [struct file_operations], the members the driver sets. The kernel gives an
    ioctl of a 32-bit process to [compat_ioctl]. *)
Record file_operations : Type := mk_fops {
  fop_open : Z -> Z -> bool -> P Z;
  fop_release : Z -> Z -> P Z;
  fop_unlocked_ioctl : Z -> Z -> Z -> list Z -> bool -> P Z;
  fop_compat_ioctl : Z -> Z -> Z -> list Z -> bool -> P Z
}.
Definition fops : file_operations :=
  mk_fops kunwind_debug_open kunwind_debug_release kunwind_debug_ioctl kunwind_debug_ioctl.
End driver.
