(* ===== verification/ProcFileSpec.v ===== *)
(** * The life of the proc file

    The invariant of the driver over every sequence of operations in which a file
    is released by the process that opened it, what a release by another process
    does instead, and what a backtrace gives to the user. *)
From S2P Require Import Prelude Machine Regs Rules KModule EhFrameHdr HashTable Cache Step StepSpec StepWf.
From S2P Require Import BacktraceSpec Modules DemoProcess ModulesSpec ProcFile.

(** ** Outcomes

    [wpo m w Q]: from [w], [m] does not give anything back twice, does not use a
    structure that has been freed, and when it returns, [Q] holds. *)
Definition wpo {A} (m : P A) (w : world) (Q : A -> world -> Prop) : Prop :=
  match m w with
  | Returns a w' => Q a w'
  | Crashes _ => True
  | FreesTwice _ | UsesFreed _ => False
  end.

Lemma wpo_ret {A} (a : A) w (Q : A -> world -> Prop) : Q a w -> wpo (mret a) w Q.
Proof. auto. Qed.

Lemma wpo_bind {A B} (m : P A) (f : A -> P B) w (R : A -> world -> Prop) Q :
  wpo m w R -> (forall a w', R a w' -> wpo (f a) w' Q) -> wpo (m ≫= f) w Q.
Proof.
  unfold wpo, mbind, P_bind. intros Hm Hf. destruct (m w) as [a w'|c|r|a]; auto. exact (Hf a w' Hm).
Qed.

Lemma wpo_mono {A} (m : P A) w (R Q : A -> world -> Prop) :
  wpo m w R -> (forall a w', R a w' -> Q a w') -> wpo m w Q.
Proof. unfold wpo. destruct (m w); auto. Qed.

Definition set_ld (w : world) (ld : ldstate) : world :=
  mk_world ld (kunw_map w) (procs w) (files w) (uwrites w).

Lemma wpo_loader {A} (m : L A) w h (R : A -> list resource -> Prop) (Q : A -> world -> Prop) :
  uses h m R -> held (w_ld w) ≡ₚ h ->
  (forall a ld h', held ld ≡ₚ h' -> R a h' -> Q a (set_ld w ld)) -> wpo (by_loader m) w Q.
Proof.
  intros U E HQ. specialize (U (w_ld w) E). unfold wpo, by_loader.
  destruct (m (w_ld w)) as [a ld|c|r]; [|exact I|exact U]. destruct U as (h' & Eh & HR). eapply HQ; eassumption.
Qed.

Lemma wpo_memory {A} (m : C A) w (Q : A -> world -> Prop) :
  (forall a, m = Ok a -> Q a w) -> wpo (by_memory m) w Q.
Proof. intros H. unfold wpo, by_memory. destruct m; auto. Qed.

(** The steps that only look at the state or replace it. *)
Lemma wpo_get {A} (f : world -> P A) w (Q : A -> world -> Prop) : wpo (f w) w Q -> wpo (get_world ≫= f) w Q.
Proof. auto. Qed.

Lemma wpo_set {A} (f : unit -> P A) w w' (Q : A -> world -> Prop) :
  wpo (f tt) w' Q -> wpo (set_world w' ≫= f) w Q.
Proof. auto. Qed.

Lemma wpo_read {A} (f : modules -> P A) a mods w (Q : A -> world -> Prop) :
  procs w !! a = Some mods -> wpo (f mods) w Q -> wpo (read_mods a ≫= f) w Q.
Proof. intros E H. unfold wpo, mbind, P_bind, read_mods. rewrite E. destruct (a =? 0); [exact I|exact H]. Qed.

Lemma wpo_write {A} (f : unit -> P A) a mods w (Q : A -> world -> Prop) :
  wpo (f tt) (with_procs w (<[a := mods]> (procs w))) Q -> wpo (write_mods a mods ≫= f) w Q.
Proof. auto. Qed.

Tactic Notation "wpo_step" uconstr(H) := eapply wpo_bind; [eapply H|cbn beta].

(** ** What the processes own *)

Section owned.
Context `{K : Kernel}.

(** For each process structure, which of its modules were live when they were
    loaded, as far as they were there before the present operation; those behind
    are judged on the present memory. *)
Variable live : gmap Z (list bool).
Definition flags (a : Z) : list bool := default [] (live !! a).
Definition flags_of (a : Z) (mods : modules) : list bool := lives (flags a) (stp_modules mods).

Definition proc_owned (p : Z * modules) : list resource :=
  block (fst p) ++ all_owned (flags_of (fst p) (snd p)) (stp_modules (snd p)).
Definition procs_owned (ps : gmap Z modules) : list resource := concat (map proc_owned (map_to_list ps)).

#[export] Instance concat_map_perm {A B} (f : A -> list B) : Proper ((≡ₚ) ==> (≡ₚ)) (fun l => concat (map f l)).
Proof.
  intros l l' E. induction E as [|x l l' E IH|x y l|l l' l'' E1 IH1 E2 IH2]; simpl; [reflexivity| | |].
  - rewrite IH. reflexivity.
  - apply Permutation_app_swap_app.
  - etransitivity; eassumption.
Qed.

Lemma procs_owned_insert ps a mods :
  ps !! a = None -> procs_owned (<[a := mods]> ps) ≡ₚ proc_owned (a, mods) ++ procs_owned ps.
Proof.
  intros E. unfold procs_owned. rewrite (map_to_list_insert ps a mods E). reflexivity.
Qed.

Lemma procs_owned_delete ps a mods :
  ps !! a = Some mods -> procs_owned ps ≡ₚ proc_owned (a, mods) ++ procs_owned (delete a ps).
Proof.
  intros E. rewrite <- procs_owned_insert by apply lookup_delete_eq. rewrite insert_delete_id by exact E. reflexivity.
Qed.

Lemma procs_owned_update ps a mods :
  procs_owned (<[a := mods]> ps) ≡ₚ proc_owned (a, mods) ++ procs_owned (delete a ps).
Proof. rewrite <- insert_delete_eq. apply procs_owned_insert, lookup_delete_eq. Qed.

Lemma procs_owned_block ps a mods : ps !! a = Some mods -> a <> 0 -> Block a ∈ procs_owned ps.
Proof.
  intros E Ha. rewrite (procs_owned_delete ps a mods E). unfold proc_owned, block. simpl.
  destruct (Z.eqb_spec a 0); [contradiction|]. left.
Qed.
End owned.

(** ** The invariant *)

(** The saved user registers. *)
Definition regs_ok (regs : list Z) : Prop :=
  length regs = PT_WORDS /\ Forall (fun v => 0 <= v < 2 ^ 64) regs.

(** A property [Sp] of a process structure that the operations keep: it holds of a
    new one, more modules do not break it, nor does a backtrace in a mode that
    [agrees] with the structure. *)
Class Tracked `{K : Kernel} `{H : Hash} (Sp : modules -> Prop) (agrees : bool -> modules -> Prop) : Prop := {
  tr_new : forall c, Sp (mk_mods [] empty_cache c);
  tr_extends : forall mods mods', Sp mods -> extends mods mods' -> Sp mods';
  tr_unwind : forall regs mods bt c alloc ret cx mods' bt', regs_ok regs -> Sp mods -> agrees c mods ->
    do_current_unwind regs mods bt c alloc = Ok (ret, cx, mods', bt') -> Sp mods'
}.

(** The least and the most demanding mode: no property at all. *)
#[export] Instance tracked_nothing `{K : Kernel} `{H : Hash} : Tracked (fun _ => True) (fun _ _ => True).
Proof. constructor; auto. Qed.

Section driver.
Context `{K : Kernel} `{MM : Mm} `{H : Hash} `{DR : Driver}.
Variable walk_fuel : nat.
Variable live : gmap Z (list bool).
Context {Sp : modules -> Prop} {agrees : bool -> modules -> Prop} `{TR : !Tracked Sp agrees}.

Definition look (w : world) (pid : Z) : option kunw_map_val := kunwind_process_find (kunw_map w) pid.

(** [owner] gives the process that opened each open file and [rest] the resources
    that belong to no process structure. Every open file has the modules the
    table has for its owner, the table has a value for the owners only, no two
    values share their modules, and the structures own what is held. *)
Record inv (owner : gmap Z Z) (rest : list resource) (w : world) : Prop := {
  i_map : wf_table val_tgid tgid_bucket KUNW_MAP_SIZE (kunw_map w);
  i_open : forall f p, owner !! f = Some p -> exists v, look w p = Some v /\ files w !! f = Some (val_mods v);
  i_registered : forall p v, look w p = Some v -> exists f, owner !! f = Some p;
  i_owner : forall f f' p, owner !! f = Some p -> owner !! f' = Some p -> f = f';
  i_proc : forall p v, look w p = Some v -> is_Some (procs w !! val_mods v);
  i_distinct : forall p p' v v', look w p = Some v -> look w p' = Some v' -> val_mods v = val_mods v' -> p = p';
  i_mods : forall a mods, procs w !! a = Some mods ->
    a <> 0 /\ wf_modules (flags_of live a mods) (stp_modules mods) /\ wf_cache (mods_cache mods) /\ Sp mods;
  i_held : held (w_ld w) ≡ₚ procs_owned live (procs w) ++ rest
}.

Lemma tgid_bucket_range p : (tgid_bucket p < KUNW_MAP_SIZE)%nat.
Proof. unfold tgid_bucket, KUNW_MAP_SIZE. pose proof (Z.mod_pos_bound (tgid_hash p) (2 ^ 3)). lia. Qed.

Lemma inv_boot ld : inv ∅ (held ld) (boot ld).
Proof.
  assert (N : forall p, look (boot ld) p = None) by (intros p; apply ht_find_empty).
  constructor; try (intros *; rewrite ?N, ?lookup_empty; discriminate).
  - apply wf_ht_empty.
  - reflexivity.
Qed.

(** Only the resources and what was written to the user change. *)
Lemma inv_ld owner rest rest' w ld uw :
  inv owner rest w -> held ld ≡ₚ procs_owned live (procs w) ++ rest' ->
  inv owner rest' (mk_world ld (kunw_map w) (procs w) (files w) uw).
Proof. intros [] E. constructor; assumption. Qed.

(** One process structure changes as well. *)
Lemma inv_proc owner rest rest' w ld a mods mods' :
  inv owner rest w -> procs w !! a = Some mods ->
  wf_modules (flags_of live a mods') (stp_modules mods') -> wf_cache (mods_cache mods') -> Sp mods' ->
  held ld ≡ₚ proc_owned live (a, mods') ++ procs_owned live (delete a (procs w)) ++ rest' ->
  inv owner rest' (mk_world ld (kunw_map w) (<[a := mods']> (procs w)) (files w) (uwrites w)).
Proof.
  intros [] E W C S P. constructor; try assumption; cbn [kunw_map procs w_ld files].
  - intros p v Hv. destruct (decide (a = val_mods v)) as [<-|Hne];
      [rewrite lookup_insert_eq; eauto|rewrite lookup_insert_ne by exact Hne; eapply i_proc0, Hv].
  - intros b m Hm. destruct (decide (a = b)) as [<-|Hne].
    + rewrite lookup_insert_eq in Hm. injection Hm as <-. split_and!; try assumption. eapply i_mods0, E.
    + rewrite lookup_insert_ne in Hm by exact Hne. eapply i_mods0, Hm.
  - rewrite procs_owned_update, <- app_assoc. exact P.
Qed.

Lemma proc_fresh owner rest w a :
  inv owner rest w -> a <> 0 -> Block a ∉ held (w_ld w) -> procs w !! a = None.
Proof.
  intros I Ha Hf. destruct (procs w !! a) as [mods|] eqn:E; [|reflexivity]. exfalso. apply Hf.
  rewrite (i_held _ _ _ I). apply elem_of_app. left. eapply procs_owned_block; eassumption.
Qed.

Lemma wpo_kmalloc owner rest w size :
  inv owner rest w ->
  wpo (by_loader (kmalloc size)) w (fun b w' =>
    kunw_map w' = kunw_map w /\ files w' = files w /\ procs w' = procs w /\
    match b with
    | None => inv owner rest w'
    | Some a => inv owner (block a ++ rest) w' /\ a <> 0 /\ procs w !! a = None
    end).
Proof.
  intros I. eapply wpo_loader; [apply uses_kmalloc|apply (i_held _ _ _ I)|].
  intros [a|] ld h' E HR; refine (conj eq_refl (conj eq_refl (conj eq_refl _))).
  - destruct HR as (-> & Ha & Hf). split_and!; [|exact Ha|].
    + eapply inv_ld; [exact I|]. rewrite E. apply Permutation_app_swap_app.
    + eapply proc_fresh; [exact I|exact Ha|]. rewrite (i_held _ _ _ I). exact Hf.
  - subst h'. eapply inv_ld; [exact I|exact E].
Qed.

Lemma wpo_kfree owner rest w a :
  inv owner (block a ++ rest) w -> wpo (by_loader (kfree a)) w (fun _ w' => inv owner rest w').
Proof.
  intros I. eapply wpo_loader; [apply (uses_kfree a (procs_owned live (procs w) ++ rest))| |].
  - rewrite (i_held _ _ _ I). apply Permutation_app_swap_app.
  - intros _ ld h' E ->. eapply inv_ld; [exact I|exact E].
Qed.

(** A file's own modules. *)
Lemma wpo_private owner rest w f p :
  inv owner rest w -> owner !! f = Some p ->
  wpo (private_data f) w (fun a w' => w' = w /\ files w !! f = Some a /\ exists mods, procs w !! a = Some mods).
Proof.
  intros I Hf. destruct (i_open _ _ _ I f p Hf) as (v & Hv & Ev). destruct (i_proc _ _ _ I p v Hv) as [mods Em].
  unfold private_data. apply wpo_get.
  apply wpo_ret. rewrite Ev. eauto.
Qed.

(** A step of the loader on the modules of a process. *)
Lemma wpo_load (g : modules -> L (Z * modules)) owner rest w a mods (k : Z -> P Z) Q :
  (forall old h h0, holds old h mods h0 ->
     uses h0 (g mods) (fun x h' => holds old h (snd x) h' /\ extends mods (snd x))) ->
  inv owner rest w -> procs w !! a = Some mods ->
  (forall res w', inv owner rest w' -> wpo (k res) w' Q) ->
  wpo ('(res, m) ← by_loader (g mods); _ ← write_mods a m; k res) w Q.
Proof.
  intros Hg I E Hk. destruct (i_mods _ _ _ I a mods E) as (Ha & W & C & S).
  assert (Hh : holds (flags live a) (block a ++ procs_owned live (delete a (procs w)) ++ rest) mods (held (w_ld w))).
  { split; [exact W|]. rewrite (i_held _ _ _ I), (procs_owned_delete live _ a mods E). unfold proc_owned. simpl.
    rewrite <- !app_assoc. apply Permutation_app_swap_app. }
  apply wpo_bind with (R := fun x w' => inv owner rest (with_procs w' (<[a := snd x]> (procs w')))).
  - eapply wpo_loader; [apply Hg, Hh|reflexivity|]. intros [res m'] ld h' Eh [[W' P] X].
    eapply (inv_proc owner rest rest w ld a mods m'); try eassumption.
    + simpl in X. rewrite (ex_cache _ _ X). exact C.
    + eapply tr_extends; eassumption.
    + rewrite Eh, P. unfold proc_owned. simpl. rewrite <- !app_assoc. apply Permutation_app_swap_app.
  - intros [res m'] w' I'. simpl in I'. apply wpo_bind with (R := fun _ w'' => inv owner rest w''); [exact I'|].
    intros _ w'' I''. apply Hk, I''.
Qed.

Lemma wpo_put_user owner rest w a bytes :
  inv owner rest w -> wpo (put_user a bytes) w (fun _ w' => inv owner rest w').
Proof.
  intros I. unfold wpo, put_user. destruct (put_ok _ _); [|exact I]. eapply inv_ld; [exact I|apply I].
Qed.

Lemma wpo_copy_to_user owner rest w a bytes :
  inv owner rest w -> wpo (copy_to_user a bytes) w (fun _ w' => inv owner rest w').
Proof.
  intros I. unfold wpo, copy_to_user. destruct (put_ok _ _); (eapply inv_ld; [exact I|apply I]).
Qed.

Lemma unwind_mods regs mods bt compat_task alloc ret cx mods' bt' :
  regs_ok regs -> wf_cache (mods_cache mods) ->
  do_current_unwind regs mods bt compat_task alloc = Ok (ret, cx, mods', bt') -> mods_grow mods mods'.
Proof.
  intros [Hl Hw] C E. unfold do_current_unwind in E. apply unwind_full_grows in E; [apply E| |exact C].
  split_and!; [exact Hl|exact Hw|simpl; lia|simpl; lia].
Qed.

Lemma wpo_unwind {A} owner rest w a mods regs bt compat_task alloc
    (k : Z -> kunwind_backtrace -> P A) (Q : A -> world -> Prop) :
  inv owner rest w -> procs w !! a = Some mods -> regs_ok regs -> agrees compat_task mods ->
  (forall ret w' bt', inv owner rest w' -> wpo (k ret bt') w' Q) ->
  wpo ('(ret, _, m, bt') ← by_memory (do_current_unwind regs mods bt compat_task alloc);
       _ ← write_mods a m; k ret bt') w Q.
Proof.
  intros I E Hr Hg Hk. destruct (i_mods _ _ _ I a mods E) as (Ha & W & C & S).
  apply wpo_bind with (R := fun x w' => do_current_unwind regs mods bt compat_task alloc = Ok x /\ w' = w);
    [apply wpo_memory; auto|].
  intros [[[ret cx] m'] bt'] w' [Hx ->]. pose proof (tr_unwind _ _ _ _ _ _ _ _ _ Hr S Hg Hx) as S'.
  apply unwind_mods in Hx as (Es & _ & Hc & _); [|exact Hr|exact C].
  apply wpo_bind with (R := fun _ w' => inv owner rest w'); [|intros _ w' I'; apply Hk, I'].
  eapply (inv_proc owner rest rest w (w_ld w) a mods m'); try assumption.
  - unfold flags_of. rewrite Es. exact W.
  - rewrite (i_held _ _ _ I), (procs_owned_delete live _ a mods E), <- app_assoc. unfold proc_owned, flags_of. simpl.
    rewrite Es. reflexivity.
Qed.

(** The mode of a backtrace agrees with the structure behind a file, or behind a
    process. *)
Definition file_agrees (w : world) (f : Z) (c : bool) : Prop := forall a mods,
  files w !! f = Some a -> procs w !! a = Some mods -> agrees c mods.
Definition pid_agrees (w : world) (p : Z) (c : bool) : Prop := forall v mods,
  look w p = Some v -> procs w !! val_mods v = Some mods -> agrees c mods.

(** ** The operations *)

Lemma wpo_init_ioctl owner rest w f p :
  inv owner rest w -> owner !! f = Some p ->
  wpo (kunwind_init_ioctl walk_fuel f) w (fun _ w' => inv owner rest w').
Proof.
  intros I Hf. wpo_step wpo_private; [exact I|exact Hf|]. intros a w' (-> & Ef & mods & E).
  apply (wpo_read _ _ mods); [exact E|].
  eapply (wpo_load (init_modules_from_task walk_fuel)); [|exact I|exact E|intros; apply wpo_ret; assumption].
  intros old h h0 Hh. apply uses_init_from_task, Hh.
Qed.

Lemma wpo_proc_info_ioctl owner rest w f p upinfo :
  inv owner rest w -> owner !! f = Some p ->
  wpo (kunwind_proc_info_ioctl walk_fuel f upinfo) w (fun _ w' => inv owner rest w').
Proof.
  intros I Hf. unfold kunwind_proc_info_ioctl. destruct (upinfo =? 0); [eapply wpo_init_ioctl; eassumption|].
  wpo_step wpo_private; [exact I|exact Hf|]. intros a w' (-> & Ef & mods & E).
  destruct (_stp_read_address _ _ _ _) as [size|]; [|apply wpo_ret, I].
  wpo_step wpo_kmalloc; [exact I|]. intros [pinfo|] w' (_ & _ & Ep & I'); [|apply wpo_ret, I'].
  destruct I' as (I' & _). rewrite <- Ep in E.
  destruct (copy_from_user _ _) as [bytes|].
  2: { wpo_step wpo_kfree; [exact I'|]. intros _ w'' I''. apply wpo_ret, I''. }
  eapply wpo_bind; [apply (wpo_memory _ w' (fun _ w'' => w'' = w')); auto|]. intros info ? ->.
  apply (wpo_read _ _ mods); [exact E|].
  eapply (wpo_load (init_modules_from_proc_info walk_fuel info)); [|exact I'|exact E|].
  - intros old h h0 Hh. eapply uses_mono.
    + apply (uses_init_segments walk_fuel (fun _ => True) (fun _ => True)); try exact Hh; auto;
        apply Forall_forall; auto.
    + simpl. tauto.
  - intros res w'' I''. wpo_step wpo_kfree; [exact I''|]. intros _ w3 I3. apply wpo_ret, I3.
Qed.

Lemma wpo_backtrace_ioctl owner rest w f p uback regs compat_task :
  inv owner rest w -> owner !! f = Some p -> regs_ok regs -> file_agrees w f compat_task ->
  wpo (kunwind_backtrace_ioctl f uback regs compat_task) w (fun _ w' => inv owner rest w').
Proof.
  intros I Hf Hr Hg. unfold kunwind_backtrace_ioctl. wpo_step wpo_private; [exact I|exact Hf|].
  intros a w' (-> & Ef & mods & E). destruct (_stp_read_address _ _ _ _) as [max|]; [|apply wpo_ret, I].
  destruct (max =? 0); [apply wpo_ret, I|]. cbv zeta.
  wpo_step wpo_kmalloc; [exact I|]. intros [entries|] w' (_ & _ & Ep & I'); [|apply wpo_ret, I'].
  destruct I' as (I' & _). rewrite <- Ep in E.
  apply (wpo_read _ _ mods); [exact E|].
  apply wpo_get.
  eapply wpo_unwind; [exact I'|exact E|exact Hr|eapply Hg; [exact Ef|rewrite <- Ep; exact E]|]. intros ret w'' bt' I''.
  apply wpo_bind with (R := fun _ w3 => inv owner (block entries ++ rest) w3).
  - destruct (negb _); [apply wpo_ret, I''|]. unfold report_backtrace.
    wpo_step wpo_put_user; [exact I''|]. intros ok w3 I3. destruct (negb ok); [apply wpo_ret, I3|].
    eapply wpo_bind; [apply (wpo_memory _ w3 (fun _ w4 => w4 = w3)); auto|]. intros dest ? ->.
    wpo_step wpo_copy_to_user; [exact I3|]. intros ok' w4 I4. apply wpo_ret, I4.
  - intros r w3 I3. wpo_step wpo_kfree; [exact I3|]. intros _ w4 I4. apply wpo_ret, I4.
Qed.

Lemma wpo_ioctl owner rest w f p cmd arg regs compat_task :
  inv owner rest w -> owner !! f = Some p -> regs_ok regs -> file_agrees w f compat_task ->
  wpo (kunwind_debug_ioctl walk_fuel f cmd arg regs compat_task) w (fun _ w' => inv owner rest w').
Proof.
  intros I Hf Hr Hg. unfold kunwind_debug_ioctl. destruct (_ =? _); [eapply wpo_proc_info_ioctl; eassumption|].
  destruct (_ =? _); [eapply wpo_backtrace_ioctl; eassumption|apply wpo_ret, I].
Qed.

Lemma wpo_save_stack_trace owner rest w pid trace regs compat_task :
  inv owner rest w -> regs_ok regs -> pid_agrees w pid compat_task ->
  wpo (save_stack_trace_kunwind pid trace regs compat_task) w (fun _ w' => inv owner rest w').
Proof.
  intros I Hr Hg. unfold save_stack_trace_kunwind.
  apply wpo_get.
  destruct (kunwind_process_find (kunw_map w) pid) as [v|] eqn:Ev; [|apply wpo_ret, I].
  destruct (i_proc _ _ _ I pid v Ev) as [mods E].
  apply (wpo_read _ _ mods); [exact E|].
  eapply wpo_unwind; [exact I|exact E|exact Hr|exact (Hg v mods Ev E)|]. intros ret w'' bt' I''. apply wpo_ret, I''.
Qed.

(** ** Open and release *)

Lemma inv_new_proc owner rest w a compat :
  inv owner (block a ++ rest) w -> procs w !! a = None -> live !! a = None -> a <> 0 ->
  inv owner rest (with_procs w (<[a := mk_mods [] empty_cache compat]> (procs w))).
Proof.
  intros [] E El Ha. assert (Ef : flags live a = []) by (unfold flags; rewrite El; reflexivity).
  constructor; try assumption; cbn [kunw_map procs w_ld files with_procs].
  - intros p v Hv. destruct (decide (a = val_mods v)) as [<-|Hne];
      [rewrite lookup_insert_eq; eauto|rewrite lookup_insert_ne by exact Hne; eapply i_proc0, Hv].
  - intros b m Hm. destruct (decide (a = b)) as [<-|Hne].
    + rewrite lookup_insert_eq in Hm. injection Hm as <-. unfold flags_of. rewrite Ef.
      split_and!; [exact Ha|constructor|apply wf_empty_cache|apply tr_new].
    + rewrite lookup_insert_ne in Hm by exact Hne. eapply i_mods0, Hm.
  - rewrite procs_owned_insert by exact E. rewrite i_held0. unfold proc_owned, flags_of. cbn [fst snd stp_modules].
    rewrite Ef. simpl. rewrite app_nil_r, <- app_assoc. apply Permutation_app_swap_app.
Qed.

Lemma look_add w v p :
  wf_table val_tgid tgid_bucket KUNW_MAP_SIZE (kunw_map w) -> look w (val_tgid v) = None ->
  kunwind_process_find (ht_add val_tgid tgid_bucket (kunw_map w) v) p =
    if decide (p = val_tgid v) then Some v else look w p.
Proof. intros W _. apply (ht_find_add _ _ KUNW_MAP_SIZE); [exact tgid_bucket_range|exact W]. Qed.

Lemma inv_open owner rest w f p a va :
  inv owner rest w -> owner !! f = None -> look w p = None -> is_Some (procs w !! a) ->
  (forall q v, look w q = Some v -> val_mods v <> a) ->
  inv (<[f := p]> owner) rest
    (with_files (with_map w (ht_add val_tgid tgid_bucket (kunw_map w) (mk_val va p a))) (<[f := a]> (files w))).
Proof.
  intros I Hf Hp Ha Hn. destruct I. pose proof (look_add w (mk_val va p a)) as La. simpl in La.
  specialize (fun q => La q i_map0 Hp).
  assert (New : forall q, owner !! q = Some p -> False).
  { intros q Hq. destruct (i_open0 q p Hq) as (v & Hv & _). congruence. }
  constructor; unfold look; cbn [kunw_map procs w_ld files with_files with_map]; try assumption.
  - apply wf_ht_add; [exact tgid_bucket_range|exact i_map0|exact Hp].
  - intros g q Hg. rewrite La. destruct (decide (f = g)) as [<-|Hne].
    + rewrite lookup_insert_eq in Hg. injection Hg as <-. rewrite decide_True by reflexivity.
      rewrite lookup_insert_eq. eauto.
    + rewrite lookup_insert_ne in Hg by exact Hne. rewrite lookup_insert_ne by exact Hne.
      rewrite decide_False by (intros ->; exact (New g Hg)). apply i_open0, Hg.
  - intros q v. rewrite La. destruct (decide (q = p)) as [->|Hne].
    + intros _. exists f. apply lookup_insert_eq.
    + intros Hv. destruct (i_registered0 q v Hv) as [g Hg]. exists g.
      rewrite lookup_insert_ne; [exact Hg|]. intros <-. congruence.
  - intros g g' q. destruct (decide (f = g)) as [<-|Hg], (decide (f = g')) as [<-|Hg'];
      rewrite ?lookup_insert_eq, ?lookup_insert_ne by assumption; auto.
    + intros [= <-] Hq. destruct (New g' Hq).
    + intros Hq [= <-]. destruct (New g Hq).
    + apply i_owner0.
  - intros q v. rewrite La. destruct (decide (q = p)) as [->|Hne]; [intros [= <-]; exact Ha|apply i_proc0].
  - intros q q' v v'. rewrite !La. destruct (decide (q = p)) as [->|Hq], (decide (q' = p)) as [->|Hq']; auto.
    + intros [= <-] Hv' E. simpl in E. destruct (Hn q' v' Hv'). auto.
    + intros Hv [= <-] E. simpl in E. destruct (Hn q v Hv). auto.
    + apply i_distinct0.
Qed.

(** Opening gives a new session, or fails and leaves everything as it was. *)
Lemma wpo_open owner rest w f p compat_task :
  inv owner rest w -> owner !! f = None -> (forall a, procs w !! a = None -> live !! a = None) ->
  wpo (kunwind_debug_open f p compat_task) w (fun r w' =>
    (r = 0 /\ exists va, inv (<[f := p]> owner) (Block va :: rest) w') \/
    ((r = - EBUSY \/ r = - ENOMEM) /\ inv owner rest w')).
Proof.
  intros I Hf Hn0. unfold kunwind_debug_open.
  apply wpo_get.
  destruct (kunwind_process_find (kunw_map w) p) as [v|] eqn:Ep; [apply wpo_ret; auto|].
  wpo_step wpo_kmalloc; [exact I|]. intros [a|] w1 (Em & Ef & Epr & I1); [|apply wpo_ret; auto].
  destruct I1 as (I1 & Ha & Hn). unfold init_proc_unwind_info. destruct (Z.eqb_spec a 0); [contradiction|].
  pose proof (inv_new_proc owner rest w1 a (Z.b2z compat_task) I1 ltac:(congruence) (Hn0 a Hn) Ha) as I2.
  set (w2 := with_procs w1 _) in *.
  apply wpo_write. fold w2.
  assert (Lk : forall q, look w2 q = look w q) by (intros q; unfold look, w2; simpl; rewrite Em; reflexivity).
  assert (Hp2 : look w2 p = None) by (rewrite Lk; exact Ep).
  apply wpo_bind with (R := fun _ w4 => exists va w3, inv owner (Block va :: rest) w3 /\
    kunw_map w3 = kunw_map w2 /\ procs w3 = procs w2 /\
    w4 = with_map w3 (ht_add val_tgid tgid_bucket (kunw_map w3) (mk_val va p a))).
  - unfold kunwind_process_register.
    apply wpo_get.
    fold (look w2 p). rewrite Hp2. wpo_step wpo_kmalloc; [exact I2|].
    intros [va|] w3 (Em3 & Ef3 & Ep3 & I3); [|exact Logic.I]. destruct I3 as (I3 & Hva & _).
    apply wpo_get.
    exists va, w3. split_and!; try assumption; [|reflexivity].
    unfold block in I3. destruct (Z.eqb_spec va 0); [contradiction|exact I3].
  - intros _ w4 (va & w3 & I3 & Em3 & Ep3 & ->).
    apply wpo_get.
    apply wpo_set, wpo_ret. left. split; [reflexivity|]. exists va. apply (inv_open owner _ w3 f p a va I3 Hf).
    + unfold look. rewrite Em3. exact Hp2.
    + rewrite Ep3. unfold w2. simpl. rewrite lookup_insert_eq. eauto.
    + intros q v. unfold look. rewrite Em3. fold (look w2 q). rewrite Lk. intros Hv Ev.
      destruct (i_proc _ _ _ I q v Hv) as [m Hm]. congruence.
Qed.

Lemma inv_close owner rest w f p v ld :
  inv owner rest w -> owner !! f = Some p -> look w p = Some v ->
  held ld ≡ₚ procs_owned live (delete (val_mods v) (procs w)) ++ rest ->
  inv (delete f owner) rest (mk_world ld (ht_del val_tgid tgid_bucket (kunw_map w) p)
    (delete (val_mods v) (procs w)) (delete f (files w)) (uwrites w)).
Proof.
  intros I Hf Hv P. destruct I.
  assert (Ld : forall q, kunwind_process_find (ht_del val_tgid tgid_bucket (kunw_map w) p) q =
    if decide (q = p) then None else look w q)
    by (intros q; apply (ht_find_del _ _ KUNW_MAP_SIZE); [exact tgid_bucket_range|exact i_map0]).
  constructor; unfold look; cbn [kunw_map procs w_ld files]; try assumption.
  - apply wf_ht_del; [exact tgid_bucket_range|exact i_map0].
  - intros g q Hg. destruct (decide (f = g)) as [<-|Hne]; [rewrite lookup_delete_eq in Hg; discriminate|].
    rewrite lookup_delete_ne in Hg by exact Hne. rewrite lookup_delete_ne by exact Hne. rewrite Ld.
    rewrite decide_False by (intros ->; apply Hne; eapply i_owner0; eassumption). apply i_open0, Hg.
  - intros q x. rewrite Ld. destruct (decide (q = p)) as [->|Hne]; [discriminate|]. intros Hx.
    destruct (i_registered0 q x Hx) as [g Hg]. exists g. rewrite lookup_delete_ne; [exact Hg|]. intros <-. congruence.
  - intros g g' q Hg Hg'. apply lookup_delete_Some in Hg as [_ Hg], Hg' as [_ Hg']. eapply i_owner0; eassumption.
  - intros q x. rewrite Ld. destruct (decide (q = p)) as [->|Hne]; [discriminate|]. intros Hx.
    rewrite lookup_delete_ne; [eapply i_proc0, Hx|]. intros E. apply Hne. symmetry. eapply i_distinct0; eassumption.
  - intros q q' x x'. rewrite !Ld. destruct (decide (q = p)), (decide (q' = p)); try discriminate. apply i_distinct0.
  - intros b m Hm. apply lookup_delete_Some in Hm as [_ Hm]. eapply i_mods0, Hm.
Qed.

(** The modules a process has loaded were all live then. *)
Definition all_live (w : world) (p : Z) : Prop := forall v mods,
  look w p = Some v -> procs w !! val_mods v = Some mods -> Forall (fun b => b = true) (flags_of live (val_mods v) mods).

(** Releasing the structure of a process that is registered. *)
Lemma wpo_unregister owner rest w p v :
  inv owner rest w -> look w p = Some v -> all_live w p ->
  wpo (kunwind_process_unregister p) w (fun _ w' => exists ld,
    held ld ≡ₚ procs_owned live (delete (val_mods v) (procs w)) ++ rest /\
    w' = mk_world ld (ht_del val_tgid tgid_bucket (kunw_map w) p) (delete (val_mods v) (procs w)) (files w) (uwrites w)).
Proof.
  intros I Hv Hl. unfold kunwind_process_unregister.
  apply wpo_get.
  fold (look w p). rewrite Hv. destruct (i_proc _ _ _ I p v Hv) as [mods E].
  destruct (i_mods _ _ _ I _ mods E) as (Ha & W & C & S).
  apply wpo_set. set (w1 := with_map w _).
  apply (wpo_read _ _ mods); [exact E|].
  set (h := procs_owned live (delete (val_mods v) (procs w)) ++ rest).
  apply wpo_bind with (R := fun _ w' => exists ld, held ld ≡ₚ h /\ w' = set_ld w1 ld).
  - eapply wpo_loader; [apply (uses_release_unwind_info (flags live (val_mods v)) h (val_mods v) mods (held (w_ld w)))| |].
    + split; [exact W|]. rewrite (i_held _ _ _ I), (procs_owned_delete live _ _ mods E). unfold proc_owned, h. simpl.
      rewrite <- !app_assoc. apply Permutation_app_swap_app.
    + eapply Hl; eassumption.
    + reflexivity.
    + intros c ld h' Eh [P _]. exists ld. split; [rewrite Eh; exact P|reflexivity].
  - intros _ w2 (ld & Eh & ->).
    apply wpo_get.
    exists ld. split; [exact Eh|reflexivity].
Qed.

Lemma wpo_release owner rest w f p :
  inv owner rest w -> owner !! f = Some p -> all_live w p ->
  wpo (kunwind_debug_release f p) w (fun r w' => r = 0 /\ inv (delete f owner) rest w').
Proof.
  intros I Hf Hl. destruct (i_open _ _ _ I f p Hf) as (v & Hv & _). unfold kunwind_debug_release.
  wpo_step wpo_unregister; [exact I|exact Hv|exact Hl|]. intros _ w1 (ld & Eh & ->).
  apply wpo_get.
  apply wpo_set, wpo_ret. split; [reflexivity|]. exact (inv_close owner rest w f p v ld I Hf Hv Eh).
Qed.

(** ** One operation after another *)

(** The flags at the end of an operation: every module that appeared in it is
    judged on the memory of that operation. *)
Definition live_after (w : world) : gmap Z (list bool) :=
  map_imap (fun a mods => Some (flags_of live a mods)) (procs w).

Lemma flags_after w a mods : procs w !! a = Some mods -> flags (live_after w) a = flags_of live a mods.
Proof. intros E. unfold flags, live_after. rewrite map_lookup_imap, E. reflexivity. Qed.
End driver.

(** Between two operations every module has its flag. *)
Definition settled (live : gmap Z (list bool)) (w : world) : Prop := forall a,
  match procs w !! a with
  | Some mods => length (flags live a) = length (stp_modules mods)
  | None => live !! a = None
  end.

(** What the structures own, between two operations. *)
Definition structures_own (live : gmap Z (list bool)) (w : world) : list resource :=
  concat (map (fun p => block (fst p) ++ all_owned (flags live (fst p)) (stp_modules (snd p))) (map_to_list (procs w))).

Section change.
Context `{H : Hash} `{DR : Driver}.

Lemma settled_flags `{K : Kernel} live w a mods : settled live w -> procs w !! a = Some mods -> flags_of live a mods = flags live a.
Proof. intros Hs E. specialize (Hs a). rewrite E in Hs. apply lives_full, Hs. Qed.

Lemma settled_owned `{K : Kernel} live w : settled live w -> procs_owned live (procs w) = structures_own live w.
Proof.
  intros Hs. unfold procs_owned, structures_own, proc_owned. f_equal. apply map_ext_in. intros [a mods] Hin.
  apply list_elem_of_In, elem_of_map_to_list in Hin. cbn [fst snd]. rewrite (settled_flags live w a mods Hs Hin). reflexivity.
Qed.

(** The invariant when the memory, the flags or the property are others. *)
Lemma inv_change (K K' : Kernel) live live' (Sp Sp' : modules -> Prop) owner rest w :
  (forall a mods, procs w !! a = Some mods -> flags_of (K := K') live' a mods = flags_of (K := K) live a mods) ->
  (forall a mods, procs w !! a = Some mods -> Sp mods -> Sp' mods) ->
  inv (K := K) live (Sp := Sp) owner rest w -> inv (K := K') live' (Sp := Sp') owner rest w.
Proof.
  intros Hf HS []. constructor; try assumption.
  - intros a mods E. destruct (i_mods0 a mods E) as (Ha & W & C & S). rewrite (Hf a mods E). eauto.
  - replace (procs_owned (K := K') live' (procs w)) with (procs_owned (K := K) live (procs w)); [exact i_held0|].
    unfold procs_owned, proc_owned. f_equal. apply map_ext_in.
    intros [a mods] Hin. apply list_elem_of_In, elem_of_map_to_list in Hin. cbn [fst snd]. rewrite (Hf a mods Hin). reflexivity.
Qed.

Lemma inv_settle (K : Kernel) live (Sp : modules -> Prop) owner rest w :
  inv (K := K) live (Sp := Sp) owner rest w ->
  inv (K := K) (live_after (K := K) live w) (Sp := Sp) owner rest w /\ settled (live_after (K := K) live w) w.
Proof.
  intros I. assert (S : settled (live_after (K := K) live w) w).
  { intros a. destruct (procs w !! a) as [mods|] eqn:E.
    - rewrite (flags_after live w a mods E). destruct (i_mods _ _ _ _ I a mods E) as (_ & W & _).
      apply (Forall2_length _ _ _ W).
    - unfold live_after. rewrite map_lookup_imap, E. reflexivity. }
  split; [|exact S]. revert I. apply inv_change; [|auto].
  intros a mods E. rewrite (settled_flags _ w a mods S E). exact (flags_after live w a mods E).
Qed.
End change.

(** ** Histories *)

Inductive event : Type :=
  | EOpen (file pid : Z) (compat_task : bool)
  | ERelease (file pid : Z)
  | EIoctl (file cmd arg : Z) (regs : list Z) (compat_task : bool)
  | ETrace (pid : Z) (trace : stack_trace) (regs : list Z) (compat_task : bool).

(** The owners of the open files, the flags of the modules, and the number of
    opens that succeeded so far. *)
Record history : Type := mk_history {
  h_owner : gmap Z Z; h_live : gmap Z (list bool); h_opens : nat
}.
Definition no_history : history := mk_history ∅ ∅ 0.

Section histories.
Context `{MM : Mm} `{H : Hash} `{DR : Driver}.
Variable walk_fuel : nat.

Definition handle `{K : Kernel} (e : event) : P Z :=
  match e with
  | EOpen f p c => fop_open (fops walk_fuel) f p c
  | ERelease f p => fop_release (fops walk_fuel) f p
  | EIoctl f cmd arg regs c =>
    (if c then fop_compat_ioctl (fops walk_fuel) else fop_unlocked_ioctl (fops walk_fuel)) f cmd arg regs c
  | ETrace p trace regs c => _ ← save_stack_trace_kunwind p trace regs c; mret 0
  end.

(** Every module of the process was live when it was loaded. *)
Definition loaded_live (live : gmap Z (list bool)) (w : world) (p : Z) : Prop := forall v,
  look w p = Some v -> Forall (fun b => b = true) (flags live (val_mods v)).

(** What the kernel promises about the files, and two conditions on the use: a
    file is released by the process that opened it, and its modules were live. *)
Definition allowed (h : history) (w : world) (e : event) : Prop :=
  match e with
  | EOpen f p _ => h_owner h !! f = None
  | ERelease f p => h_owner h !! f = Some p /\ loaded_live (h_live h) w p
  | EIoctl f _ _ regs _ => is_Some (h_owner h !! f) /\ regs_ok regs
  | ETrace _ _ regs _ => regs_ok regs
  end.

Definition owner_after (owner : gmap Z Z) (e : event) (r : Z) : gmap Z Z :=
  match e with
  | EOpen f p _ => if r =? 0 then <[f := p]> owner else owner
  | ERelease f _ => delete f owner
  | _ => owner
  end.

Definition opens_after (n : nat) (e : event) (r : Z) : nat :=
  match e with EOpen _ _ _ => if r =? 0 then S n else n | _ => n end.

Definition history_after `{K : Kernel} (h : history) (e : event) (r : Z) (w' : world) : history :=
  mk_history (owner_after (h_owner h) e r) (live_after (h_live h) w') (opens_after (h_opens h) e r).

(** The states the driver reaches from [ld]. Between two operations the memory
    may change in any way that [side] accepts: [reachable ld K h w] is a state
    after an operation on the memory [K], with its history [h]. *)
Variable side : Kernel -> Kernel -> world -> event -> Prop.

Inductive reachable (ld : ldstate) : Kernel -> history -> world -> Prop :=
  | ReachBoot K : reachable ld K no_history (boot ld)
  | ReachStep K K' h w e r w' : reachable ld K h w -> side K K' w e -> allowed h w e ->
      handle (K := K') e w = Returns r w' -> reachable ld K' (history_after (K := K') h e r w') w'.

(** The table values of all the opens so far, still held. *)
Definition values (n : nat) (rest rest' : list resource) : Prop :=
  exists vals, length vals = n /\ rest' = map Block vals ++ rest.

Context {Sp : Kernel -> modules -> Prop} {agrees : bool -> modules -> Prop}.
Context `{TR : forall K : Kernel, Tracked (K := K) (Sp K) agrees}.

(** A backtrace in a mode that agrees with the structure it is for. *)
Definition event_agrees (w : world) (e : event) : Prop :=
  match e with
  | EIoctl f _ _ _ c => file_agrees (agrees := agrees) w f c
  | ETrace p _ _ c => pid_agrees (agrees := agrees) w p c
  | _ => True
  end.

Hypothesis Hside : forall K K' w e, side K K' w e -> event_agrees w e /\
  forall a mods, procs w !! a = Some mods -> Sp K mods -> Sp K' mods.

Abbreviation hinv K h rest w := (inv (K := K) (h_live h) (Sp := Sp K) (h_owner h) rest w).

Lemma loaded_all_live `{K : Kernel} live w p : settled live w -> loaded_live live w p -> all_live (K := K) live w p.
Proof. intros Hs Hl v mods Hv E. rewrite (settled_flags live w _ mods Hs E). exact (Hl v Hv). Qed.

Lemma wpo_handle (K : Kernel) h rest0 rest w e :
  hinv K h rest w -> settled (h_live h) w -> values (h_opens h) rest0 rest -> allowed h w e -> event_agrees w e ->
  wpo (handle (K := K) e) w (fun r w' => exists rest',
    inv (K := K) (h_live h) (Sp := Sp K) (owner_after (h_owner h) e r) rest' w' /\
    values (opens_after (h_opens h) e r) rest0 rest').
Proof.
  intros I Hs V A G. destruct e as [f p c|f p|f cmd arg regs c|p trace regs c]; simpl in A, G.
  - eapply wpo_mono; [apply (wpo_open _ _ rest w f p c I A)|].
    { intros a E. specialize (Hs a). rewrite E in Hs. exact Hs. }
    simpl. intros r w' [[-> [va I']]|[Hr I']].
    + destruct V as (vals & <- & ->). exists (Block va :: map Block vals ++ rest0). split; [exact I'|].
      exists (va :: vals). auto.
    + replace (r =? 0) with false by (destruct Hr as [-> | ->]; reflexivity). eauto.
  - destruct A as [Hf Hl]. eapply wpo_mono; [apply (wpo_release _ _ rest w f p I Hf), loaded_all_live; assumption|].
    simpl. intros r w' [-> I']. eauto.
  - destruct A as [[p Hf] Hr]. eapply wpo_mono.
    + destruct c; apply (wpo_ioctl _ _ _ rest w f p cmd arg regs _ I Hf Hr G).
    + simpl. eauto.
  - wpo_step (wpo_save_stack_trace (h_live h) (TR := TR K)); [exact I|exact A|exact G|]. intros t w' I'. apply wpo_ret. simpl. eauto.
Qed.

Lemma reachable_inv ld K h w :
  reachable ld K h w -> exists rest, hinv K h rest w /\ settled (h_live h) w /\ values (h_opens h) (held ld) rest.
Proof.
  induction 1 as [K|K K' h w e r w' R (rest & I & S & V) A L E].
  - exists (held ld). split; [apply inv_boot|]. split; [intros a; apply lookup_empty|]. exists []. auto.
  - destruct (Hside _ _ _ _ A) as [G HS].
    assert (I' : hinv K' h rest w).
    { revert I. apply inv_change; [|exact HS]. intros a mods Ha. rewrite !(settled_flags _ w a mods S Ha). reflexivity. }
    pose proof (wpo_handle K' h (held ld) rest w e I' S V L G) as W. unfold wpo in W. rewrite E in W.
    destruct W as (rest' & I2 & V2). apply inv_settle in I2 as [I2 S2]. eauto.
Qed.
End histories.
Arguments reachable {MM H DR}.

(** ** What the operations keep

    [keeps I m]: from a world that satisfies [I], a run of [m] that returns leads to
    one that does. *)

Definition keeps {A} (I : world -> Prop) (m : P A) : Prop := forall w a w', I w -> m w = Returns a w' -> I w'.

Section keeps.
Context {I : world -> Prop}.

Lemma keeps_ret {A} (a : A) : keeps I (mret a).
Proof. intros w b w' X [= <- <-]. exact X. Qed.

Lemma keeps_bind {A B} (m : P A) (f : A -> P B) :
  keeps I m -> (forall a, (exists w w', m w = Returns a w') -> keeps I (f a)) -> keeps I (m ≫= f).
Proof.
  intros Hm Hf w b w' X E. unfold mbind, P_bind in E. destruct (m w) as [a w1| | |] eqn:Em; try discriminate.
  exact (Hf a (ex_intro _ w (ex_intro _ w1 Em)) w1 b w' (Hm w a w1 X Em) E).
Qed.

Lemma keeps_get {B} (f : world -> P B) : (forall w, I w -> keeps I (f w)) -> keeps I (get_world ≫= f).
Proof. intros Hf w b w' X E. exact (Hf w X w b w' X E). Qed.

Lemma keeps_set w : I w -> keeps I (set_world w).
Proof. intros X w1 b w' _ [= <- <-]. exact X. Qed.

Lemma keeps_memory {A} (m : C A) : keeps I (by_memory m).
Proof. intros w a w' X E. unfold by_memory in E. destruct m; [injection E as <- <-; exact X|discriminate]. Qed.

Lemma keeps_crash {A} c : keeps I (crashes (A := A) c).
Proof. intros w a w' _ [=]. Qed.

Lemma keeps_read a : keeps I (read_mods a).
Proof.
  intros w m w' X E. unfold read_mods in E. destruct (a =? 0); [discriminate|].
  destruct (procs w !! a); [injection E as <- <-; exact X|discriminate].
Qed.
End keeps.

(** *** A process stays registered *)

Section registered.
Context `{H : Hash} `{DR : Driver}.
Variable p : Z.

Definition registered (w : world) : Prop :=
  wf_table val_tgid tgid_bucket KUNW_MAP_SIZE (kunw_map w) /\ look w p <> None.

Lemma registered_loader {A} (m : L A) : keeps registered (by_loader m).
Proof. intros w a w' X E. unfold by_loader in E. destruct (m (w_ld w)); try discriminate. injection E as <- <-. exact X. Qed.

Lemma registered_write a m : keeps registered (write_mods a m).
Proof. intros w b w' X [= <- <-]. exact X. Qed.

Lemma registered_put a bytes : keeps registered (put_user a bytes).
Proof. intros w b w' X E. unfold put_user in E. destruct (put_ok _ _); injection E as <- <-; exact X. Qed.

Lemma registered_copy a bytes : keeps registered (copy_to_user a bytes).
Proof. intros w b w' X E. unfold copy_to_user in E. destruct (put_ok _ _); injection E as <- <-; exact X. Qed.

Lemma registered_add w v : registered w -> look w (val_tgid v) = None ->
  registered (with_map w (ht_add val_tgid tgid_bucket (kunw_map w) v)).
Proof.
  intros [W L] N. split; cbn [kunw_map with_map]; [apply wf_ht_add; [exact tgid_bucket_range|exact W|exact N]|].
  unfold look, kunwind_process_find in *. cbn [kunw_map with_map].
  rewrite (ht_find_add _ _ KUNW_MAP_SIZE) by (exact tgid_bucket_range || exact W). destruct (decide _); [discriminate|exact L].
Qed.

Lemma registered_del w q : registered w -> q <> p -> registered (with_map w (ht_del val_tgid tgid_bucket (kunw_map w) q)).
Proof.
  intros [W L] Hq. split; cbn [kunw_map with_map]; [apply wf_ht_del; [exact tgid_bucket_range|exact W]|].
  unfold look, kunwind_process_find in *. cbn [kunw_map with_map].
  rewrite (ht_find_del _ _ KUNW_MAP_SIZE) by (exact tgid_bucket_range || exact W). rewrite decide_False by congruence. exact L.
Qed.
End registered.

Ltac keep_registered := repeat match goal with
  | |- forall _, _ => intros
  | |- keeps _ (mret _) => apply keeps_ret
  | |- keeps _ (crashes _) => apply keeps_crash
  | |- keeps _ (by_loader _) => apply registered_loader
  | |- keeps _ (by_memory _) => apply keeps_memory
  | |- keeps _ (read_mods _) => apply keeps_read
  | |- keeps _ (write_mods _ _) => apply registered_write
  | |- keeps _ (put_user _ _) => apply registered_put
  | |- keeps _ (copy_to_user _ _) => apply registered_copy
  | |- keeps _ (set_world (with_files _ _)) => apply keeps_set; assumption
  | |- keeps _ (set_world (with_procs _ _)) => apply keeps_set; assumption
  | |- keeps _ (get_world ≫= _) => apply keeps_get; intros
  | |- keeps _ (_ ≫= _) => apply keeps_bind; [|intros]
  | |- keeps _ (let '(_, _) := ?p in _) => destruct p
  | |- keeps _ (match ?x with _ => _ end) => destruct x eqn:?
  end.

Section stays.
Context `{MM : Mm} `{H : Hash} `{DR : Driver}.
Variables (walk_fuel : nat) (p : Z).

(** Only a release that [p] itself runs takes [p] out of the table. *)
Definition releases (e : event) : bool := match e with ERelease _ q => q =? p | _ => false end.

Lemma registered_register m q : keeps (registered p) (kunwind_process_register m q).
Proof.
  intros w a w' X E. unfold kunwind_process_register, mbind, P_bind, get_world in E.
  destruct (kunwind_process_find (kunw_map w) q) eqn:E0; [injection E as _ <-; exact X|].
  unfold by_loader in E. destruct (kmalloc KUNW_MAP_VAL_SIZE (w_ld w)) as [[b|] ld| |]; try discriminate.
  injection E as _ <-. apply (registered_add p (mk_world ld (kunw_map w) (procs w) (files w) (uwrites w))); [exact X|exact E0].
Qed.

Lemma registered_open `{K : Kernel} f q c : keeps (registered p) (kunwind_debug_open f q c).
Proof. unfold kunwind_debug_open. keep_registered. apply registered_register. Qed.

Lemma registered_release `{K : Kernel} f q : q <> p -> keeps (registered p) (kunwind_debug_release f q).
Proof.
  intros Hq. unfold kunwind_debug_release, kunwind_process_unregister. keep_registered.
  apply keeps_set, registered_del; assumption.
Qed.

Lemma registered_ioctl `{K : Kernel} f cmd arg regs c : keeps (registered p) (kunwind_debug_ioctl walk_fuel f cmd arg regs c).
Proof.
  unfold kunwind_debug_ioctl, kunwind_proc_info_ioctl, kunwind_init_ioctl, kunwind_backtrace_ioctl, report_backtrace, private_data.
  keep_registered.
Qed.

Lemma registered_handle `{K : Kernel} e : releases e = false -> keeps (registered p) (handle walk_fuel e).
Proof.
  destruct e as [f q c|f q|f cmd arg regs c|q trace regs c]; intros Hr.
  - apply registered_open.
  - apply registered_release. apply Z.eqb_neq, Hr.
  - destruct c; apply registered_ioctl.
  - cbn [handle]. unfold save_stack_trace_kunwind. keep_registered.
Qed.

(** Any operations, by any processes and on any memory, none of them a release by
    [p]. *)
Inductive goes_on : world -> world -> Prop :=
  | GoesOn_refl w : goes_on w w
  | GoesOn_step (K : Kernel) e r w w1 w2 :
      releases e = false -> handle walk_fuel e w = Returns r w1 -> goes_on w1 w2 -> goes_on w w2.

Lemma registered_goes_on w w' : goes_on w w' -> registered p w -> registered p w'.
Proof.
  induction 1 as [|K e r w w1 w2 He E _ IH]; intros R; [exact R|]. apply IH. exact (registered_handle e He w r w1 R E).
Qed.

Lemma registered_busy w f c : registered p w -> kunwind_debug_open f p c w = Returns (- EBUSY) w.
Proof.
  intros [_ L]. unfold kunwind_debug_open, mbind, P_bind, get_world. fold (look w p).
  destruct (look w p); [reflexivity|contradiction].
Qed.
End stays.

(** ** Safety *)

(** Between two operations the memory may become anything. *)
Definition anything (K K' : Kernel) (w : world) (e : event) : Prop := True.

Section safety.
Context `{MM : Mm} `{H : Hash} `{DR : Driver}.
Variable walk_fuel : nat.

Abbreviation safe_inv K h rest w := (inv (K := K) (h_live h) (Sp := fun _ => True) (h_owner h) rest w).

Lemma reachable_safe side ld K h w :
  reachable walk_fuel side ld K h w -> exists rest, safe_inv K h rest w /\ settled (h_live h) w /\ values (h_opens h) (held ld) rest.
Proof.
  apply (reachable_inv walk_fuel side (Sp := fun _ _ => True) (agrees := fun _ _ => True)).
  intros K0 K' w0 e _. split; [|auto]. destruct e; simpl; auto; intros ? *; auto.
Qed.

Lemma wpo_safe (K K' : Kernel) h rest0 rest w e :
  safe_inv K h rest w -> settled (h_live h) w -> values (h_opens h) rest0 rest -> allowed h w e ->
  wpo (handle walk_fuel (K := K') e) w (fun _ _ => True).
Proof.
  intros I S V A. assert (I' : safe_inv K' h rest w).
  { revert I. apply inv_change; [|auto]. intros a mods Ha. rewrite !(settled_flags _ w a mods S Ha). reflexivity. }
  eapply wpo_mono; [apply (wpo_handle walk_fuel (Sp := fun _ _ => True) (agrees := fun _ _ => True) K' h rest0 rest w e I' S V A)|auto].
  destruct e; simpl; auto; intros ? *; auto.
Qed.

(** C13: In every history of allowed operations, where a file is released by the process
    that opened it and its modules were live when they were loaded, whatever the
    memory holds at each operation, the driver
    gives nothing back twice and never touches a structure it has freed; a process
    is registered exactly while it has the file open; and what is held is what the
    structures of the open files own, with one table value for every open that
    ever succeeded: those are never given back. *)
Theorem driver_safe side ld K h w K' e :
  reachable walk_fuel side ld K h w -> allowed h w e ->
  (forall r, handle walk_fuel (K := K') e w <> FreesTwice r) /\ (forall a, handle walk_fuel (K := K') e w <> UsesFreed a) /\
  (forall p, is_Some (look w p) <-> exists f, h_owner h !! f = Some p) /\
  exists vals, length vals = h_opens h /\ held (w_ld w) ≡ₚ structures_own (h_live h) w ++ map Block vals ++ held ld.
Proof.
  intros R A. destruct (reachable_safe _ _ _ _ _ R) as (rest & I & S & V).
  pose proof (wpo_safe K K' h (held ld) rest w e I S V A) as W. unfold wpo in W.
  destruct V as (vals & Hn & ->). split_and!.
  - intros r E. rewrite E in W. exact W.
  - intros a E. rewrite E in W. exact W.
  - intros p. split.
    + intros [v Hv]. exact (i_registered _ _ _ _ I p v Hv).
    + intros [f Hf]. destruct (i_open _ _ _ _ I f p Hf) as (v & Hv & _). eauto.
  - exists vals. split; [exact Hn|]. rewrite <- (settled_owned (K := K)) by exact S. exact (i_held _ _ _ _ I).
Qed.

(** A second open by the same process is refused and changes nothing; the first
    is not refused. *)
Theorem open_once side ld K h w f p c :
  reachable walk_fuel side ld K h w ->
  kunwind_debug_open f p c w = Returns (- EBUSY) w <-> exists g, h_owner h !! g = Some p.
Proof.
  intros R. destruct (reachable_safe _ _ _ _ _ R) as (rest & I & _). split.
  - intros E. destruct (look w p) as [v|] eqn:Hv; [exact (i_registered _ _ _ _ I p v Hv)|]. exfalso.
    unfold kunwind_debug_open, mbind, P_bind, get_world in E. fold (look w p) in E. rewrite Hv in E.
    unfold by_loader, kmalloc in E. destruct (kmalloc_at (w_ld w) PROC_MODULES_SIZE) as [a|]; [|discriminate].
    simpl in E. unfold init_proc_unwind_info in E. destruct (a =? 0).
    + unfold by_loader in E. destruct (kfree _ _); discriminate.
    + simpl in E. destruct (kunwind_process_register _ _ _); discriminate.
  - intros [g Hg]. destruct (i_open _ _ _ _ I g p Hg) as (v & Hv & _).
    unfold kunwind_debug_open, mbind, P_bind, get_world. fold (look w p). rewrite Hv. reflexivity.
Qed.

(** An open of a process that is not registered succeeds when there is memory. *)
Lemma open_succeeds w f p c :
  look w p = None -> (forall s size, kmalloc_at s size <> None) -> exists w', kunwind_debug_open f p c w = Returns 0 w'.
Proof.
  intros Hv M. unfold kunwind_debug_open, mbind, P_bind, get_world. fold (look w p). rewrite Hv.
  unfold by_loader at 1, kmalloc at 1. destruct (kmalloc_at (w_ld w) PROC_MODULES_SIZE) as [a|] eqn:Ea; [|destruct (M _ _ Ea)].
  unfold init_proc_unwind_info. destruct (Z.eqb_spec a 0) as [->|_]; [destruct (kmalloc_fresh _ _ _ Ea); contradiction|].
  unfold write_mods, kunwind_process_register, mbind, P_bind, get_world. cbn [kunw_map with_procs].
  change (kunwind_process_find (kunw_map w) p) with (look w p). rewrite Hv.
  unfold by_loader, kmalloc. cbn [w_ld with_procs].
  destruct (kmalloc_at _ KUNW_MAP_VAL_SIZE) as [b|] eqn:Eb; [|destruct (M _ _ Eb)].
  eexists. reflexivity.
Qed.

(** C38: After a process has closed its file it can open it again: the open succeeds
    when there is memory, and the history goes on from there. *)
Theorem release_reopens ld K h w f p r w' g c :
  reachable walk_fuel anything ld K h w -> h_owner h !! f = Some p -> loaded_live (h_live h) w p ->
  kunwind_debug_release f p w = Returns r w' ->
  delete f (h_owner h) !! g = None -> (forall s size, kmalloc_at s size <> None) ->
  exists h'' w'', kunwind_debug_open g p c w' = Returns 0 w'' /\ reachable walk_fuel anything ld K h'' w'' /\
    h_owner h'' = <[g := p]> (delete f (h_owner h)) /\ h_opens h'' = S (h_opens h).
Proof.
  intros R Hf Hl E Hg M.
  pose proof (ReachStep walk_fuel anything ld K K h w (ERelease f p) r w' R Logic.I (conj Hf Hl) E) as R'.
  destruct (reachable_safe _ _ _ _ _ R) as (rest & I & _), (reachable_safe _ _ _ _ _ R') as (rest' & I' & _).
  destruct (look w' p) as [v|] eqn:Hv.
  { destruct (i_registered _ _ _ _ I' p v Hv) as [f' Hh]. cbn [history_after h_owner owner_after] in Hh. apply lookup_delete_Some in Hh as [Hne Hh].
    destruct Hne. exact (i_owner _ _ _ _ I f f' p Hf Hh). }
  destruct (open_succeeds w' g p c Hv M) as [w'' O].
  eexists _, w''. split; [exact O|]. split; [exact (ReachStep walk_fuel anything ld K K _ w' (EOpen g p c) 0 w'' R' Logic.I Hg O)|].
  split; reflexivity.
Qed.

(** C37: A file released by a process other than the one that opened it, which has a
    file of its own and whose modules were live: the process that releases it loses
    its own structure while its own file stays open, so that its next ioctl uses
    freed memory; and the process that opened the file stays registered, so that its
    next opens give [-EBUSY], whatever any process does meanwhile, until it runs a
    release itself. *)
Theorem foreign_release_frees_other side ld K h w f g p q c :
  reachable walk_fuel side ld K h w -> h_owner h !! f = Some p -> h_owner h !! g = Some q -> f <> g ->
  loaded_live (h_live h) w q ->
  wpo (kunwind_debug_release f q) w (fun _ w' =>
    (exists a, kunwind_init_ioctl walk_fuel g w' = UsesFreed a) /\
    forall w'' n, goes_on walk_fuel p w' w'' -> kunwind_debug_open n p c w'' = Returns (- EBUSY) w'').
Proof.
  intros R Hf Hg Hne Hl. destruct (reachable_safe _ _ _ _ _ R) as (rest & I & S & _).
  destruct (i_open _ _ _ _ I g q Hg) as (v & Hv & Ev), (i_open _ _ _ _ I f p Hf) as (u & Hu & _).
  assert (Hpq : q <> p) by (intros ->; apply Hne; eapply (i_owner _ _ _ _ I); eassumption).
  destruct (i_proc _ _ _ _ I q v Hv) as [mods E]. destruct (i_mods _ _ _ _ I _ mods E) as (Ha & _).
  unfold kunwind_debug_release. wpo_step (wpo_unregister (h_live h)); [exact I|exact Hv|apply loaded_all_live; assumption|].
  intros _ w1 (ld' & _ & ->). apply wpo_get, wpo_set, wpo_ret. split.
  - exists (val_mods v). unfold kunwind_init_ioctl, private_data, mbind, P_bind, get_world, mret, P_ret, read_mods.
    cbn [files procs with_files]. rewrite lookup_delete_ne, Ev by exact Hne.
    destruct (Z.eqb_spec (val_mods v) 0); [contradiction|]. rewrite lookup_delete_eq. reflexivity.
  - intros w'' n G. apply registered_busy. refine (registered_goes_on walk_fuel p _ _ G _).
    apply (registered_del p w q); [split; [apply I|congruence]|exact Hpq].
Qed.
End safety.

(** ** The demo process *)

Definition demo_driver : Driver := {|
  tgid_hash := fun p => p;
  stale_word := fun _ i => 0xDEAD0000 + i;
  put_ok := fun _ _ => true;
  copied := fun _ _ => 0%nat;
  cache_alloc := fun _ i => Some (0xE000 + 0x100 * i)
|}.

Abbreviation demo_handle := (handle (MM := demo_mm) (DR := demo_driver) 10 (K := process_kernel)).

(** The registers of the process in its first function. *)
Definition demo_regs : list Z := fr_regs lib_frame.

Lemma demo_regs_ok : regs_ok demo_regs.
Proof. split; [reflexivity|]. repeat constructor; vm_compute; discriminate. Qed.

(** Computed histories. *)
Definition returns {A} (o : outcome A) : bool := match o with Returns _ _ => true | _ => false end.
Definition world_after {A} (w : world) (o : outcome A) : world := match o with Returns _ w => w | _ => w end.
Definition value_of (o : outcome Z) : Z := match o with Returns r _ => r | _ => 0 end.

Lemma returns_at (o : outcome Z) w : returns o = true -> o = Returns (value_of o) (world_after w o).
Proof. destruct o; [reflexivity|discriminate..]. Qed.

Abbreviation demo_reachable :=
  (reachable (MM := demo_mm) (DR := demo_driver) 10 anything (mk_ld [] 0) process_kernel).

Definition demo_after (h : history) (e : event) (w : world) : history :=
  history_after (K := process_kernel) h e (value_of (demo_handle e w)) (world_after w (demo_handle e w)).

Lemma demo_step h w e :
  demo_reachable h w -> allowed (DR := demo_driver) h w e -> returns (demo_handle e w) = true ->
  demo_reachable (demo_after h e w) (world_after w (demo_handle e w)).
Proof.
  intros R A E. eapply (ReachStep (MM := demo_mm) (DR := demo_driver) 10 anything); [exact R|exact Logic.I|exact A|].
  apply returns_at, E.
Qed.

Definition demo_load_event : event := EIoctl 1 KUNWIND_PROC_INFO_IOCTL 0 demo_regs false.
Definition demo_boot : world := boot (mk_ld [] 0).
Definition demo_opened : world := world_after demo_boot (demo_handle (EOpen 1 100 false) demo_boot).
Definition demo_loaded : world := world_after demo_opened (demo_handle demo_load_event demo_opened).
Definition demo_two : world := world_after demo_loaded (demo_handle (EOpen 2 200 false) demo_loaded).
Definition demo_history1 : history := demo_after no_history (EOpen 1 100 false) demo_boot.
Definition demo_history2 : history := demo_after demo_history1 demo_load_event demo_opened.
Definition demo_history3 : history := demo_after demo_history2 (EOpen 2 200 false) demo_loaded.

Lemma demo_opened_reachable : demo_reachable demo_history1 demo_opened.
Proof. apply demo_step; [constructor|reflexivity|vm_compute; reflexivity]. Qed.

Lemma demo_loaded_reachable : demo_reachable demo_history2 demo_loaded.
Proof.
  apply demo_step; [apply demo_opened_reachable| |vm_compute; reflexivity].
  split; [vm_compute; eauto|apply demo_regs_ok].
Qed.

Lemma demo_two_reachable : demo_reachable demo_history3 demo_two.
Proof. apply demo_step; [apply demo_loaded_reachable|vm_compute; reflexivity|vm_compute; reflexivity]. Qed.

(** The test for live modules. *)
Definition loaded_live_b (live : gmap Z (list bool)) (w : world) (p : Z) : bool :=
  match look (DR := demo_driver) w p with
  | Some v => forallb (fun b => b) (flags live (val_mods v))
  | None => true
  end.

Lemma loaded_live_dec live w p : loaded_live_b live w p = true -> loaded_live (DR := demo_driver) live w p.
Proof.
  unfold loaded_live_b. intros E v Hv. rewrite Hv in E.
  apply Forall_forall. intros b Hin. rewrite forallb_forall in E. apply E, list_elem_of_In, Hin.
Qed.

Lemma driver_safe_witness :
  (forall r, demo_handle (ERelease 1 100) demo_loaded <> FreesTwice r) /\
  (forall a, demo_handle (ERelease 1 100) demo_loaded <> UsesFreed a) /\
  (forall p, is_Some (look (DR := demo_driver) demo_loaded p) <-> exists f, h_owner demo_history2 !! f = Some p) /\
  exists vals, length vals = h_opens demo_history2 /\
    held (w_ld demo_loaded) ≡ₚ structures_own (h_live demo_history2) demo_loaded ++ map Block vals ++ held (mk_ld [] 0).
Proof.
  apply (driver_safe (MM := demo_mm) (DR := demo_driver) 10 anything (mk_ld [] 0) process_kernel demo_history2
    demo_loaded process_kernel (ERelease 1 100)).
  - apply demo_loaded_reachable.
  - split; [vm_compute; reflexivity|]. apply loaded_live_dec. vm_compute. reflexivity.
Defined.

Lemma open_once_witness :
  kunwind_debug_open (MM := demo_mm) (DR := demo_driver) 3 100 false demo_two = Returns (- EBUSY) demo_two <->
  exists g, h_owner demo_history3 !! g = Some 100.
Proof.
  apply (open_once (MM := demo_mm) (DR := demo_driver) 10 anything (mk_ld [] 0) process_kernel).
  apply demo_two_reachable.
Defined.

(** Process 200 releases file 1 of process 100. *)
Lemma foreign_release_frees_other_witness :
  exists w', kunwind_debug_release (DR := demo_driver) 1 200 demo_two = Returns 0 w' /\
    (exists a, kunwind_init_ioctl (K := process_kernel) (MM := demo_mm) 10 2 w' = UsesFreed a) /\
    forall w'' n, goes_on (MM := demo_mm) (DR := demo_driver) 10 100 w' w'' ->
      kunwind_debug_open (MM := demo_mm) (DR := demo_driver) n 100 false w'' = Returns (- EBUSY) w''.
Proof.
  pose proof (foreign_release_frees_other (MM := demo_mm) (DR := demo_driver) 10 anything (mk_ld [] 0)
    process_kernel demo_history3 demo_two 1 2 100 200 false demo_two_reachable
    ltac:(vm_compute; reflexivity) ltac:(vm_compute; reflexivity) ltac:(lia)
    ltac:(apply loaded_live_dec; vm_compute; reflexivity)) as W.
  assert (E : returns (kunwind_debug_release (DR := demo_driver) 1 200 demo_two) = true) by (vm_compute; reflexivity).
  assert (V : value_of (kunwind_debug_release (DR := demo_driver) 1 200 demo_two) = 0) by (vm_compute; reflexivity).
  unfold wpo in W. destruct (kunwind_debug_release 1 200 demo_two) as [r w'|c|r|a]; try discriminate E.
  simpl in V. subst r. exists w'. split; [reflexivity|exact W].
Defined.

(** A memory manager that always has a block: above those that are held. *)
Definition above (l : list resource) : Z :=
  fold_right (fun r m => match r with Block a => Z.max (a + 1) m | _ => m end) 1 l.

Lemma above_fresh l : 0 < above l /\ forall a, Block a ∈ l -> a < above l.
Proof.
  induction l as [|r l [IH1 IH2]]; simpl; [split; [lia|intros a H; inversion H]|].
  split; [destruct r; lia|]. intros a H. apply elem_of_cons in H as [<-|H]; [lia|].
  specialize (IH2 a H). destruct r; lia.
Qed.

Definition roomy_mm : Mm.
Proof.
  refine {|
    mm_mmap := Some [demo_vma]; find_vma := demo_mm.(find_vma); vma_pages := demo_mm.(vma_pages);
    kmalloc_at := fun s _ => Some (above (held s)); stale := demo_mm.(stale);
    gup_at := fun _ => demo_gup; vmap_at := demo_mm.(vmap_at); gup_result := demo_gup_result
  |}.
  intros s _ a [= <-]. destruct (above_fresh (held s)) as [Hp H]. split; [lia|].
  intros Hin. specialize (H _ Hin). lia.
Defined.

Abbreviation roomy_open f w := (kunwind_debug_open (MM := roomy_mm) (DR := demo_driver) f 100 false w).
Abbreviation roomy_reachable :=
  (reachable (MM := roomy_mm) (DR := demo_driver) 10 anything (mk_ld [] 0) process_kernel).
Definition roomy_opened : world := world_after demo_boot (roomy_open 1 demo_boot).
Definition roomy_history : history := history_after (K := process_kernel) no_history (EOpen 1 100 false) 0 roomy_opened.

Lemma roomy_opened_reachable : roomy_reachable roomy_history roomy_opened.
Proof.
  apply (ReachStep (MM := roomy_mm) (DR := demo_driver) 10 anything (mk_ld [] 0) process_kernel process_kernel
    no_history demo_boot (EOpen 1 100 false) 0); [constructor|exact Logic.I|reflexivity|vm_compute; reflexivity].
Qed.

Lemma release_reopens_witness :
  exists w2, kunwind_debug_release (DR := demo_driver) 1 100 roomy_opened = Returns 0 w2 /\
    exists h3 w3, roomy_open 7 w2 = Returns 0 w3 /\ roomy_reachable h3 w3 /\
      h_owner h3 = <[7 := 100]> (delete 1 (h_owner roomy_history)) /\ h_opens h3 = 2%nat.
Proof.
  destruct (kunwind_debug_release (DR := demo_driver) 1 100 roomy_opened) as [r w2| | |] eqn:Er;
    [|exfalso; vm_compute in Er; discriminate..].
  exists w2. split; [f_equal; vm_compute in Er; injection Er; congruence|].
  apply (release_reopens (MM := roomy_mm) (DR := demo_driver) 10 (mk_ld [] 0) process_kernel roomy_history roomy_opened 1 100 r w2 7 false).
  - exact roomy_opened_reachable.
  - reflexivity.
  - apply loaded_live_dec. vm_compute. reflexivity.
  - exact Er.
  - reflexivity.
  - discriminate.
Defined.
