(* ===== verification/ReportSpec.v ===== *)
(** * What a backtrace gives to the user

    [kunwind_backtrace_ioctl] (src/src/kunwind-debug.c) against a walk that starts
    from an array of zeros: what is written to user memory, how much of it, and
    that none of it comes from the block the entries were allocated in. Then, of
    every operation of the driver, that what it writes is the process's own. *)
From S2P Require Import Prelude Machine Regs Rules KModule EhFrameHdrSpec HashTable Cache Step StepSpec StepWf.
From S2P Require Import BacktraceSpec Modules DemoProcess ModulesSpec ProcFile ProcFileSpec.

(** ** The walk does not look at the array *)

Section array.
Context `{K : Kernel} {T : Type} `{FC : !FrameCache T}.
Variables (compat : bool) (alloc : Z -> option Z) (max : Z).

Definition walk_result : Type := C (option Z * unwind_context * kunwind_proc_modules (T := T) * kunwind_backtrace).

(** Two outcomes that differ only in the entries that were not stored. *)
Definition same_walk {R} (x y : C (R * unwind_context * kunwind_proc_modules (T := T) * kunwind_backtrace)) : Prop :=
  match x, y with
  | Ok (r, cx, proc, bt), Ok (r', cx', proc', bt') =>
      r = r' /\ cx = cx' /\ proc = proc' /\
      exists done rest rest', bt = mk_bt max (Z.of_nat (length done)) (Some (done ++ rest)) /\
        bt' = mk_bt max (Z.of_nat (length done)) (Some (done ++ rest'))
  | Crash c, Crash c' => c = c'
  | _, _ => False
  end.

Lemma push_entry_full m n l pc : (length l <= n)%nat ->
  push_entry (mk_bt m (Z.of_nat n) (Some l)) pc = Crash OutOfBounds.
Proof.
  intros H. unfold push_entry. cbn [bt_entries nr_entries]. rewrite Nat2Z.id.
  destruct (Nat.ltb_spec n (length l)); [lia|reflexivity].
Qed.

Lemma unwind_loop_array fuel : forall cx proc done rest rest' ret, length rest = length rest' ->
  same_walk
    (unwind_loop fuel cx proc (mk_bt max (Z.of_nat (length done)) (Some (done ++ rest))) compat alloc ret)
    (unwind_loop fuel cx proc (mk_bt max (Z.of_nat (length done)) (Some (done ++ rest'))) compat alloc ret).
Proof.
  induction fuel as [|fuel IH]; intros cx proc done rest rest' ret E; [reflexivity|].
  cbn [unwind_loop nr_entries max_entries].
  assert (Stop : forall ret : option Z, same_walk
    (Ok (ret, cx, proc, mk_bt max (Z.of_nat (length done)) (Some (done ++ rest))))
    (Ok (ret, cx, proc, mk_bt max (Z.of_nat (length done)) (Some (done ++ rest'))))) by (simpl; eauto 10).
  destruct (_ <? _); [|apply Stop]. destruct (_ =? 0); [apply Stop|].
  destruct rest as [|x rest], rest' as [|x' rest']; try discriminate.
  { rewrite !push_entry_full by (rewrite app_nil_r; lia). reflexivity. }
  rewrite !push_entry_at. cbn [mbind C_bind].
  destruct (unwind_frame _ _ _ _ _) as [[[r f] proc']|c]; [|reflexivity]. cbn [mbind C_bind].
  destruct (r =? 0); [apply IH; simpl in E; lia|]. simpl. eauto 10.
Qed.

Lemma unwind_full_array cx proc l l' n : length l = length l' ->
  same_walk (unwind_full cx proc (mk_bt max n (Some l)) compat alloc)
    (unwind_full cx proc (mk_bt max n (Some l')) compat alloc) \/ max = 0.
Proof.
  intros E. unfold unwind_full. cbn [bt_entries max_entries]. destruct (Z.eqb_spec max 0); [auto|]. left.
  pose proof (unwind_loop_array (S (Z.to_nat max)) cx proc [] l l' None E) as S. simpl app in S.
  change (Z.of_nat (length [])) with 0 in S. unfold same_walk in S.
  destruct (unwind_loop _ _ _ (mk_bt max 0 (Some l)) _ _ _) as [[[[r cx1] proc1] bt1]|c],
    (unwind_loop _ _ _ (mk_bt max 0 (Some l')) _ _ _) as [[[[r' cx2] proc2] bt2]|c']; try contradiction;
    cbn [mbind C_bind]; [|exact S].
  destruct S as (<- & <- & <- & S). destruct r; simpl; auto.
Qed.
End array.

Section report.
Context `{K : Kernel} `{MM : Mm} `{H : Hash} `{DR : Driver}.

(** The walk of the current task on an array of zeros: its result and the program
    counters it stored. *)
Definition walk_current (regs : list Z) (mods : modules) (max : Z) (compat_task : bool) (alloc : Z -> option Z)
    : C (Z * modules * list Z) :=
  '(ret, _, m, bt) ← do_current_unwind regs mods (mk_bt max 0 (Some (replicate (Z.to_nat max) 0))) compat_task alloc;
  Ok (ret, m, match bt_entries bt with Some l => take (Z.to_nat (nr_entries bt)) l | None => [] end).

Lemma walk_current_length regs mods max compat_task alloc ret m pcs :
  0 < max -> walk_current regs mods max compat_task alloc = Ok (ret, m, pcs) -> Z.of_nat (length pcs) <= max.
Proof.
  intros Hm E. unfold walk_current, do_current_unwind, unwind_full in E. cbn [bt_entries max_entries] in E.
  destruct (Z.eqb_spec max 0); [lia|].
  destruct (unwind_loop_walk compat_task alloc max (S (Z.to_nat max))
    (mk_context (arch_unw_init_frame_info (mk_frame (repeat 0 PT_WORDS) 0) regs false false)
       (arch_unw_init_frame_info (mk_frame (repeat 0 PT_WORDS) 0) regs false false)) mods []
    (replicate (Z.to_nat max) 0) None) as (done & cx1 & proc1 & _ & Hl & W);
    rewrite ?length_replicate; simpl length; try lia.
  simpl app in W, E. change (Z.of_nat (length [])) with 0 in W.
  destruct (unwind_loop _ _ _ _ _ _ _) as [[[[r cx] proc] bt]|c]; [|discriminate].
  destruct W as (tail & -> & S). cbn [mbind C_bind] in E. destruct r as [r|]; [|discriminate].
  cbn [mbind C_bind bt_entries nr_entries] in E. injection E as _ _ <-.
  rewrite length_take, length_app. simpl in Hl.
  destruct S as [(-> & _)|(-> & _ & Hlt & _)]; rewrite ?length_app; simpl in *; lia.
Qed.

Lemma P_bind_at {A B} (m : P A) (g : A -> P B) w a w' : m w = Returns a w' -> (m ≫= g) w = g a w'.
Proof. intros E. unfold mbind, P_bind. rewrite E. reflexivity. Qed.

Lemma P_bind_crash {A B} (m : P A) (g : A -> P B) w c : m w = Crashes c -> (m ≫= g) w = Crashes c.
Proof. intros E. unfold mbind, P_bind. rewrite E. reflexivity. Qed.

(** Two computations that agree may be exchanged at either end of a bind. *)
Lemma bind_head {A B} (m m' : P A) (g : A -> P B) w : (forall w, m w = m' w) -> (m ≫= g) w = (m' ≫= g) w.
Proof. intros E. unfold mbind, P_bind. rewrite E. reflexivity. Qed.

Lemma bind_head' {A B} (m : P A) (g g' : A -> P B) w : (forall a w, g a w = g' a w) -> (m ≫= g) w = (m ≫= g') w.
Proof. intros E. unfold mbind, P_bind. destruct (m w); auto. Qed.

Lemma private_at f w a : files w !! f = Some a -> private_data f w = Returns a w.
Proof. intros E. unfold private_data, mbind, P_bind, get_world. rewrite E. reflexivity. Qed.

(** The walk on any array of the right length. *)
Lemma walk_any regs (mods : modules) max compat_task alloc l :
  0 < max -> length (replicate (Z.to_nat max) 0) = length l ->
  same_walk max (do_current_unwind regs mods (mk_bt max 0 (Some (replicate (Z.to_nat max) 0))) compat_task alloc)
    (do_current_unwind regs mods (mk_bt max 0 (Some l)) compat_task alloc).
Proof.
  intros Hm E. unfold do_current_unwind.
  match goal with |- context [unwind_full ?cx mods (mk_bt _ _ (Some l))] =>
    destruct (unwind_full_array compat_task alloc max cx mods _ l 0 E); [assumption|lia]
  end.
Qed.

Lemma walk_stale regs mods max compat_task alloc l ret m pcs :
  0 < max -> length (replicate (Z.to_nat max) 0) = length l ->
  walk_current regs mods max compat_task alloc = Ok (ret, m, pcs) ->
  exists cx rest, do_current_unwind regs mods (mk_bt max 0 (Some l)) compat_task alloc =
    Ok (ret, cx, m, mk_bt max (Z.of_nat (length pcs)) (Some (pcs ++ rest))).
Proof.
  intros Hm E Ew. pose proof (walk_any regs mods max compat_task alloc l Hm E) as S. unfold walk_current in Ew.
  destruct (do_current_unwind _ _ (mk_bt max 0 (Some (replicate _ _))) _ _) as [[[[r cx] proc] bt]|c]; [|discriminate].
  destruct (do_current_unwind _ _ (mk_bt max 0 (Some l)) _ _) as [[[[r' cx'] proc'] bt']|c]; [|destruct S].
  destruct S as (<- & <- & <- & done & rest & rest' & -> & ->).
  cbn [mbind C_bind bt_entries nr_entries] in Ew. rewrite Nat2Z.id, take_app_length in Ew.
  injection Ew as <- <- <-. eauto.
Qed.

Lemma walk_stale_crash regs mods max compat_task alloc l c :
  0 < max -> length (replicate (Z.to_nat max) 0) = length l ->
  walk_current regs mods max compat_task alloc = Crash c ->
  do_current_unwind regs mods (mk_bt max 0 (Some l)) compat_task alloc = Crash c.
Proof.
  intros Hm E Ew. pose proof (walk_any regs mods max compat_task alloc l Hm E) as S. unfold walk_current in Ew.
  destruct (do_current_unwind _ _ (mk_bt max 0 (Some (replicate _ _))) _ _) as [[[[r cx] proc] bt]|c0]; [discriminate|].
  destruct (do_current_unwind _ _ (mk_bt max 0 (Some l)) _ _) as [[[[r' cx'] proc'] bt']|c1]; [destruct S|].
  cbn [mbind C_bind] in Ew. simpl in S. congruence.
Qed.

(** What is written: the number of entries, then the entries where the user's
    structure says. *)
Definition report (uback : Z) (pcs : list Z) (w : world) : outcome Z :=
  (ok ← put_user (u64 (uback + 4)) (le_bytes 4 (Z.of_nat (length pcs)));
   if (ok : bool) then
     dest ← by_memory (load 8 (u64 (uback + 8)));
     ok ← copy_to_user dest (concat (map (le_bytes 8) pcs));
     mret (if (ok : bool) then 0 else - EFAULT)
   else mret (- EFAULT)) w.

Lemma backtrace_ioctl_at f uback regs compat_task w a mods max entries :
  files w !! f = Some a -> a <> 0 -> procs w !! a = Some mods ->
  _stp_read_address 4 4 uback USER_DS = Some max -> 0 < max ->
  kmalloc_at (w_ld w) (8 * Z.min max entries_limit) = Some entries ->
  let n := Z.min max entries_limit in
  let ld := mk_ld (Block entries :: held (w_ld w)) (S (clock (w_ld w))) in
  match walk_current regs mods n compat_task (cache_alloc (S (clock (w_ld w)))) with
  | Crash c => kunwind_backtrace_ioctl f uback regs compat_task w = Crashes c
  | Ok (ret, m, pcs) =>
    (length pcs <= 128)%nat /\ Z.of_nat (length pcs) <= max /\
    kunwind_backtrace_ioctl f uback regs compat_task w =
      (r ← (fun w => if ret =? 0 then report uback pcs w else Returns (- EFAULT) w);
       _ ← by_loader (kfree entries); mret r)
        (mk_world ld (kunw_map w) (<[a := m]> (procs w)) (files w) (uwrites w))
  end.
Proof.
  intros Hf Ha Hm Hmax Hpos Hk n ld. unfold kunwind_backtrace_ioctl.
  assert (Hn : 0 < n <= 128) by (unfold n, entries_limit; lia).
  rewrite (P_bind_at _ _ w a w) by (apply private_at, Hf).
  rewrite Hmax. destruct (Z.eqb_spec max 0); [lia|]. fold n. fold n in Hk. cbv zeta.
  set (w1 := mk_world ld (kunw_map w) (procs w) (files w) (uwrites w)).
  rewrite (P_bind_at _ _ w (Some entries) w1) by (unfold by_loader, kmalloc; rewrite Hk; reflexivity).
  rewrite (P_bind_at _ _ w1 mods w1)
    by (unfold read_mods; destruct (Z.eqb_spec a 0); [contradiction|]; cbn [procs w1]; rewrite Hm; reflexivity).
  rewrite (P_bind_at _ _ w1 w1 w1) by reflexivity. cbn [w_ld w1 clock ld].
  set (alloc := cache_alloc (S (clock (w_ld w)))).
  set (l := stale_entries entries n). set (l0 := replicate (Z.to_nat n) 0).
  assert (E : length l0 = length l) by (unfold l, l0, stale_entries; rewrite length_replicate, length_map, length_seq; reflexivity).
  destruct (walk_current regs mods n compat_task alloc) as [[[ret m] pcs]|c] eqn:Ew.
  - pose proof (walk_current_length _ _ _ _ _ _ _ _ (proj1 Hn) Ew) as Hlen.
    split; [lia|]. split; [unfold n in Hlen; lia|].
    destruct (walk_stale regs mods n compat_task alloc l ret m pcs (proj1 Hn) E Ew) as (cx & rest & Eu).
    rewrite (P_bind_at _ _ w1 (ret, cx, m, mk_bt n (Z.of_nat (length pcs)) (Some (pcs ++ rest))) w1)
      by (unfold by_memory; rewrite Eu; reflexivity).
    rewrite (P_bind_at _ _ w1 tt (with_procs w1 (<[a := m]> (procs w1)))) by reflexivity.
    apply bind_head. intros w2. destruct (ret =? 0); [|reflexivity]. cbn [negb].
    unfold report, report_backtrace. cbn [nr_entries bt_entries]. rewrite Nat2Z.id, take_app_length.
    apply bind_head'. intros ok w3. destruct ok; reflexivity.
  - rewrite (P_bind_crash _ _ w1 c); [reflexivity|]. unfold by_memory.
    rewrite (walk_stale_crash regs mods n compat_task alloc l c (proj1 Hn) E Ew). reflexivity.
Qed.

End report.

(** ** Nothing of the kernel is written

    [emits l Q m]: from a world in which what was written to user memory is [l]
    followed by writes that satisfy [Q], [m] leads to such a world. *)

Definition extra (l : list (Z * list Z)) (Q : Z * list Z -> Prop) (w : world) : Prop :=
  exists news, uwrites w = l ++ news /\ Forall Q news.
Definition emits {A} (l : list (Z * list Z)) (Q : Z * list Z -> Prop) (m : P A) : Prop := keeps (extra l Q) m.

Section emits.
Context {l : list (Z * list Z)} {Q : Z * list Z -> Prop}.

Lemma emits_ret {A} (a : A) : emits l Q (mret a).
Proof. apply keeps_ret. Qed.

Lemma emits_bind {A B} (m : P A) (f : A -> P B) :
  emits l Q m -> (forall a, (exists w w', m w = Returns a w') -> emits l Q (f a)) -> emits l Q (m ≫= f).
Proof. apply keeps_bind. Qed.

Lemma emits_get {B} (f : world -> P B) : (forall w, extra l Q w -> emits l Q (f w)) -> emits l Q (get_world ≫= f).
Proof. apply keeps_get. Qed.

Lemma emits_set w : extra l Q w -> emits l Q (set_world w).
Proof. apply keeps_set. Qed.

Lemma emits_loader {A} (m : L A) : emits l Q (by_loader m).
Proof. intros w a w' X E. unfold by_loader in E. destruct (m (w_ld w)); try discriminate. injection E as <- <-. exact X. Qed.

Lemma emits_memory {A} (m : C A) : emits l Q (by_memory m).
Proof. apply keeps_memory. Qed.

Lemma emits_crash {A} c : emits l Q (crashes (A := A) c).
Proof. apply keeps_crash. Qed.

Lemma emits_read a : emits l Q (read_mods a).
Proof. apply keeps_read. Qed.

Lemma emits_write a m : emits l Q (write_mods a m).
Proof. intros w b w' X [= <- <-]. exact X. Qed.

Lemma emits_put `{DR : Driver} a bytes : Q (a, bytes) -> emits l Q (put_user a bytes).
Proof.
  intros HQ w b w' (news & E & F) Ep. unfold put_user in Ep. destruct (put_ok _ _); injection Ep as <- <-; [|exists news; auto].
  exists (news ++ [(a, bytes)]). split; [cbn [uwrites written]; rewrite E, app_assoc; reflexivity|].
  apply Forall_app. split; [exact F|]. constructor; [exact HQ|constructor].
Qed.

Lemma emits_copy `{DR : Driver} a bytes : (forall k, Q (a, take k bytes)) -> emits l Q (copy_to_user a bytes).
Proof.
  intros HQ w b w' (news & E & F) Ep.
  assert (exists k, w' = written w a (take k bytes)) as [k ->].
  { unfold copy_to_user in Ep. destruct (put_ok _ _); injection Ep as _ <-; [|eauto].
    exists (length bytes). rewrite firstn_all. reflexivity. }
  exists (news ++ [(a, take k bytes)]). split; [cbn [uwrites written]; rewrite E, app_assoc; reflexivity|].
  apply Forall_app. split; [exact F|]. constructor; [apply HQ|constructor].
Qed.
End emits.

Ltac emit := repeat match goal with
  | |- forall _, _ => intros
  | |- emits _ _ (mret _) => apply emits_ret
  | |- emits _ _ (crashes _) => apply emits_crash
  | |- emits _ _ (by_loader _) => apply emits_loader
  | |- emits _ _ (by_memory _) => apply emits_memory
  | |- emits _ _ (read_mods _) => apply emits_read
  | |- emits _ _ (write_mods _ _) => apply emits_write
  | |- emits _ _ (set_world _) => apply emits_set; assumption
  | |- emits _ _ (get_world ≫= _) => apply emits_get; intros
  | |- emits _ _ (_ ≫= _) => apply emits_bind; [|intros]
  | |- emits _ _ (let '(_, _) := ?p in _) => destruct p
  | |- emits _ _ (match ?x with _ => _ end) => destruct x
  end.

Section shown.
Context `{K : Kernel} `{MM : Mm} `{H : Hash} `{DR : Driver}.
Variable walk_fuel : nat.

(** The two frames a backtrace of the current task starts from: both are its
    registers. *)
Definition start_context (regs : list Z) : unwind_context :=
  let zero := mk_frame (repeat 0 PT_WORDS) 0 in
  mk_context (arch_unw_init_frame_info zero regs false false) (arch_unw_init_frame_info zero regs false false).

(** A write of the number of program counters, or of the program counters or the
    first bytes of them, when the copy fails, of a backtrace that shows nothing but
    registers and memory of the process. *)
Definition shown (regs : list Z) (compat_task : bool) (u : Z * list Z) : Prop := exists pcs,
  (length pcs <= 128)%nat /\ Forall (reported compat_task (start_context regs)) pcs /\
  (snd u = le_bytes 4 (Z.of_nat (length pcs)) \/ exists k, snd u = take k (concat (map (le_bytes 8) pcs))).

Lemma current_reported regs m compat_task alloc max entries r cx m' bt : regs_ok regs -> 0 < max <= 128 ->
  do_current_unwind regs m (mk_bt max 0 (Some (stale_entries entries max))) compat_task alloc = Ok (r, cx, m', bt) ->
  exists pcs, nr_entries bt = Z.of_nat (length pcs) /\
    match bt_entries bt with Some l => take (Z.to_nat (nr_entries bt)) l | None => [] end = pcs /\
    (length pcs <= 128)%nat /\ Forall (reported compat_task (start_context regs)) pcs.
Proof.
  intros [Hl Hr] Hm E.
  assert (Hlen : length (stale_entries entries max) = Z.to_nat max)
    by (unfold stale_entries; rewrite length_map, length_seq; reflexivity).
  destruct (backtrace_reports_user_words compat_task alloc (start_context regs) m
    (mk_bt max 0 (Some (stale_entries entries max))) (stale_entries entries max) r cx m' bt)
    as (pcs & Eb & En & Hn & F).
  - split_and!; [exact Hl|exact Hr|simpl; lia..].
  - reflexivity.
  - cbn [max_entries]. lia.
  - exact E.
  - exists pcs. cbn [max_entries] in Hn. rewrite En, Eb, Nat2Z.id, take_app_length. split_and!; [reflexivity|reflexivity|lia|exact F].
Qed.

Lemma emits_backtrace l f uback regs compat_task : regs_ok regs ->
  emits l (shown regs compat_task) (kunwind_backtrace_ioctl f uback regs compat_task).
Proof.
  intros Hr. unfold kunwind_backtrace_ioctl. apply emits_bind; [unfold private_data; emit|]. intros mods _.
  destruct (_stp_read_address 4 4 uback USER_DS) as [max|] eqn:Em; [|emit].
  assert (0 <= max).
  { unfold _stp_read_address in Em. destruct (access_ok _ _ _); [|discriminate]. destruct (get_user _ _) as [v|]; [|discriminate].
    injection Em as <-. apply Z.mod_pos_bound. lia. }
  destruct (Z.eqb_spec max 0); [emit|]. cbv zeta. apply emits_bind; [emit|]. intros [entries|] _; [|emit].
  apply emits_bind; [emit|]. intros m _. apply emits_get. intros w _.
  apply emits_bind; [emit|]. intros [[[ret cx] m'] bt] (w1 & w2 & Eu).
  unfold by_memory in Eu. destruct (do_current_unwind _ _ _ _ _) as [x|] eqn:Ed; [|discriminate]. injection Eu as -> _.
  destruct (current_reported regs m compat_task _ (Z.min max entries_limit) entries ret cx m' bt Hr ltac:(unfold entries_limit; lia) Ed)
    as (pcs & En & Et & Hn & F).
  apply emits_bind; [emit|]. intros _ _. apply emits_bind; [|emit]. destruct (negb _); [emit|].
  unfold report_backtrace. cbv zeta. rewrite Et, En.
  apply emits_bind; [apply emits_put; exists pcs; auto|]. intros ok _. destruct (negb ok); [emit|].
  apply emits_bind; [emit|]. intros dest _. apply emits_bind; [apply emits_copy; intros k; exists pcs; eauto|]. emit.
Qed.

Lemma emits_open l Q f p c : emits l Q (kunwind_debug_open f p c).
Proof. unfold kunwind_debug_open, kunwind_process_register. emit. Qed.

Lemma emits_release l Q f p : emits l Q (kunwind_debug_release f p).
Proof. unfold kunwind_debug_release, kunwind_process_unregister. emit. Qed.

Lemma emits_proc_info l Q f upinfo : emits l Q (kunwind_proc_info_ioctl walk_fuel f upinfo).
Proof. unfold kunwind_proc_info_ioctl, kunwind_init_ioctl, private_data. emit. Qed.

Lemma emits_trace l Q p trace regs c : emits l Q (save_stack_trace_kunwind p trace regs c).
Proof. unfold save_stack_trace_kunwind. emit. Qed.

(** C5: What the driver shows of the kernel: nothing. Whatever state it is in, whatever the memory
    and the tables hold, an operation that returns has written to user memory only
    the number of the program counters of a backtrace and these, at most 128, each
    of which is a register the process had, a word that was read from its memory
    within its limit, or the address before one; and only an ioctl writes. *)
Theorem driver_shows_user_words e w r w' :
  (match e with EIoctl _ _ _ regs _ => regs_ok regs | _ => True end) ->
  handle walk_fuel e w = Returns r w' ->
  exists news, uwrites w' = uwrites w ++ news /\
    match e with EIoctl _ _ _ regs c => Forall (shown regs c) news | _ => news = [] end.
Proof.
  intros Hr E.
  assert (X : forall Q, extra (uwrites w) Q w) by (intros Q; exists []; rewrite app_nil_r; auto).
  assert (N : forall m : P Z, emits (uwrites w) (fun _ => False) m -> m w = Returns r w' -> exists news, uwrites w' = uwrites w ++ news /\ news = []).
  { intros m Hm Em. destruct (Hm w r w' (X _) Em) as (news & En & F). exists news. split; [exact En|]. destruct F; [reflexivity|contradiction]. }
  destruct e as [f p c|f p|f cmd arg regs c|p trace regs c].
  - exact (N _ (emits_open _ _ f p c) E).
  - exact (N _ (emits_release _ _ f p) E).
  - refine ((_ : emits (uwrites w) (shown regs c) (kunwind_debug_ioctl walk_fuel f cmd arg regs c)) w r w' (X _) _).
    + unfold kunwind_debug_ioctl. destruct (_ =? _); [apply emits_proc_info|]. destruct (_ =? _); [apply emits_backtrace, Hr|apply emits_ret].
    + destruct c; exact E.
  - refine (N (handle walk_fuel (ETrace p trace regs c)) _ E). apply emits_bind; [apply emits_trace|]. intros; apply emits_ret.
Qed.
End shown.

(** ** The end of a stack *)

Section end_of_stack.
Context `{K : Kernel} {T : Type} `{FC : !FrameCache T}.

Lemma mod_lookup_outside pc mods :
  (forall m, m ∈ mods -> vm_end (elf_vma m) < pc) -> kunw_mod_lookup pc mods = None.
Proof.
  induction mods as [|m mods IH]; intros Hm; [reflexivity|]. simpl.
  pose proof (Hm m ltac:(left)). destruct (Z.leb_spec pc (vm_end (elf_vma m))); [lia|].
  rewrite andb_false_r. apply IH. intros x Hx. apply Hm. right. exact Hx.
Qed.

(** A caller whose return address is 0, the mark of the end of a stack, is not
    recognised: one byte below 0 is the last address, so that the walk stores that
    address and fails. *)
Theorem zero_return_address_fails cx (proc : kunwind_proc_modules (T := T)) bt x l compat_task alloc :
  UNW_PC (cx_info cx) = 0 -> call_frame (cx_info cx) = 1 ->
  (forall m, m ∈ stp_modules proc -> vm_end (elf_vma m) < 2 ^ 64 - 1) ->
  bt_entries bt = Some (x :: l) -> 0 < max_entries bt ->
  unwind_full cx proc bt compat_task alloc =
    Ok (- EINVAL, cx, proc, mk_bt (max_entries bt) 1 (Some ((2 ^ 64 - 1) :: l))).
Proof.
  intros Hpc Hc Hm Hb Hmax. unfold unwind_full. rewrite Hb. destruct (Z.eqb_spec (max_entries bt) 0); [lia|].
  cbn [unwind_loop nr_entries max_entries]. destruct (Z.ltb_spec 0 (max_entries bt)); [|lia].
  assert (G : get_pc (cx_info cx) = 2 ^ 64 - 1) by (unfold get_pc; rewrite Hpc, Hc; reflexivity).
  rewrite G. change (2 ^ 64 - 1 =? 0) with false. cbv iota.
  change (push_entry (mk_bt (max_entries bt) 0 (Some (x :: l))) (2 ^ 64 - 1))
    with (@Ok kunwind_backtrace (mk_bt (max_entries bt) 1 (Some ((2 ^ 64 - 1) :: l)))).
  cbn [mbind C_bind]. unfold unwind_frame. rewrite G. change (2 ^ 64 - 1 =? 0) with false. cbn [orb negb].
  rewrite mod_lookup_outside by exact Hm. cbn [mbind C_bind]. unfold EINVAL. cbn [Z.opp Z.eqb].
  destruct cx. reflexivity.
Qed.
End end_of_stack.

(** ** The demo process *)

(** The modules of process 100 after it has loaded them. *)
Definition demo_proc_modules : modules :=
  match procs demo_loaded !! 0xA000 with Some mods => mods | None => mk_mods [] empty_cache 0 end.

Lemma demo_proc_at : procs demo_loaded !! 0xA000 = Some demo_proc_modules.
Proof.
  unfold demo_proc_modules. destruct (procs demo_loaded !! 0xA000) eqn:E; [reflexivity|].
  vm_compute in E. discriminate.
Qed.

Abbreviation demo_walk := (walk_current (K := process_kernel) demo_regs demo_proc_modules 2 false
  (cache_alloc (Driver := demo_driver) (S (clock (w_ld demo_loaded))))).
Abbreviation demo_report := (kunwind_backtrace_ioctl (K := process_kernel) (MM := demo_mm) (DR := demo_driver)
  1 0x7000 demo_regs false demo_loaded).

Lemma demo_walk_ok : match demo_walk with Ok (r, _, _) => r =? 0 | Crash _ => false end = true.
Proof. vm_compute. reflexivity. Qed.
Lemma demo_report_returns : returns demo_report = true.
Proof. vm_compute. reflexivity. Qed.
Lemma demo_report_value : value_of demo_report = 0.
Proof. vm_compute. reflexivity. Qed.
Lemma demo_report_writes : uwrites (world_after demo_loaded demo_report) =
  [(0x7004, le_bytes 4 2); (0x7100, le_bytes 8 0x401011 ++ le_bytes 8 0x40105F)].
Proof. vm_compute. reflexivity. Qed.
Lemma demo_entries_at : kmalloc_at (Mm := demo_mm) (w_ld demo_loaded) (8 * Z.min 2 entries_limit) =
  Some (0xA000 + 0x100 * Z.of_nat (clock (w_ld demo_loaded))).
Proof. vm_compute. reflexivity. Qed.


Lemma ends_below (l : list kunwind_module) b :
  forallb (fun m => vm_end (elf_vma m) <? b) l = true -> forall m, m ∈ l -> vm_end (elf_vma m) < b.
Proof. rewrite forallb_forall. intros H m Hm. apply list_elem_of_In, H in Hm. lia. Qed.

Lemma zero_return_address_fails_witness :
  let cx := mk_context (mk_frame (repeat 0 PT_WORDS) 1) (mk_frame (repeat 0 PT_WORDS) 1) in
  unwind_full (K := process_kernel) cx demo_proc_modules (mk_bt 2 0 (Some [0; 0])) false (fun _ => None) =
    Ok (- EINVAL, cx, demo_proc_modules, mk_bt 2 1 (Some [2 ^ 64 - 1; 0])).
Proof.
  apply (zero_return_address_fails (K := process_kernel)
    (mk_context (mk_frame (repeat 0 PT_WORDS) 1) (mk_frame (repeat 0 PT_WORDS) 1)) demo_proc_modules
    (mk_bt 2 0 (Some [0; 0])) 0 [0] false (fun _ => None)); try reflexivity.
  apply ends_below. vm_compute. reflexivity.
Defined.

(** The backtrace of the loaded process: what is written is shown. *)
Definition demo_unwind : event := EIoctl 1 KUNWIND_UNWIND_IOCTL 0x7000 demo_regs false.

Lemma driver_shows_user_words_witness : exists w',
  demo_handle demo_unwind demo_loaded = Returns 0 w' /\
  Forall (shown (K := process_kernel) demo_regs false)
    [(0x7004, le_bytes 4 2); (0x7100, le_bytes 8 0x401011 ++ le_bytes 8 0x40105F)].
Proof.
  set (w' := world_after demo_loaded demo_report).
  assert (E : demo_handle demo_unwind demo_loaded = Returns 0 w').
  { change (demo_handle demo_unwind demo_loaded) with demo_report.
    rewrite (returns_at demo_report demo_loaded demo_report_returns) at 1. rewrite demo_report_value. reflexivity. }
  exists w'. split; [exact E|].
  destruct (driver_shows_user_words (K := process_kernel) (MM := demo_mm) (DR := demo_driver) 10 demo_unwind demo_loaded 0 w'
    demo_regs_ok E) as (news & En & F). cbn [demo_unwind] in F.
  assert (news = uwrites w') as ->.
  { rewrite En. change (uwrites demo_loaded) with (@nil (Z * list Z)). reflexivity. }
  unfold w' in F. rewrite demo_report_writes in F. exact F.
Defined.
