(* ===== verification/StackSpec.v ===== *)
(** * The backtrace of a stack

    A stack whose frames are described by the debug information of the modules, as
    an inductive definition on top of the abstract DWARF machine, and the walk of
    [unwind_full] (src/src/unwind.c) over it, from the bytes of the modules to the
    array of program counters; with the invariant of the frame cache that makes
    repeated program counters safe. *)
From S2P Require Import Prelude Machine Leb128 EncodedPtr Regs Rules Cfi CfiSpec Expr KModule.
From S2P Require Import FdeCie FdeCieSpec EhFrameHdr EhFrameHdrSpec Cache Step StepSpec StepWf BacktraceSpec UnwindSpec.
From S2P Require Import Modules DemoProcess.

(** ** What the cache holds *)

Section sound.
Context `{K : Kernel} {T : Type} `{FC : !FrameCache T}.
Variable compat : bool.

(** The rules the code derives for a program counter: the parsed entry and the
    state its instructions leave. *)
Definition rules_at (mods : list kunwind_module) (pc : Z) : C (option (parsed * unwind_state)) :=
  match kunw_mod_lookup pc mods with
  | None => Ok None
  | Some m =>
    if (sec_size (ehf m) =? 0) || flag (sec_size (ehf m)) 3 then Ok None
    else
      l ← locate_fde pc m compat;
      match l with
      | Decided _ => Ok None
      | Located p startLoc endLoc =>
        s ← run_cie_fde pc p startLoc endLoc compat; Ok (option_map (pair p) s)
      end
  end.

(** Every entry of the cache is what the debug information gives for its program
    counter. *)
Definition cache_sound (proc : kunwind_proc_modules (T := T)) : Prop :=
  fc_inv (mods_cache proc) /\ forall pc entry,
  fc_find (mods_cache proc) pc = Some entry ->
  exists p st, rules_at (stp_modules proc) pc = Ok (Some (p, st)) /\
    check_standard_frame st = true /\ entry = standard_entry pc st (p_retAddrReg p).

Lemma cache_sound_add (proc : kunwind_proc_modules) pc p st alloc :
  cache_sound proc ->
  rules_at (stp_modules proc) pc = Ok (Some (p, st)) -> check_standard_frame st = true ->
  cache_sound (set_cache proc (fc_add (mods_cache proc) (standard_entry pc st (p_retAddrReg p)) alloc)).
Proof.
  intros [Hi S] R Hst. split; [apply fc_add_inv, Hi|]. intros pc' entry E. simpl in *. rewrite fc_find_add in E by exact Hi.
  destruct (fc_find (mods_cache proc) pc') as [g|] eqn:Eg; [injection E as <-; apply S, Eg|].
  destruct (decide _) as [->|]; [|discriminate]. destruct alloc; [|discriminate]. injection E as <-. eauto.
Qed.

Lemma rules_at_step mods pc m p sl el st :
  kunw_mod_lookup pc mods = Some m -> (sec_size (ehf m) =? 0) || flag (sec_size (ehf m)) 3 = false ->
  locate_fde pc m compat = Ok (Located p sl el) -> run_cie_fde pc p sl el compat = Ok (Some st) ->
  rules_at mods pc = Ok (Some (p, st)).
Proof.
  intros Hm Hs Hl Hr. unfold rules_at. rewrite Hm, Hs, Hl. cbn [mbind C_bind]. rewrite Hr. reflexivity.
Qed.

Lemma unwind_frame_sound cx user (proc : kunwind_proc_modules) alloc r f proc' :
  cache_sound proc -> unwind_frame cx user proc compat alloc = Ok (r, f, proc') -> cache_sound proc'.
Proof.
  intros S E. unfold unwind_frame in E.
  destruct (_ || _) in E; [injection E as _ _ <-; exact S|].
  destruct (kunw_mod_lookup _ _) as [m|] eqn:Em; [|injection E as _ _ <-; exact S].
  unfold __unwind_frame in E. change (u64 (UNW_PC (cx_info cx) - call_frame (cx_info cx))) with (get_pc (cx_info cx)) in E.
  destruct (_ || _) eqn:Es in E; [injection E as _ _ <-; exact S|].
  destruct (fc_find _ _).
  { apply bind_Ok in E as ([g ok] & _ & E). injection E as _ _ <-. exact S. }
  apply bind_Ok in E as (l & El & E). destruct l as [ret|p sl el]; [injection E as _ _ <-; exact S|].
  apply bind_Ok in E as ([st|] & Er & E); [|injection E as _ _ <-; exact S].
  pose proof (rules_at_step _ _ m p sl el st Em Es El Er) as R.
  destruct (check_standard_frame st) eqn:Hst.
  - pose proof (cache_sound_add proc (get_pc (cx_info cx)) p st alloc S R Hst) as S'.
    apply bind_Ok in E as ([g ok] & _ & E). destruct ok; [injection E as _ _ <-; exact S'|].
    apply bind_Ok in E as ([r' f'] & _ & E). injection E as _ _ <-. exact S'.
  - apply bind_Ok in E as ([r' f'] & _ & E). injection E as _ _ <-. exact S.
Qed.

Lemma loop_sound fuel : forall cx (proc : kunwind_proc_modules) bt alloc ret r cx' proc' bt',
  cache_sound proc ->
  unwind_loop fuel cx proc bt compat alloc ret = Ok (r, cx', proc', bt') -> cache_sound proc'.
Proof.
  induction fuel as [|fuel IH]; intros cx proc bt alloc ret r cx' proc' bt' S E; [discriminate|].
  cbn [unwind_loop] in E.
  destruct (_ <? _); [|injection E as _ _ <- _; exact S].
  destruct (_ =? 0); [injection E as _ _ <- _; exact S|].
  apply bind_Ok in E as (bt1 & _ & E). apply bind_Ok in E as ([[r1 f] proc1] & Ef & E).
  pose proof (unwind_frame_sound _ _ _ _ _ _ _ S Ef) as S1.
  destruct (r1 =? 0); [|injection E as _ _ <- _; exact S1].
  eapply IH; eassumption.
Qed.
End sound.

Section stack.
Context `{K : Kernel}.

(** ** Frames the debug information describes *)

(** The row for [pc]: a module, an entry of its table and what its instructions
    define, for an entry with the return address in column 16; [c] is 1 for the
    frame of a call and 0 for the frame of a signal. *)
Inductive described (mods : list kunwind_module) (pc : Z) : Z -> row -> Prop :=
  | described_by m eh_rel entries e cie E d :
      kunw_mod_lookup pc mods = Some m -> hdr_loaded m eh_rel entries -> covers m entries pc e ->
      entry_loaded m (fde_of m e) cie E -> e_ra E = UNW_PC_IDX ->
      e_start_loc m (fde_of m e) E <> 0 -> pc <= e_end_loc m (fde_of m e) E ->
      dwarf_at pc m (fde_of m e) cie E = Some d -> d_loc d <= e_end_loc m (fde_of m e) E ->
      described mods pc (snd (e_effect E)) (d_row d).

(** The frame of the caller, with its call-frame bit. A program counter that is a
    return address is looked up one byte lower, when the bit says so: [get_pc]. *)
Definition caller_of (bit : Z) (rw : row) (f : unwind_frame_info) : option unwind_frame_info :=
  '(pc, sp, bp) ← caller_frame false rw f;
  Some (set_word (set_word (set_word (set_call_frame f bit) PT_BP bp) PT_SP sp) PT_IP pc).

(** The bit a step leaves. It comes from the entry of the frame when its rules are
    looked up, and stays as it was when they are in the cache: [cached] are the
    program counters that are there for sure, and those that may be there have been
    [visited]. *)
Definition leaves_bit (cached : Z -> Prop) (visited : list Z) (f : unwind_frame_info) (c bit : Z) : Prop :=
  (bit = c /\ (call_frame f = c \/ ~ cached (get_pc f) /\ get_pc f ∉ visited)) \/
  (bit = call_frame f /\ cached (get_pc f)).

(** The frames from [f] on, and their program counters as a backtrace shows them:
    each frame is described by a standard row and its caller can be read, up to
    one whose return address is undefined. *)
Inductive stack (mods : list kunwind_module) (cached : Z -> Prop) : list Z -> unwind_frame_info -> list Z -> Prop :=
  | stack_outermost visited f c rw :
      get_pc f <> 0 -> described mods (get_pc f) c rw -> rule_of rw UNW_PC_IDX = RUndefined ->
      stack mods cached visited f [get_pc f]
  | stack_caller visited f c bit rw f' pcs :
      get_pc f <> 0 -> described mods (get_pc f) c rw -> standard_row rw ->
      leaves_bit cached visited f c bit -> caller_of bit rw f = Some f' ->
      stack mods cached (get_pc f :: visited) f' pcs -> stack mods cached visited f (get_pc f :: pcs).

(** The cached program counters matter only as a set. *)
Lemma stack_same_cached mods (cached cached' : Z -> Prop) visited f pcs :
  (forall pc, cached pc <-> cached' pc) -> stack mods cached visited f pcs -> stack mods cached' visited f pcs.
Proof.
  intros E S. induction S as [visited f c rw Hpc Hd Hu|visited f c bit rw f' pcs Hpc Hd Hrow Hb Hc _ IH].
  - eapply stack_outermost; eassumption.
  - eapply stack_caller; try eassumption. unfold leaves_bit in *. rewrite <- !(E (get_pc f)). exact Hb.
Qed.

Lemma effect_bit E : 0 <= snd (e_effect E) <= 1.
Proof.
  unfold e_effect. assert (H : 0 <= snd (DW_EH_PE_absptr, 1) <= 1) by (simpl; lia).
  revert H. generalize (DW_EH_PE_absptr, 1). induction (e_augs E) as [|a l IH]; intros x H; [exact H|].
  simpl. apply IH. destruct a; simpl; try exact H. lia.
Qed.

Lemma described_rules mods pc c rw :
  described mods pc c rw ->
  exists p st m sl el, rules_at false mods pc = Ok (Some (p, st)) /\
    kunw_mod_lookup pc mods = Some m /\ (sec_size (ehf m) =? 0) || flag (sec_size (ehf m)) 3 = false /\
    locate_fde pc m false = Ok (Located p sl el) /\ run_cie_fde pc p sl el false = Ok (Some st) /\
    p_retAddrReg p = UNW_PC_IDX /\ p_call_frame p = c /\ 0 <= c <= 1 /\ wf_state st /\ abs_row (REG_STATE st) = rw.
Proof.
  intros [m eh_rel entries e cie E d Hm LH (i & Ei & Hle & Hn) L Hra Hnz Hend Hd Hloc].
  destruct (run_cie_fde_loaded m _ cie E L pc d Hd Hloc) as (st & Est & <- & Ws).
  assert (Hs : _stp_search_fde pc true true false m = Ok (fde_of m e)).
  { destruct (search_candidate m eh_rel entries true LH pc) as (x & -> & Hx & _).
    rewrite (Hx i e Ei Hle Hn), (check_fde_loaded m _ cie E L). reflexivity. }
  pose proof (locate_loaded m _ cie E L pc Hs Hnz Hend) as Hl.
  destruct (el_size _ _ _ _ L) as [Hsz Hm4].
  assert (Hg : (sec_size (ehf m) =? 0) || flag (sec_size (ehf m)) 3 = false).
  { rewrite flag3, Hm4 by lia. destruct (Z.eqb_spec (sec_size (ehf m)) 0); [lia|reflexivity]. }
  exists (e_parsed (fde_of m e) cie E), st, m, (e_start_loc m (fde_of m e) E), (e_end_loc m (fde_of m e) E).
  split; [exact (rules_at_step false mods pc m _ _ _ st Hm Hg Hl Est)|].
  split_and!; auto; exact Hra || apply effect_bit.
Qed.

(** An undefined return address is not a standard row. *)
Lemma undefined_not_standard st :
  wf_state st -> rule_of (abs_row (REG_STATE st)) UNW_PC_IDX = RUndefined -> check_standard_frame st = false.
Proof.
  intros W R. destruct (check_standard_frame st) eqn:E; [|reflexivity].
  apply check_standard_frame_row in E as (_ & Hpc & _); [|exact W]. congruence.
Qed.

Lemma caller_of_wf bit rw st f f' :
  wf_state st -> wf_frame f -> 0 <= bit <= 1 -> rw = abs_row (REG_STATE st) -> check_standard_frame st = true ->
  caller_of bit rw f = Some f' ->
  wf_frame f' /\ call_frame f' = bit /\
  forall pc ra, apply_tdep_state (set_call_frame f bit) (standard_entry pc st ra) false true = Ok (f', true).
Proof.
  intros Ws Wf Hb -> Hst Hc. unfold caller_of in Hc.
  assert (Wc : wf_frame (set_call_frame f bit)) by (apply wf_set_call_frame; [exact Wf|exact Hb]).
  pose proof (fun pc ra => apply_standard_entry false st (set_call_frame f bit) pc ra Ws Wc Hst) as A.
  change (caller_frame false (abs_row (REG_STATE st)) (set_call_frame f bit))
    with (caller_frame false (abs_row (REG_STATE st)) f) in A.
  destruct (caller_frame false _ f) as [[[pc sp] bp]|]; [|discriminate]. cbn [mbind option_bind] in Hc.
  injection Hc as <-. destruct (A 0 0) as (_ & Hp & Hs & Hbp).
  split_and!; [auto using wf_set_word|reflexivity|]. intros pc' ra. apply (A pc' ra).
Qed.

(** ** One step of the walk *)

Context {T : Type} `{FC : !FrameCache T}.

(** What a walk needs of the frame and the modules, and keeps. *)
Record walk_ok (cached : Z -> Prop) (visited : list Z) (f : unwind_frame_info) (proc : kunwind_proc_modules (T := T)) : Prop := {
  wk_frame : wf_frame f;
  wk_sound : cache_sound false proc;
  wk_cached : forall pc, cached pc -> is_Some (fc_find (mods_cache proc) pc);
  wk_visited : forall pc, is_Some (fc_find (mods_cache proc) pc) -> cached pc \/ pc ∈ visited
}.

Lemma sound_entry (proc : kunwind_proc_modules) pc p st entry :
  cache_sound false proc -> rules_at false (stp_modules proc) pc = Ok (Some (p, st)) ->
  fc_find (mods_cache proc) pc = Some entry ->
  check_standard_frame st = true /\ entry = standard_entry pc st (p_retAddrReg p).
Proof.
  intros [_ S] R E. destruct (S pc entry E) as (p' & st' & R' & Hst & ->). rewrite R in R'.
  injection R' as <- <-. auto.
Qed.

Lemma step_caller cached visited cx (proc : kunwind_proc_modules) c bit rw f' alloc :
  let f := cx_info cx in
  walk_ok cached visited f proc -> get_pc f <> 0 -> described (stp_modules proc) (get_pc f) c rw -> standard_row rw ->
  leaves_bit cached visited f c bit -> caller_of bit rw f = Some f' ->
  exists proc', unwind_frame cx true proc false alloc = Ok (0, f', proc') /\
    stp_modules proc' = stp_modules proc /\ walk_ok cached (get_pc f :: visited) f' proc'.
Proof.
  intros f [Wf S Hin Hout] Hpc Hd Hrow Hbit Hc.
  destruct (described_rules _ _ _ _ Hd) as (p & st & m & sl & el & R & Hm & Hg & Hl & Hr & Hra & Hcf & Hc01 & Ws & Erw).
  assert (Hst : check_standard_frame st = true) by (apply standard_row_check; [exact Ws|rewrite Erw; exact Hrow]).
  assert (Hb01 : 0 <= bit <= 1) by (destruct Hbit as [[-> _]|[-> _]]; [exact Hc01|apply Wf]).
  destruct (caller_of_wf bit rw st f f' Ws Wf Hb01 (eq_sym Erw) Hst Hc) as (Wf' & Cf' & A).
  assert (Hlast : entry_result (standard_entry (get_pc f) st (p_retAddrReg p)) = 0).
  { unfold entry_result. simpl tf_last. rewrite Hra, <- undefined_where.
    rewrite <- rule_of_abs by (exact Ws || unfold UNW_PC_IDX, NR_REGS; lia).
    rewrite Erw. destruct Hrow as (_ & -> & _). reflexivity. }
  unfold unwind_frame. fold f. destruct (Z.eqb_spec (get_pc f) 0); [contradiction|]. cbn [negb orb].
  rewrite Hm. unfold __unwind_frame. fold f. change (u64 (UNW_PC f - call_frame f)) with (get_pc f). rewrite Hg.
  destruct (fc_find (mods_cache proc) (get_pc f)) as [entry|] eqn:Ef.
  - destruct (sound_entry proc _ p st entry S R Ef) as [_ ->].
    assert (Hkeep : call_frame f = bit).
    { destruct Hbit as [[-> [H|[Hn Hv]]]|[-> _]]; [exact H| |reflexivity].
      destruct (Hout (get_pc f) ltac:(rewrite Ef; eauto)); contradiction. }
    assert (Ef1 : set_call_frame f bit = f) by (rewrite <- Hkeep; destruct f; reflexivity).
    pose proof (A (get_pc f) (p_retAddrReg p)) as A'. rewrite Ef1 in A'. rewrite A'. cbn [mbind C_bind]. rewrite Hlast.
    exists proc. split; [reflexivity|]. split; [reflexivity|].
    split; try assumption. intros pc H. destruct (Hout pc H); [auto|right; right; assumption].
  - assert (Hfresh : bit = c).
    { destruct Hbit as [[-> _]|[_ H]]; [reflexivity|]. apply Hin in H as [x Hx]. congruence. }
    rewrite Hl. cbn [mbind C_bind]. rewrite Hr. cbn [mbind C_bind]. rewrite Hst, Hcf, <- Hfresh, A.
    cbn [mbind C_bind]. rewrite Hlast. eexists. split; [reflexivity|]. split; [reflexivity|].
    split; [exact Wf'|apply cache_sound_add; assumption| |]; cbn [mods_cache set_cache]; intros pc.
    + intros H. rewrite fc_find_add by apply S. destruct (Hin pc H) as [x ->]. eauto.
    + rewrite fc_find_add by apply S. destruct (fc_find (mods_cache proc) pc) eqn:E'; intros H.
      * destruct (Hout pc ltac:(rewrite E'; eauto)); [auto|right; right; assumption].
      * destruct (decide _) as [->|]; [right; left|destruct H; discriminate].
Qed.

Lemma step_outermost cached visited cx (proc : kunwind_proc_modules) c rw alloc :
  let f := cx_info cx in
  walk_ok cached visited f proc -> get_pc f <> 0 -> described (stp_modules proc) (get_pc f) c rw ->
  rule_of rw UNW_PC_IDX = RUndefined ->
  unwind_frame cx true proc false alloc = Ok (2, set_call_frame f c, proc).
Proof.
  intros f [Wf S _ _] Hpc Hd Hu.
  destruct (described_rules _ _ _ _ Hd) as (p & st & m & sl & el & R & Hm & Hg & Hl & Hr & Hra & Hcf & _ & Ws & <-).
  pose proof (undefined_not_standard st Ws Hu) as Hst.
  unfold unwind_frame. fold f. destruct (Z.eqb_spec (get_pc f) 0); [contradiction|]. cbn [negb orb].
  rewrite Hm. unfold __unwind_frame. fold f. change (u64 (UNW_PC f - call_frame f)) with (get_pc f). rewrite Hg.
  destruct (fc_find (mods_cache proc) (get_pc f)) as [entry|] eqn:Ef.
  { destruct (sound_entry proc _ p st entry S R Ef). congruence. }
  rewrite Hl. cbn [mbind C_bind]. rewrite Hr. cbn [mbind C_bind]. rewrite Hst, Hcf. unfold slow_path.
  rewrite Hra. rewrite rule_of_abs in Hu by (exact Ws || unfold UNW_PC_IDX, NR_REGS; lia).
  rewrite bool_decide_eq_true_2; [reflexivity|]. revert Hu. unfold abs_item.
  destruct (where_ _); intros [=]; reflexivity.
Qed.

(** ** The walk *)

Lemma loop_stack max mods cached visited f pcs : stack mods cached visited f pcs ->
  forall cx (proc : kunwind_proc_modules) fuel done rest ret alloc,
  cx_info cx = f -> stp_modules proc = mods -> walk_ok cached visited f proc ->
  Z.of_nat (length done) <= max -> max - Z.of_nat (length done) <= Z.of_nat (length rest) ->
  max - Z.of_nat (length done) < Z.of_nat fuel -> ret = Some 0 \/ Z.of_nat (length done) < max ->
  let shown := take (Z.to_nat max - length done) pcs in
  exists r cx' proc',
    unwind_loop fuel cx proc (mk_bt max (Z.of_nat (length done)) (Some (done ++ rest))) false alloc ret =
      Ok (Some r, cx', proc', mk_bt max (Z.of_nat (length (done ++ shown)))
        (Some ((done ++ shown) ++ drop (length shown) rest))) /\
    (r = 0 \/ r = 2) /\ stp_modules proc' = mods /\ cache_sound false proc'.
Proof.
  induction 1 as [visited f c rw Hpc Hd Hu|visited f c bit rw f' pcs Hpc Hd Hrow Hbit Hc _ IH];
    intros cx proc fuel done rest ret alloc <- <- Wk Hle Hlen Hf Hret; cbv zeta;
    (destruct fuel as [|fuel]; [lia|]); cbn [unwind_loop nr_entries max_entries];
    (destruct (Z.ltb_spec (Z.of_nat (length done)) max) as [Hlt|]; [|
       destruct Hret as [->|]; [|lia]; replace (Z.to_nat max - length done)%nat with 0%nat by lia;
       cbn [take length drop]; rewrite app_nil_r; eexists 0, cx, proc; split; [reflexivity|];
       split_and!; auto; apply Wk]);
    (destruct (Z.eqb_spec (get_pc (cx_info cx)) 0); [contradiction|]);
    (destruct rest as [|x rest]; [simpl in Hlen; lia|]); rewrite push_entry_at; cbn [mbind C_bind];
    (replace (Z.to_nat max - length done)%nat with (S (Z.to_nat max - length (done ++ [get_pc (cx_info cx)])))
       by (rewrite length_app; simpl; lia)); cbn [take].
  - rewrite (step_outermost cached visited cx proc c rw _ Wk Hpc Hd Hu). cbn [mbind C_bind Z.eqb]. rewrite take_nil.
    eexists 2, _, proc. split; [reflexivity|]. split_and!; auto; apply Wk.
  - destruct (step_caller cached visited cx proc c bit rw f' (alloc (Z.of_nat (length done))) Wk Hpc Hd Hrow Hbit Hc) as (proc1 & E & Em & W1).
    rewrite E. cbn [mbind C_bind Z.eqb].
    destruct (IH (set_info cx f') proc1 fuel (done ++ [get_pc (cx_info cx)]) rest (Some 0) alloc)
      as (r & cx' & proc' & E' & H);
      [reflexivity|exact Em|exact W1|rewrite ?length_app; simpl length in *; lia..|left; reflexivity|].
    exists r, cx', proc'. split; [|exact H]. cbv zeta in E'. rewrite E', <- !app_assoc. reflexivity.
Qed.
(** The program counters whose rules are in the cache. *)
Definition in_cache (proc : kunwind_proc_modules (T := T)) (pc : Z) : Prop := is_Some (fc_find (mods_cache proc) pc).

Lemma full_stack cx (proc : kunwind_proc_modules) bt l alloc pcs :
  wf_frame (cx_info cx) -> cache_sound false proc ->
  stack (stp_modules proc) (in_cache proc) [] (cx_info cx) pcs ->
  bt_entries bt = Some l -> 0 < max_entries bt <= Z.of_nat (length l) ->
  let shown := take (Z.to_nat (max_entries bt)) pcs in
  exists cx' proc', unwind_full cx proc bt false alloc =
      Ok (0, cx', proc', mk_bt (max_entries bt) (Z.of_nat (length shown)) (Some (shown ++ drop (length shown) l))) /\
    stp_modules proc' = stp_modules proc /\ cache_sound false proc'.
Proof.
  intros Wf Hs S Hl Hmax shown. unfold unwind_full. rewrite Hl. destruct (Z.eqb_spec (max_entries bt) 0); [lia|].
  destruct (loop_stack (max_entries bt) _ _ _ _ pcs S cx proc (Datatypes.S (Z.to_nat (max_entries bt))) [] l None alloc)
    as (r & cx' & proc' & E & Hr & Hm); simpl length; try reflexivity; try lia; [split; auto|].
  cbv zeta in E. simpl app in E. rewrite Nat.sub_0_r in E. fold shown in E. change (Z.of_nat (length [])) with 0 in E.
  rewrite E. cbn [mbind C_bind]. exists cx', proc'. split; [|exact Hm].
  destruct Hr as [-> | ->]; reflexivity.
Qed.

(** C2: The backtrace of a stack of a 64-bit task whose frames the debug information
    describes, with standard rows and the return address in column 16, is the program
    counters of its frames, from the first to the outermost one or as many as
    there is room for, whatever earlier backtraces have left in the cache: the
    walk succeeds, the rest of the array is left as it was, and the cache stays
    what the debug information says. *)
Theorem backtrace_of_stack cx (proc : kunwind_proc_modules) bt l alloc pcs :
  wf_frame (cx_info cx) -> cache_sound false proc ->
  stack (stp_modules proc) (in_cache proc) [] (cx_info cx) pcs ->
  bt_entries bt = Some l -> 0 < max_entries bt <= Z.of_nat (length l) ->
  let shown := take (Z.to_nat (max_entries bt)) pcs in
  exists cx' proc', unwind_full cx proc bt false alloc =
      Ok (0, cx', proc', mk_bt (max_entries bt) (Z.of_nat (length shown)) (Some (shown ++ drop (length shown) l))) /\
    stp_modules proc' = stp_modules proc /\ cache_sound false proc'.
Proof. apply full_stack. Qed.
End stack.

(** C20: A first frame that is found in the cache is taken for a frame in the middle of
    a call as it was: the call-frame bit is not set, so that its caller is recorded
    and looked up at the return address itself, one byte above the program counter
    the same stack gave when the rules were not cached. *)
Theorem cached_frame_shifts_caller `{K : Kernel} {T : Type} `{FC : !FrameCache T} cx (proc : kunwind_proc_modules) c rw f' alloc entry :
  let f := cx_info cx in
  wf_frame f -> cache_sound false proc -> call_frame f = 0 ->
  fc_find (mods_cache proc) (get_pc f) = Some entry -> get_pc f <> 0 ->
  described (stp_modules proc) (get_pc f) c rw -> caller_of 1 rw f = Some f' ->
  exists g, unwind_frame cx true proc false alloc = Ok (0, g, proc) /\
    fr_regs g = fr_regs f' /\ get_pc g = UNW_PC f' /\ get_pc f' = u64 (UNW_PC f' - 1).
Proof.
  intros f Wf S Hcall Ef Hpc Hd Hc.
  destruct (described_rules _ _ _ _ Hd) as (p & st & m & sl & el & R & Hm & Hg & Hl & Hr & Hra & Hcf & _ & Ws & Erw).
  destruct (sound_entry proc _ p st entry S R Ef) as [Hst ->].
  destruct (caller_of_wf 1 rw st f f' Ws Wf ltac:(lia) (eq_sym Erw) Hst Hc) as (Wf' & Cf' & A).
  pose proof (check_standard_frame_row st Ws Hst) as (_ & Hrule & _).
  specialize (A (get_pc f) (p_retAddrReg p)). rewrite apply_tdep_call in A. unfold with_call in A.
  apply bind_Ok in A as ([g ok] & Ea & [= <- ->]).
  pose proof (apply_tdep_call f 0 (standard_entry (get_pc f) st (p_retAddrReg p)) false true) as E0.
  replace (set_call_frame f 0) with f in E0 by (rewrite <- Hcall; destruct f; reflexivity).
  rewrite Ea in E0. injection E0 as E0.
  exists g. split.
  - unfold unwind_frame. fold f. destruct (Z.eqb_spec (get_pc f) 0); [contradiction|]. cbn [negb orb].
    rewrite Hm. unfold __unwind_frame. fold f. change (u64 (UNW_PC f - call_frame f)) with (get_pc f).
    rewrite Hg, Ef, Ea. cbn [mbind C_bind]. unfold entry_result. simpl tf_last.
    rewrite rule_of_abs in Hrule by (exact Ws || unfold UNW_PC_IDX, NR_REGS; lia).
    rewrite Hra, <- undefined_where, Hrule. reflexivity.
  - split; [reflexivity|]. split; [|reflexivity].
    assert (Wg : is_u64 (UNW_PC g)) by (exact (word_range _ PT_IP Wf')).
    assert (Hcg : call_frame g = 0) by (rewrite E0; reflexivity).
    unfold get_pc. rewrite Hcg, Z.sub_0_r. apply u64_small, Wg.
Qed.

Lemma full_sound `{K : Kernel} {T : Type} `{FC : !FrameCache T} compat cx (proc : kunwind_proc_modules) bt alloc
    r cx' proc' bt' :
  cache_sound compat proc ->
  unwind_full cx proc bt compat alloc = Ok (r, cx', proc', bt') -> cache_sound compat proc'.
Proof.
  intros S E. unfold unwind_full in E.
  destruct (bt_entries bt) as [l|]; [|injection E as _ _ <- _; exact S].
  destruct (_ =? 0); [injection E as _ _ <- _; exact S|].
  apply bind_Ok in E as ([[[ret cx1] proc1] bt1] & El & E).
  destruct ret as [ret|]; [|discriminate]. injection E as _ _ <- _.
  eapply loop_sound; eassumption.
Qed.

(** Every backtrace, whatever the tables and the stack hold, keeps the cache what
    the debug information says. *)
Theorem backtrace_cache_sound `{K : Kernel} {T : Type} `{FC : !FrameCache T} compat cx (proc : kunwind_proc_modules) bt alloc
    r cx' proc' bt' :
  cache_sound compat proc ->
  unwind_full cx proc bt compat alloc = Ok (r, cx', proc', bt') -> cache_sound compat proc'.
Proof. apply full_sound. Qed.

(** ** A program that calls itself

    The demo module with another second function: it is where the process starts,
    and its return address is undefined. The first function has called itself
    twice from 0x40101b, below 0x401060 in the second. A request for six entries is
    at 0x7000. *)

Definition start_entry : cfi_entry :=
  mk_cfi_entry 1 [AugR 0x1b] 1 (-8) 16 [IDefCfa 7 8; IOffset 16 1; INop; INop]
    DW_EH_PE_data4 true DW_EH_PE_pcrel (-0x10f8) 0x40 []
    [IUndefined 16; INop; INop; INop; INop; INop].
Definition prog_eh_frame : list Z :=
  lib_cie ++ lib_fde 28 (-0x1120) [0x41; 0x0e; 16; 0x86; 2; 0; 0] ++
  lib_fde 52 (-0x10f8) [0x07; 16; 0; 0; 0; 0; 0] ++ le_bytes 4 0.
Definition prog_stack : list Z :=
  le_bytes 8 0x7fe0 ++ le_bytes 8 0x401020 ++ le_bytes 8 0x7ff0 ++ le_bytes 8 0x401020 ++
  le_bytes 8 0 ++ le_bytes 8 0x401060.
Definition prog_uback : list Z := le_bytes 4 6 ++ le_bytes 4 0 ++ le_bytes 8 0x7100.
Definition prog_images : list (Z * list Z) :=
  [(demo_page_vmap, demo_page); (0x7000, prog_uback); (lib_vmap + 0x2000, lib_hdr); (lib_vmap + 0x2100, prog_eh_frame)].
(** The memory of the process: the kernel's mappings do not change, what the
    process sees does. *)
Definition prog_kernel (user : list (Z * list Z)) : Kernel := image_kernel prog_images user.
Definition prog_user (stk : list Z) : list (Z * list Z) := [(0x402000, lib_hdr); (0x7000, prog_uback); (0x7fd0, stk)].
Abbreviation prog_run := (prog_kernel (prog_user prog_stack)).
Definition prog_frame : unwind_frame_info :=
  set_word (set_word (set_word (mk_frame (repeat 0 PT_WORDS) 0) PT_IP 0x401010) PT_SP 0x7fd0) PT_BP 0x7fd0.

(** The module the loader makes of it: [demo_load]. *)
Definition prog_module_at (addr pa : Z) : kunwind_module :=
  mk_module addr demo_vma lib_vmap (mk_pages pa [1; 2; 3]) 3 (ehf_hdr demo_module) (ehf demo_module) true.
Definition prog_module : kunwind_module := prog_module_at 0xA400 0xA500.
Definition prog_mods : kunwind_proc_modules (T := unw_cache) := mk_mods [prog_module] empty_cache 0.

Definition cie_rules : list rule := repeat RSame 16 ++ [ROffset (-8)].
Definition prog_row : row := mk_row (CfaReg 7 16) (<[6%nat := ROffset (-16)]> cie_rules).
Definition start_row : row := mk_row (CfaReg 7 8) (<[16%nat := RUndefined]> cie_rules).

Section program.
Variables (user : list (Z * list Z)) (addr pa : Z).
Abbreviation K := (prog_kernel user).
Abbreviation m := (prog_module_at addr pa).

Ltac loaded_entry :=
  constructor;
    [ unfold cie_operands_ok; simpl; lia
    | unfold fde_values_ok, plain_form, plain_adjust; split_and!;
        solve [vm_compute; reflexivity | tauto | discriminate]
    | apply (bytes_atb_true (K := K)); vm_compute; reflexivity
    | apply (bytes_atb_true (K := K)); vm_compute; reflexivity
    | vm_compute; discriminate | vm_compute; split; congruence | vm_compute; discriminate
    | vm_compute; discriminate | vm_compute; repeat split | vm_compute; split; reflexivity
    | simpl; auto | discriminate | reflexivity | vm_compute; split; congruence
    | split; repeat constructor; simpl; unfold uleb_range, NR_REGS; lia | vm_compute; split; discriminate ].

Lemma prog_hdr_loaded : hdr_loaded (K := K) m 0xfc lib_entries.
Proof.
  destruct lib_loaded. constructor; try assumption.
  apply (bytes_atb_true (K := K)). vm_compute. reflexivity.
Qed.

Lemma lib_entry_in_prog :
  entry_loaded (K := K) m (lib_vmap + 0x2118) (lib_vmap + 0x2100) lib_entry.
Proof. loaded_entry. Qed.

Lemma start_entry_in_prog :
  entry_loaded (K := K) m (lib_vmap + 0x2130) (lib_vmap + 0x2100) start_entry.
Proof. loaded_entry. Qed.

(** A lookup in the demo module, on a closed program counter. *)
Ltac described_entry i e E d L :=
  refine (described_by (K := K) _ _ m 0xfc lib_entries e (lib_vmap + 0x2100) E d
    _ prog_hdr_loaded _ L _ _ _ _ _);
    [ vm_compute; reflexivity
    | exists i; split; [reflexivity|]; split; [vm_compute; discriminate|];
      intros e' He; first [discriminate He | injection He as <-; vm_compute; reflexivity]
    | reflexivity | vm_compute; discriminate | vm_compute; discriminate
    | vm_compute; reflexivity | vm_compute; discriminate ].

Lemma described_prog pc :
  pc = 0x401010 \/ pc = 0x40101f \/ pc = 0x401020 -> described (K := K) [m] pc 1 prog_row.
Proof.
  intros [-> | [-> | ->]];
    described_entry 0%nat (-0x1000, 0x118) lib_entry
      (mk_dwarf 0x401001 prog_row [] cie_rules 1 (-8)) lib_entry_in_prog.
Qed.

Lemma described_start : described (K := K) [m] 0x40105f 1 start_row.
Proof.
  described_entry 1%nat (-0xfc0, 0x130) start_entry
    (mk_dwarf 0x401040 start_row [] cie_rules 1 (-8)) start_entry_in_prog.
Qed.

Definition prog_caller (bit : Z) (f : unwind_frame_info) : unwind_frame_info :=
  match caller_of (K := K) bit prog_row f with Some f' => f' | None => f end.

Lemma prog_row_standard : standard_row prog_row.
Proof.
  split; [exists 7, 16; split; [reflexivity|right; reflexivity]|]. split; [reflexivity|].
  intros r [-> | ->]; [right; left; reflexivity|]. right; right. exists (-16). reflexivity.
Qed.

Lemma prog_calls cached visited bit f pcs pc :
  get_pc f = pc -> pc = 0x401010 \/ pc = 0x40101f \/ pc = 0x401020 ->
  leaves_bit cached visited f 1 bit -> caller_of (K := K) bit prog_row f = Some (prog_caller bit f) ->
  stack (K := K) [m] cached (pc :: visited) (prog_caller bit f) pcs ->
  stack (K := K) [m] cached visited f (pc :: pcs).
Proof.
  intros <- Hpc Hb Hc S. apply (stack_caller [m] cached visited f 1 bit prog_row (prog_caller bit f));
    auto using described_prog, prog_row_standard. destruct Hpc as [-> | [-> | ->]]; discriminate.
Qed.

Lemma prog_end cached visited f : get_pc f = 0x40105f -> stack (K := K) [m] cached visited f [0x40105f].
Proof.
  intros E. rewrite <- E. apply (stack_outermost [m] cached visited f 1 start_row); rewrite ?E;
    [discriminate|exact described_start|reflexivity].
Qed.

End program.

Ltac prog_frame_step b := apply (prog_calls _ _ _ _ _ b); [vm_compute; reflexivity|auto| |vm_compute; reflexivity|].

Lemma empty_not_cached `{H : Hash} mods compat pc : ~ in_cache (mk_mods mods empty_cache compat) pc.
Proof. intros [e E]. change (lookup_pc empty_cache pc = Some e) in E. rewrite lookup_pc_empty in E. discriminate. Qed.

(** The first backtrace, with an empty cache. *)
Lemma prog_stack_pcs :
  stack (K := prog_run) [prog_module] (in_cache prog_mods) [] prog_frame [0x401010; 0x40101f; 0x40101f; 0x40105f].
Proof.
  prog_frame_step 1; [left; split; [reflexivity|right; split; [apply empty_not_cached|apply not_elem_of_nil]]|].
  prog_frame_step 1; [left; split; [reflexivity|left; reflexivity]|].
  prog_frame_step 1; [left; split; [reflexivity|left; reflexivity]|].
  apply prog_end. vm_compute. reflexivity.
Qed.

Definition prog_context : unwind_context := mk_context prog_frame prog_frame.
Definition prog_bt : kunwind_backtrace := mk_bt 6 0 (Some [7; 7; 7; 7; 7; 7]).

Lemma empty_sound `{K : Kernel} `{H : Hash} mods compat n : cache_sound compat (mk_mods mods empty_cache n).
Proof.
  split; [apply wf_empty_cache|]. intros pc entry E.
  change (lookup_pc empty_cache pc = Some entry) in E. rewrite lookup_pc_empty in E. discriminate.
Qed.

(** Four frames, the third of them through the cache. *)
Lemma backtrace_of_stack_witness :
  exists cx' proc', unwind_full (K := prog_run) prog_context prog_mods prog_bt false (fun n => Some n) =
      Ok (0, cx', proc', mk_bt 6 4 (Some [0x401010; 0x40101f; 0x40101f; 0x40105f; 7; 7])) /\
    stp_modules proc' = [prog_module] /\ cache_sound (K := prog_run) false proc'.
Proof.
  apply (backtrace_of_stack (K := prog_run) prog_context prog_mods prog_bt [7; 7; 7; 7; 7; 7] (fun n => Some n)
    [0x401010; 0x40101f; 0x40101f; 0x40105f]).
  - apply wf_frame_dec. reflexivity.
  - apply (empty_sound (K := prog_run)).
  - exact prog_stack_pcs.
  - reflexivity.
  - simpl. lia.
Defined.

Lemma backtrace_cache_sound_witness :
  exists r cx' proc' bt', lib_trace = Ok (r, cx', proc', bt') /\ cache_sound (K := lib_run) false proc'.
Proof.
  pose proof lib_trace_entries as H. destruct lib_trace as [[[[r cx'] proc'] bt']|] eqn:E; [|destruct H].
  exists r, cx', proc', bt'. split; [reflexivity|].
  apply (backtrace_cache_sound (K := lib_run) false lib_context lib_mods lib_bt (fun _ => Some 1) r cx' proc' bt');
    [apply (empty_sound (K := lib_run))|exact E].
Defined.

(** The second backtrace of the demo starts from a cached frame. *)
Lemma cached_frame_shifts_caller_witness :
  match unwind_frame (K := prog_run) prog_context true prog_mods false (Some 1) with
  | Ok (0, _, proc') =>
      exists g, unwind_frame (K := prog_run) prog_context true proc' false None = Ok (0, g, proc') /\
        fr_regs g = fr_regs (prog_caller (prog_user prog_stack) 1 prog_frame) /\ get_pc g = 0x401020 /\ 0x40101f = u64 (0x401020 - 1)
  | _ => False
  end.
Proof.
  assert (E : exists f' proc' entry, unwind_frame (K := prog_run) prog_context true prog_mods false (Some 1) = Ok (0, f', proc') /\
    fc_find (mods_cache proc') (get_pc prog_frame) = Some entry /\ stp_modules proc' = [prog_module]).
  { eexists _, _, _. split; [vm_compute; reflexivity|]. split; [vm_compute; reflexivity|reflexivity]. }
  destruct E as (f' & proc' & entry & E & Ef & Em). rewrite E.
  apply (cached_frame_shifts_caller (K := prog_run) prog_context proc' 1 prog_row (prog_caller (prog_user prog_stack) 1 prog_frame) None entry).
  - apply wf_frame_dec. reflexivity.
  - apply (unwind_frame_sound (K := prog_run) false prog_context true prog_mods (Some 1) 0 f'); [apply (empty_sound (K := prog_run))|exact E].
  - reflexivity.
  - exact Ef.
  - discriminate.
  - rewrite Em. apply described_prog. auto.
  - vm_compute. reflexivity.
Defined.
