(* ===== verification/IoctlSpec.v ===== *)
(** * The backtrace a process receives

    The composition of the whole kernel side: for a process whose stack is
    described by the debug information of its modules, what
    [kunwind_backtrace_ioctl] (src/src/kunwind-debug.c) writes to its memory. *)
From S2P Require Import Prelude Machine Regs KModule EhFrameHdrSpec HashTable Cache Step StepSpec StepWf.
From S2P Require Import BacktraceSpec StackSpec Modules ModulesSpec DemoProcess ProcFile ProcFileSpec ReportSpec.

Section ioctl.
Context `{K : Kernel} `{MM : Mm} `{H : Hash} `{DR : Driver}.

(** The frame a backtrace of the current task starts from. *)
Definition current_frame (regs : list Z) : unwind_frame_info :=
  arch_unw_init_frame_info (mk_frame (repeat 0 PT_WORDS) 0) regs false false.

Lemma wf_current_frame regs : regs_ok regs -> wf_frame (current_frame regs).
Proof. intros [Hl Hw]. split_and!; [exact Hl|exact Hw|simpl; lia..]. Qed.

Lemma walk_current_stack regs (mods : modules) max alloc pcs :
  regs_ok regs -> cache_sound false mods -> stack (stp_modules mods) (in_cache mods) [] (current_frame regs) pcs -> 0 < max ->
  exists m, walk_current regs mods max false alloc = Ok (0, m, take (Z.to_nat max) pcs) /\
    stp_modules m = stp_modules mods /\ cache_sound false m.
Proof.
  intros Hr Hs S Hmax.
  destruct (full_stack (mk_context (current_frame regs) (current_frame regs)) mods
    (mk_bt max 0 (Some (replicate (Z.to_nat max) 0))) (replicate (Z.to_nat max) 0) alloc pcs)
    as (cx & m & E & Em & Sm); try reflexivity; try assumption.
  - apply wf_current_frame, Hr.
  - simpl. rewrite length_replicate. lia.
  - exists m. split; [|auto]. unfold walk_current, do_current_unwind.
    change (arch_unw_init_frame_info _ regs false false) with (current_frame regs). rewrite E.
    cbn [mbind C_bind bt_entries nr_entries max_entries]. rewrite Nat2Z.id, take_app_length. reflexivity.
Qed.

Lemma put_user_ok addr bytes w :
  put_ok addr (Z.of_nat (length bytes)) = true ->
  put_user addr bytes w = Returns true (mk_world (w_ld w) (kunw_map w) (procs w) (files w) (uwrites w ++ [(addr, bytes)])).
Proof. intros E. unfold put_user. rewrite E. reflexivity. Qed.

Lemma copy_to_user_ok addr bytes w :
  put_ok addr (Z.of_nat (length bytes)) = true ->
  copy_to_user addr bytes w = Returns true (mk_world (w_ld w) (kunw_map w) (procs w) (files w) (uwrites w ++ [(addr, bytes)])).
Proof. intros E. unfold copy_to_user. rewrite E. reflexivity. Qed.

Lemma length_words l : length (concat (map (le_bytes 8) l)) = (8 * length l)%nat.
Proof. induction l as [|x l IH]; [reflexivity|]. cbn [map concat]. rewrite length_app, IH, length_le_bytes. simpl. lia. Qed.

(** The ioctl of a process whose stack is described by its debug information. *)
Lemma ioctl_at_stack f uback regs w a (mods : modules) max entries dest pcs :
  files w !! f = Some a -> a <> 0 -> procs w !! a = Some mods ->
  regs_ok regs -> cache_sound false mods -> stack (stp_modules mods) (in_cache mods) [] (current_frame regs) pcs ->
  _stp_read_address 4 4 uback USER_DS = Some max -> 0 < max ->
  kmalloc_at (w_ld w) (8 * Z.min max entries_limit) = Some entries ->
  load 8 (u64 (uback + 8)) = Ok dest ->
  let shown := take (Z.to_nat (Z.min max entries_limit)) pcs in
  put_ok (u64 (uback + 4)) 4 = true -> put_ok dest (8 * Z.of_nat (length shown)) = true ->
  exists w', kunwind_backtrace_ioctl f uback regs false w = Returns 0 w' /\
    uwrites w' = uwrites w ++ [(u64 (uback + 4), le_bytes 4 (Z.of_nat (length shown)));
                               (dest, concat (map (le_bytes 8) shown))] /\
    held (w_ld w') = held (w_ld w) /\ kunw_map w' = kunw_map w /\ files w' = files w /\
    exists mods', procs w' = <[a := mods']> (procs w) /\ stp_modules mods' = stp_modules mods.
Proof.
  intros Hf Ha Hm Hr Hc S Hmax Hpos Hk Hd shown Hput4 Hput8.
  pose proof (backtrace_ioctl_at f uback regs false w a mods max entries Hf Ha Hm Hmax Hpos Hk) as B.
  cbv zeta in B. unfold entries_limit in *.
  destruct (walk_current_stack regs mods (Z.min max 128) (cache_alloc (Datatypes.S (clock (w_ld w)))) pcs Hr Hc S ltac:(lia))
    as (m & Ew & Em & _).
  rewrite Ew in B. destruct B as (_ & _ & ->). fold shown. change (0 =? 0) with true. cbv iota.
  set (w1 := mk_world _ _ _ _ _). set (w2 := mk_world (w_ld w1) (kunw_map w1) (procs w1) (files w1)
    (uwrites w1 ++ [(u64 (uback + 4), le_bytes 4 (Z.of_nat (length shown)))])).
  rewrite (P_bind_at _ _ w1 0 (mk_world (w_ld w2) (kunw_map w2) (procs w2) (files w2)
    (uwrites w2 ++ [(dest, concat (map (le_bytes 8) shown))]))).
  2: { unfold report. rewrite (P_bind_at _ _ w1 true w2) by (apply put_user_ok; rewrite length_le_bytes; exact Hput4). cbv iota.
       rewrite (P_bind_at _ _ w2 dest w2) by (unfold by_memory; rewrite Hd; reflexivity).
       erewrite P_bind_at by (apply copy_to_user_ok; rewrite length_words, Nat2Z.inj_mul; exact Hput8). reflexivity. }
  unfold kfree. destruct (Z.eqb_spec entries 0) as [->|_].
  { destruct (kmalloc_fresh _ _ _ Hk). contradiction. }
  eexists. split.
  { unfold mbind, P_bind, by_loader, release. cbn [w_ld w1 w2 held]. rewrite decide_True by left. reflexivity. }
  cbn [uwrites w_ld held kunw_map files procs w1 w2 remove_one]. rewrite decide_True by reflexivity.
  split_and!; try reflexivity; [rewrite <- app_assoc; reflexivity|]. eauto.
Qed.
End ioctl.
