(* ===== verification/HistorySpec.v ===== *)
(** * The cache over the life of the processes

    An invariant of every history of the driver (src/src/kunwind-debug.c): what the
    caches of the processes hold is what the debug information says, although the
    memory of the processes changes between two operations. With it, what the
    backtrace ioctl reports in any state the driver can be in. *)
From S2P Require Import Prelude Machine Regs Rules KModule FdeCie EhFrameHdrSpec HashTable Cache Step StepSpec StepWf.
From S2P Require Import BacktraceSpec UnwindSpec StackSpec Modules ModulesSpec DemoProcess ProcFile ProcFileSpec ReportSpec IoctlSpec.

(** ** The structure of a process *)

(** The mode the process had when it opened the file. *)
Definition opened_compat (mods : modules) : bool := negb (mods_compat mods =? 0).

Section structure.
Context `{K : Kernel} `{H : Hash}.

Definition structure_sound (mods : modules) : Prop := cache_sound (opened_compat mods) mods.

(** A backtrace is made in the mode the file was opened in. *)
Definition same_mode (c : bool) (mods : modules) : Prop := opened_compat mods = c.

(** More modules do not change what the first ones say. *)
Lemma lookup_more l l' pc m : kunw_mod_lookup pc l = Some m -> kunw_mod_lookup pc (l ++ l') = Some m.
Proof.
  induction l as [|x l IH]; [discriminate|]. simpl. destruct (_ && _); [auto|exact IH].
Qed.

Lemma rules_more compat l l' pc x :
  rules_at compat l pc = Ok (Some x) -> rules_at compat (l ++ l') pc = Ok (Some x).
Proof.
  unfold rules_at. destruct (kunw_mod_lookup pc l) as [m|] eqn:E; [|discriminate].
  rewrite (lookup_more l l' pc m E). auto.
Qed.

#[export] Instance tracked_structure : Tracked structure_sound same_mode.
Proof.
  constructor.
  - intros c. unfold structure_sound. apply (empty_sound (H := H) []).
  - intros mods mods' [Hi S] [[l El] Ec Em]. unfold structure_sound, opened_compat. rewrite Em. split; [rewrite Ec; exact Hi|].
    intros pc entry. rewrite Ec. intros E. destruct (S pc entry E) as (p & st & R & Hst & ->).
    exists p, st. rewrite El. split; [apply rules_more, R|auto].
  - intros regs mods bt c alloc ret cx mods' bt' Hr S <- E.
    assert (G : mods_grow mods mods') by (eapply unwind_mods; [exact Hr|apply S|exact E]).
    unfold structure_sound, opened_compat. rewrite (proj1 (proj2 G)). unfold do_current_unwind in E.
    eapply full_sound; [exact S|exact E].
Qed.
End structure.

(** ** The memory between two operations *)

Section history.
Context `{MM : Mm} `{H : Hash} `{DR : Driver}.
Variable walk_fuel : nat.

(** The debug information of the program counters that are in a cache is not
    changed: the rest of the memory may be anything. *)
Definition tables_kept (K K' : Kernel) (w : world) : Prop := forall a mods pc x,
  procs w !! a = Some mods -> in_cache mods pc ->
  rules_at (K := K) (opened_compat mods) (stp_modules mods) pc = Ok (Some x) ->
  rules_at (K := K') (opened_compat mods) (stp_modules mods) pc = Ok (Some x).

(** The condition between two operations: the tables are kept, and a process does
    not change its mode. *)
Definition steady (K K' : Kernel) (w : world) (e : event) : Prop :=
  event_agrees (agrees := same_mode) w e /\ tables_kept K K' w.

Lemma kept_sound K K' w a mods :
  tables_kept K K' w -> procs w !! a = Some mods -> structure_sound (K := K) mods -> structure_sound (K := K') mods.
Proof.
  intros Hk E [Hi S]. split; [exact Hi|]. intros pc entry Ef.
  destruct (S pc entry Ef) as (p & st & R & Hst & ->). exists p, st. split; [|auto].
  eapply Hk; [exact E|exists (standard_entry pc st (p_retAddrReg p)); exact Ef|exact R].
Qed.

Abbreviation steady_inv K h rest w := (inv (K := K) (h_live h) (Sp := structure_sound (K := K)) (h_owner h) rest w).

Lemma steady_reachable ld K h w :
  reachable walk_fuel steady ld K h w ->
  exists rest, steady_inv K h rest w /\ settled (h_live h) w /\ values (h_opens h) (held ld) rest.
Proof.
  apply (reachable_inv walk_fuel steady (Sp := fun K => structure_sound (K := K)) (agrees := same_mode)).
  intros K0 K' w0 e [G Hk]. split; [exact G|]. intros a mods E. eapply kept_sound; eassumption.
Qed.

(** C4: In every history in which processes keep their mode and the debug information
    behind the caches is not changed, every cache of every process holds what the
    debug information says. *)
Theorem caches_always_sound ld K h w a mods :
  reachable walk_fuel steady ld K h w -> procs w !! a = Some mods -> structure_sound (K := K) mods.
Proof.
  intros R E. destruct (steady_reachable _ _ _ _ R) as (rest & I & _). exact (proj2 (proj2 (proj2 (i_mods _ _ _ _ I a mods E)))).
Qed.

Lemma ioctl_reports_stack_at ld K h w K' f p uback regs max entries dest pcs v mods :
  reachable walk_fuel steady ld K h w -> tables_kept K K' w ->
  h_owner h !! f = Some p -> look w p = Some v -> procs w !! val_mods v = Some mods ->
  mods_compat mods = 0 -> regs_ok regs ->
  stack (K := K') (stp_modules mods) (in_cache mods) [] (current_frame regs) pcs ->
  _stp_read_address (K := K') 4 4 uback USER_DS = Some max -> 0 < max ->
  kmalloc_at (w_ld w) (8 * Z.min max entries_limit) = Some entries ->
  load (K := K') 8 (u64 (uback + 8)) = Ok dest ->
  let shown := take (Z.to_nat (Z.min max entries_limit)) pcs in
  put_ok (u64 (uback + 4)) 4 = true -> put_ok dest (8 * Z.of_nat (length shown)) = true ->
  let e := EIoctl f KUNWIND_UNWIND_IOCTL uback regs false in
  exists w', handle walk_fuel (K := K') e w = Returns 0 w' /\
    uwrites w' = uwrites w ++ [(u64 (uback + 4), le_bytes 4 (Z.of_nat (length shown)));
                               (dest, concat (map (le_bytes 8) shown))] /\
    held (w_ld w') = held (w_ld w) /\ kunw_map w' = kunw_map w /\ files w' = files w /\
    (exists mods', procs w' = <[val_mods v := mods']> (procs w) /\ stp_modules mods' = stp_modules mods) /\
    reachable walk_fuel steady ld K' (history_after (K := K') h e 0 w') w'.
Proof.
  intros R Hk Hf Hv Hm Hc Hr S Hmax Hpos Hka Hd shown Hp4 Hp8 e.
  destruct (steady_reachable _ _ _ _ R) as (rest & I & _ & _).
  destruct (i_open _ _ _ _ I f p Hf) as (v' & Hv' & Ef). rewrite Hv in Hv'. injection Hv' as <-.
  destruct (i_mods _ _ _ _ I _ mods Hm) as (Ha & _ & _ & Sm).
  assert (Hoc : opened_compat mods = false) by (unfold opened_compat; rewrite Hc; reflexivity).
  pose proof (kept_sound K K' w _ mods Hk Hm Sm) as Sm'. unfold structure_sound in Sm'. rewrite Hoc in Sm'.
  destruct (ioctl_at_stack (K := K') f uback regs w (val_mods v) mods max entries dest pcs Ef Ha Hm Hr Sm' S Hmax Hpos Hka Hd Hp4 Hp8)
    as (w' & E & Hu & Hh & Hmap & Hfi & Hmods).
  exists w'. split; [exact E|]. split_and!; try assumption.
  apply (ReachStep walk_fuel steady ld K K' h w e 0 w' R); [|split; [eauto|exact Hr]|exact E].
  split; [|exact Hk]. intros a m Hfa Hma. rewrite Ef in Hfa. injection Hfa as <-. rewrite Hm in Hma. injection Hma as <-. exact Hoc.
Qed.

End history.

(** ** Two backtraces of a program that calls itself

    Process 100 opens the file, loads its modules and asks for a backtrace; then
    it returns from one call, and asks again from the same place. *)

Lemma cached_entries `{H : Hash} (c : unw_cache) pc e :
  unw_cache_find_entry c pc = Some e -> pc ∈ map entry_pc (entries_of (buckets c)).
Proof.
  intros E. unfold unw_cache_find_entry, ht_find, ht_bucket in E. apply find_key_some in E as [Hin Hk].
  apply list_elem_of_fmap. exists e. split; [symmetry; exact Hk|]. apply list_elem_of_In, in_concat.
  exists (nth (bucket_of pc) (buckets c) []). apply list_elem_of_In in Hin. split; [|exact Hin].
  destruct (nth_in_or_default (bucket_of pc) (buckets c) []) as [H1|H1]; [exact H1|]. rewrite H1 in Hin. destruct Hin.
Qed.

(** The program counters in the caches of a state. *)
Definition cached_pcs (w : world) : list (modules * list Z) :=
  map (fun p => (snd p, map entry_pc (entries_of (buckets (mods_cache (snd p)))))) (map_to_list (procs w)).

Lemma tables_kept_list `{H : Hash} K K' w :
  Forall (fun x => Forall (fun pc => rules_at (K := K) (opened_compat (fst x)) (stp_modules (fst x)) pc =
    rules_at (K := K') (opened_compat (fst x)) (stp_modules (fst x)) pc) (snd x)) (cached_pcs w) ->
  tables_kept K K' w.
Proof.
  intros F a mods pc x E [entry Hc] R. rewrite Forall_forall in F. unfold cached_pcs in F.
  specialize (F (mods, map entry_pc (entries_of (buckets (mods_cache mods))))).
  assert (Hin : (mods, map entry_pc (entries_of (buckets (mods_cache mods)))) ∈ cached_pcs w).
  { apply list_elem_of_fmap. exists (a, mods). split; [reflexivity|]. apply elem_of_map_to_list, E. }
  specialize (F Hin). rewrite Forall_forall in F. cbn [fst snd] in F. rewrite <- F; [exact R|].
  change (ce_frame <$> unw_cache_find_entry (mods_cache mods) pc = Some entry) in Hc.
  destruct (unw_cache_find_entry (mods_cache mods) pc) as [e|] eqn:Ee; [|discriminate]. eapply cached_entries, Ee.
Qed.

Lemma tables_kept_refl `{H : Hash} K w : tables_kept K K w.
Proof. intros a mods pc x _ _ R. exact R. Qed.

Abbreviation prog_handle stk := (handle (MM := demo_mm) (DR := demo_driver) 10 (K := prog_kernel (prog_user stk))).
Abbreviation prog_reachable stk :=
  (reachable (MM := demo_mm) (DR := demo_driver) 10 (steady (DR := demo_driver)) (mk_ld [] 0) (prog_kernel (prog_user stk))).

(** The states, computed. *)
Definition prog_after (h : history) (e : event) (w : world) : history * world :=
  let w' := world_after w (prog_handle prog_stack e w) in
  (history_after (K := prog_run) h e (value_of (prog_handle prog_stack e w)) w', w').

Lemma prog_step h w e :
  prog_reachable prog_stack h w -> event_agrees (DR := demo_driver) (agrees := same_mode) w e ->
  allowed (DR := demo_driver) h w e -> returns (prog_handle prog_stack e w) = true ->
  prog_reachable prog_stack (fst (prog_after h e w)) (snd (prog_after h e w)).
Proof.
  intros R G A E. eapply (ReachStep (MM := demo_mm) (DR := demo_driver) 10 (steady (DR := demo_driver)));
    [exact R|split; [exact G|apply tables_kept_refl]|exact A|apply returns_at, E].
Qed.

Definition prog_regs : list Z := fr_regs prog_frame.
Definition prog_unwind : event := EIoctl 1 KUNWIND_UNWIND_IOCTL 0x7000 prog_regs false.
Definition prog1 : history * world := prog_after no_history (EOpen 1 100 false) demo_boot.
Definition prog2 : history * world := prog_after (fst prog1) (EIoctl 1 KUNWIND_PROC_INFO_IOCTL 0 prog_regs false) (snd prog1).
Definition prog3 : history * world := prog_after (fst prog2) prog_unwind (snd prog2).

Lemma prog_regs_ok : regs_ok prog_regs.
Proof. split; [reflexivity|]. repeat constructor; vm_compute; discriminate. Qed.

(** The modes, checked on a computed state. *)
Definition same_mode_b (w : world) (f : Z) : bool :=
  match files w !! f with
  | Some a => match procs w !! a with Some mods => negb (opened_compat mods) | None => true end
  | None => true
  end.
Lemma same_mode_dec w f : same_mode_b w f = true -> file_agrees (agrees := same_mode) w f false.
Proof.
  unfold same_mode_b. intros E a mods Hf Ha. rewrite Hf, Ha in E. unfold same_mode. destruct (opened_compat mods); [discriminate|reflexivity].
Qed.

Lemma prog_reached : prog_reachable prog_stack (fst prog3) (snd prog3).
Proof.
  apply prog_step; [|apply same_mode_dec; vm_compute; reflexivity|split; [vm_compute; eauto|apply prog_regs_ok]|vm_compute; reflexivity].
  apply prog_step; [|apply same_mode_dec; vm_compute; reflexivity|split; [vm_compute; eauto|apply prog_regs_ok]|vm_compute; reflexivity].
  apply prog_step; [constructor|exact Logic.I|reflexivity|vm_compute; reflexivity].
Qed.

(** The first backtrace, as in [backtrace_of_stack_witness]. *)
Example prog_first : uwrites (snd prog3) =
  [(0x7004, le_bytes 4 4);
   (0x7100, le_bytes 8 0x401010 ++ le_bytes 8 0x40101f ++ le_bytes 8 0x40101f ++ le_bytes 8 0x40105f)].
Proof. vm_compute. reflexivity. Qed.

(** The stack after the return: one frame less below the outermost one. *)
Definition prog_stack2 : list Z := le_bytes 8 0x7fe0 ++ le_bytes 8 0x401020 ++ le_bytes 8 0 ++ le_bytes 8 0x401060.

Definition prog_val : kunw_map_val := mk_val 0xA100 100 0xA000.
Definition prog_used : modules :=
  match procs (snd prog3) !! 0xA000 with Some mods => mods | None => prog_mods end.

Lemma prog_used_at : procs (snd prog3) !! 0xA000 = Some prog_used.
Proof.
  unfold prog_used. destruct (procs (snd prog3) !! 0xA000) eqn:E; [reflexivity|]. vm_compute in E. discriminate.
Qed.

Lemma prog_used_modules : stp_modules prog_used = [prog_module].
Proof. vm_compute. reflexivity. Qed.

Lemma prog_cached : cached_pcs (snd prog3) = [(prog_used, [0x401010; 0x40101f])].
Proof. vm_compute. reflexivity. Qed.

Lemma prog_tables_kept : tables_kept prog_run (prog_kernel (prog_user prog_stack2)) (snd prog3).
Proof.
  apply tables_kept_list. rewrite prog_cached. repeat apply Forall_cons_2; try apply Forall_nil_2; cbn [fst snd];
    repeat apply Forall_cons_2; try apply Forall_nil_2; vm_compute; reflexivity.
Qed.

(** The rules of the first frame come from the cache, so that its caller is shown
    at its return address: 0x401020. *)
Lemma prog_stack2_pcs :
  stack (K := prog_kernel (prog_user prog_stack2)) (stp_modules prog_used) (in_cache prog_used) [] prog_frame [0x401010; 0x401020; 0x40105f].
Proof.
  assert (C : forall pc, in_cache prog_used pc -> pc ∈ [0x401010; 0x40101f]).
  { intros pc [x E]. change (ce_frame <$> unw_cache_find_entry (mods_cache prog_used) pc = Some x) in E.
    destruct (unw_cache_find_entry (mods_cache prog_used) pc) as [y|] eqn:Ey; [|discriminate].
    apply cached_entries in Ey. replace [0x401010; 0x40101f] with (map entry_pc (entries_of (buckets (mods_cache prog_used))))
      by (vm_compute; reflexivity). exact Ey. }
  rewrite prog_used_modules.
  apply (prog_calls _ _ _ _ _ 0); [vm_compute; reflexivity|auto| |vm_compute; reflexivity|].
  { right. split; [reflexivity|]. vm_compute. eauto. }
  apply (prog_calls _ _ _ _ _ 1); [vm_compute; reflexivity|auto| |vm_compute; reflexivity|].
  { left. split; [reflexivity|]. right. split; [intros N; apply C in N|intros N];
      replace (get_pc _) with 0x401020 in N by (vm_compute; reflexivity);
      rewrite !elem_of_cons, elem_of_nil in N; intuition discriminate. }
  apply prog_end. vm_compute. reflexivity.
Qed.


Lemma caches_always_sound_witness : structure_sound (K := prog_run) prog_used.
Proof.
  apply (caches_always_sound (MM := demo_mm) (DR := demo_driver) 10 (mk_ld [] 0) prog_run (fst prog3) (snd prog3) 0xA000 prog_used).
  - exact prog_reached.
  - exact prog_used_at.
Defined.
