(* ===== verification/UserLib.v ===== *)
(** * The user library

    src/libkunwind/src/find_proc_info.c, which describes the objects of the process
    for the kernel, and src/libkunwind/src/libkunwind.c, which opens the proc file
    and asks for backtraces. The heap of the process is a finite map from addresses
    to objects; the C library is the class [Libc]. *)
From S2P Require Import Prelude Machine Modules DemoProcess.

(** ** The heap *)

(** The objects the library allocates: a [struct load_info_list], a
    [struct proc_info], a [struct kunwind_backtrace] (maximum, number, address of
    the entries), an array of entries, and a [struct kunwind_handle]. *)
Inductive object : Type :=
  | ONode (info : load_info) (next : Z)
  | OProcInfo (size nr : Z) (segments : list load_info)
  | OBacktrace (max nr entries : Z)
  | OEntries (words : list Z)
  | OHandle (stream : Z).

(** The heap and the streams that are open. *)
Record ustate : Type := mk_u { heap : gmap Z object; streams : list Z }.

Definition U (A : Type) : Type := ustate -> C (A * ustate).
#[export] Instance U_ret : MRet U := fun A a s => Ok (a, s).
#[export] Instance U_bind : MBind U := fun A B f m s =>
  match m s with Ok (a, s) => f a s | Crash c => Crash c end.

(** [struct dl_phdr_info] *)
Record dl_phdr_info : Type := mk_dl { dlpi_addr : Z; dlpi_phdr : list elf_phdr }.

(** [struct extract_unwind_info_data] *)
Record extract_data : Type := mk_ed { list_head : Z; list_tail : Z; ed_nr : Z }.

(** What the library uses of the C library and the kernel. [malloc_at] is [None]
    for a null pointer; a new block is not at an address in use. [stale_info] is
    what a block of [malloc] holds, read as a description of an object.
    [dl_iterate_phdr] calls its callback for the objects of the process until one
    call returns a value other than 0, which is its result: the objects still to be
    visited are an argument here. *)
Class Libc : Type := {
  malloc_at : ustate -> option Z;
  stale_info : Z -> load_info;
  fopen_at : ustate -> Z;                 (* the stream, 0 for NULL *)
  errno_at : ustate -> Z;
  ioctl_at : ustate -> Z -> Z -> Z -> Z;  (* ioctl(fileno(stream), request, argument) *)
  dl_iterate_phdr : (dl_phdr_info -> extract_data -> U (Z * extract_data)) -> list dl_phdr_info ->
    extract_data -> U (Z * extract_data);
  malloc_fresh : forall s a, malloc_at s = Some a -> a <> 0 /\ heap s !! a = None;
  dl_iterate_nil : forall cb data s, dl_iterate_phdr cb [] data s = Ok (0, data, s);
  dl_iterate_cons : forall cb info objs data s, dl_iterate_phdr cb (info :: objs) data s =
    ('(r, data) ← cb info data; if r =? 0 then dl_iterate_phdr cb objs data else mret (r, data)) s
}.

Section lib.
Context `{LC : Libc}.

Definition malloc (o : Z -> object) : U Z := fun s =>
  match malloc_at s with
  | Some a => Ok (a, mk_u (<[a := o a]> (heap s)) (streams s))
  | None => Ok (0, s)
  end.

(** An access through a pointer. *)
Definition access (a : Z) : U object := fun s =>
  match heap s !! a with Some o => Ok (o, s) | None => Crash (PageFault a) end.
Definition assign (a : Z) (o : object) : U unit := fun s =>
  match heap s !! a with Some _ => Ok (tt, mk_u (<[a := o]> (heap s)) (streams s)) | None => Crash (PageFault a) end.
Definition free (a : Z) : U unit := fun s =>
  if a =? 0 then Ok (tt, s)
  else match heap s !! a with
       | Some _ => Ok (tt, mk_u (delete a (heap s)) (streams s))
       | None => Crash (PageFault a)
       end.
Definition crash_at {A} (a : Z) : U A := fun _ => Crash (PageFault a).

(** ** find_proc_info.c *)

(** The loop over the program headers. *)
Fixpoint find_phdrs (l : list elf_phdr) (eh_phdr : option elf_phdr) (dyn : bool) (features : nat)
    : option elf_phdr * bool :=
  match l with
  | [] => (eh_phdr, dyn)
  | ph :: l =>
    let '(eh_phdr, dyn, features) :=
      if ph_type ph =? PT_GNU_EH_FRAME then (Some ph, dyn, S features)
      else if ph_type ph =? PT_DYNAMIC then (eh_phdr, true, S features)
      else (eh_phdr, dyn, features) in
    if (2 <=? features)%nat then (eh_phdr, dyn) else find_phdrs l eh_phdr dyn features
  end.

Definition ERR_NO_EH_PHDR : Z := 1.

(** The members the function sets; the others keep what the block held. *)
Definition fill_info (a : Z) (info : dl_phdr_info) (ph : elf_phdr) (dyn : bool) : load_info :=
  mk_load_info (dlpi_addr info) (u64 (dlpi_addr info + ph_vaddr ph)) (ph_memsz ph)
    (eh_frame_addr (stale_info a)) (eh_frame_size (stale_info a)) dyn.

Definition set_next (o : object) (next : Z) : object :=
  match o with ONode info _ => ONode info next | o => o end.

(** [extract_unwind_info(info, size, data)]. The result of [malloc] is not
    tested. *)
Definition extract_unwind_info (info : dl_phdr_info) (data : extract_data) : U (Z * extract_data) :=
  let '(eh_phdr, dyn) := find_phdrs (dlpi_phdr info) None false 0 in
  match eh_phdr with
  | None => mret (- ERR_NO_EH_PHDR, data)
  | Some ph =>
    elem ← malloc (fun a => ONode (fill_info a info ph dyn) 0);
    if elem =? 0 then crash_at 0
    else if list_head data =? 0 then mret (0, mk_ed elem elem 1)
    else
      tail ← access (list_tail data);
      _ ← assign (list_tail data) (set_next tail elem);
      mret (0, mk_ed (list_head data) elem (ed_nr data + 1))
  end.

(** [free_load_info_list]: the [do ... while (next)] loop, one round per node of
    the list and one for a null list. *)
Fixpoint free_load_info_list (fuel : nat) (next : Z) : U unit :=
  match fuel with
  | O => fun _ => Crash OutOfFuel
  | S fuel =>
    let list := next in
    node ← access list;
    let next := match node with ONode _ next => next | _ => 0 end in
    _ ← free list;
    if negb (next =? 0) then free_load_info_list fuel next else mret tt
  end.

(** The loop that copies the descriptions. *)
Fixpoint copy_infos (fuel : nat) (elem : Z) : U (list load_info) :=
  match fuel with
  | O => fun _ => Crash OutOfFuel
  | S fuel =>
    if elem =? 0 then mret []
    else
      node ← access elem;
      match node with
      | ONode info next => rest ← copy_infos fuel next; mret (info :: rest)
      | _ => crash_at elem
      end
  end.

(** [sizeof(struct load_info)] and [sizeof(struct proc_info)]. *)
Definition SIZEOF_LOAD_INFO : Z := 104.
Definition SIZEOF_PROC_INFO : Z := 8.

(** [find_proc_info()] in a process whose objects are [objs]. *)
Definition find_proc_info (objs : list dl_phdr_info) : U Z :=
  '(err, data) ← dl_iterate_phdr extract_unwind_info objs (mk_ed 0 0 0);
  let fuel := S (S (length objs)) in
  if negb (err =? 0) then
    _ ← free_load_info_list fuel (list_head data); mret 0
  else
    let size := SIZEOF_PROC_INFO + ed_nr data * SIZEOF_LOAD_INFO in
    p ← malloc (fun _ => OProcInfo (u32 size) (u32 (ed_nr data)) []);
    if p =? 0 then crash_at 0
    else
      infos ← copy_infos fuel (list_head data);
      _ ← assign p (OProcInfo (u32 size) (u32 (ed_nr data)) infos);
      _ ← free_load_info_list fuel (list_head data);
      mret p.

(** ** libkunwind.c *)

Definition calloc (o : object) : U Z := malloc (fun _ => o).

(** [max_entries] is an int that [calloc] and the structure take as unsigned; a
    negative one is a size no array has, which [calloc] refuses. *)
Definition kunwind_backtrace_new (max : Z) : U Z :=
  if max =? 0 then mret 0
  else
    bt ← calloc (OBacktrace 0 0 0);
    if bt =? 0 then mret 0
    else
      entries ← (if max <? 0 then mret 0 else calloc (OEntries (replicate (Z.to_nat max) 0)));
      if entries =? 0 then _ ← free bt; mret 0
      else _ ← assign bt (OBacktrace (u32 max) 0 entries); mret bt.

Definition kunwind_backtrace_free (bt : Z) : U unit :=
  _ ← (if bt =? 0 then mret tt
       else o ← access bt;
            match o with OBacktrace _ _ entries => free entries | _ => crash_at bt end);
  free bt.

Definition fopen : U Z := fun s =>
  let f := fopen_at s in
  Ok (f, if f =? 0 then s else mk_u (heap s) (f :: streams s)).

Fixpoint close_stream (f : Z) (l : list Z) : list Z :=
  match l with [] => [] | x :: l => if x =? f then l else x :: close_stream f l end.
Definition fclose (f : Z) : U unit := fun s => Ok (tt, mk_u (heap s) (close_stream f (streams s))).
Definition errno : U Z := fun s => Ok (errno_at s, s).
Definition ioctl (f request arg : Z) : U Z := fun s => Ok (ioctl_at s f request arg, s).

Definition PROC_INFO_REQUEST : Z := 0xF691.
Definition UNWIND_REQUEST : Z := 0xF692.

(** [kunwind_init_proc_info(handle, proc_info)]: the result and what is stored in
    [*handle], if anything. The stream is not closed when the ioctl fails. *)
Definition kunwind_init_proc_info (proc_info : Z) : U (Z * option Z) :=
  fd ← fopen;
  if fd =? 0 then e ← errno; mret (e, None)
  else
    ret ← ioctl fd PROC_INFO_REQUEST proc_info;
    if ret <? 0 then mret (ret, None)
    else
      handle ← calloc (OHandle 0);
      if handle =? 0 then _ ← fclose fd; mret (- ENOMEM, Some 0)
      else _ ← assign handle (OHandle fd); mret (ret, Some handle).

Definition kunwind_open : U (Z * option Z) := kunwind_init_proc_info 0.

Definition kunwind_backtrace_request (handle bt : Z) : U Z :=
  o ← access handle;
  match o with OHandle fd => ioctl fd UNWIND_REQUEST bt | _ => crash_at handle end.

Definition kunwind_close (handle : Z) : U unit :=
  if handle =? 0 then mret tt
  else
    o ← access handle;
    match o with OHandle fd => _ ← fclose fd; free handle | _ => crash_at handle end.
End lib.
