(* ===== verification/UserLibSpec.v ===== *)
(** * What the user library promises

    [find_proc_info] builds the list of the objects and gives it back; the
    structure it returns says of each object what [describes] demands and is read by
    the kernel as it was written; the two scans of the program headers agree; and a
    handle gives back what it took. *)
From S2P Require Import Prelude Machine KModule HashTable Cache Step Modules DemoProcess ModulesSpec LoaderSpec.
From S2P Require Import ProcFile UserLib.

Section lists.

(** A list of nodes with their addresses, linked on top of the heap [h]. *)
Definition head_addr (l : list (Z * load_info)) : Z := match l with [] => 0 | (a, _) :: _ => a end.
Fixpoint list_heap (l : list (Z * load_info)) (h : gmap Z object) : gmap Z object :=
  match l with
  | [] => h
  | (a, info) :: l => <[a := (ONode info (head_addr l))]> (list_heap l h)
  end.
Record linked (l : list (Z * load_info)) (h : gmap Z object) : Prop := {
  lk_nodup : NoDup (map fst l);
  lk_fresh : forall a info, elem_of (a, info) l -> a <> 0 /\ h !! a = None
}.

Lemma linked_cons a info l h : linked ((a, info) :: l) h ->
  a <> 0 /\ h !! a = None /\ (a ∉ map fst l) /\ linked l h.
Proof.
  intros [N F]. simpl in N. apply NoDup_cons in N as [Na Nl].
  destruct (F a info ltac:(left)) as [Ha Hh]. split_and!; try assumption.
  constructor; [exact Nl|]. intros b i Hb. apply (F b i). right. exact Hb.
Qed.

Lemma list_heap_other l h a : a ∉ map fst l -> list_heap l h !! a = h !! a.
Proof.
  induction l as [|[b i] l IH]; intros N; [reflexivity|]. simpl in *. rewrite elem_of_cons in N.
  rewrite lookup_insert_ne by (intros ->; apply N; auto). apply IH. intros Hin. apply N. auto.
Qed.

Lemma list_heap_insert l h a o : a ∉ map fst l -> list_heap l (<[a := o]> h) = <[a := o]> (list_heap l h).
Proof.
  induction l as [|[b i] l IH]; intros N; [reflexivity|]. simpl in *. rewrite elem_of_cons in N.
  rewrite IH by (intros Hin; apply N; auto). apply insert_insert_ne. intros ->. apply N. auto.
Qed.

(** Linking one more node behind the last. *)
Lemma list_heap_snoc l t it x ix h :
  linked (l ++ [(t, it)]) h -> x ∉ map fst (l ++ [(t, it)]) ->
  list_heap (l ++ [(t, it); (x, ix)]) h =
    <[t := ONode it x]> (<[x := ONode ix 0]> (list_heap (l ++ [(t, it)]) h)).
Proof.
  induction l as [|[a i] l IH]; intros L N; simpl in *.
  - rewrite elem_of_cons in N. rewrite (insert_insert_ne _ x t) by (intros ->; apply N; auto).
    rewrite insert_insert_eq. reflexivity.
  - apply linked_cons in L as (_ & _ & Ha & L). rewrite elem_of_cons in N.
    rewrite IH by (auto || intros Hin; apply N; auto). rewrite map_app in *. simpl in *.
    rewrite elem_of_app, elem_of_cons in Ha, N.
    replace (head_addr (l ++ [(t, it); (x, ix)])) with (head_addr (l ++ [(t, it)])) by (destruct l as [|[]]; reflexivity).
    rewrite (insert_insert_ne _ a t) by (intros ->; apply Ha; auto).
    rewrite (insert_insert_ne _ a x) by (intros ->; apply N; auto). reflexivity.
Qed.
End lists.

(** ** [find_proc_info] *)

Section find.
Context `{LC : Libc}.

Lemma U_bind_at {A B} (m : U A) (g : A -> U B) s a s' : m s = Ok (a, s') -> (m ≫= g) s = g a s'.
Proof. intros E. unfold mbind, U_bind. rewrite E. reflexivity. Qed.

Lemma U_bind_crash {A B} (m : U A) (g : A -> U B) s c : m s = Crash c -> (m ≫= g) s = Crash c.
Proof. intros E. unfold mbind, U_bind. rewrite E. reflexivity. Qed.

Definition last_addr (l : list (Z * load_info)) : Z := match last l with Some (a, _) => a | None => 0 end.
Definition data_of (l : list (Z * load_info)) : extract_data :=
  mk_ed (head_addr l) (last_addr l) (Z.of_nat (length l)).

(** What the function puts into the node at [a]. *)
Definition describe (a : Z) (info : dl_phdr_info) : option load_info :=
  match find_phdrs (dlpi_phdr info) None false 0 with
  | (Some ph, dyn) => Some (fill_info a info ph dyn)
  | (None, _) => None
  end.
Definition has_header (info : dl_phdr_info) : Prop := is_Some (fst (find_phdrs (dlpi_phdr info) None false 0)).

Lemma node_at l h a i : linked l h -> (a, i) ∈ l -> exists o, list_heap l h !! a = Some o.
Proof.
  intros L. induction l as [|[b j] l IH]; intros Hin; [inversion Hin|]. simpl.
  apply elem_of_cons in Hin as [[= -> ->]|Hin]; [rewrite lookup_insert_eq; eauto|].
  apply linked_cons in L as (_ & _ & Hb & L).
  rewrite lookup_insert_ne; [apply IH; assumption|]. intros ->. apply Hb. apply list_elem_of_fmap. exists (a, i). auto.
Qed.

Lemma linked_snoc l h s a i :
  linked l h -> heap s = list_heap l h -> malloc_at s = Some a -> linked (l ++ [(a, i)]) h /\ a ∉ map fst l.
Proof.
  intros L E M. apply malloc_fresh in M as [Ha Hn]. rewrite E in Hn.
  assert (N : a ∉ map fst l).
  { intros Hin. apply list_elem_of_fmap in Hin as ([b j] & -> & Hin). destruct (node_at l h b j L Hin). simpl in *. congruence. }
  split; [|exact N]. rewrite list_heap_other in Hn by exact N. destruct L as [Ln Lf]. constructor.
  - rewrite map_app. apply NoDup_app. split_and!; [exact Ln| |apply NoDup_singleton].
    intros x Hx. simpl. rewrite elem_of_cons, elem_of_nil. intros [-> | []]. exact (N Hx).
  - intros b j Hin. apply elem_of_app in Hin as [Hin|Hin]; [eapply Lf, Hin|].
    apply elem_of_cons in Hin as [[= -> ->]|Hin]; [auto|inversion Hin].
Qed.

Lemma extract_adds l h s info i :
  heap s = list_heap l h -> linked l h -> (forall a, malloc_at s = Some a -> describe a info = Some (i a)) ->
  malloc_at s <> None ->
  exists a, malloc_at s = Some a /\ linked (l ++ [(a, i a)]) h /\
    extract_unwind_info info (data_of l) s =
      Ok (0, data_of (l ++ [(a, i a)]), mk_u (list_heap (l ++ [(a, i a)]) h) (streams s)).
Proof.
  intros E L D M. destruct (malloc_at s) as [a|] eqn:Em; [|contradiction]. specialize (D a eq_refl).
  exists a. split; [reflexivity|]. destruct (linked_snoc l h s a (i a) L E Em) as [L' N]. split; [exact L'|].
  destruct (malloc_fresh s a Em) as [Ha Hn].
  unfold extract_unwind_info, describe in *. destruct (find_phdrs _ _ _ _) as [[ph|] dyn]; [|discriminate].
  injection D as Ei. unfold mbind, U_bind, malloc. rewrite Em. destruct (Z.eqb_spec a 0); [contradiction|].
  rewrite Ei, E. destruct (list_eq_nil_dec l) as [->|Hl].
  - reflexivity.
  - destruct (exists_last Hl) as (l0 & [t it] & ->). cbn [list_head data_of].
    assert (Hh : head_addr (l0 ++ [(t, it)]) <> 0).
    { destruct l0 as [|[b j] l0]; simpl; eapply (lk_fresh _ _ L); [left|left]. }
    apply Z.eqb_neq in Hh. rewrite Hh. unfold data_of, last_addr. rewrite last_snoc. cbn [list_tail].
    assert (Ht : list_heap (l0 ++ [(t, it)]) h !! t = Some (ONode it 0)).
    { clear -L. induction l0 as [|[b j] l0 IH]; simpl in *; [apply lookup_insert_eq|].
      apply linked_cons in L as (_ & _ & Hb & L). rewrite lookup_insert_ne; [apply IH, L|].
      intros ->. apply Hb. rewrite map_app. apply elem_of_app. right. left. }
    assert (Hta : a <> t) by (intros ->; congruence).
    unfold access, assign. cbn [heap streams]. rewrite lookup_insert_ne, Ht by exact Hta. cbn [heap streams].
    rewrite lookup_insert_ne, Ht by exact Hta. unfold mret, U_ret. cbn [set_next ed_nr].
    rewrite <- app_assoc. cbn [app]. rewrite (list_heap_snoc l0 t it a (i a) h L N).
    rewrite !length_app. cbn [length]. rewrite (app_assoc l0 [(t, it)] [(a, i a)] : l0 ++ [(t, it); (a, i a)] = _), last_snoc.
    do 3 f_equal. f_equal; [destruct l0 as [|[]]; reflexivity|lia].
Qed.

(** The walk over objects that all have a header. *)
Lemma iterate_adds objs : forall rest l h s,
  (forall s, malloc_at s <> None) -> Forall has_header objs -> heap s = list_heap l h -> linked l h ->
  exists l', Forall2 (fun info p => describe (fst p) info = Some (snd p)) objs l' /\ linked (l ++ l') h /\
    dl_iterate_phdr extract_unwind_info (objs ++ rest) (data_of l) s =
      dl_iterate_phdr extract_unwind_info rest (data_of (l ++ l')) (mk_u (list_heap (l ++ l') h) (streams s)).
Proof.
  induction objs as [|info objs IH]; intros rest l h s M F E L.
  { exists []. rewrite app_nil_r. split; [constructor|]. split; [exact L|]. destruct s. simpl in *. rewrite E. reflexivity. }
  inversion F as [|? ? Hi F']. subst. destruct Hi as [ph Hph].
  destruct (find_phdrs (dlpi_phdr info) None false 0) as [eh dyn] eqn:Ef. simpl in Hph. subst eh.
  destruct (extract_adds l h s info (fun a => fill_info a info ph dyn) E L) as (a & Ea & L' & Ex); [|apply M|].
  { intros a _. unfold describe. rewrite Ef. reflexivity. }
  cbn [app]. rewrite dl_iterate_cons. unfold mbind, U_bind. rewrite Ex. cbn [Z.eqb].
  destruct (IH rest (l ++ [(a, fill_info a info ph dyn)]) h
    (mk_u (list_heap (l ++ [(a, fill_info a info ph dyn)]) h) (streams s)) M F' eq_refl L') as (l' & F2 & L'' & Ei).
  rewrite Ei. cbn [streams]. exists ((a, fill_info a info ph dyn) :: l'). rewrite <- app_assoc in *. cbn [app] in *.
  split; [|split; [exact L''|reflexivity]]. constructor; [|exact F2]. unfold describe. rewrite Ef. reflexivity.
Qed.

Lemma free_list_at l : forall fuel h s,
  l <> [] -> linked l h -> heap s = list_heap l h -> (length l <= fuel)%nat ->
  free_load_info_list fuel (head_addr l) s = Ok (tt, mk_u h (streams s)).
Proof.
  induction l as [|[a i] l IH]; intros fuel h s Hne L E Hf; [contradiction|].
  destruct fuel as [|fuel]; [simpl in Hf; lia|]. apply linked_cons in L as (Ha & Hh & Hn & L).
  cbn [free_load_info_list head_addr]. unfold mbind, U_bind, access, free. rewrite E. cbn [list_heap].
  rewrite lookup_insert_eq. destruct (Z.eqb_spec a 0); [contradiction|]. rewrite E. cbn [list_heap].
  rewrite lookup_insert_eq, delete_insert_eq, delete_id by (rewrite list_heap_other by exact Hn; exact Hh).
  destruct (list_eq_nil_dec l) as [->|Hl].
  - reflexivity.
  - assert (H0 : head_addr l <> 0).
    { destruct l as [|[b j] l]; [contradiction|]. simpl. apply (lk_fresh _ _ L b j). left. }
    apply Z.eqb_neq in H0. rewrite H0. cbn [negb]. rewrite IH with (h := h); [reflexivity|exact Hl|exact L|reflexivity|].
    simpl in Hf. lia.
Qed.

Lemma copy_infos_at l : forall fuel h s,
  linked l h -> heap s = list_heap l h -> (length l < fuel)%nat ->
  copy_infos fuel (head_addr l) s = Ok (map snd l, s).
Proof.
  assert (G : forall fuel h hs s, linked l h -> heap s = hs ->
    (forall k a i, l !! k = Some (a, i) -> hs !! a = Some (ONode i (head_addr (drop (S k) l)))) ->
    (length l < fuel)%nat -> copy_infos fuel (head_addr l) s = Ok (map snd l, s)).
  { induction l as [|[a i] l IH]; intros fuel h hs s L E Hl Hf;
      (destruct fuel as [|fuel]; [simpl in Hf; lia|]); [reflexivity|].
    apply linked_cons in L as (Ha & _ & _ & L). cbn [copy_infos head_addr]. destruct (Z.eqb_spec a 0); [contradiction|].
    unfold mbind, U_bind, access. rewrite E, (Hl 0%nat a i eq_refl).
    change (drop 1 ((a, i) :: l)) with l. cbn beta iota.
    rewrite (IH fuel h hs s L E); [reflexivity| |simpl in Hf; lia].
    intros k b j Hk. exact (Hl (S k) b j Hk). }
  intros fuel h s L E Hf. eapply G; [exact L|exact E| |exact Hf]. clear -L.
  induction l as [|[a i] l IH]; intros k b j Hk; [discriminate|].
  apply linked_cons in L as (_ & _ & Hn & L). cbn [list_heap]. destruct k as [|k].
  - injection Hk as <- <-. apply lookup_insert_eq.
  - simpl in Hk. rewrite lookup_insert_ne; [apply IH; assumption|]. intros ->. apply Hn.
    apply list_elem_of_fmap. exists (b, j). split; [reflexivity|]. eapply list_elem_of_lookup_2, Hk.
Qed.

Lemma find_proc_info_at objs s :
  objs <> [] -> Forall has_header objs -> (forall s, malloc_at s <> None) -> 8 + 104 * Z.of_nat (length objs) < 2 ^ 32 ->
  exists p nodes, heap s !! p = None /\ p <> 0 /\
    Forall2 (fun info x => describe (fst x) info = Some (snd x)) objs nodes /\
    find_proc_info objs s = Ok (p, mk_u
      (<[p := OProcInfo (8 + 104 * Z.of_nat (length objs)) (Z.of_nat (length objs)) (map snd nodes)]> (heap s))
      (streams s)).
Proof.
  intros Hne F M Hsz. destruct (iterate_adds objs [] [] (heap s) s M F eq_refl) as (l & F2 & L & Ei).
  { constructor; [constructor|]. intros a i Hin. inversion Hin. }
  rewrite app_nil_r, dl_iterate_nil in Ei. simpl app in *.
  pose proof (Forall2_length _ _ _ F2) as Hlen.
  assert (Hl : l <> []) by (intros ->; destruct objs; [contradiction|discriminate]).
  unfold find_proc_info, mbind, U_bind. change (mk_ed 0 0 0) with (data_of []). rewrite Ei. cbn [Z.eqb negb].
  set (s1 := mk_u (list_heap l (heap s)) (streams s)).
  destruct (malloc_at s1) as [p|] eqn:Ep; [|destruct (M s1 Ep)]. destruct (malloc_fresh s1 p Ep) as [Hp Hn].
  assert (N : p ∉ map fst l).
  { intros Hin. apply list_elem_of_fmap in Hin as ([b j] & -> & Hin). destruct (node_at l (heap s) b j L Hin).
    simpl in *. congruence. }
  simpl in Hn. rewrite list_heap_other in Hn by exact N.
  unfold malloc at 1. rewrite Ep. destruct (Z.eqb_spec p 0); [contradiction|].
  assert (Lp : forall o, linked l (<[p := o]> (heap s))).
  { intros o. destruct L as [Ln Lf]. constructor; [exact Ln|]. intros a i Hin. destruct (Lf a i Hin) as [Ha Hh].
    split; [exact Ha|]. rewrite lookup_insert_ne; [exact Hh|]. intros ->. apply N, list_elem_of_fmap. exists (a, i). auto. }
  cbn [heap streams s1 data_of list_head ed_nr]. rewrite <- list_heap_insert by exact N.
  erewrite (copy_infos_at l) by (eapply Lp || reflexivity || lia).
  unfold assign. cbn [heap streams]. rewrite list_heap_other, lookup_insert_eq by exact N.
  rewrite <- list_heap_insert, insert_insert_eq by exact N.
  erewrite (free_list_at l) by (exact Hl || eapply Lp || reflexivity || lia).
  exists p, l. split_and!; [exact Hn|exact Hp|exact F2|]. unfold mret, U_ret. cbn [streams].
  unfold SIZEOF_PROC_INFO, SIZEOF_LOAD_INFO. rewrite <- Hlen.
  unfold u32. rewrite (Z.mul_comm _ 104), !Z.mod_small by lia. reflexivity.
Qed.

(** An object without a header ends the walk and the library gives up on all of
    them. When it is the first object, the list is still empty and giving it back
    dereferences a null pointer. *)
Theorem find_proc_info_gives_up pre bad post s :
  Forall has_header pre -> ~ has_header bad -> (forall s, malloc_at s <> None) -> heap s !! 0 = None ->
  find_proc_info (pre ++ bad :: post) s = match pre with [] => Crash (PageFault 0) | _ => Ok (0, s) end.
Proof.
  intros F Hbad M H0. destruct (iterate_adds pre (bad :: post) [] (heap s) s M F eq_refl) as (l & F2 & L & Ei).
  { constructor; [constructor|]. intros a i Hin. inversion Hin. }
  simpl app in L, Ei. pose proof (Forall2_length _ _ _ F2) as Hlen.
  set (s1 := mk_u (list_heap l (heap s)) (streams s)) in *.
  assert (Ed : dl_iterate_phdr extract_unwind_info (pre ++ bad :: post) (mk_ed 0 0 0) s =
    Ok (- ERR_NO_EH_PHDR, data_of l, s1)).
  { change (mk_ed 0 0 0) with (data_of []). rewrite Ei, dl_iterate_cons.
    rewrite (U_bind_at _ _ s1 (- ERR_NO_EH_PHDR, data_of l) s1); [reflexivity|]. unfold extract_unwind_info.
    unfold has_header in Hbad. destruct (find_phdrs (dlpi_phdr bad) None false 0) as [[ph|] dyn]; [|reflexivity].
    exfalso. apply Hbad. simpl. eauto. }
  unfold find_proc_info. rewrite (U_bind_at _ _ s _ _ Ed).
  change (negb (- ERR_NO_EH_PHDR =? 0)) with true. cbv iota.
  destruct pre as [|x pre].
  - destruct l; [|discriminate]. apply U_bind_crash. cbn [free_load_info_list data_of list_head head_addr].
    apply U_bind_crash. unfold access. cbn [heap s1 list_heap]. rewrite H0. reflexivity.
  - assert (Hl : l <> []) by (intros ->; discriminate).
    rewrite (U_bind_at _ _ s1 tt s); [reflexivity|]. cbn [data_of list_head].
    erewrite (free_list_at l _ (heap s)); [|exact Hl|exact L|reflexivity|rewrite length_app; simpl in *; lia].
    destruct s. reflexivity.
Qed.
End find.

(** ** The two scans of the program headers *)

(** The library's scan of a table with at most one header of each kind. *)
Lemma find_phdrs_first l : forall eh dyn,
  (length (List.filter is_eh l) + (if eh is Some _ then 1 else 0) <= 1)%nat ->
  (length (List.filter is_dyn l) + Nat.b2n dyn <= 1)%nat ->
  (if eh is Some _ then dyn = false else True) ->
  find_phdrs l eh dyn ((if eh is Some _ then 1 else 0) + Nat.b2n dyn) =
    (match eh with Some ph => Some ph | None => List.find is_eh l end, dyn || existsb is_dyn l).
Proof.
  induction l as [|ph l IH]; intros eh dyn He Hd Hx; cbn [find_phdrs List.find existsb].
  { rewrite orb_false_r. destruct eh; reflexivity. }
  simpl in He, Hd. fold (is_eh ph) (is_dyn ph) in *.
  destruct (is_eh ph) eqn:E.
  - simpl in He. destruct eh as [a|]; [lia|].
    replace (is_dyn ph) with false in * by (unfold is_eh, is_dyn in *; apply Z.eqb_eq in E; rewrite E; reflexivity).
    destruct dyn; [reflexivity|]. cbn [orb]. apply (IH (Some ph) false); simpl; [lia|lia|reflexivity].
  - destruct (is_dyn ph).
    + simpl in Hd. destruct dyn; [simpl in Hd; lia|]. destruct eh as [a|]; [reflexivity|].
      apply (IH None true); simpl; [lia|lia|exact I].
    + cbn [orb]. assert (N : ((if eh is Some _ then 1 else 0) + Nat.b2n dyn <= 1)%nat)
        by (destruct eh; [subst dyn; simpl; lia|destruct dyn; simpl; lia]).
      destruct (Nat.leb_spec 2 ((if eh is Some _ then 1 else 0) + Nat.b2n dyn)); [lia|]. apply IH; assumption.
Qed.

(** ** What a description says *)

(** An object as the linkers make it: one PT_GNU_EH_FRAME program header and at most
    one PT_DYNAMIC. *)
Definition well_headed (info : dl_phdr_info) : Prop :=
  length (List.filter is_eh (dlpi_phdr info)) = 1%nat /\ (length (List.filter is_dyn (dlpi_phdr info)) <= 1)%nat.

(** The members the kernel relies on: where the object is loaded, the address and the
    size of its .eh_frame_hdr, which is the segment of that type, and whether it has
    a dynamic section. *)
Record describes (info : dl_phdr_info) (i : load_info) : Prop := {
  ds_addr : obj_addr i = dlpi_addr info;
  ds_hdr : exists ph, List.find is_eh (dlpi_phdr info) = Some ph /\
    eh_frame_hdr_ubuf i = u64 (dlpi_addr info + ph_vaddr ph) /\ eh_frame_hdr_size i = ph_memsz ph;
  ds_dynamic : dynamic i = true <-> exists ph, ph ∈ dlpi_phdr info /\ ph_type ph = PT_DYNAMIC
}.

(** The address and the size of .eh_frame are never set: they are what the block at
    [a] held when it was allocated. *)
Definition left_over `{LC : Libc} (a : Z) (i : load_info) : Prop :=
  eh_frame_addr i = eh_frame_addr (stale_info a) /\ eh_frame_size i = eh_frame_size (stale_info a).

Lemma well_headed_find info : well_headed info -> exists ph, List.find is_eh (dlpi_phdr info) = Some ph /\
  find_phdrs (dlpi_phdr info) None false 0 = (Some ph, existsb is_dyn (dlpi_phdr info)).
Proof.
  intros [He Hd]. pose proof (find_phdrs_first (dlpi_phdr info) None false ltac:(cbn; lia) ltac:(cbn; lia) I) as F. cbn [Nat.add Nat.b2n orb] in F.
  destruct (List.find is_eh (dlpi_phdr info)) as [ph|] eqn:E; [exists ph; auto|]. exfalso.
  destruct (List.filter is_eh (dlpi_phdr info)) as [|ph l] eqn:Ef; [discriminate|].
  assert (Hin : In ph (List.filter is_eh (dlpi_phdr info))) by (rewrite Ef; left; reflexivity).
  apply filter_In in Hin as [Hin Hp]. rewrite (List.find_none _ _ E ph Hin) in Hp. discriminate.
Qed.

Lemma well_headed_header info : well_headed info -> has_header info.
Proof. intros W. destruct (well_headed_find info W) as (ph & _ & E). unfold has_header. rewrite E. eauto. Qed.

Lemma describe_describes `{LC : Libc} info a i :
  well_headed info -> describe a info = Some i -> describes info i /\ left_over a i.
Proof.
  intros W D. destruct (well_headed_find info W) as (ph & Ef & E). unfold describe in D. rewrite E in D. injection D as <-.
  split; [|split; reflexivity]. constructor; [reflexivity|exists ph; auto|].
  cbn [dynamic fill_info]. rewrite existsb_exists. unfold is_dyn.
  split; intros (x & Hx & Ht); exists x; (split; [apply list_elem_of_In, Hx|apply Z.eqb_eq, Ht]).
Qed.

Lemma find_proc_info_nodes `{LC : Libc} objs s :
  objs <> [] -> Forall well_headed objs -> (forall s, malloc_at s <> None) -> 8 + 104 * Z.of_nat (length objs) < 2 ^ 32 ->
  exists p nodes, heap s !! p = None /\ p <> 0 /\
    Forall2 (fun info x => describes info (snd x) /\ left_over (fst x) (snd x)) objs nodes /\
    find_proc_info objs s = Ok (p, mk_u
      (<[p := OProcInfo (8 + 104 * Z.of_nat (length objs)) (Z.of_nat (length objs)) (map snd nodes)]> (heap s))
      (streams s)).
Proof.
  intros Hne F M Hsz.
  assert (F' : Forall has_header objs) by (eapply Forall_impl; [exact F|apply well_headed_header]).
  destruct (find_proc_info_at objs s Hne F' M Hsz) as (p & nodes & Hp & H0 & G & E).
  exists p, nodes. split; [exact Hp|]. split; [exact H0|]. split; [|exact E]. clear -F G.
  induction G as [|info x objs nodes Hd _ IH]; [constructor|]. inversion F; subst.
  constructor; [apply describe_describes; assumption|apply IH; assumption].
Qed.

(** C25: When every object has one .eh_frame_hdr segment and [malloc] never fails,
    [find_proc_info] returns a new structure with one entry per object, in the order
    of the walk, that gives the address of the object, the address and the size of
    that segment and whether there is a dynamic one; the two members that would say
    where .eh_frame is hold what the blocks of the list held; and the list is given
    back: nothing else of the heap has changed. *)
Theorem find_proc_info_describes `{LC : Libc} objs s :
  objs <> [] -> Forall well_headed objs -> (forall s, malloc_at s <> None) -> 8 + 104 * Z.of_nat (length objs) < 2 ^ 32 ->
  exists p nodes, heap s !! p = None /\ p <> 0 /\
    Forall2 (fun info x => describes info (snd x) /\ left_over (fst x) (snd x)) objs nodes /\
    find_proc_info objs s = Ok (p, mk_u
      (<[p := OProcInfo (8 + 104 * Z.of_nat (length objs)) (Z.of_nat (length objs)) (map snd nodes)]> (heap s))
      (streams s)).
Proof. apply find_proc_info_nodes. Qed.

(** C31: The scan of the program headers in the kernel and the one in the library,
    which stop at different headers, find the same: the .eh_frame_hdr segment, or
    none, and whether there is a dynamic segment, for a table with at most one header
    of each kind. *)
Theorem scans_agree `{K : Kernel} p l :
  bytes_at p (phdr_table l) -> p + 56 * Z.of_nat (length l) <= ptr_limit -> Forall phdr_ok l ->
  (length (List.filter is_eh l) <= 1)%nat -> (length (List.filter is_dyn l) <= 1)%nat ->
  find_phdrs l None false 0 = (List.find is_eh l, existsb is_dyn l) /\
  exists a, scan_phdrs (length l) p None false = Ok (a, existsb is_dyn l) /\
    match a with
    | Some a => exists i ph, l !! i = Some ph /\ List.find is_eh l = Some ph /\ a = p + 56 * Z.of_nat i
    | None => List.find is_eh l = None
    end.
Proof.
  intros B Hl F He Hd. split.
  - apply (find_phdrs_first l None false); simpl; [lia|lia|exact I].
  - rewrite (scan_table l p None false B Hl F) by (exact I || lia). cbn [orb]. eexists. split; [reflexivity|].
    destruct (eh_address p l) as [a|] eqn:E.
    + destruct (eh_address_find p l a E) as (i & ph & Hi & Hf & ->). eauto.
    + apply (eh_address_none p l E).
Qed.

(** ** The structure the kernel reads *)

(** The bytes of a [struct load_info]: [bits] are the other bits of the byte of
    [dynamic] and [rest] the path and the padding. *)
Record laid_out : Type := mk_laid { lo_info : load_info; lo_bits : Z; lo_rest : list Z }.
Definition load_info_bytes (x : laid_out) : list Z :=
  let i := lo_info x in
  le_bytes 8 (obj_addr i) ++ le_bytes 8 (eh_frame_hdr_ubuf i) ++ le_bytes 8 (eh_frame_hdr_size i) ++
  le_bytes 8 (eh_frame_addr i) ++ le_bytes 8 (eh_frame_size i) ++
  le_bytes 1 (Z.b2z (dynamic i) + 2 * lo_bits x) ++ lo_rest x.
Definition proc_info_bytes (size nr : Z) (l : list laid_out) : list Z :=
  le_bytes 4 size ++ le_bytes 4 nr ++ concat (map load_info_bytes l).
Definition laid_ok (x : laid_out) : Prop :=
  let i := lo_info x in
  is_u64 (obj_addr i) /\ is_u64 (eh_frame_hdr_ubuf i) /\ is_u64 (eh_frame_hdr_size i) /\
  is_u64 (eh_frame_addr i) /\ is_u64 (eh_frame_size i) /\ 0 <= lo_bits x < 128 /\ length (lo_rest x) = 63%nat.

Lemma length_load_info_bytes x : laid_ok x -> length (load_info_bytes x) = 104%nat.
Proof. intros (_ & _ & _ & _ & _ & _ & H). unfold load_info_bytes. rewrite !length_app, !length_le_bytes, H. reflexivity. Qed.

Lemma decode_load_info_bytes x tail : laid_ok x -> decode_load_info (load_info_bytes x ++ tail) = lo_info x.
Proof.
  intros (H1 & H2 & H3 & H4 & H5 & H6 & _). unfold is_u64 in *. unfold decode_load_info, load_info_bytes.
  rewrite <- !app_assoc. destruct x as [[a b c d e dyn] bits rest]. cbn [lo_info lo_bits lo_rest obj_addr
    eh_frame_hdr_ubuf eh_frame_hdr_size eh_frame_addr eh_frame_size dynamic] in *.
  assert (0 <= Z.b2z dyn <= 1) by (destruct dyn; simpl; lia).
  assert (Z.odd (field 1 40 (le_bytes 8 a ++ le_bytes 8 b ++ le_bytes 8 c ++ le_bytes 8 d ++ le_bytes 8 e ++
    le_bytes 1 (Z.b2z dyn + 2 * bits) ++ rest ++ tail)) = dyn) as ->.
  { rewrite !field_skip by (rewrite ?length_le_bytes; lia). rewrite !length_le_bytes. simpl Nat.sub.
    rewrite field_here, Z.mod_small by (simpl; lia). rewrite Z.odd_add_mul_2. destruct dyn; reflexivity. }
  f_equal; field_at.
Qed.

Lemma decode_segments_bytes l : forall fuel, Forall laid_ok l -> (length l < fuel)%nat ->
  decode_segments fuel (concat (map load_info_bytes l)) = map lo_info l.
Proof.
  induction l as [|x l IH]; intros [|fuel] F Hf; try (simpl in Hf; lia); [reflexivity|].
  inversion F as [|? ? Hx F']. subst. cbn [map concat decode_segments].
  pose proof (length_load_info_bytes x Hx) as Hn. rewrite length_app, Hn.
  destruct (Nat.ltb_spec (104 + length (concat (map load_info_bytes l))) 41); [lia|].
  rewrite decode_load_info_bytes by exact Hx. f_equal. unfold LOAD_INFO_SIZE.
  rewrite drop_app_length' by (symmetry; exact Hn). apply IH; [exact F'|simpl in Hf; lia].
Qed.

Lemma decode_proc_info_bytes size l :
  Forall laid_ok l -> 8 + 104 * Z.of_nat (length l) < 2 ^ 32 ->
  decode_proc_info (proc_info_bytes size (Z.of_nat (length l)) l) =
    Ok (mk_proc_info (Z.of_nat (length l)) (map lo_info l)).
Proof.
  intros F Hn. unfold decode_proc_info, proc_info_bytes.
  assert (E : length (concat (map load_info_bytes l)) = (104 * length l)%nat).
  { clear Hn. induction F as [|x l Hx F IH]; [reflexivity|]. cbn [map concat].
    rewrite length_app, IH, (length_load_info_bytes x Hx). simpl length. lia. }
  rewrite !length_app, !length_le_bytes, E. destruct (Nat.ltb_spec (4 + (4 + 104 * length l)) 8); [lia|].
  f_equal. f_equal.
  - rewrite field_skip by (rewrite length_le_bytes; lia). rewrite length_le_bytes. simpl Nat.sub.
    rewrite field_here, Z.mod_small by (simpl; lia). reflexivity.
  - rewrite app_assoc, drop_app_length' by (rewrite length_app, !length_le_bytes; reflexivity).
    apply decode_segments_bytes; [exact F|lia].
Qed.

(** ** Handles and backtraces *)

Section handles.
Context `{LC : Libc}.

(** One step of a computation on the heap. *)
Lemma malloc_none {B} o (g : Z -> U B) s : malloc_at s = None -> (malloc o ≫= g) s = g 0 s.
Proof. intros E. unfold mbind, U_bind, malloc. rewrite E. reflexivity. Qed.

Lemma malloc_some {B} o (g : Z -> U B) s a :
  malloc_at s = Some a -> (malloc o ≫= g) s = g a (mk_u (<[a := o a]> (heap s)) (streams s)).
Proof. intros E. unfold mbind, U_bind, malloc. rewrite E. reflexivity. Qed.

Lemma access_some {B} a o (g : object -> U B) s : heap s !! a = Some o -> (access a ≫= g) s = g o s.
Proof. intros E. unfold mbind, U_bind, access. rewrite E. reflexivity. Qed.

Lemma assign_top {B} a o o' (g : unit -> U B) h st :
  (assign a o ≫= g) (mk_u (<[a := o']> h) st) = g tt (mk_u (<[a := o]> h) st).
Proof.
  unfold mbind, U_bind, assign. cbn [heap streams]. rewrite lookup_insert_eq, insert_insert_eq. reflexivity.
Qed.

Lemma free_top a o h st : a <> 0 -> h !! a = None -> free a (mk_u (<[a := o]> h) st) = Ok (tt, mk_u h st).
Proof.
  intros Ha Hn. unfold free. destruct (Z.eqb_spec a 0); [contradiction|]. cbn [heap streams].
  rewrite lookup_insert_eq, delete_insert_eq, delete_id by exact Hn. reflexivity.
Qed.

Lemma close_top fd h st : fclose fd (mk_u h (fd :: st)) = Ok (tt, mk_u h st).
Proof. unfold fclose. cbn [heap streams close_stream]. rewrite Z.eqb_refl. reflexivity. Qed.

(** C39: Opening and closing: a handle gives back its stream and its block. When the
    ioctl fails the stream stays open, and with it the file in the kernel. *)
Theorem handle_roundtrip pinfo s :
  let fd := fopen_at s in
  let s1 := mk_u (heap s) (fd :: streams s) in
  let ret := ioctl_at s1 fd PROC_INFO_REQUEST pinfo in
  fd <> 0 ->
  if ret <? 0 then kunwind_init_proc_info pinfo s = Ok (ret, None, s1)
  else match malloc_at s1 with
       | None => kunwind_init_proc_info pinfo s = Ok (- ENOMEM, Some 0, s)
       | Some h => exists s2, kunwind_init_proc_info pinfo s = Ok (ret, Some h, s2) /\
                     kunwind_close h s2 = Ok (tt, s)
       end.
Proof.
  intros fd s1 ret Hfd. unfold kunwind_init_proc_info. apply Z.eqb_neq in Hfd as Hf.
  rewrite (U_bind_at _ _ s fd s1) by (unfold fopen; fold fd; rewrite Hf; reflexivity).
  rewrite Hf, (U_bind_at _ _ s1 ret s1) by reflexivity. destruct (ret <? 0); [reflexivity|]. unfold calloc.
  assert (Es : mk_u (heap s) (streams s) = s) by (destruct s; reflexivity).
  destruct (malloc_at s1) as [h|] eqn:Em.
  - destruct (malloc_fresh s1 h Em) as [Hh Hn]. rewrite (malloc_some _ _ s1 h Em).
    cbn [heap streams s1]. apply Z.eqb_neq in Hh as Hz. rewrite Hz, assign_top. eexists. split; [reflexivity|].
    unfold kunwind_close. rewrite Hz, (access_some h (OHandle fd)) by apply lookup_insert_eq.
    rewrite (U_bind_at _ _ _ tt _ (close_top fd _ _)), free_top, Es by assumption. reflexivity.
  - rewrite (malloc_none _ _ s1 Em). cbn [Z.eqb]. unfold s1.
    rewrite (U_bind_at _ _ _ tt _ (close_top fd _ _)), Es. reflexivity.
Qed.

(** A backtrace is refused or has its maximum, no entries yet and a zeroed array
    of that length, and freeing it gives back both blocks. *)
Theorem backtrace_new_free max s :
  - 2 ^ 31 <= max < 2 ^ 31 ->
  exists bt s', kunwind_backtrace_new max s = Ok (bt, s') /\
    kunwind_backtrace_free bt s' = Ok (tt, s) /\
    (bt = 0 /\ s' = s \/
     exists entries, 0 < max /\ heap s' !! bt = Some (OBacktrace max 0 entries) /\
       heap s' !! entries = Some (OEntries (replicate (Z.to_nat max) 0))).
Proof.
  intros Hmax. assert (Null : kunwind_backtrace_free 0 s = Ok (tt, s)) by reflexivity.
  assert (Es : mk_u (heap s) (streams s) = s) by (destruct s; reflexivity).
  unfold kunwind_backtrace_new, calloc. destruct (Z.eqb_spec max 0); [exists 0, s; auto|].
  destruct (malloc_at s) as [bt|] eqn:Eb; [|rewrite (malloc_none _ _ s Eb); exists 0, s; auto].
  destruct (malloc_fresh s bt Eb) as [Hb Hn]. rewrite (malloc_some _ _ s bt Eb).
  apply Z.eqb_neq in Hb as Hbz. rewrite Hbz. set (s1 := mk_u (<[bt := OBacktrace 0 0 0]> (heap s)) (streams s)).
  assert (Fail : (_ ← free bt; mret 0) s1 = Ok (0, s))
    by (rewrite (U_bind_at _ _ s1 tt _ (free_top bt _ _ _ Hb Hn)), Es; reflexivity).
  destruct (Z.ltb_spec max 0); [exists 0, s; auto|].
  destruct (malloc_at s1) as [en|] eqn:Ee; [|rewrite (malloc_none _ _ s1 Ee); exists 0, s; auto].
  destruct (malloc_fresh s1 en Ee) as [He Hm]. cbn [heap s1] in Hm. apply lookup_insert_None in Hm as [Hm Hne].
  rewrite (malloc_some _ _ s1 en Ee). apply Z.eqb_neq in He as Hez. rewrite Hez. cbn [heap streams s1].
  rewrite (insert_insert_ne _ en bt), assign_top by congruence. unfold u32. rewrite Z.mod_small by lia.
  eexists bt, _. split; [reflexivity|]. split.
  - unfold kunwind_backtrace_free. rewrite Hbz.
    rewrite (U_bind_at _ _ _ tt (mk_u (<[bt := OBacktrace max 0 en]> (heap s)) (streams s)));
      [rewrite free_top, Es by assumption; reflexivity|].
    rewrite (access_some bt (OBacktrace max 0 en)) by apply lookup_insert_eq.
    rewrite (insert_insert_ne _ bt en) by congruence. apply free_top; [exact He|].
    rewrite lookup_insert_ne by congruence. exact Hm.
  - right. exists en. cbn [heap]. rewrite lookup_insert_eq, lookup_insert_ne, lookup_insert_eq by congruence.
    split_and!; [lia|reflexivity|reflexivity].
Qed.
End handles.

(** ** A program with two objects *)

Fixpoint demo_iterate (cb : dl_phdr_info -> extract_data -> U (Z * extract_data)) (objs : list dl_phdr_info)
    (data : extract_data) : U (Z * extract_data) :=
  match objs with
  | [] => mret (0, data)
  | info :: objs => '(r, data) ← cb info data; if r =? 0 then demo_iterate cb objs data else mret (r, data)
  end.

(** A C library that finds memory for everything, in blocks that held ones. *)
#[local] Instance demo_libc : Libc.
Proof.
  refine {|
    malloc_at := fun s => Some (fresh ({[0]} ∪ dom (heap s) : gset Z));
    stale_info := fun _ => mk_load_info 1 1 1 1 1 true;
    fopen_at := fun _ => 3;
    errno_at := fun _ => 0;
    ioctl_at := fun _ _ _ _ => 0;
    dl_iterate_phdr := demo_iterate
  |}.
  - intros s a [= <-]. pose proof (is_fresh ({[0]} ∪ dom (heap s) : gset Z)) as N.
    rewrite not_elem_of_union, not_elem_of_singleton, not_elem_of_dom in N. exact N.
  - reflexivity.
  - reflexivity.
Defined.

Definition demo_objects : list dl_phdr_info := [mk_dl 0 demo_phdrs; mk_dl 0x7F0000 demo_phdrs].
Definition demo_ustate : ustate := mk_u ∅ [].

Lemma demo_headers : Forall has_header demo_objects.
Proof. repeat (apply Forall_cons; split; [vm_compute; eauto|]). apply Forall_nil_2. Qed.

Lemma demo_well_headed : Forall well_headed demo_objects.
Proof. repeat (apply Forall_cons; split; [split; vm_compute; [reflexivity|lia]|]). apply Forall_nil_2. Qed.

Lemma find_proc_info_describes_witness :
  exists p nodes, heap demo_ustate !! p = None /\ p <> 0 /\
    Forall2 (fun info x => describes info (snd x) /\ left_over (fst x) (snd x)) demo_objects nodes /\
    find_proc_info demo_objects demo_ustate =
      Ok (p, mk_u (<[p := OProcInfo 216 2 (map snd nodes)]> ∅) []).
Proof.
  apply (find_proc_info_describes demo_objects demo_ustate).
  - discriminate.
  - exact demo_well_headed.
  - intros s. discriminate.
  - vm_compute. reflexivity.
Defined.

Lemma find_proc_info_gives_up_witness :
  find_proc_info (demo_objects ++ mk_dl 0x7E0000 [] :: []) demo_ustate = Ok (0, demo_ustate).
Proof.
  apply (find_proc_info_gives_up demo_objects (mk_dl 0x7E0000 []) [] demo_ustate).
  - exact demo_headers.
  - intros [ph E]. discriminate E.
  - intros s. discriminate.
  - reflexivity.
Defined.

Lemma scans_agree_witness :
  find_phdrs demo_phdrs None false 0 = (List.find is_eh demo_phdrs, true) /\
  exists a, scan_phdrs (K := process_kernel) 2 (demo_page_vmap + 64) None false = Ok (a, true) /\
    match a with
    | Some a => exists i ph, demo_phdrs !! i = Some ph /\ List.find is_eh demo_phdrs = Some ph /\
                  a = demo_page_vmap + 64 + 56 * Z.of_nat i
    | None => List.find is_eh demo_phdrs = None
    end.
Proof.
  apply (scans_agree (K := process_kernel) (demo_page_vmap + 64) demo_phdrs).
  - apply (bytes_atb_true (K := process_kernel)). vm_compute. reflexivity.
  - vm_compute. discriminate.
  - apply Forall_cons; split; [|apply Forall_cons; split; [|apply Forall_nil_2]];
      split_and!; vm_compute; first [reflexivity|discriminate].
  - vm_compute. lia.
  - vm_compute. lia.
Defined.

Lemma handle_roundtrip_witness :
  exists h s2, kunwind_init_proc_info 0 demo_ustate = Ok (0, Some h, s2) /\
    kunwind_close h s2 = Ok (tt, demo_ustate).
Proof. refine (ex_intro _ _ (handle_roundtrip (LC := demo_libc) 0 demo_ustate _)). vm_compute. discriminate. Defined.

Lemma backtrace_new_free_witness :
  exists bt s', kunwind_backtrace_new 16 demo_ustate = Ok (bt, s') /\
    kunwind_backtrace_free bt s' = Ok (tt, demo_ustate) /\
    (bt = 0 /\ s' = demo_ustate \/
     exists entries, 0 < 16 /\ heap s' !! bt = Some (OBacktrace 16 0 entries) /\
       heap s' !! entries = Some (OEntries (replicate (Z.to_nat 16) 0))).
Proof. apply (backtrace_new_free 16 demo_ustate). lia. Defined.
