(* ===== verification/SessionSpec.v ===== *)
(** * A session, from the open to the backtrace

    The composition of the driver: a process opens the file, describes its objects
    and asks for backtraces (src/src/kunwind-debug.c, src/src/modules.c). What the
    load makes of objects that are well formed, and what the backtraces report
    after it. *)
From S2P Require Import Prelude Machine Regs Rules KModule EhFrameHdr EhFrameHdrSpec HashTable Cache Step StepSpec.
From S2P Require Import StackSpec Modules DemoProcess ModulesSpec LoaderSpec ProcFile ProcFileSpec ReportSpec.
From S2P Require Import IoctlSpec HistorySpec UserLib UserLibSpec.

(** ** Objects *)

(** An object of a process: its description, the area of its header, where that
    header says .eh_frame is, and what the two sections hold. *)
Record elf_object : Type := mk_object {
  o_linfo : load_info; o_vma : vm_area; o_rel : Z; o_entries : list entry; o_bodies : list (list Z)
}.

Section load.
Context `{K : Kernel} `{MM : Mm} `{H : Hash} `{DR : Driver}.
Variable walk_fuel : nat.

Definition module_at (o : elf_object) (pa n base : Z) (ps : list Z) (addr : Z) : kunwind_module :=
  ready_module (o_linfo o) (o_vma o) pa n base (o_rel o) ps (o_entries o) (o_bodies o) addr.

(** The module of an object, somewhere. *)
Definition module_of (o : elf_object) (m : kunwind_module) : Prop := exists pa n base ps addr,
  m = module_at o pa n base ps addr /\ object_mapped (o_linfo o) (o_vma o) base (o_rel o) (o_entries o) (o_bodies o) walk_fuel /\
  hdr_loaded m (o_rel o) (o_entries o).

(** The area of the object is found and can be pinned; wherever and whenever the
    pages are mapped, the mapping shows the two sections, and the process sees the
    same header. *)
Record object_ok (o : elf_object) : Prop := {
  ok_vma : find_vma (eh_frame_hdr_ubuf (o_linfo o)) = Some (o_vma o);
  ok_pinned : forall t, 0 <= fst (gup_at t (vm_start (o_vma o)) (vma_pages (o_vma o)));
  ok_mapped : forall t t' n ps, gup_at t (vm_start (o_vma o)) (vma_pages (o_vma o)) = (n, ps) ->
    let base := vmap_at t' ps in
    object_mapped (o_linfo o) (o_vma o) base (o_rel o) (o_entries o) (o_bodies o) walk_fuel /\
    same_word (eh_frame_hdr_ubuf (o_linfo o)) (base + (eh_frame_hdr_ubuf (o_linfo o) - vm_start (o_vma o))) = Ok (Some true) /\
    (forall e, e ∈ o_entries o -> start_of (module_at o 0 n base ps 0) e <> 0) /\
    (forall i j ei ej, o_entries o !! i = Some ei -> o_entries o !! j = Some ej -> (i <= j)%nat ->
       start_of (module_at o 0 n base ps 0) ei <= start_of (module_at o 0 n base ps 0) ej);
  ok_entries : Forall entry_ok (o_entries o)
}.

(** There is always memory. *)
Definition roomy : Prop := forall s size, kmalloc_at s size <> None.

Lemma roomy_at s size : roomy -> exists a, kmalloc_at s size = Some a.
Proof. intros M. destruct (kmalloc_at s size) as [a|] eqn:E; [eauto|destruct (M s size E)]. Qed.

Lemma init_object o s (m : kunwind_module) :
  object_ok o -> roomy ->
  exists m' s' h, init_kunwind_stp_module walk_fuel (o_linfo o) m false s = Done (0, m') s' /\
    held s' = h ++ held s /\ module_of o m'.
Proof.
  intros [Ev Hn Hm He] M. destruct (roomy_at s (u64 (8 * vma_pages (o_vma o))) M) as [pa Ek].
  specialize (Hn (S (clock s))). destruct (gup_at (S (clock s)) (vm_start (o_vma o)) (vma_pages (o_vma o))) as [n ps] eqn:Eg.
  destruct (Hm _ (S (S (clock s))) n ps Eg) as (O & Es & Hs & Ho).
  destruct (init_module_at (o_linfo o) (o_vma o) pa n _ (o_rel o) ps (o_entries o) (o_bodies o) walk_fuel O s m
    Ev Ek Eg Hn eq_refl Es He Hs Ho) as [E L].
  eexists _, _, (Mapping _ :: map Page ps ++ [Block pa]). split; [exact E|]. split.
  - cbn [held]. rewrite <- app_comm_cons, <- app_assoc. reflexivity.
  - eexists _, _, _, _, _. split; [reflexivity|]. split; [exact O|exact L].
Qed.

Lemma init_objects objs : forall (mods : modules) s,
  Forall object_ok objs -> roomy -> mods_compat mods = 0 ->
  exists l s' h, init_segments walk_fuel (length objs) (map o_linfo objs) mods s =
      Done (0, mk_mods (stp_modules mods ++ l) (mods_cache mods) (mods_compat mods)) s' /\
    held s' = h ++ held s /\ Forall2 module_of objs l.
Proof.
  induction objs as [|o objs IH]; intros mods s F M Hc.
  { exists [], s, []. cbn [length map init_segments]. rewrite app_nil_r. destruct mods. auto. }
  inversion F as [|? ? Ho F']. subst. cbn [length map init_segments].
  destruct (roomy_at s KUNWIND_MODULE_SIZE M) as [a Ea].
  unfold mbind at 1, L_bind at 1, kmalloc. rewrite Ea. rewrite Hc. change (negb (0 =? 0)) with false.
  destruct (init_object o (mk_ld (Block a :: held s) (S (clock s))) (fresh_module a) Ho M) as (m & s1 & h1 & E1 & H1 & Hm).
  unfold mbind at 1, L_bind at 1. rewrite E1. cbn [Z.eqb negb].
  destruct (IH (add_tail mods m) s1 F' M Hc) as (l & s2 & h2 & E2 & H2 & Hl).
  exists (m :: l), s2, (h2 ++ h1 ++ [Block a]). split; [|split].
  - rewrite E2. cbn [add_tail stp_modules mods_cache mods_compat]. rewrite <- app_assoc, Hc. reflexivity.
  - rewrite H2, H1. cbn [held]. rewrite <- !app_assoc. reflexivity.
  - constructor; assumption.
Qed.

(** ** The load *)

(** The process has laid out a description of the objects at [upinfo]. *)
Record told (upinfo : Z) (laid : list laid_out) : Prop := {
  td_null : upinfo <> 0;
  td_laid : Forall laid_ok laid;
  td_size : 8 + 104 * Z.of_nat (length laid) < 2 ^ 32;
  td_first : _stp_read_address 4 4 upinfo USER_DS = Some (8 + 104 * Z.of_nat (length laid));
  td_bytes : copy_from_user upinfo (8 + 104 * Z.of_nat (length laid)) =
    Some (proc_info_bytes (8 + 104 * Z.of_nat (length laid)) (Z.of_nat (length laid)) laid)
}.

Lemma proc_info_ioctl_at f upinfo laid objs w a (mods : modules) :
  files w !! f = Some a -> a <> 0 -> procs w !! a = Some mods -> mods_compat mods = 0 ->
  told upinfo laid -> map lo_info laid = map o_linfo objs -> Forall object_ok objs -> roomy ->
  exists l w', kunwind_proc_info_ioctl walk_fuel f upinfo w = Returns 0 w' /\ Forall2 module_of objs l /\
    procs w' = <[a := mk_mods (stp_modules mods ++ l) (mods_cache mods) (mods_compat mods)]> (procs w) /\
    kunw_map w' = kunw_map w /\ files w' = files w /\ uwrites w' = uwrites w.
Proof.
  intros Hf Ha Hm Hc [Hu F Hsz E4 Eb] Hl Ho M.
  assert (Hlen : length laid = length objs) by (rewrite <- (length_map lo_info), Hl, length_map; reflexivity).
  unfold kunwind_proc_info_ioctl. apply Z.eqb_neq in Hu. rewrite Hu.
  rewrite (P_bind_at _ _ w a w) by (apply private_at, Hf). rewrite E4.
  destruct (roomy_at (w_ld w) (8 + 104 * Z.of_nat (length laid)) M) as [pinfo Ep].
  set (ld1 := mk_ld (Block pinfo :: held (w_ld w)) (S (clock (w_ld w)))).
  set (w1 := mk_world ld1 (kunw_map w) (procs w) (files w) (uwrites w)).
  rewrite (P_bind_at _ _ w (Some pinfo) w1) by (unfold by_loader, kmalloc; rewrite Ep; reflexivity).
  rewrite Eb.
  rewrite (P_bind_at _ _ w1 (mk_proc_info (Z.of_nat (length laid)) (map lo_info laid)) w1)
    by (unfold by_memory; rewrite decode_proc_info_bytes by assumption; reflexivity).
  rewrite (P_bind_at _ _ w1 mods w1)
    by (unfold read_mods; destruct (Z.eqb_spec a 0); [contradiction|]; cbn [procs w1]; rewrite Hm; reflexivity).
  destruct (init_objects objs mods ld1 Ho M Hc) as (l & s' & h & E & Eh & Fl).
  set (m' := mk_mods (stp_modules mods ++ l) (mods_cache mods) (mods_compat mods)) in *.
  set (w2 := mk_world s' (kunw_map w) (procs w) (files w) (uwrites w)).
  erewrite (P_bind_at _ _ w1 (0, m') w2).
  2: { unfold by_loader, init_modules_from_proc_info. cbn [nr_load_segments load_segments].
       rewrite Nat2Z.id, Hl, Hlen. cbn [w_ld w1]. rewrite E. reflexivity. }
  cbv beta iota. rewrite (P_bind_at _ _ w2 tt (with_procs w2 (<[a := m']> (procs w)))) by reflexivity.
  pose proof (kmalloc_fresh _ _ _ Ep) as [Hp _].
  unfold kfree. destruct (Z.eqb_spec pinfo 0); [contradiction|].
  eexists l, _. split.
  { unfold mbind, P_bind, by_loader, release. cbn [w_ld w2 with_procs].
    rewrite decide_True by (rewrite Eh; apply elem_of_app; right; left). reflexivity. }
  split; [exact Fl|]. cbn [procs kunw_map files uwrites w2 with_procs]. auto.
Qed.

(** ** The load from the address space *)

(** An object as it is mapped: its program headers hold at most one for
    .eh_frame_hdr; [o] is what there is to load. *)
Definition mapped_object (info : phdr_info) (o : option elf_object) : Prop := exists l,
  bytes_at (pi_phdr info) (phdr_table l) /\ Forall phdr_ok l /\ pi_phnum info = Z.of_nat (length l) /\
  pi_phdr info + 56 * Z.of_nat (length l) <= ptr_limit /\ (length (List.filter is_eh l) <= 1)%nat /\
  match List.find is_eh l, o with
  | Some ph, Some o => o_linfo o = object_linfo info ph l /\ object_ok o
  | None, None => True
  | _, _ => False
  end.

(** The address space of the process: the areas in order, the page at the start of
    each, and where such a page is mapped. *)
Definition address_space (objs : list elf_object) : Prop := exists vmas page_of base_of contents slots,
  mm_mmap = Some vmas /\
  (forall t start, gup_at t start 1 = match page_of start with Some p => (1, [p]) | None => (- EFAULT, []) end) /\
  (forall t p, vmap_at t [p] = base_of p) /\
  (forall p, base_of p <> 0 -> bytes_at (base_of p) (contents p) /\ (64 <= length (contents p))%nat) /\
  Forall2 mapped_object (objects page_of base_of contents vmas true) slots /\ objs = omap id slots.

Definition more_modules (mods : modules) (l : list kunwind_module) : modules :=
  mk_mods (stp_modules mods ++ l) (mods_cache mods) (mods_compat mods).

Lemma more_modules_app mods l l' : more_modules (more_modules mods l) l' = more_modules mods (l ++ l').
Proof. unfold more_modules. cbn [stp_modules mods_cache mods_compat]. rewrite app_assoc. reflexivity. Qed.

Lemma more_modules_inj mods l l' : more_modules mods l = more_modules mods l' -> l = l'.
Proof. intros E. apply (f_equal stp_modules) in E. cbn [more_modules stp_modules] in E. apply app_inv_head in E. exact E. Qed.

Lemma more_modules_nil mods : more_modules mods [] = mods.
Proof. unfold more_modules. rewrite app_nil_r. destruct mods. reflexivity. Qed.

(** What [add_module] does to the modules of a 64-bit process. *)
Definition adds (info : phdr_info) (mods mods' : modules) (h : list resource) : Prop := forall o,
  mapped_object info o -> exists l, mods' = more_modules mods l /\ Forall2 module_of (option_list o) l.

Lemma add_mapped info o mods s : mapped_object info o -> roomy -> mods_compat mods = 0 ->
  exists l s' h, add_module walk_fuel info mods s = Done (0, more_modules mods l) s' /\ held s' ≡ₚ h ++ held s /\
    Forall2 module_of (option_list o) l.
Proof.
  intros (l & B & F & Hn & Hl & Hone & Ho) M Hc. rewrite (add_module_at walk_fuel info mods l s B F Hn Hl Hone).
  destruct (List.find is_eh l) as [ph|], o as [o|]; try contradiction.
  - destruct Ho as [Ei Ho]. destruct (roomy_at s KUNWIND_MODULE_SIZE M) as [a Ea].
    unfold mbind at 1, L_bind at 1, kmalloc. rewrite Ea, Hc, <- Ei. change (negb (0 =? 0)) with false.
    destruct (init_object o (mk_ld (Block a :: held s) (S (clock s))) (fresh_module a) Ho M) as (m & s1 & h & E & Hh & Hm).
    rewrite (L_bind_at _ _ _ _ _ E). exists [m], s1, (h ++ [Block a]). split; [unfold add_tail, more_modules; rewrite Hc; reflexivity|].
    split; [rewrite Hh, <- app_assoc; reflexivity|constructor; [exact Hm|constructor]].
  - exists [], s, []. rewrite more_modules_nil. split_and!; [reflexivity|reflexivity|constructor].
Qed.

Lemma add_succeeds info : (exists o, mapped_object info o) -> roomy ->
  succeeds (add_module walk_fuel) (fun mods : modules => mods_compat mods = 0) adds info.
Proof.
  intros [o Ho] M mods s Hc. destruct (add_mapped info o mods s Ho M Hc) as (l & s' & h & E & P & _).
  exists (more_modules mods l), s', h. split; [exact E|]. split; [exact P|]. split; [|exact Hc].
  intros o' Ho'. destruct (add_mapped info o' mods s Ho' M Hc) as (l' & s2 & h' & E' & _ & F'). rewrite E in E'.
  injection E' as E1 _. rewrite (app_inv_head _ _ _ E1). eauto.
Qed.

Lemma chain_adds infos mods mods' h : chain adds infos mods mods' h -> forall slots,
  Forall2 mapped_object infos slots -> exists l, mods' = more_modules mods l /\ Forall2 module_of (omap id slots) l.
Proof.
  induction 1 as [mods|info infos mods mods1 mods' h h' HR _ IH]; intros slots F; inversion F as [|? o ? slots' Ho F']; subst.
  - exists []. rewrite more_modules_nil. split; [reflexivity|constructor].
  - destruct (HR o Ho) as (l1 & -> & F1), (IH slots' F') as (l2 & -> & F2).
    exists (l1 ++ l2). rewrite more_modules_app. split; [reflexivity|]. destruct o as [o|]; simpl in *.
    + inversion F1 as [|? m ? ? Hm Fn]; subst. inversion Fn; subst. constructor; assumption.
    + inversion F1; subst. exact F2.
Qed.

Lemma task_objects objs (mods : modules) s : address_space objs -> roomy -> mods_compat mods = 0 ->
  exists l s' h, init_modules_from_task walk_fuel mods s = Done (0, more_modules mods l) s' /\
    held s' ≡ₚ h ++ held s /\ Forall2 module_of objs l.
Proof.
  intros (vmas & page_of & base_of & contents & slots & Em & Hg & Hv & Hp & F & ->) M Hc.
  destruct (iterate_phdr_chain page_of base_of contents Hg Hv Hp (add_module walk_fuel) (fun mods => mods_compat mods = 0) adds
    vmas mods s Em Hc) as (mods' & s' & h & E & P & C & _).
  { clear -F M. induction F as [|info o infos slots Ho _ IH]; constructor; [apply add_succeeds; eauto|exact IH]. }
  destruct (chain_adds _ _ _ _ C slots F) as (l & -> & Fl). exists l, s', h. auto.
Qed.

Lemma init_ioctl_at f objs w a (mods : modules) :
  files w !! f = Some a -> a <> 0 -> procs w !! a = Some mods -> mods_compat mods = 0 -> address_space objs -> roomy ->
  exists l w', kunwind_init_ioctl walk_fuel f w = Returns 0 w' /\ Forall2 module_of objs l /\
    procs w' = <[a := more_modules mods l]> (procs w) /\ kunw_map w' = kunw_map w /\ files w' = files w /\ uwrites w' = uwrites w.
Proof.
  intros Hf Ha Hm Hc A M. destruct (task_objects objs mods (w_ld w) A M Hc) as (l & s' & h & E & _ & Fl).
  unfold kunwind_init_ioctl. rewrite (P_bind_at _ _ w a w) by (apply private_at, Hf).
  rewrite (P_bind_at _ _ w mods w) by (unfold read_mods; destruct (Z.eqb_spec a 0); [contradiction|]; rewrite Hm; reflexivity).
  rewrite (P_bind_at _ _ w (0, more_modules mods l) (set_ld w s')) by (unfold by_loader; rewrite E; reflexivity).
  eexists l, _. split; [reflexivity|]. auto.
Qed.

(** The two ways to announce the objects to the driver. *)
Inductive announced (upinfo : Z) (objs : list elf_object) : Prop :=
  | announced_described laid : told upinfo laid -> map lo_info laid = map o_linfo objs -> Forall object_ok objs ->
      announced upinfo objs
  | announced_mapped : upinfo = 0 -> address_space objs -> announced upinfo objs.

Lemma load_ioctl_at f upinfo objs w a (mods : modules) :
  files w !! f = Some a -> a <> 0 -> procs w !! a = Some mods -> mods_compat mods = 0 -> announced upinfo objs -> roomy ->
  exists l w', kunwind_proc_info_ioctl walk_fuel f upinfo w = Returns 0 w' /\ Forall2 module_of objs l /\
    procs w' = <[a := more_modules mods l]> (procs w) /\ kunw_map w' = kunw_map w /\ files w' = files w /\ uwrites w' = uwrites w.
Proof.
  intros Hf Ha Hm Hc [laid T Hl Ho| -> A] M.
  - apply (proc_info_ioctl_at f upinfo laid objs w a mods Hf Ha Hm Hc T Hl Ho M).
  - apply (init_ioctl_at f objs w a mods Hf Ha Hm Hc A M).
Qed.
End load.

(** ** The library and the driver *)

Section library.
Context `{K : Kernel} `{MM : Mm} `{LC : Libc}.
Variable walk_fuel : nat.

(** The memory of the process shows the structure that the heap of the library has
    at [p]: the layout of struct proc_info, whatever the path, the padding and the
    unused bits hold. *)
Definition shows (h : gmap Z object) (p : Z) : Prop := forall size nr infos,
  h !! p = Some (OProcInfo size nr infos) -> exists laid,
    map lo_info laid = infos /\ Forall laid_ok laid /\
    _stp_read_address 4 4 p USER_DS = Some size /\ copy_from_user p size = Some (proc_info_bytes size nr laid).

Definition with_linfo (o : elf_object) (i : load_info) : elf_object := mk_object i (o_vma o) (o_rel o) (o_entries o) (o_bodies o).

(** The object [o] of the driver is the object [info] of the library, and well formed
    where it is mapped. *)
Definition same_object (info : dl_phdr_info) (o : elf_object) : Prop :=
  well_headed info /\ describes info (o_linfo o) /\ object_ok walk_fuel o.

(** The blocks [malloc] gives out do not hold an address and a size, both other than
    0, where the library leaves the members of .eh_frame as they are. Nothing
    promises that; where it fails the driver takes what they hold for the section. *)
Definition stale_unset : Prop := forall a, eh_frame_addr (stale_info a) = 0 \/ eh_frame_size (stale_info a) = 0.

(** Being well formed does not depend on the members that are left over. *)
Lemma object_ok_linfo o i :
  object_ok walk_fuel o -> eh_frame_hdr_ubuf i = eh_frame_hdr_ubuf (o_linfo o) ->
  eh_frame_hdr_size i = eh_frame_hdr_size (o_linfo o) -> dynamic i = dynamic (o_linfo o) ->
  eh_frame_addr i = 0 \/ eh_frame_size i = 0 -> object_ok walk_fuel (with_linfo o i).
Proof.
  intros [Ev Hn Hm He] Eu Es Ed Hg. destruct o as [j vma rel entries bodies], j as [aj uj sj ej fj dj], i as [ai ui si ei fi di].
  cbn in *. subst ui si di. constructor; try assumption.
  intros t t' n ps Eg. destruct (Hm t t' n ps Eg) as (O & W & R1 & R2).
  split; [destruct O; constructor; assumption|]. split; [exact W|]. split; [exact R1|exact R2].
Qed.

Lemma describes_same info i j : describes info i -> describes info j ->
  eh_frame_hdr_ubuf i = eh_frame_hdr_ubuf j /\ eh_frame_hdr_size i = eh_frame_hdr_size j /\ dynamic i = dynamic j.
Proof.
  intros [_ (p & Ep & Hu & Hs) Hd] [_ (q & Eq & Hu' & Hs') Hd']. rewrite Ep in Eq. injection Eq as <-.
  split_and!; [congruence..|]. rewrite <- Hd' in Hd. destruct (dynamic i), (dynamic j); try reflexivity;
    destruct Hd as [H1 H2]; [symmetry; apply H1|apply H2]; reflexivity.
Qed.

Lemma announced_objects infos objs nodes :
  stale_unset -> Forall2 same_object infos objs ->
  Forall2 (fun info x => describes info (snd x) /\ left_over (fst x) (snd x)) infos nodes ->
  let os := zip_with with_linfo objs (map snd nodes) in
  map o_linfo os = map snd nodes /\ Forall (object_ok walk_fuel) os.
Proof.
  intros U F. revert nodes. induction F as [|info o infos objs (_ & Hd & Ho) _ IH]; intros nodes G;
    inversion G as [|? x ? nodes' [Hx Hl] G']; subst; [split; [reflexivity|constructor]|].
  destruct (IH nodes' G') as [E Hs]. cbn [map zip_with]. split; [cbn [o_linfo with_linfo]; f_equal; exact E|].
  constructor; [|exact Hs]. destruct (describes_same _ _ _ Hx Hd) as (E1 & E2 & E3), Hl as [L1 L2].
  apply object_ok_linfo; try assumption. rewrite L1, L2. apply U.
Qed.

End library.

(** ** The steps of a session *)

Section session.
Context `{MM : Mm} `{H : Hash} `{DR : Driver}.
Variable walk_fuel : nat.

(** An open by a process that is not registered. *)
Lemma open_at f p c w :
  wf_table val_tgid tgid_bucket KUNW_MAP_SIZE (kunw_map w) -> look w p = None -> roomy ->
  exists a v w', kunwind_debug_open f p c w = Returns 0 w' /\ look w' p = Some v /\ val_mods v = a /\ a <> 0 /\
    (Block a ∉ held (w_ld w)) /\ procs w' = <[a := mk_mods [] empty_cache (Z.b2z c)]> (procs w) /\
    files w' = <[f := a]> (files w) /\ uwrites w' = uwrites w.
Proof.
  intros W Hp M. destruct (roomy_at (w_ld w) PROC_MODULES_SIZE M) as [a Ea]. destruct (kmalloc_fresh _ _ _ Ea) as [Ha Hn].
  set (w1 := with_procs (mk_world (mk_ld (Block a :: held (w_ld w)) (S (clock (w_ld w)))) (kunw_map w) (procs w)
    (files w) (uwrites w)) (<[a := mk_mods [] empty_cache (Z.b2z c)]> (procs w))).
  destruct (roomy_at (w_ld w1) KUNW_MAP_VAL_SIZE M) as [va Ev].
  exists a, (mk_val va p a). eexists. split.
  { unfold kunwind_debug_open, mbind, P_bind, get_world. fold (look w p). rewrite Hp.
    unfold by_loader at 1, kmalloc at 1. rewrite Ea.
    unfold init_proc_unwind_info. destruct (Z.eqb_spec a 0); [contradiction|].
    unfold write_mods, kunwind_process_register, mbind, P_bind, get_world. cbn [procs]. fold w1.
    change (kunwind_process_find (kunw_map w1) p) with (look w p). rewrite Hp.
    unfold by_loader, kmalloc. rewrite Ev. reflexivity. }
  cbn [val_mods procs files uwrites with_files with_map]. split_and!; auto.
  unfold look, kunwind_process_find. cbn [kunw_map with_files with_map].
  rewrite (ht_find_add _ _ KUNW_MAP_SIZE) by (exact tgid_bucket_range || exact W).
  rewrite decide_True by reflexivity. reflexivity.
Qed.

Lemma open_step ld K0 K h w f p :
  reachable walk_fuel steady ld K0 h w -> tables_kept K0 K w -> h_owner h !! f = None -> look w p = None -> roomy ->
  exists v w', handle walk_fuel (K := K) (EOpen f p false) w = Returns 0 w' /\ look w' p = Some v /\
    procs w !! val_mods v = None /\ procs w' = <[val_mods v := mk_mods [] empty_cache 0]> (procs w) /\ uwrites w' = uwrites w /\
    reachable walk_fuel steady ld K (history_after (K := K) h (EOpen f p false) 0 w') w'.
Proof.
  intros R Hk Hf Hp M. destruct (steady_reachable _ _ _ _ _ R) as (rest & I & _ & _).
  destruct (open_at f p false w (i_map _ _ _ _ I) Hp M) as (a & v & w' & E & Hv & <- & Ha & Hn & Hpr & _ & Hu).
  exists v, w'. split; [exact E|]. split; [exact Hv|]. split; [exact (proc_fresh _ _ _ w _ I Ha Hn)|]. split; [exact Hpr|]. split; [exact Hu|].
  apply (ReachStep walk_fuel steady ld K0 K h w (EOpen f p false) 0 w' R); [split; [exact Logic.I|exact Hk]|exact Hf|exact E].
Qed.

Lemma load_step ld K0 K h w f p v (mods : modules) upinfo objs regs :
  reachable walk_fuel steady ld K0 h w -> tables_kept K0 K w ->
  h_owner h !! f = Some p -> look w p = Some v -> procs w !! val_mods v = Some mods -> mods_compat mods = 0 ->
  announced (K := K) walk_fuel upinfo objs -> roomy -> regs_ok regs ->
  let e := EIoctl f KUNWIND_PROC_INFO_IOCTL upinfo regs false in
  exists l w', handle walk_fuel (K := K) e w = Returns 0 w' /\ Forall2 (module_of (K := K) walk_fuel) objs l /\
    procs w' = <[val_mods v := more_modules mods l]> (procs w) /\
    look w' p = Some v /\ uwrites w' = uwrites w /\
    reachable walk_fuel steady ld K (history_after (K := K) h e 0 w') w'.
Proof.
  intros R Hk Hf Hv Hm Hc A M Hr e. destruct (steady_reachable _ _ _ _ _ R) as (rest & I & _ & _).
  destruct (i_open _ _ _ _ I f p Hf) as (v' & Hv' & Ef). rewrite Hv in Hv'. injection Hv' as <-.
  destruct (i_mods _ _ _ _ I _ mods Hm) as (Ha & _).
  destruct (load_ioctl_at (K := K) walk_fuel f upinfo objs w (val_mods v) mods Ef Ha Hm Hc A M)
    as (l & w' & E & Fl & Hp & Hmap & Hfi & Hu).
  exists l, w'. split; [exact E|]. split_and!; try assumption; [unfold look; rewrite Hmap; exact Hv|].
  apply (ReachStep walk_fuel steady ld K0 K h w e 0 w' R); [|split; [eauto|exact Hr]|exact E].
  split; [|exact Hk]. intros a m Hfa Hma. rewrite Ef in Hfa. injection Hfa as <-. rewrite Hm in Hma. injection Hma as <-.
  unfold same_mode, opened_compat. rewrite Hc. reflexivity.
Qed.

(** A new structure without cached rules asks nothing of the memory. *)
Lemma tables_kept_new K K' w w' a l n :
  tables_kept K K' w -> procs w' = <[a := mk_mods l empty_cache n]> (procs w) -> tables_kept K K' w'.
Proof.
  intros Hk E b mods pc x Hb Hc R. rewrite E in Hb. destruct (decide (a = b)) as [<-|Hne].
  - rewrite lookup_insert_eq in Hb. injection Hb as <-. destruct (empty_not_cached l n pc Hc).
  - rewrite lookup_insert_ne in Hb by exact Hne. eapply Hk; eassumption.
Qed.

(** C1: A session of a 64-bit process on a machine where others may already use the
    driver and where kernel memory suffices: it opens the file and announces its
    objects, which are well formed, in a description of its own or as they are
    mapped; both succeed, and the driver has their modules in order.
    Then, whatever the process has done with its memory, a backtrace of a stack
    that the objects describe with standard rows and the return address in column
    16 writes the number of its frames and their program counters where the process
    asked for them, when that can be written. *)
Theorem session_backtrace ld K0 h w K f p upinfo objs regs0 :
  reachable walk_fuel steady ld K0 h w -> tables_kept K0 K w ->
  h_owner h !! f = None -> look w p = None -> roomy -> regs_ok regs0 ->
  announced (K := K) walk_fuel upinfo objs ->
  exists w1 w2 l,
    handle walk_fuel (K := K) (EOpen f p false) w = Returns 0 w1 /\
    handle walk_fuel (K := K) (EIoctl f KUNWIND_PROC_INFO_IOCTL upinfo regs0 false) w1 = Returns 0 w2 /\
    Forall2 (module_of (K := K) walk_fuel) objs l /\
    (exists v, look w2 p = Some v /\ procs w2 !! val_mods v = Some (mk_mods l empty_cache 0)) /\
    forall K' uback regs max dest pcs,
      tables_kept K K' w -> regs_ok regs ->
      stack (K := K') l (fun _ => False) [] (current_frame regs) pcs ->
      _stp_read_address (K := K') 4 4 uback USER_DS = Some max -> 0 < max ->
      load (K := K') 8 (u64 (uback + 8)) = Ok dest ->
      let shown := take (Z.to_nat (Z.min max entries_limit)) pcs in
      put_ok (u64 (uback + 4)) 4 = true -> put_ok dest (8 * Z.of_nat (length shown)) = true ->
      exists w3, handle walk_fuel (K := K') (EIoctl f KUNWIND_UNWIND_IOCTL uback regs false) w2 = Returns 0 w3 /\
        uwrites w3 = uwrites w ++ [(u64 (uback + 4), le_bytes 4 (Z.of_nat (length shown)));
                                   (dest, concat (map (le_bytes 8) shown))].
Proof.
  intros R Hk Hf Hp M Hr0 A.
  destruct (open_step ld K0 K h w f p R Hk Hf Hp M) as (v & w1 & E1 & Hv1 & Hfresh & Hp1 & Hu1 & R1).
  destruct (load_step ld K K _ w1 f p v (mk_mods [] empty_cache 0) upinfo objs regs0 R1 (tables_kept_refl K w1)
    (lookup_insert_eq _ _ _) Hv1 ltac:(rewrite Hp1; apply lookup_insert_eq) eq_refl A M Hr0)
    as (l & w2 & E2 & Fl & Hp2 & Hv2 & Hu2 & R2).
  unfold more_modules in Hp2. cbn [stp_modules mods_cache mods_compat app] in Hp2. rewrite Hp1, insert_insert_eq in Hp2.
  assert (Hm2 : procs w2 !! val_mods v = Some (mk_mods l empty_cache 0)) by (rewrite Hp2; apply lookup_insert_eq).
  exists w1, w2, l. do 3 (split; [assumption|]). split; [eauto|].
  intros K' uback regs max dest pcs Hk' Hr S Hmax Hpos Hd shown Hp4 Hp8.
  assert (S' : stack (K := K') l (in_cache (mk_mods l empty_cache 0)) [] (current_frame regs) pcs).
  { revert S. apply stack_same_cached. intros pc. split; [contradiction|apply empty_not_cached]. }
  destruct (roomy_at (w_ld w2) (8 * Z.min max entries_limit) M) as [entries Ee].
  destruct (ioctl_reports_stack_at walk_fuel ld K _ w2 K' f p uback regs max entries dest pcs v (mk_mods l empty_cache 0)
    R2 (tables_kept_new K K' w w2 _ l 0 Hk' Hp2) (lookup_insert_eq _ _ _) Hv2 Hm2 eq_refl Hr S' Hmax Hpos Ee Hd Hp4 Hp8)
    as (w3 & E3 & Hu3 & _).
  exists w3. split; [exact E3|]. rewrite Hu3, Hu2, Hu1. reflexivity.
Qed.
End session.

(** ** The session of the program that calls itself

    The first to use the driver. It describes itself at 0x6000, returns from one
    call, and asks for a backtrace. *)

Definition prog_object : elf_object :=
  mk_object demo_linfo demo_vma 0xfc lib_entries
    [drop 4 lib_cie; drop 4 (lib_fde 28 (-0x1120) [0x41; 0x0e; 16; 0x86; 2; 0; 0]);
     drop 4 (lib_fde 52 (-0x10f8) [0x07; 16; 0; 0; 0; 0; 0])].
Definition prog_laid : list laid_out := [mk_laid demo_linfo 5 (repeat 0x2e 63)].
Definition telling_user : list (Z * list Z) := (0x6000, proc_info_bytes 112 1 prog_laid) :: prog_user prog_stack.

Abbreviation told_handle := (handle (MM := roomy_mm) (DR := demo_driver) 10 (K := prog_kernel telling_user)).
Abbreviation later_handle := (handle (MM := roomy_mm) (DR := demo_driver) 10 (K := prog_kernel (prog_user prog_stack2))).

Lemma prog_told : told (K := prog_kernel telling_user) 0x6000 prog_laid.
Proof.
  constructor.
  - discriminate.
  - apply Forall_cons; split; [|apply Forall_nil_2]. unfold laid_ok, is_u64. simpl. split_and!; lia || reflexivity.
  - vm_compute. reflexivity.
  - vm_compute. reflexivity.
  - vm_compute. reflexivity.
Qed.

Lemma prog_object_mapped :
  object_mapped (K := prog_kernel telling_user) demo_linfo demo_vma lib_vmap 0xfc lib_entries (o_bodies prog_object) 10.
Proof.
  constructor.
  - simpl. lia.
  - vm_compute. reflexivity.
  - left. reflexivity.
  - reflexivity.
  - apply (bytes_atb_true (K := prog_kernel telling_user)). vm_compute. reflexivity.
  - vm_compute. discriminate.
  - vm_compute. split; reflexivity.
  - simpl. lia.
  - repeat constructor.
  - split; [apply (bytes_atb_true (K := prog_kernel telling_user)); vm_compute; reflexivity|].
    split; [vm_compute; discriminate|vm_compute; reflexivity].
  - split; vm_compute; discriminate.
  - simpl. lia.
Qed.

Lemma prog_object_ok : object_ok (K := prog_kernel telling_user) (MM := roomy_mm) 10 prog_object.
Proof.
  constructor.
  - reflexivity.
  - intros t. vm_compute. discriminate.
  - intros t t' n ps E. vm_compute in E. injection E as <- <-. cbv zeta. cbn [vmap_at roomy_mm demo_mm length Nat.ltb Nat.leb].
    split; [exact prog_object_mapped|]. split; [vm_compute; reflexivity|]. split.
    + intros e He. unfold prog_object, o_entries, lib_entries in He. rewrite !elem_of_cons, elem_of_nil in He.
      destruct He as [-> | [-> | []]]; vm_compute; discriminate.
    + intros [|[|i]] [|[|j]] ei ej Ei Ej Hij; try (simpl in Ei, Ej; discriminate);
        simpl in Ei, Ej; try lia; injection Ei as <-; injection Ej as <-; vm_compute; discriminate.
  - repeat constructor; vm_compute; discriminate.
Qed.

Lemma prog_announced : announced (K := prog_kernel telling_user) (MM := roomy_mm) 10 0x6000 [prog_object].
Proof.
  apply (announced_described (K := prog_kernel telling_user) (MM := roomy_mm) 10 0x6000 [prog_object] prog_laid prog_told).
  - reflexivity.
  - apply Forall_cons; split; [exact prog_object_ok|apply Forall_nil_2].
Qed.

(** The other way: as the process is mapped. *)
Lemma prog_mapped : announced (K := prog_kernel telling_user) (MM := roomy_mm) 10 0 [prog_object].
Proof.
  apply announced_mapped; [reflexivity|].
  exists [demo_vma], (fun start => if start =? 0x400000 then Some 1 else None), (fun _ => demo_page_vmap), (fun _ => demo_page),
    [Some prog_object].
  split; [reflexivity|]. split; [intros t start; cbn [gup_at roomy_mm]; unfold demo_gup; destruct (start =? 0x400000); reflexivity|].
  split; [reflexivity|].
  split; [intros p _; split; [apply (bytes_atb_true (K := prog_kernel telling_user)); vm_compute; reflexivity|vm_compute; lia]|].
  split; [|reflexivity]. apply Forall2_cons. split; [|constructor]. exists demo_phdrs.
  split; [apply (bytes_atb_true (K := prog_kernel telling_user)); vm_compute; reflexivity|].
  split; [apply Forall_cons; split; [|apply Forall_cons; split; [|apply Forall_nil_2]];
    split_and!; vm_compute; first [reflexivity|discriminate]|].
  split; [reflexivity|]. split; [vm_compute; discriminate|]. split; [simpl; lia|].
  split; [reflexivity|exact prog_object_ok].
Qed.

(** The stack after the return, with nothing cached. *)
Lemma later_stack addr pa :
  stack (K := prog_kernel (prog_user prog_stack2)) [prog_module_at addr pa] (fun _ => False) [] prog_frame
    [0x401010; 0x40101f; 0x40105f].
Proof.
  prog_frame_step 1; [left; split; [reflexivity|right; split; [tauto|apply not_elem_of_nil]]|].
  prog_frame_step 1; [left; split; [reflexivity|left; reflexivity]|].
  apply prog_end. vm_compute. reflexivity.
Qed.

Definition session1 : world := world_after demo_boot (told_handle (EOpen 1 100 false) demo_boot).
Definition tell_event : event := EIoctl 1 KUNWIND_PROC_INFO_IOCTL 0x6000 prog_regs false.
Definition session2 : world := world_after session1 (told_handle tell_event session1).

Lemma session2_val : look (DR := demo_driver) session2 100 = Some (mk_val 2 100 1).
Proof. vm_compute. reflexivity. Qed.
Lemma session2_modules : stp_modules <$> (procs session2 !! 1) = Some [prog_module_at 4 5].
Proof. vm_compute. reflexivity. Qed.

Lemma session_backtrace_witness :
  exists w1 w2 w3,
    told_handle (EOpen 1 100 false) demo_boot = Returns 0 w1 /\ told_handle tell_event w1 = Returns 0 w2 /\
    later_handle prog_unwind w2 = Returns 0 w3 /\
    uwrites w3 = [(0x7004, le_bytes 4 3); (0x7100, le_bytes 8 0x401010 ++ le_bytes 8 0x40101f ++ le_bytes 8 0x40105f)].
Proof.
  destruct (session_backtrace (MM := roomy_mm) (DR := demo_driver) 10 (mk_ld [] 0) (prog_kernel telling_user) no_history
    demo_boot (prog_kernel telling_user) 1 100 0x6000 [prog_object] prog_regs (ReachBoot _ _ _ _)
    (tables_kept_refl _ _) eq_refl eq_refl ltac:(intros s size; discriminate) prog_regs_ok prog_announced)
    as (w1 & w2 & l & E1 & E2 & _ & (v & Hv & Hl) & F).
  exists w1, w2. assert (w1 = session1) as -> by (unfold session1; rewrite E1; reflexivity).
  assert (w2 = session2) as -> by (unfold session2, tell_event; rewrite E2; reflexivity).
  rewrite session2_val in Hv. injection Hv as <-. pose proof session2_modules as Em. cbn [val_mods] in Hl. rewrite Hl in Em.
  injection Em as ->.
  destruct (F (prog_kernel (prog_user prog_stack2)) 0x7000 prog_regs 6 0x7100 [0x401010; 0x40101f; 0x40105f])
    as (w3 & E3 & Hu).
  - intros a mods pc x Hp _ _. change (procs demo_boot) with (∅ : gmap Z modules) in Hp. rewrite lookup_empty in Hp. discriminate.
  - exact prog_regs_ok.
  - exact (later_stack 4 5).
  - vm_compute. reflexivity.
  - lia.
  - vm_compute. reflexivity.
  - reflexivity.
  - reflexivity.
  - exists w3. do 3 (split; [assumption|]). exact Hu.
Defined.

(** ** The library tells the driver about the program *)

(** A C library whose blocks are new and zero. *)
Definition heap_top (h : gmap Z object) : Z := fold_right (fun p m => Z.max (fst p) m) 0x5ffe (map_to_list h).

Lemma heap_top_above h a o : h !! a = Some o -> a <= heap_top h.
Proof.
  intros E. apply elem_of_map_to_list in E. unfold heap_top.
  induction (map_to_list h) as [|p l IH]; [inversion E|]. simpl. apply elem_of_cons in E as [<-|E]; [simpl; lia|].
  specialize (IH E). lia.
Qed.

Lemma heap_top_low h : 0x5ffe <= heap_top h.
Proof. unfold heap_top. induction (map_to_list h) as [|p l IH]; simpl; lia. Qed.

Definition zero_libc : Libc.
Proof.
  refine {|
    malloc_at := fun s => Some (heap_top (heap s) + 1);
    stale_info := fun _ => mk_load_info 0 0 0 0 0 false;
    fopen_at := fun _ => 3;
    errno_at := fun _ => 0;
    ioctl_at := fun _ _ _ _ => 0;
    dl_iterate_phdr := demo_iterate
  |}.
  - intros s a [= <-]. pose proof (heap_top_low (heap s)). split; [lia|].
    destruct (heap s !! (heap_top (heap s) + 1)) as [o|] eqn:E; [|reflexivity]. apply heap_top_above in E. lia.
  - reflexivity.
  - reflexivity.
Defined.

Definition prog_infos : list dl_phdr_info := [mk_dl 0 demo_phdrs].

Lemma prog_described : describes (mk_dl 0 demo_phdrs) (o_linfo prog_object).
Proof.
  constructor; [reflexivity| |].
  { exists (mk_phdr PT_GNU_EH_FRAME 4 0x2000 0x402000 0x402000 28 28 4). split_and!; reflexivity. }
  split; [|reflexivity]. intros _. eexists. split; [left|reflexivity].
Qed.

